(** * Moments: dedup engine, reminder scheduler and normalizer

    A shallow embedding of the server-side core of the Moments repository
    (services/dedup.ts, services/notifications.ts, services/push.ts,
    utils/normalize.ts and routes/celebrations.ts) together with the
    properties its specification states about it, and of what these rest on
    or are called from (routes/identities.ts, routes/people.ts,
    routes/safety.ts, plugins/rateLimit.ts, and the encrypting middleware of
    plugins/prisma.ts with utils/encryption.ts).

    Layout: Part I holds the embedding (one module per source file), Part II
    the theorems. *)

From Stdlib Require Import String Ascii List ZArith Lia Bool Arith DecimalString
  Sorting Permutation.
Import ListNotations.

Local Open Scope string_scope.

(* ================================================================== *)
(** * Part I. The embedding                                            *)
(* ================================================================== *)

(** ** JavaScript strings and regular expressions

    A string is the bytes of its UTF-8 encoding; [codePoints] reads the code
    points back.  A regular expression without flags works on UTF-16 code
    units; the character classes of the sources ([\s], ['@'], ['.'] and
    their complements) treat both halves of a surrogate pair alike, and their
    quantifiers do not count, so matching over code points gives the same
    answer. *)

Module RegExp.

Local Open Scope N_scope.

(** The payload of the continuation byte at position [k] of [s]. *)
Definition cont (s : string) (k : nat) : N :=
  match String.get k s with
  | Some c => N.land (N_of_ascii c) 63
  | None => 0
  end.

Fixpoint codePoints (s : string) : list N :=
  match s with
  | EmptyString => []
  | String c rest =>
      let b := N_of_ascii c in
      if b <? 128 then b :: codePoints rest
      else if b <? 192 then codePoints rest
      else if b <? 224 then ((b - 192) * 64 + cont rest 0) :: codePoints rest
      else if b <? 240 then
        ((b - 224) * 4096 + cont rest 0 * 64 + cont rest 1) :: codePoints rest
      else
        ((b - 240) * 262144 + cont rest 0 * 4096 + cont rest 1 * 64 + cont rest 2)
          :: codePoints rest
  end.

(** The class [\s]: ECMA-262's WhiteSpace and LineTerminator. *)
Definition isWhiteSpace (c : N) : bool :=
  (c =? 9) || (c =? 10) || (c =? 11) || (c =? 12) || (c =? 13) || (c =? 32) ||
  (c =? 160) || (c =? 5760) || ((8192 <=? c) && (c <=? 8202)) ||
  (c =? 8232) || (c =? 8233) || (c =? 8239) || (c =? 8287) || (c =? 12288) ||
  (c =? 65279).

(** Patterns: a class of characters, sequence, alternative, repetition. *)
Inductive Pattern :=
  | Void
  | Empty
  | Class (f : N -> bool)
  | Seq (a b : Pattern)
  | Alt (a b : Pattern)
  | Star (a : Pattern).

(** [a+] *)
Definition Plus (a : Pattern) : Pattern := Seq a (Star a).

Fixpoint nullable (r : Pattern) : bool :=
  match r with
  | Void => false
  | Empty => true
  | Class _ => false
  | Seq a b => nullable a && nullable b
  | Alt a b => nullable a || nullable b
  | Star _ => true
  end.

(** What is left of [r] to match once [c] is read. *)
Fixpoint deriv (c : N) (r : Pattern) : Pattern :=
  match r with
  | Void => Void
  | Empty => Void
  | Class f => if f c then Empty else Void
  | Seq a b =>
      if nullable a then Alt (Seq (deriv c a) b) (deriv c b)
      else Seq (deriv c a) b
  | Alt a b => Alt (deriv c a) (deriv c b)
  | Star a => Seq (deriv c a) (Star a)
  end.

(** [/^r$/.test(w)] *)
Fixpoint test (r : Pattern) (w : list N) : bool :=
  match w with
  | [] => nullable r
  | c :: rest => test (deriv c r) rest
  end.

End RegExp.

(** ** utils/normalize.ts *)

Module Normalize.

(** A JavaScript string is modelled by the bytes of its UTF-8 encoding.  The
    class [\D] (no [u] flag) matches every code unit outside ['0'..'9'];
    every byte of a multi-byte UTF-8 sequence is at least 128, so dropping
    the non-digit bytes keeps exactly the characters [\D] does not match,
    and the number of bytes kept is [digits.length]. *)
Definition isDigit (c : ascii) : bool :=
  let n := nat_of_ascii c in (48 <=? n)%nat && (n <=? 57)%nat.

(** [phone.replace(/\D/g, '')] *)
Fixpoint stripNonDigits (s : string) : string :=
  match s with
  | EmptyString => EmptyString
  | String c rest =>
      if isDigit c then String c (stripNonDigits rest) else stripNonDigits rest
  end.

(** [digits.startsWith('1')] *)
Definition startsWith (p s : string) : bool := String.prefix p s.

Definition normalizePhone (phone : string) : string :=
  let digits := stripNonDigits phone in
  if (String.length digits =? 10)%nat then "+1" ++ digits
  else if (String.length digits =? 11)%nat && startsWith "1" digits then "+" ++ digits
  else if (10 <? String.length digits)%nat then "+" ++ digits
  else "+" ++ digits.

(** [isValidPhone]: between 10 and 15 digits. *)
Definition isValidPhone (phone : string) : bool :=
  let digits := stripNonDigits phone in
  (10 <=? String.length digits)%nat && (String.length digits <=? 15)%nat.

(** [normalizeEmail]: [email.toLowerCase().trim()], with the two methods of
    [String.prototype] as the platform gives them. *)
Section Platform.
Variable toLowerCase : string -> string.
Variable trim : string -> string.

Definition normalizeEmail (email : string) : string := trim (toLowerCase email).

End Platform.

(** The class [[^\s@]]. *)
Definition plainChar (c : N) : bool :=
  negb (RegExp.isWhiteSpace c || (c =? 64)%N).

(** [/^[^\s@]+@[^\s@]+\.[^\s@]+$/] *)
Definition emailRegex : RegExp.Pattern :=
  RegExp.Seq (RegExp.Plus (RegExp.Class plainChar))
    (RegExp.Seq (RegExp.Class (N.eqb 64))
       (RegExp.Seq (RegExp.Plus (RegExp.Class plainChar))
          (RegExp.Seq (RegExp.Class (N.eqb 46))
             (RegExp.Plus (RegExp.Class plainChar))))).

Definition isValidEmail (email : string) : bool :=
  RegExp.test emailRegex (RegExp.codePoints email).

End Normalize.

(** ** The relational store (prisma/migrations, @prisma/client)

    Tables are lists of rows in table order; a row is a record with the
    columns the core reads or writes.  Ids are the TEXT primary keys of the
    migration.  [findMany] keeps table order, so a statement over every store
    covers every order the database may answer in. *)

Module Prisma.

Definition Id := string.

Inductive SourceType := PHONE | EMAIL | INSTAGRAM | FACEBOOK | MANUAL.
Inductive CelebrationType := BIRTHDAY | ANNIVERSARY | LIFE_EVENT.
Inductive GuestStatus := PENDING | ACCEPTED | DECLINED | MAYBE.

Record User := mkUser {
  user_id : Id;
  user_email : string;
  pushEnabled : bool;
  pushToken : option string;
  pushPlatform : option string }.

Record Person := mkPerson {
  person_id : Id;
  person_userId : Id;
  displayName : string;
  relationshipTag : option string;
  notes : option string }.

Record Identity := mkIdentity {
  identity_id : Id;
  identity_personId : Id;
  sourceType : SourceType;
  normalizedPhone : option string;
  normalizedEmail : option string;
  username : option string }.

Record Address := mkAddress {
  address_id : Id;
  address_personId : Id;
  label : string;
  street : string;
  city : string;
  postalCode : string;
  country : string }.

(** Instants ([TIMESTAMP(3)], JavaScript [Date]) are time values:
    milliseconds since the epoch. *)
Record Celebration := mkCelebration {
  celebration_id : Id;
  celebration_personId : Id;
  celebration_type : CelebrationType;
  celebration_title : option string;
  celebration_date : Z;
  recurringRule : option string;
  reminderOffsets : list Z }.

Record Event := mkEvent {
  event_id : Id;
  hostUserId : Id;
  event_title : string;
  event_datetime : Z }.

Record EventGuest := mkEventGuest {
  guest_id : Id;
  guest_eventId : Id;
  guest_personId : option Id;
  guestName : option string;
  guest_status : GuestStatus }.

Record ScheduledReminder := mkReminder {
  reminder_id : Id;
  reminder_userId : Id;
  reminder_celebrationId : option Id;
  reminder_eventId : option Id;
  scheduledFor : Z;
  sent : bool;
  sentAt : option Z }.

Record Store := mkStore {
  users : list User;
  people : list Person;
  identities : list Identity;
  addresses : list Address;
  celebrations : list Celebration;
  events : list Event;
  eventGuests : list EventGuest;
  scheduledReminders : list ScheduledReminder }.

Definition optEqb (o : option Id) (x : Id) : bool :=
  match o with Some y => String.eqb y x | None => false end.

(** What a store call can raise. *)
Inductive Error :=
  | RecordNotFound      (* P2025: update/delete/findUniqueOrThrow on no row *)
  | TransactionAborted  (* the store aborted the enclosing transaction *)
  | StoreUnavailable    (* the call was rejected by the store *)
  | JsError (message : string).

Inductive Result (A : Type) :=
  | Ok (a : A)
  | Err (e : Error).
Arguments Ok {A} a.
Arguments Err {A} e.

(** *** person *)

Definition person_findFirst (s : Store) (id userId : Id) : option Person :=
  find (fun p => String.eqb (person_id p) id && String.eqb (person_userId p) userId)
       (people s).

Definition person_findUnique (s : Store) (id : Id) : option Person :=
  find (fun p => String.eqb (person_id p) id) (people s).

(** *** updateMany({ where: { personId: from }, data: { personId: to } }) *)

Definition repointIdentity (from to : Id) (i : Identity) : Identity :=
  if String.eqb (identity_personId i) from
  then mkIdentity (identity_id i) to (sourceType i) (normalizedPhone i)
                  (normalizedEmail i) (username i)
  else i.

Definition repointAddress (from to : Id) (a : Address) : Address :=
  if String.eqb (address_personId a) from
  then mkAddress (address_id a) to (label a) (street a) (city a)
                 (postalCode a) (country a)
  else a.

Definition repointCelebration (from to : Id) (c : Celebration) : Celebration :=
  if String.eqb (celebration_personId c) from
  then mkCelebration (celebration_id c) to (celebration_type c)
                     (celebration_title c) (celebration_date c)
                     (recurringRule c) (reminderOffsets c)
  else c.

Definition repointGuest (from to : Id) (g : EventGuest) : EventGuest :=
  if optEqb (guest_personId g) from
  then mkEventGuest (guest_id g) (guest_eventId g) (Some to) (guestName g)
                    (guest_status g)
  else g.

Definition identity_updateMany (from to : Id) (s : Store) : Store :=
  mkStore (users s) (people s) (map (repointIdentity from to) (identities s))
          (addresses s) (celebrations s) (events s) (eventGuests s)
          (scheduledReminders s).

Definition address_updateMany (from to : Id) (s : Store) : Store :=
  mkStore (users s) (people s) (identities s)
          (map (repointAddress from to) (addresses s))
          (celebrations s) (events s) (eventGuests s) (scheduledReminders s).

Definition celebration_updateMany (from to : Id) (s : Store) : Store :=
  mkStore (users s) (people s) (identities s) (addresses s)
          (map (repointCelebration from to) (celebrations s))
          (events s) (eventGuests s) (scheduledReminders s).

Definition eventGuest_updateMany (from to : Id) (s : Store) : Store :=
  mkStore (users s) (people s) (identities s) (addresses s) (celebrations s)
          (events s) (map (repointGuest from to) (eventGuests s))
          (scheduledReminders s).

(** *** person.delete({ where: { id } })

    The foreign keys of the migration decide what goes with the row:
    identities, addresses and celebrations ON DELETE CASCADE (and, through
    the deleted celebrations, their scheduled reminders); event guests
    ON DELETE SET NULL. *)

Definition ownedBy (id : Id) (c : Celebration) : bool :=
  String.eqb (celebration_personId c) id.

Definition reminderOfDeleted (id : Id) (cs : list Celebration)
    (r : ScheduledReminder) : bool :=
  match reminder_celebrationId r with
  | Some cid =>
      existsb (fun c => ownedBy id c && String.eqb (celebration_id c) cid) cs
  | None => false
  end.

Definition unlinkGuest (id : Id) (g : EventGuest) : EventGuest :=
  if optEqb (guest_personId g) id
  then mkEventGuest (guest_id g) (guest_eventId g) None (guestName g)
                    (guest_status g)
  else g.

Definition person_delete (id : Id) (s : Store) : Result Store :=
  match person_findUnique s id with
  | None => Err RecordNotFound
  | Some _ =>
      Ok (mkStore
            (users s)
            (filter (fun p => negb (String.eqb (person_id p) id)) (people s))
            (filter (fun i => negb (String.eqb (identity_personId i) id))
                    (identities s))
            (filter (fun a => negb (String.eqb (address_personId a) id))
                    (addresses s))
            (filter (fun c => negb (ownedBy id c)) (celebrations s))
            (events s)
            (map (unlinkGuest id) (eventGuests s))
            (filter (fun r => negb (reminderOfDeleted id (celebrations s) r))
                    (scheduledReminders s)))
  end.

(** *** $transaction([...])

    The batch form: the statements run in order inside one database
    transaction.  [abortAt = Some k] is the store aborting the transaction
    when it reaches statement [k] (or the commit, for [k] the number of
    statements); a statement that raises aborts it too.  On abort nothing of
    the batch is kept: the caller's store is the one the call started from. *)

Fixpoint runBatch (abortAt : option nat) (k : nat)
    (ops : list (Store -> Result Store)) (s : Store) : Result Store :=
  if match abortAt with Some a => Nat.eqb a k | None => false end
  then Err TransactionAborted
  else match ops with
       | [] => Ok s
       | op :: rest =>
           match op s with
           | Ok s' => runBatch abortAt (S k) rest s'
           | Err e => Err e
           end
       end.

Definition transaction (abortAt : option nat)
    (ops : list (Store -> Result Store)) (s : Store) : Result unit * Store :=
  match runBatch abortAt 0 ops s with
  | Ok s' => (Ok tt, s')
  | Err e => (Err e, s)
  end.

End Prisma.

(** ** services/dedup.ts *)

Module Dedup.
Import Prisma.

(** [Person & { identities: Identity[] }] *)
Record PersonWithIdentities := mkPWI {
  pwi_person : Person;
  pwi_identities : list Identity }.

Definition pid (p : PersonWithIdentities) : Id := person_id (pwi_person p).

(** [prisma.person.findMany({ where: { userId }, include: { identities: true } })] *)
Definition person_findMany (s : Store) (userId : Id) : list PersonWithIdentities :=
  map (fun p =>
         mkPWI p (filter (fun i => String.eqb (identity_personId i) (person_id p))
                         (identities s)))
      (filter (fun p => String.eqb (person_userId p) userId) (people s)).

Inductive MatchType := phone | email.

Record DuplicateSuggestion := mkSuggestion {
  person1 : PersonWithIdentities;
  person2 : PersonWithIdentities;
  matchType : MatchType;
  matchValue : string }.

(** [Map<string, Person[]>]: entries in insertion order; [set] on a present
    key keeps the key's place. *)
Definition JsMap := list (string * list PersonWithIdentities).

Fixpoint mapGet (m : JsMap) (k : string) : option (list PersonWithIdentities) :=
  match m with
  | [] => None
  | (k', v) :: rest => if String.eqb k' k then Some v else mapGet rest k
  end.

Fixpoint mapSet (m : JsMap) (k : string) (v : list PersonWithIdentities) : JsMap :=
  match m with
  | [] => [(k, v)]
  | (k', v') :: rest =>
      if String.eqb k' k then (k, v) :: rest else (k', v') :: mapSet rest k v
  end.

(** [if (identity.normalizedPhone)]: a column that is neither null nor the
    empty string. *)
Definition truthy (o : option string) : option string :=
  match o with
  | Some EmptyString => None
  | Some v => Some v
  | None => None
  end.

(** [existing = map.get(k) || []; existing.push(person); map.set(k, existing)] *)
Definition pushTo (m : JsMap) (k : string) (p : PersonWithIdentities) : JsMap :=
  mapSet m k (match mapGet m k with Some l => l | None => [] end ++ [p]).

Definition indexIdentity (p : PersonWithIdentities) (maps : JsMap * JsMap)
    (i : Identity) : JsMap * JsMap :=
  let maps1 :=
    match truthy (normalizedPhone i) with
    | Some v => (pushTo (fst maps) v p, snd maps)
    | None => maps
    end in
  match truthy (normalizedEmail i) with
  | Some v => (fst maps1, pushTo (snd maps1) v p)
  | None => maps1
  end.

Definition indexPerson (maps : JsMap * JsMap) (p : PersonWithIdentities)
    : JsMap * JsMap :=
  fold_left (indexIdentity p) (pwi_identities p) maps.

(** The pair (phoneMap, emailMap) after the first loop. *)
Definition buildMaps (ps : list PersonWithIdentities) : JsMap * JsMap :=
  fold_left indexPerson ps ([], []).

(** [[a, b].sort()]: the default comparator orders strings by code units;
    on the UTF-8 bytes of the model this is the same order for every id made
    of characters below U+E000. *)
Definition sort2 (a b : string) : list string :=
  if String.ltb b a then [b; a] else [a; b].

(** [[a, b].sort().join('-')] *)
Definition pairKey (a b : Id) : string := String.concat "-" (sort2 a b).

(** [seenPairs] and [suggestions], threaded through both scans. *)
Record Acc := mkAcc {
  seenPairs : list string;
  suggestions : list DuplicateSuggestion }.

Definition has (seen : list string) (k : string) : bool :=
  existsb (String.eqb k) seen.

(** The body of the inner loop for [matchingPeople[i] = x], [matchingPeople[j] = y]. *)
Definition visit (t : MatchType) (value : string)
    (x : PersonWithIdentities) (acc : Acc) (y : PersonWithIdentities) : Acc :=
  let key := pairKey (pid x) (pid y) in
  if has (seenPairs acc) key then acc
  else mkAcc (key :: seenPairs acc)
             (suggestions acc ++ [mkSuggestion x y t value]).

(** [for i ... for j = i + 1 ...] over [matchingPeople]. *)
Fixpoint scanPairs (t : MatchType) (value : string)
    (l : list PersonWithIdentities) (acc : Acc) : Acc :=
  match l with
  | [] => acc
  | x :: rest => scanPairs t value rest (fold_left (visit t value x) rest acc)
  end.

Definition scanEntry (t : MatchType) (acc : Acc)
    (e : string * list PersonWithIdentities) : Acc :=
  if (2 <=? List.length (snd e))%nat then scanPairs t (fst e) (snd e) acc else acc.

(** [for (const [value, matchingPeople] of map.entries())] *)
Definition scanMap (t : MatchType) (m : JsMap) (acc : Acc) : Acc :=
  fold_left (scanEntry t) m acc.

Definition getSuggestedDuplicates (s : Store) (userId : Id)
    : list DuplicateSuggestion :=
  let ps := person_findMany s userId in
  let maps := buildMaps ps in
  let afterPhone := scanMap phone (fst maps) (mkAcc [] []) in
  suggestions (scanMap email (snd maps) afterPhone).

(** The survivor as [findUniqueOrThrow] returns it, with
    [include: { identities, addresses, celebrations }]. *)
Record PersonWithRelations := mkPWR {
  pwr_person : Person;
  pwr_identities : list Identity;
  pwr_addresses : list Address;
  pwr_celebrations : list Celebration }.

Definition identitiesOf (s : Store) (id : Id) : list Identity :=
  filter (fun i => String.eqb (identity_personId i) id) (identities s).
Definition addressesOf (s : Store) (id : Id) : list Address :=
  filter (fun a => String.eqb (address_personId a) id) (addresses s).
Definition celebrationsOf (s : Store) (id : Id) : list Celebration :=
  filter (fun c => String.eqb (celebration_personId c) id) (celebrations s).
Definition guestsOf (s : Store) (id : Id) : list EventGuest :=
  filter (fun g => optEqb (guest_personId g) id) (eventGuests s).

Definition person_findUniqueOrThrow (s : Store) (id : Id)
    : Result PersonWithRelations :=
  match person_findUnique s id with
  | Some p => Ok (mkPWR p (identitiesOf s id) (addressesOf s id)
                        (celebrationsOf s id))
  | None => Err RecordNotFound
  end.

(** [abortAt] is the store's choice to abort the transaction (see
    [Prisma.transaction]); [None] is a store that commits. *)
Definition mergePeople (abortAt : option nat) (s : Store)
    (userId person1Id person2Id : Id) : Result PersonWithRelations * Store :=
  match person_findFirst s person1Id userId,
        person_findFirst s person2Id userId with
  | Some _, Some _ =>
      match transaction abortAt
              [ (fun st => Ok (identity_updateMany person2Id person1Id st));
                (fun st => Ok (address_updateMany person2Id person1Id st));
                (fun st => Ok (celebration_updateMany person2Id person1Id st));
                (fun st => Ok (eventGuest_updateMany person2Id person1Id st));
                person_delete person2Id ] s with
      | (Ok _, s') => (person_findUniqueOrThrow s' person1Id, s')
      | (Err e, s') => (Err e, s')
      end
  | _, _ => (Err (JsError "One or both people not found"), s)
  end.

(** The relation filter [person: { userId }] on an identity. *)
Definition ofUser (s : Store) (userId : Id) (i : Identity) : bool :=
  existsb (fun p => String.eqb (person_id p) (identity_personId i) &&
                    String.eqb (person_userId p) userId) (people s).

(** One member of the [OR] list: present when the normalized value is
    neither null nor empty, and then an equality on the column. *)
Definition orMember (column key : option string) : bool :=
  match truthy key with
  | Some v => optEqb column v
  | None => false
  end.

Section Lookup.
Variable toLowerCase : string -> string.
Variable trim : string -> string.

(** [findMatchingPerson]: [phone] and [email] are optional arguments. *)
Definition findMatchingPerson (s : Store) (userId : Id)
    (phone email : option string) : option Person :=
  let phoneKey := option_map Normalize.normalizePhone (truthy phone) in
  let emailKey :=
    option_map (Normalize.normalizeEmail toLowerCase trim) (truthy email) in
  match truthy phoneKey, truthy emailKey with
  | None, None => None
  | _, _ =>
      match find (fun i => ofUser s userId i &&
                           (orMember (normalizedPhone i) phoneKey ||
                            orMember (normalizedEmail i) emailKey))
                 (identities s) with
      | Some matchingIdentity =>
          person_findUnique s (identity_personId matchingIdentity)
      | None => None
      end
  end.

End Lookup.

End Dedup.

(** ** utils/encryption.ts and the middleware of plugins/prisma.ts

    The routes reach the store through a client whose middleware encrypts
    the fields named in [ENCRYPTED_FIELDS] in the [data] of a write, and
    decrypts them in the rows a call on that model returns.  A [where]
    clause is sent as it is: it is compared with what is stored. *)

Module Encryption.
Import Prisma.

Section Cipher.
(** [CryptoJS.AES.encrypt(value, ENCRYPTION_KEY).toString()], as a function
    of the salt it draws and of the value; and the [try] of [decrypt] with
    its [catch]. *)
Variable aesEncrypt : string -> string -> string.
Variable aesDecrypt : string -> string.

Definition encrypt (salt value : string) : string :=
  match value with
  | EmptyString => value
  | _ => aesEncrypt salt value
  end.

Definition decrypt (encryptedValue : string) : string :=
  match encryptedValue with
  | EmptyString => encryptedValue
  | _ => aesDecrypt encryptedValue
  end.

(** [if (data[field] && typeof data[field] === 'string')
       data[field] = encrypt(data[field])] *)
Definition encryptField (salt : string) (field : option string) : option string :=
  match field with
  | Some EmptyString => field
  | Some v => Some (encrypt salt v)
  | None => None
  end.

(** [if (obj[field] && typeof obj[field] === 'string')
       obj[field] = decrypt(obj[field])] *)
Definition decryptField (field : option string) : option string :=
  match field with
  | Some EmptyString => field
  | Some v => Some (decrypt v)
  | None => None
  end.

(** [ENCRYPTED_FIELDS.Identity = ['normalizedPhone']] *)
Definition encryptIdentity (salt : string) (i : Identity) : Identity :=
  mkIdentity (identity_id i) (identity_personId i) (sourceType i)
             (encryptField salt (normalizedPhone i)) (normalizedEmail i)
             (username i).

Definition decryptIdentity (i : Identity) : Identity :=
  mkIdentity (identity_id i) (identity_personId i) (sourceType i)
             (decryptField (normalizedPhone i)) (normalizedEmail i)
             (username i).

End Cipher.

End Encryption.

(** ** routes/identities.ts *)

Module Identities.
Import Prisma Dedup Encryption.

(** The request body of POST / after [createIdentitySchema.parse].  The
    column [sourceUserId] is written as sent and read by no route; it is
    left out of the rows. *)
Record CreateBody := mkCreateBody {
  cb_personId : Id;
  cb_sourceType : SourceType;
  cb_phone : option string;
  cb_email : option string;
  cb_username : option string }.

Record PotentialDuplicate := mkPotentialDuplicate {
  pd_personId : Id;
  pd_displayName : string;
  pd_matchType : MatchType }.

Inductive Reply :=
  | Created (identity : Identity) (potentialDuplicate : option PotentialDuplicate)
  | BadRequest (error : string)
  | NotFound (error : string).

Definition withIdentities (s : Store) (l : list Identity) : Store :=
  mkStore (users s) (people s) l (addresses s) (celebrations s) (events s)
          (eventGuests s) (scheduledReminders s).

Section Server.
Variable toLowerCase : string -> string.
Variable trim : string -> string.
Variable aesEncrypt : string -> string -> string.
Variable aesDecrypt : string -> string.

(** POST /: [newId] is the id the store gives the identity, [salt] the salt
    drawn for the encryption of its phone.  The row is stored as the
    middleware encrypts it; the reply carries it as the middleware decrypts
    what [create] returns. *)
Definition createIdentity (newId : Id) (salt : string) (s : Store) (userId : Id)
    (body : CreateBody) : Reply * Store :=
  match person_findFirst s (cb_personId body) userId with
  | None => (NotFound "Person not found", s)
  | Some _ =>
      if match truthy (cb_phone body) with
         | Some p => negb (Normalize.isValidPhone p)
         | None => false
         end
      then (BadRequest "Invalid phone number", s)
      else if match truthy (cb_email body) with
              | Some e => negb (Normalize.isValidEmail e)
              | None => false
              end
      then (BadRequest "Invalid email address", s)
      else
        let phoneKey := option_map Normalize.normalizePhone (truthy (cb_phone body)) in
        let emailKey :=
          option_map (Normalize.normalizeEmail toLowerCase trim)
                     (truthy (cb_email body)) in
        let matchingPerson :=
          findMatchingPerson toLowerCase trim s userId (cb_phone body)
                             (cb_email body) in
        let stored :=
          encryptIdentity aesEncrypt salt
            (mkIdentity newId (cb_personId body) (cb_sourceType body) phoneKey
                        emailKey (cb_username body)) in
        let identity := decryptIdentity aesDecrypt stored in
        let potentialDuplicate :=
          match matchingPerson with
          | Some m =>
              if negb (String.eqb (person_id m) (cb_personId body))
              then Some (mkPotentialDuplicate (person_id m) (displayName m)
                           (match truthy phoneKey with
                            | Some _ => phone
                            | None => email
                            end))
              else None
          | None => None
          end in
        (Created identity potentialDuplicate,
         withIdentities s (identities s ++ [stored])%list)
  end.

End Server.

End Identities.

(** ** routes/people.ts *)

Module People.
Import Prisma.

Inductive Reply :=
  | Success                      (* 200, [{ success: true }] *)
  | NotFound (error : string)    (* 404 *)
  | Failed (e : Error).          (* the handler raised *)

(** DELETE /:id *)
Definition deletePerson (s : Store) (userId id : Id) : Reply * Store :=
  match person_findFirst s id userId with
  | None => (NotFound "Person not found", s)
  | Some _ =>
      match person_delete id s with
      | Ok s' => (Success, s')
      | Err e => (Failed e, s)
      end
  end.

End People.

(** ** routes/safety.ts *)

Module Safety.
Import Prisma Dedup Encryption.

(** A row of [blocked_contacts].  The column [createdAt] is read only by
    the ordering of GET /blocked; it is left out of the rows. *)
Record BlockedContact := mkBlockedContact {
  blocked_id : Id;
  blocked_userId : Id;
  blockedPhone : option string;
  blockedEmail : option string;
  blocked_reason : option string }.

(** The request body of POST /block after [blockSchema.parse]. *)
Record BlockBody := mkBlockBody {
  bb_phone : option string;
  bb_email : option string;
  bb_reason : option string }.

Inductive Reply :=
  | Created (blocked : BlockedContact)   (* 201 *)
  | Success                              (* 200, [{ success: true }] *)
  | BadRequest (error : string)          (* 400 *)
  | NotFound (error : string)            (* 404 *)
  | Failed (e : Error).                  (* the handler raised *)

(** [findFirst({ where: { userId, OR: [...] } })]: the [OR] list holds one
    member for each normalized value that is neither null nor empty; a row
    matches when it matches a member, so no row matches an empty list.  The
    values of the members are compared with the columns as stored. *)
Definition blockedContact_findFirst (table : list BlockedContact) (userId : Id)
    (phoneKey emailKey : option string) : option BlockedContact :=
  find (fun b => String.eqb (blocked_userId b) userId &&
                 (orMember (blockedPhone b) phoneKey ||
                  orMember (blockedEmail b) emailKey))
       table.

(** [blockedContact.create({ data })], [row] being the data as the
    middleware hands them on: refused when the foreign key [userId] of the
    migration has no user to refer to. *)
Definition blockedContact_create (s : Store) (row : BlockedContact)
    (table : list BlockedContact) : Result (list BlockedContact) :=
  if existsb (fun u => String.eqb (user_id u) (blocked_userId row)) (users s)
  then Ok (table ++ [row])%list
  else Err (JsError "Foreign key constraint failed").

(** [blockedContact.delete({ where: { id } })] *)
Definition blockedContact_delete (id : Id) (table : list BlockedContact)
    : Result (list BlockedContact) :=
  if existsb (fun b => String.eqb (blocked_id b) id) table
  then Ok (filter (fun b => negb (String.eqb (blocked_id b) id)) table)
  else Err RecordNotFound.

Section Server.
Variable toLowerCase : string -> string.
Variable trim : string -> string.
Variable aesEncrypt : string -> string -> string.
Variable aesDecrypt : string -> string.

(** [ENCRYPTED_FIELDS.BlockedContact = ['blockedPhone']] *)
Definition encryptBlocked (salt : string) (b : BlockedContact) : BlockedContact :=
  mkBlockedContact (blocked_id b) (blocked_userId b)
                   (encryptField aesEncrypt salt (blockedPhone b))
                   (blockedEmail b) (blocked_reason b).

Definition decryptBlocked (b : BlockedContact) : BlockedContact :=
  mkBlockedContact (blocked_id b) (blocked_userId b)
                   (decryptField aesDecrypt (blockedPhone b))
                   (blockedEmail b) (blocked_reason b).

(** POST /block: [newId] is the id the store gives the row, [salt] the salt
    drawn for the encryption of its phone, [s] the store the users are read
    from.  The row is stored as the middleware encrypts it; the reply
    carries it as the middleware decrypts what [create] returns. *)
Definition blockContact (newId : Id) (salt : string) (s : Store)
    (table : list BlockedContact) (userId : Id) (body : BlockBody)
    : Reply * list BlockedContact :=
  match truthy (bb_phone body), truthy (bb_email body) with
  | None, None => (BadRequest "Phone or email required", table)
  | _, _ =>
      let normalizedPhone :=
        option_map Normalize.normalizePhone (truthy (bb_phone body)) in
      let normalizedEmail :=
        option_map (Normalize.normalizeEmail toLowerCase trim)
                   (truthy (bb_email body)) in
      match blockedContact_findFirst table userId normalizedPhone
                                     normalizedEmail with
      | Some _ => (BadRequest "Contact already blocked", table)
      | None =>
          let stored :=
            encryptBlocked salt
              (mkBlockedContact newId userId normalizedPhone normalizedEmail
                                (bb_reason body)) in
          match blockedContact_create s stored table with
          | Ok table' => (Created (decryptBlocked stored), table')
          | Err e => (Failed e, table)
          end
      end
  end.

End Server.

(** DELETE /block/:id *)
Definition unblockContact (table : list BlockedContact) (userId id : Id)
    : Reply * list BlockedContact :=
  match find (fun b => String.eqb (blocked_id b) id &&
                       String.eqb (blocked_userId b) userId) table with
  | None => (NotFound "Blocked contact not found", table)
  | Some _ =>
      match blockedContact_delete id table with
      | Ok table' => (Success, table')
      | Err e => (Failed e, table)
      end
  end.

End Safety.

(** ** JavaScript [Date] (ECMA-262, Date objects)

    A time value is a number of milliseconds since the epoch, or NaN (an
    invalid date): [option Z], with [None] for NaN.  Time values are below
    [2^53] in magnitude, so the arithmetic on them is exact.  The abstract
    operations keep their ECMA-262 names.  Local time is the time of the
    server's zone, taken at a fixed offset [tz] from UTC (in milliseconds;
    [0] for a server running in UTC). *)

Module JSDate.

Local Open Scope Z_scope.

Definition msPerDay : Z := 86400000.
Definition msPerHour : Z := 3600000.
Definition msPerMinute : Z := 60000.
Definition msPerSecond : Z := 1000.

Definition Day (t : Z) : Z := t / msPerDay.
Definition TimeWithinDay (t : Z) : Z := t mod msPerDay.

Definition isLeap (y : Z) : bool :=
  if negb (y mod 4 =? 0) then false
  else if negb (y mod 100 =? 0) then true
  else if negb (y mod 400 =? 0) then false
  else true.

Definition DaysInYear (y : Z) : Z := if isLeap y then 366 else 365.

Definition DayFromYear (y : Z) : Z :=
  365 * (y - 1970) + (y - 1969) / 4 - (y - 1901) / 100 + (y - 1601) / 400.

Definition TimeFromYear (y : Z) : Z := msPerDay * DayFromYear y.

(** The year holding day number [d]: an estimate from the mean length of a
    year, off by one at most, then corrected. *)
Definition yearOfDay (d : Z) : Z :=
  let y0 := 1970 + (400 * d) / 146097 in
  if d <? DayFromYear y0 then y0 - 1
  else if DayFromYear (y0 + 1) <=? d then y0 + 1
  else y0.

(** The largest [y] with [TimeFromYear y <= t]. *)
Definition YearFromTime (t : Z) : Z := yearOfDay (Day t).

Definition InLeapYear (t : Z) : Z := if isLeap (YearFromTime t) then 1 else 0.

Definition DayWithinYear (t : Z) : Z := Day t - DayFromYear (YearFromTime t).

(** The day of the year on which month [m] (0 = January) starts. *)
Definition monthStart (leap m : Z) : Z :=
  if m =? 0 then 0
  else if m =? 1 then 31
  else if m =? 2 then 59 + leap
  else if m =? 3 then 90 + leap
  else if m =? 4 then 120 + leap
  else if m =? 5 then 151 + leap
  else if m =? 6 then 181 + leap
  else if m =? 7 then 212 + leap
  else if m =? 8 then 243 + leap
  else if m =? 9 then 273 + leap
  else if m =? 10 then 304 + leap
  else 334 + leap.

Definition monthOfDay (leap d : Z) : Z :=
  if d <? 31 then 0
  else if d <? 59 + leap then 1
  else if d <? 90 + leap then 2
  else if d <? 120 + leap then 3
  else if d <? 151 + leap then 4
  else if d <? 181 + leap then 5
  else if d <? 212 + leap then 6
  else if d <? 243 + leap then 7
  else if d <? 273 + leap then 8
  else if d <? 304 + leap then 9
  else if d <? 334 + leap then 10
  else 11.

Definition MonthFromTime (t : Z) : Z :=
  monthOfDay (InLeapYear t) (DayWithinYear t).

Definition DateFromTime (t : Z) : Z :=
  DayWithinYear t - monthStart (InLeapYear t) (MonthFromTime t) + 1.

Definition HourFromTime (t : Z) : Z := (t / msPerHour) mod 24.
Definition MinFromTime (t : Z) : Z := (t / msPerMinute) mod 60.
Definition SecFromTime (t : Z) : Z := (t / msPerSecond) mod 60.
Definition msFromTime (t : Z) : Z := t mod msPerSecond.

Definition MakeTime (hour min sec ms : Z) : Z :=
  hour * msPerHour + min * msPerMinute + sec * msPerSecond + ms.

(** The day number of the first of month [mn] of year [ym], plus [date - 1]. *)
Definition MakeDay (year month date : Z) : Z :=
  let ym := year + month / 12 in
  let mn := month mod 12 in
  DayFromYear ym + monthStart (if isLeap ym then 1 else 0) mn + date - 1.

Definition MakeDate (day time : Z) : Z := day * msPerDay + time.

Definition maxTime : Z := 8640000000000000.

Definition TimeClip (t : Z) : option Z :=
  if Z.abs t <=? maxTime then Some t else None.

(** The server's zone is taken with one offset [tz], the milliseconds it is
    ahead of UTC: [LocalTime] and [UTC] are those of ECMA-262 for such a
    zone.  A zone with daylight saving changes its offset twice a year; the
    local day and the local time of day of a result are then as here
    whenever that local time exists once, while the distance between two
    instants across a change is off by the change. *)
Section Zone.
Variable tz : Z.

Definition LocalTime (t : Z) : Z := t + tz.
Definition UTC (t : Z) : Z := t - tz.

Definition getFullYear (t : Z) : Z := YearFromTime (LocalTime t).
Definition getMonth (t : Z) : Z := MonthFromTime (LocalTime t).
Definition getDate (t : Z) : Z := DateFromTime (LocalTime t).
Definition getHours (t : Z) : Z := HourFromTime (LocalTime t).

(** [d.setFullYear(year)]: an invalid date is taken as time value [+0]. *)
Definition setFullYear (d : option Z) (year : Z) : option Z :=
  let t := match d with Some tv => LocalTime tv | None => 0 end in
  TimeClip (UTC (MakeDate (MakeDay year (MonthFromTime t) (DateFromTime t))
                          (TimeWithinDay t))).

(** [d.setDate(date)] *)
Definition setDate (d : option Z) (date : Z) : option Z :=
  match d with
  | None => None
  | Some tv =>
      let t := LocalTime tv in
      TimeClip (UTC (MakeDate (MakeDay (YearFromTime t) (MonthFromTime t) date)
                              (TimeWithinDay t)))
  end.

(** [d.setHours(hour, min, sec, ms)] *)
Definition setHours (d : option Z) (hour min sec ms : Z) : option Z :=
  match d with
  | None => None
  | Some tv =>
      let t := LocalTime tv in
      TimeClip (UTC (MakeDate (Day t) (MakeTime hour min sec ms)))
  end.

(** [d.setHours(hour)]: minutes, seconds and milliseconds are kept. *)
Definition setHour (d : option Z) (hour : Z) : option Z :=
  match d with
  | None => None
  | Some tv =>
      let t := LocalTime tv in
      TimeClip (UTC (MakeDate (Day t)
                       (MakeTime hour (MinFromTime t) (SecFromTime t)
                                 (msFromTime t))))
  end.

End Zone.

(** [a < b] on dates: a comparison of time values, false when one is NaN. *)
Definition dateLt (a b : option Z) : bool :=
  match a, b with
  | Some x, Some y => x <? y
  | _, _ => false
  end.

(** [Math.ceil(x / q)] for an integer [x] and a positive integer [q].  For
    the two divisors of the sources (the milliseconds of an hour and of a
    day) the floating-point quotient has this ceiling whenever [x], a
    difference of two time values, is below [2^53] in magnitude. *)
Definition ceilDiv (x q : Z) : Z := - ((- x) / q).

End JSDate.

(** ** plugins/rateLimit.ts *)

Module RateLimit.
Import JSDate.

Local Open Scope Z_scope.

(** [config.rateLimit] *)
Definition loginAttemptsPerHour : Z := 10.
Definition registrationsPerHour : Z := 5.
Definition loginLockoutMinutes : Z := 15.

(** An entry of [ipRateLimits]; [windowStart] is a time value or NaN. *)
Record Entry := mkEntry {
  count : Z;
  windowStart : option Z;
  lockedUntil : option Z }.

(** [Map<string, Entry>]: entries in insertion order; [set] on a present
    key keeps the key's place.  An entry is held by the map alone, so an
    assignment to a field of it is a [set] of the changed entry. *)
Definition Limits := list (string * Entry).

Fixpoint getEntry (m : Limits) (k : string) : option Entry :=
  match m with
  | [] => None
  | (k', v) :: rest => if String.eqb k' k then Some v else getEntry rest k
  end.

Fixpoint setEntry (m : Limits) (k : string) (v : Entry) : Limits :=
  match m with
  | [] => [(k, v)]
  | (k', v') :: rest =>
      if String.eqb k' k then (k, v) :: rest else (k', v') :: setEntry rest k v
  end.

(** [a === b] on numbers: NaN equals nothing. *)
Definition sameNumber (a b : option Z) : bool :=
  match a, b with
  | Some x, Some y => x =? y
  | _, _ => false
  end.

(** What a check answers: [true], or [false] after a 429 reply with this
    [retryAfter] (the message of the reply is made of the same numbers). *)
Inductive Verdict :=
  | Allowed
  | TooMany (retryAfter : Z).

Section Plugin.
Variable tz : Z.

(** [d.setMinutes(min, sec, ms)] *)
Definition setMinutes (d : option Z) (min sec ms : Z) : option Z :=
  match d with
  | None => None
  | Some tv =>
      let t := LocalTime tz tv in
      TimeClip (UTC tz (MakeDate (Day t)
                          (MakeTime (HourFromTime t) min sec ms)))
  end.

(** [getHourWindow()], when the clock reads [clock]. *)
Definition getHourWindow (clock : Z) : option Z :=
  setMinutes (Some clock) 0 0 0.

(** The callback of [setInterval], when the clock reads [now]: a
    comparison with NaN is false. *)
Definition cleanUp (m : Limits) (now : Z) : Limits :=
  filter (fun kv =>
            negb match windowStart (snd kv) with
                 | Some w => 2 * 60 * 60 * 1000 <? now - w
                 | None => false
                 end)
         m.

(** [entry?.lockedUntil && now < entry.lockedUntil] *)
Definition lockedAt (entry : Entry) (now : Z) : option Z :=
  match lockedUntil entry with
  | Some l => if negb (l =? 0) && (now <? l) then Some l else None
  | None => None
  end.

(** [checkLoginRateLimit]: [ip] is the address [getClientIP] gives for the
    request; the clock reads [clock1] in [getHourWindow] and [clock2] in
    [Date.now()]. *)
Definition checkLoginRateLimit (m : Limits) (ip : string) (clock1 clock2 : Z)
    : Verdict * Limits :=
  let key := ("login:" ++ ip)%string in
  let hour := getHourWindow clock1 in
  let now := clock2 in
  match getEntry m key with
  | None => (Allowed, m)
  | Some entry =>
      match lockedAt entry now with
      | Some l => (TooMany (ceilDiv (l - now) 1000), m)
      | None =>
          if sameNumber (windowStart entry) hour &&
             (loginAttemptsPerHour <=? count entry)
          then (TooMany (loginLockoutMinutes * 60),
                setEntry m key
                  (mkEntry (count entry) (windowStart entry)
                     (Some (now + loginLockoutMinutes * 60 * 1000))))
          else (Allowed, m)
      end
  end.

(** [entry.count++], or a new entry for a new hour. *)
Definition countUp (m : Limits) (key : string) (hour : option Z) : Limits :=
  match getEntry m key with
  | Some entry =>
      if sameNumber (windowStart entry) hour
      then setEntry m key
             (mkEntry (count entry + 1) (windowStart entry) (lockedUntil entry))
      else setEntry m key (mkEntry 1 hour None)
  | None => setEntry m key (mkEntry 1 hour None)
  end.

(** [recordFailedLogin] *)
Definition recordFailedLogin (m : Limits) (ip : string) (clock : Z) : Limits :=
  countUp m ("login:" ++ ip)%string (getHourWindow clock).

(** [checkRegistrationRateLimit]: the clock reads [clock1] in
    [getHourWindow] and, for a 429 reply, [clock2] in [new Date()]. *)
Definition checkRegistrationRateLimit (m : Limits) (ip : string)
    (clock1 clock2 : Z) : Verdict * Limits :=
  let key := ("register:" ++ ip)%string in
  let hour := getHourWindow clock1 in
  if match getEntry m key with
     | Some entry =>
         sameNumber (windowStart entry) hour &&
         (registrationsPerHour <=? count entry)
     | None => false
     end
  then (TooMany (60 - MinFromTime (LocalTime tz clock2)), m)
  else (Allowed, countUp m key hour).

End Plugin.

End RateLimit.

(** ** services/push.ts *)

Module Push.
Import Prisma.

(** The double-quote character. *)
Definition dquote : string := String (Ascii.ascii_of_nat 34) EmptyString.

(** [`${n}`] for a number: an integer in decimal, or NaN. *)
Definition showNumber (n : option Z) : string :=
  match n with
  | Some z => DecimalString.NilZero.string_of_int (Z.to_int z)
  | None => "NaN"
  end.

Inductive NotificationData :=
  | BirthdayData (personName : string) (daysUntil : option Z)
  | EventData (eventTitle : string) (hoursUntil : option Z).

Record PushNotification := mkNotification {
  pn_userId : Id;
  pn_title : string;
  pn_body : string;
  pn_data : NotificationData }.

Record ExpoPushMessage := mkMessage {
  msg_to : string;
  msg_sound : string;
  msg_title : string;
  msg_body : string;
  msg_data : NotificationData }.

(** What the outside world sees of a call. *)
Inductive Effect :=
  | ConsoleLog (text : string)
  | ConsoleError (text : string)
  | ExpoSend (message : ExpoPushMessage).

(** What Expo's service does with one [sendPushNotificationsAsync([message])]. *)
Inductive ExpoReply :=
  | TicketOk
  | TicketError (message : string) (deviceNotRegistered : bool)
  | NoTicket       (* an empty list of tickets: [tickets[0]] is undefined *)
  | SendRejected.  (* the promise rejects *)

(** The collaborators of one [sendPushNotification] call: whether the store
    rejects the user lookup, what Expo answers, and whether the store rejects
    the removal of an unregistered token. *)
Record PushBehaviour := mkPushBehaviour {
  lookupFails : bool;
  expoReply : ExpoReply;
  cleanupFails : bool }.

Definition user_findUnique (s : Store) (id : Id) : option User :=
  find (fun u => String.eqb (user_id u) id) (users s).

(** [prisma.user.update({ where: { id }, data: { pushToken: null, pushPlatform: null } })] *)
Definition clearToken (id : Id) (u : User) : User :=
  if String.eqb (user_id u) id
  then mkUser (user_id u) (user_email u) (pushEnabled u) None None
  else u.

Definition user_clearToken (id : Id) (s : Store) : Store :=
  mkStore (map (clearToken id) (users s)) (people s) (identities s)
          (addresses s) (celebrations s) (events s) (eventGuests s)
          (scheduledReminders s).

Definition nonEmpty (o : option string) : option string :=
  match o with
  | Some EmptyString => None
  | Some v => Some v
  | None => None
  end.

Section Expo.
(** [Expo.isExpoPushToken], of expo-server-sdk. *)
Variable isExpoPushToken : string -> bool.

Definition sendPushNotification (b : PushBehaviour) (s : Store)
    (n : PushNotification) : Result bool * Store * list Effect :=
  if lookupFails b then (Err StoreUnavailable, s, [])
  else
    match user_findUnique s (pn_userId n) with
    | None => (Ok false, s, [])
    | Some user =>
        match nonEmpty (pushToken user) with
        | None => (Ok false, s, [])
        | Some token =>
            if negb (pushEnabled user) then (Ok false, s, [])
            else if negb (isExpoPushToken token) then
              (Ok false, s, [ConsoleError ("Invalid Expo push token: " ++ token)])
            else
              let message :=
                mkMessage token "default" (pn_title n) (pn_body n) (pn_data n) in
              let caught :=
                ConsoleError "Error sending push notification:" in
              match expoReply b with
              | SendRejected => (Ok false, s, [ExpoSend message; caught])
              | NoTicket => (Ok false, s, [ExpoSend message; caught])
              | TicketError text deviceNotRegistered =>
                  let logged :=
                    ConsoleError ("Push notification error: " ++ text) in
                  if deviceNotRegistered then
                    if cleanupFails b
                    then (Ok false, s, [ExpoSend message; logged; caught])
                    else (Ok false, user_clearToken (pn_userId n) s,
                          [ExpoSend message; logged])
                  else (Ok false, s, [ExpoSend message; logged])
              | TicketOk => (Ok true, s, [ExpoSend message])
              end
        end
    end.

Definition sendBirthdayReminder (b : PushBehaviour) (s : Store)
    (userId : Id) (personName : string) (daysUntil : option Z)
    : Result bool * Store * list Effect :=
  let (title, body) :=
    match daysUntil with
    | Some 0%Z =>
        (personName ++ " is vandaag jarig! 🎂", "Vergeet niet te feliciteren!")
    | Some 1%Z =>
        (personName ++ " is morgen jarig! 🎉",
         "Bereid je voor om " ++ personName ++ " te feliciteren")
    | _ =>
        (personName ++ " is over " ++ showNumber daysUntil ++ " dagen jarig",
         "Zet alvast een reminder om " ++ personName ++ " te feliciteren")
    end in
  sendPushNotification b s
    (mkNotification userId title body (BirthdayData personName daysUntil)).

(** [n <= k] on numbers: false for NaN. *)
Definition numLe (n : option Z) (k : Z) : bool :=
  match n with Some z => (z <=? k)%Z | None => false end.

Definition sendEventReminder (b : PushBehaviour) (s : Store)
    (userId : Id) (eventTitle : string) (hoursUntil : option Z)
    : Result bool * Store * list Effect :=
  let (title, body) :=
    if numLe hoursUntil 1 then
      (eventTitle ++ " begint zo! ⏰", "Het evenement begint binnen een uur")
    else if numLe hoursUntil 24 then
      (eventTitle ++ " is vandaag",
       "Het evenement begint over " ++ showNumber hoursUntil ++ " uur")
    else
      let days := option_map (fun h => (h / 24)%Z) hoursUntil in
      (eventTitle ++ " over " ++ showNumber days ++ " " ++
         (match days with Some 1%Z => "dag" | _ => "dagen" end),
       "Vergeet niet je agenda vrij te houden") in
  sendPushNotification b s
    (mkNotification userId title body (EventData eventTitle hoursUntil)).

End Expo.

End Push.

(** ** services/notifications.ts *)

Module Notifications.
Import Prisma Push JSDate.

Section Server.
(** The server's zone offset and Expo's token check. *)
Variable tz : Z.
Variable isExpoPushToken : string -> bool.

(** *** Scheduling *)

Definition reminderOf (celebrationId : Id) (r : ScheduledReminder) : bool :=
  optEqb (reminder_celebrationId r) celebrationId.

(** [prisma.scheduledReminder.deleteMany({ where: { celebrationId } })] *)
Definition scheduledReminder_deleteMany (celebrationId : Id) (s : Store) : Store :=
  mkStore (users s) (people s) (identities s) (addresses s) (celebrations s)
          (events s) (eventGuests s)
          (filter (fun r => negb (reminderOf celebrationId r))
                  (scheduledReminders s)).

Definition eventReminderOf (eventId : Id) (r : ScheduledReminder) : bool :=
  optEqb (reminder_eventId r) eventId.

Definition scheduledReminder_deleteManyEvent (eventId : Id) (s : Store) : Store :=
  mkStore (users s) (people s) (identities s) (addresses s) (celebrations s)
          (events s) (eventGuests s)
          (filter (fun r => negb (eventReminderOf eventId r))
                  (scheduledReminders s)).

(** A row as handed to [createMany]: [scheduledFor] is a [Date], possibly
    invalid; [sent] and [sentAt] take the column defaults. *)
Record NewReminder := mkNewReminder {
  new_userId : Id;
  new_celebrationId : option Id;
  new_eventId : option Id;
  new_scheduledFor : option Z }.

Definition refExists {A} (key : A -> Id) (table : list A) (o : option Id) : bool :=
  match o with
  | Some id => existsb (fun x => String.eqb (key x) id) table
  | None => true
  end.

(** The rows of [data] as stored, the [k]-th under the id [newIds k]. *)
Fixpoint insertRows (newIds : nat -> Id) (k : nat) (data : list NewReminder)
    : option (list ScheduledReminder) :=
  match data with
  | [] => Some []
  | d :: rest =>
      match new_scheduledFor d, insertRows newIds (S k) rest with
      | Some t, Some rows =>
          Some (mkReminder (newIds k) (new_userId d) (new_celebrationId d)
                           (new_eventId d) t false None :: rows)
      | _, _ => None
      end
  end.

(** [prisma.scheduledReminder.createMany({ data })]: one statement; it is
    refused as a whole when a date is invalid or a foreign key of the
    migration has no row to refer to.  [newIds] are the ids the store gives
    to the new rows. *)
Definition scheduledReminder_createMany (newIds : nat -> Id)
    (data : list NewReminder) (s : Store) : Result unit * Store :=
  match insertRows newIds 0 data with
  | None => (Err (JsError "Invalid value for argument `scheduledFor`"), s)
  | Some rows =>
      if forallb (fun d =>
                    existsb (fun u => String.eqb (user_id u) (new_userId d)) (users s)
                    && refExists celebration_id (celebrations s) (new_celebrationId d)
                    && refExists event_id (events s) (new_eventId d)) data
      then (Ok tt,
            mkStore (users s) (people s) (identities s) (addresses s)
                    (celebrations s) (events s) (eventGuests s)
                    (scheduledReminders s ++ rows)%list)
      else (Err (JsError "Foreign key constraint failed"), s)
  end.

(** The instant of the reminder [daysBefore] days ahead of [date]. *)
Definition reminderInstant (date daysBefore : Z) : option Z :=
  let scheduledFor := Some date in
  let scheduledFor := setDate tz scheduledFor (getDate tz date - daysBefore) in
  setHours tz scheduledFor 9 0 0 0.

Definition scheduleCelebrationReminders (newIds : nat -> Id) (s : Store)
    (userId celebrationId : Id) (date : Z) (reminderOffsets : list Z)
    : Result unit * Store :=
  let s1 := scheduledReminder_deleteMany celebrationId s in
  let reminders :=
    map (fun daysBefore =>
           mkNewReminder userId (Some celebrationId) None
                         (reminderInstant date daysBefore))
        reminderOffsets in
  scheduledReminder_createMany newIds reminders s1.

Definition scheduleEventReminders (newIds : nat -> Id) (s : Store)
    (userId eventId : Id) (datetime : Z) : Result unit * Store :=
  let s1 := scheduledReminder_deleteManyEvent eventId s in
  let dayBefore :=
    setHours tz (setDate tz (Some datetime) (getDate tz datetime - 1)) 9 0 0 0 in
  let hourBefore := setHour tz (Some datetime) (getHours tz datetime - 1) in
  scheduledReminder_createMany newIds
    [ mkNewReminder userId None (Some eventId) dayBefore;
      mkNewReminder userId None (Some eventId) hourBefore ] s1.

(** *** Processing *)

(** [x - y] and [Math.max(0, x)] on numbers that may be NaN. *)
Definition numSub (x y : option Z) : option Z :=
  match x, y with Some a, Some b => Some (a - b)%Z | _, _ => None end.
Definition max0 (x : option Z) : option Z := option_map (Z.max 0) x.

(** [getDaysUntil], with [clock] the time [new Date()] reads. *)
Definition getDaysUntil (clock targetDate : Z) : option Z :=
  let target := setHours tz (Some targetDate) 0 0 0 0 in
  let now := setHours tz (Some clock) 0 0 0 0 in
  option_map (fun diffTime => ceilDiv diffTime (1000 * 60 * 60 * 24))
             (numSub target now).

Definition getHoursUntil (clock targetDate : Z) : option Z :=
  Some (ceilDiv (targetDate - clock) (1000 * 60 * 60))%Z.

(** A due reminder with its [include]s, as loaded: the user, the
    celebration with its person, the event. *)
Record Due := mkDue {
  due_reminder : ScheduledReminder;
  due_user : option User;
  due_celebration : option (Celebration * option Person);
  due_event : option Event }.

Definition isDue (now : Z) (r : ScheduledReminder) : bool :=
  negb (sent r) && (scheduledFor r <=? now)%Z.

Definition include (s : Store) (r : ScheduledReminder) : Due :=
  mkDue r
    (user_findUnique s (reminder_userId r))
    (match reminder_celebrationId r with
     | Some cid =>
         match find (fun c => String.eqb (celebration_id c) cid) (celebrations s) with
         | Some c => Some (c, person_findUnique s (celebration_personId c))
         | None => None
         end
     | None => None
     end)
    (match reminder_eventId r with
     | Some eid => find (fun e => String.eqb (event_id e) eid) (events s)
     | None => None
     end).

(** [findMany({ where: { sent: false, scheduledFor: { lte: now } }, include, take: 100 })] *)
Definition dueReminders (s : Store) (now : Z) : list Due :=
  map (include s) (firstn 100 (filter (isDue now) (scheduledReminders s))).

(** [prisma.scheduledReminder.update({ where: { id }, data: { sent: true, sentAt: now } })] *)
Definition markSent (id : Id) (now : Z) (r : ScheduledReminder) : ScheduledReminder :=
  if String.eqb (reminder_id r) id
  then mkReminder (reminder_id r) (reminder_userId r) (reminder_celebrationId r)
                  (reminder_eventId r) (scheduledFor r) true (Some now)
  else r.

Definition scheduledReminder_update (id : Id) (now : Z) (s : Store) : Result Store :=
  if existsb (fun r => String.eqb (reminder_id r) id) (scheduledReminders s)
  then Ok (mkStore (users s) (people s) (identities s) (addresses s)
                   (celebrations s) (events s) (eventGuests s)
                   (map (markSent id now) (scheduledReminders s)))
  else Err RecordNotFound.

(** What the collaborators do while one reminder is processed: the time the
    clock shows, the behaviour met by the push for the celebration and by
    the push for the event, and whether the store rejects the final update. *)
Record Behaviour := mkBehaviour {
  clock : Z;
  celebrationPush : PushBehaviour;
  eventPush : PushBehaviour;
  markFails : bool }.

Definition typeError : Error :=
  JsError "TypeError: Cannot read properties of null".

Definition lowerType (t : CelebrationType) : string :=
  match t with
  | BIRTHDAY => "birthday"
  | ANNIVERSARY => "anniversary"
  | LIFE_EVENT => "life_event"
  end.

Definition wantsPush (u : User) : bool :=
  pushEnabled u && match nonEmpty (pushToken u) with Some _ => true | None => false end.

(** The [if (reminder.celebration) { ... }] block. *)
Definition celebrationBlock (b : Behaviour) (d : Due) (s : Store)
    : Result unit * Store * list Effect :=
  match due_celebration d with
  | None => (Ok tt, s, [])
  | Some (c, person) =>
      let daysUntil := getDaysUntil (clock b) (celebration_date c) in
      match person, due_user d with
      | Some p, Some u =>
          let personName := displayName p in
          let line :=
            ConsoleLog ("[REMINDER] Sending to " ++ user_email u ++ ": " ++
                        personName ++ "'s " ++ lowerType (celebration_type c) ++
                        " in " ++ showNumber daysUntil ++ " days") in
          if wantsPush u then
            match sendBirthdayReminder isExpoPushToken (celebrationPush b) s
                    (reminder_userId (due_reminder d)) personName
                    (max0 daysUntil) with
            | (Ok _, s', fx) => (Ok tt, s', line :: fx)
            | (Err e, s', fx) => (Err e, s', line :: fx)
            end
          else (Ok tt, s, [line])
      | _, _ => (Err typeError, s, [])
      end
  end.

(** The [if (reminder.event) { ... }] block. *)
Definition eventBlock (b : Behaviour) (d : Due) (s : Store)
    : Result unit * Store * list Effect :=
  match due_event d with
  | None => (Ok tt, s, [])
  | Some e =>
      let hoursUntil := getHoursUntil (clock b) (event_datetime e) in
      match due_user d with
      | Some u =>
          let line :=
            ConsoleLog ("[REMINDER] Sending to " ++ user_email u ++ ": Event " ++ dquote ++
                        event_title e ++ dquote ++ " in " ++ showNumber hoursUntil ++
                        " hours") in
          if wantsPush u then
            match sendEventReminder isExpoPushToken (eventPush b) s
                    (reminder_userId (due_reminder d)) (event_title e)
                    (max0 hoursUntil) with
            | (Ok _, s', fx) => (Ok tt, s', line :: fx)
            | (Err e, s', fx) => (Err e, s', line :: fx)
            end
          else (Ok tt, s, [line])
      | None => (Err typeError, s, [])
      end
  end.

(** The body of the [try]: both blocks, then the update that marks the
    reminder as sent. *)
Definition tryBody (b : Behaviour) (now : Z) (d : Due) (s : Store)
    : Result unit * Store * list Effect :=
  match celebrationBlock b d s with
  | (Err e, s1, fx1) => (Err e, s1, fx1)
  | (Ok _, s1, fx1) =>
      match eventBlock b d s1 with
      | (Err e, s2, fx2) => (Err e, s2, (fx1 ++ fx2)%list)
      | (Ok _, s2, fx2) =>
          if markFails b then (Err StoreUnavailable, s2, (fx1 ++ fx2)%list)
          else
            match scheduledReminder_update (reminder_id (due_reminder d)) now s2 with
            | Ok s3 => (Ok tt, s3, (fx1 ++ fx2)%list)
            | Err e => (Err e, s2, (fx1 ++ fx2)%list)
            end
      end
  end.

(** The state of the loop: the store, [processedCount], and the effects so
    far, each with the id of the reminder being processed. *)
Record Pass := mkPass {
  pass_store : Store;
  processedCount : nat;
  pass_effects : list (Id * Effect) }.

(** One turn of [for (const reminder of dueReminders) { try {...} catch {...} }]. *)
Definition turn (behave : Id -> Behaviour) (now : Z) (p : Pass) (d : Due) : Pass :=
  let id := reminder_id (due_reminder d) in
  let tag := map (fun e => (id, e)) in
  match tryBody (behave id) now d (pass_store p) with
  | (Ok _, s', fx) =>
      mkPass s' (S (processedCount p)) (pass_effects p ++ tag fx)%list
  | (Err _, s', fx) =>
      mkPass s' (processedCount p)
             (pass_effects p ++ tag fx ++
                [(id, ConsoleError ("Error processing reminder " ++ id ++ ":"))])%list
  end.

(** [processDueReminders]: [now] is the clock at the start of the pass,
    [behave] what the collaborators do for each reminder. *)
Definition processDueReminders (behave : Id -> Behaviour) (now : Z) (s : Store)
    : Pass :=
  fold_left (turn behave now) (dueReminders s now) (mkPass s 0 []).

End Server.

End Notifications.

(** ** routes/celebrations.ts *)

Module Celebrations.
Import Prisma Push JSDate Notifications.

(** The request body of POST / after [createCelebrationSchema.parse]:
    [date] is the [Date] made of the string sent (invalid for a string that
    is no date), [reminderOffsets] has its default filled in. *)
Record CreateBody := mkCreateBody {
  cb_personId : Id;
  cb_type : CelebrationType;
  cb_title : option string;
  cb_date : option Z;
  cb_recurringRule : option string;
  cb_reminderOffsets : list Z }.

(** The request body of PUT /:id after [updateCelebrationSchema.parse]:
    every field may be absent. *)
Record UpdateBody := mkUpdateBody {
  ub_type : option CelebrationType;
  ub_title : option string;
  ub_date : option (option Z);
  ub_recurringRule : option string;
  ub_reminderOffsets : option (list Z) }.

Inductive Reply :=
  | Created (c : Celebration)      (* 201 *)
  | Updated (c : Celebration)      (* 200 *)
  | BadRequest (error : string)    (* 400 *)
  | NotFound (error : string)      (* 404 *)
  | Failed (e : Error).            (* the handler raised *)

Definition withCelebrations (s : Store) (cs : list Celebration) : Store :=
  mkStore (users s) (people s) (identities s) (addresses s) cs (events s)
          (eventGuests s) (scheduledReminders s).

Definition isLifeEvent (t : CelebrationType) : bool :=
  match t with LIFE_EVENT => true | _ => false end.

Definition isYearly (t : CelebrationType) : bool :=
  match t with BIRTHDAY | ANNIVERSARY => true | LIFE_EVENT => false end.

Section Server.
Variable tz : Z.

(** POST /: [newId] is the id the store gives the celebration, [newIds]
    the ids it gives the reminders. *)
Definition createCelebration (newId : Id) (newIds : nat -> Id) (s : Store)
    (userId : Id) (body : CreateBody) : Reply * Store :=
  if isLifeEvent (cb_type body) &&
     match nonEmpty (cb_title body) with Some _ => false | None => true end
  then (BadRequest "Life events require a title", s)
  else
    match person_findFirst s (cb_personId body) userId with
    | None => (NotFound "Person not found", s)
    | Some _ =>
        let recurringRule :=
          if isYearly (cb_type body)
          then Some (match nonEmpty (cb_recurringRule body) with
                     | Some rule => rule
                     | None => "FREQ=YEARLY"
                     end)
          else cb_recurringRule body in
        match cb_date body with
        | None => (Failed (JsError "Invalid value for argument `date`"), s)
        | Some date =>
            let celebration :=
              mkCelebration newId (cb_personId body) (cb_type body)
                            (cb_title body) date recurringRule
                            (cb_reminderOffsets body) in
            let s1 := withCelebrations s (celebrations s ++ [celebration])%list in
            match scheduleCelebrationReminders tz newIds s1 userId
                    (celebration_id celebration) (celebration_date celebration)
                    (reminderOffsets celebration) with
            | (Ok _, s2) => (Created celebration, s2)
            | (Err e, s2) => (Failed e, s2)
            end
        end
    end.

(** [findFirst({ where: { id, person: { userId } } })] *)
Definition celebration_findFirst (s : Store) (id userId : Id) : option Celebration :=
  find (fun c =>
          String.eqb (celebration_id c) id &&
          existsb (fun p => String.eqb (person_id p) (celebration_personId c) &&
                            String.eqb (person_userId p) userId) (people s))
       (celebrations s).

Definition orKeep {A} (o : option A) (old : A) : A :=
  match o with Some v => v | None => old end.

(** [update({ where: { id }, data: body })] on one row: the fields the body
    carries are written, the others kept. *)
Definition applyUpdate (id : Id) (date : option Z) (body : UpdateBody)
    (c : Celebration) : Celebration :=
  if String.eqb (celebration_id c) id
  then mkCelebration (celebration_id c) (celebration_personId c)
         (orKeep (ub_type body) (celebration_type c))
         (match ub_title body with Some t => Some t | None => celebration_title c end)
         (orKeep date (celebration_date c))
         (match ub_recurringRule body with
          | Some rule => Some rule
          | None => recurringRule c
          end)
         (orKeep (ub_reminderOffsets body) (reminderOffsets c))
  else c.

(** PUT /:id *)
Definition updateCelebration (newIds : nat -> Id) (s : Store)
    (userId id : Id) (body : UpdateBody) : Reply * Store :=
  match celebration_findFirst s id userId with
  | None => (NotFound "Celebration not found", s)
  | Some _ =>
      match ub_date body with
      | Some None => (Failed (JsError "Invalid value for argument `date`"), s)
      | _ =>
          let date := match ub_date body with Some d => d | None => None end in
          let s1 := withCelebrations s (map (applyUpdate id date body) (celebrations s)) in
          match find (fun c => String.eqb (celebration_id c) id) (celebrations s1) with
          | None => (Failed RecordNotFound, s)
          | Some updated =>
              match ub_date body, ub_reminderOffsets body with
              | None, None => (Updated updated, s1)
              | _, _ =>
                  match scheduleCelebrationReminders tz newIds s1 userId
                          (celebration_id updated) (celebration_date updated)
                          (reminderOffsets updated) with
                  | (Ok _, s2) => (Updated updated, s2)
                  | (Err e, s2) => (Failed e, s2)
                  end
              end
          end
      end
  end.

(** [getNextOccurrence(originalDate, fromDate)] *)
Definition getNextOccurrence (originalDate fromDate : Z) : option Z :=
  let thisYear := getFullYear tz fromDate in
  let nextDate := Some originalDate in
  let nextDate := setFullYear tz nextDate thisYear in
  if dateLt nextDate (Some fromDate)
  then setFullYear tz nextDate (thisYear + 1)
  else nextDate.

(** [prisma.celebration.delete({ where: { id } })]: the scheduled reminders
    of the celebration go with it (ON DELETE CASCADE). *)
Definition celebration_delete (id : Id) (s : Store) : Result Store :=
  if existsb (fun c => String.eqb (celebration_id c) id) (celebrations s)
  then Ok (mkStore (users s) (people s) (identities s) (addresses s)
             (filter (fun c => negb (String.eqb (celebration_id c) id))
                     (celebrations s))
             (events s) (eventGuests s)
             (filter (fun r => negb (reminderOf id r)) (scheduledReminders s)))
  else Err RecordNotFound.

Inductive DeleteReply :=
  | Success                            (* 200, [{ success: true }] *)
  | DeleteNotFound (error : string)    (* 404 *)
  | DeleteFailed (e : Error).          (* the handler raised *)

(** DELETE /:id *)
Definition deleteCelebration (s : Store) (userId id : Id) : DeleteReply * Store :=
  match celebration_findFirst s id userId with
  | None => (DeleteNotFound "Celebration not found", s)
  | Some _ =>
      match celebration_delete id s with
      | Ok s' => (Success, s')
      | Err e => (DeleteFailed e, s)
      end
  end.

(** [a <= b] on dates: false when one is NaN. *)
Definition dateLe (a b : option Z) : bool :=
  match a, b with
  | Some x, Some y => (x <=? y)%Z
  | _, _ => false
  end.

(** [Array.prototype.sort] with the comparator [key(a) - key(b)]: the sort
    is stable. *)
Fixpoint insertBy {A} (key : A -> Z) (x : A) (l : list A) : list A :=
  match l with
  | [] => [x]
  | y :: rest =>
      if (key y <? key x)%Z then y :: insertBy key x rest else x :: y :: rest
  end.

Definition sortBy {A} (key : A -> Z) (l : list A) : list A :=
  fold_right (insertBy key) [] l.

(** A celebration with [include: { person: true }] and its [nextDate]. *)
Record Upcoming := mkUpcoming {
  up_celebration : Celebration;
  up_person : option Person;
  nextDate : option Z }.

(** [nextDate.getTime()]; the dates that reach the sort are valid. *)
Definition getTime (u : Upcoming) : Z :=
  match nextDate u with Some t => t | None => 0%Z end.

(** GET /upcoming, with [now] the time [new Date()] reads. *)
Definition getUpcoming (s : Store) (userId : Id) (now : Z) : list Upcoming :=
  let thirtyDaysFromNow := setDate tz (Some now) (getDate tz now + 30) in
  let celebrations :=
    filter (fun c =>
              existsb (fun p => String.eqb (person_id p) (celebration_personId c) &&
                                String.eqb (person_userId p) userId) (people s))
           (celebrations s) in
  let withNext :=
    map (fun c =>
           mkUpcoming c (person_findUnique s (celebration_personId c))
             (match nonEmpty (recurringRule c) with
              | Some _ => getNextOccurrence (celebration_date c) now
              | None => Some (celebration_date c)
              end))
        celebrations in
  sortBy getTime
    (filter (fun c => dateLe (Some now) (nextDate c) &&
                      dateLe (nextDate c) thirtyDaysFromNow) withNext).

End Server.

End Celebrations.

(* ================================================================== *)
(** * Part II. Properties                                              *)
(* ================================================================== *)

Module NormalizeFacts.
Import Normalize.

Lemma stripNonDigits_filter (s : string) :
  list_ascii_of_string (stripNonDigits s) =
  filter isDigit (list_ascii_of_string s).
Proof.
  induction s as [|c s IH]; simpl; [reflexivity|].
  destruct (isDigit c); simpl; now rewrite IH.
Qed.

Lemma stripNonDigits_all_digits (s : string) :
  forallb isDigit (list_ascii_of_string (stripNonDigits s)) = true.
Proof.
  rewrite stripNonDigits_filter.
  induction (list_ascii_of_string s) as [|c l IH]; simpl; [reflexivity|].
  destruct (isDigit c) eqn:E; simpl; [now rewrite E|exact IH].
Qed.

(** C8. [normalizePhone] is a total function of its input.  With [d] the
    digits of the input, in order (every other character is stripped):
    ten digits give ["+1"] followed by [d]; eleven digits starting with
    ['1'], or any count above ten, give ["+"] followed by [d]; every other
    count gives ["+"] followed by [d]. *)
Theorem normalizePhone_cases (raw : string) :
  let d := stripNonDigits raw in
  list_ascii_of_string d = filter isDigit (list_ascii_of_string raw) /\
  (String.length d = 10%nat -> normalizePhone raw = "+1" ++ d) /\
  ((String.length d = 11%nat /\ startsWith "1" d = true) \/
   (10 < String.length d)%nat -> normalizePhone raw = "+" ++ d) /\
  ((String.length d < 10)%nat -> normalizePhone raw = "+" ++ d).
Proof.
  cbv zeta. split; [apply stripNonDigits_filter|].
  unfold normalizePhone.
  repeat split.
  - intros H. now rewrite H.
  - intros H.
    destruct (Nat.eqb_spec (String.length (stripNonDigits raw)) 10) as [E|E].
    + exfalso. destruct H as [[H _]|H]; lia.
    + destruct (_ && _); [reflexivity|]. now destruct (_ <? _)%nat.
  - intros H.
    destruct (Nat.eqb_spec (String.length (stripNonDigits raw)) 10) as [E|E];
      [lia|].
    destruct (_ && _); [reflexivity|]. now destruct (_ <? _)%nat.
Qed.

Example normalizePhone_ten :
  normalizePhone "(555) 123-4567" = "+15551234567".
Proof. reflexivity. Qed.

Example normalizePhone_eleven :
  normalizePhone "1-555-123-4567" = "+15551234567".
Proof. reflexivity. Qed.

Example normalizePhone_international :
  normalizePhone "+31 6 1234 5678" = "+31612345678".
Proof. reflexivity. Qed.

Example normalizePhone_short : normalizePhone "call me: 12x" = "+12".
Proof. reflexivity. Qed.

Example normalizePhone_empty : normalizePhone EmptyString = "+".
Proof. reflexivity. Qed.

End NormalizeFacts.

(** ** Merge *)

Module MergeFacts.
Import Prisma Dedup.

Lemma eqb_neq_false (x y : string) : x <> y -> String.eqb x y = false.
Proof. intros H. now apply String.eqb_neq. Qed.

Lemma eqb_eq_true (x y : string) : String.eqb x y = true -> x = y.
Proof. apply String.eqb_eq. Qed.

(** Re-pointing from [b] to [a <> b] leaves no row on [b]. *)
Section Repointed.
Variables a b : Id.
Hypothesis Hab : a <> b.

Lemma repointIdentity_owner (i : Identity) :
  String.eqb (identity_personId (repointIdentity b a i)) b = false.
Proof.
  unfold repointIdentity.
  destruct (String.eqb (identity_personId i) b) eqn:E; simpl;
    [now apply eqb_neq_false | exact E].
Qed.

Lemma repointAddress_owner (x : Address) :
  String.eqb (address_personId (repointAddress b a x)) b = false.
Proof.
  unfold repointAddress.
  destruct (String.eqb (address_personId x) b) eqn:E; simpl;
    [now apply eqb_neq_false | exact E].
Qed.

Lemma repointCelebration_owner (c : Celebration) :
  ownedBy b (repointCelebration b a c) = false.
Proof.
  unfold repointCelebration, ownedBy.
  destruct (String.eqb (celebration_personId c) b) eqn:E; simpl;
    [now apply eqb_neq_false | exact E].
Qed.

Lemma repointGuest_owner (g : EventGuest) :
  optEqb (guest_personId (repointGuest b a g)) b = false.
Proof.
  unfold repointGuest.
  destruct (optEqb (guest_personId g) b) eqn:E; simpl;
    [now apply eqb_neq_false | exact E].
Qed.

Lemma filter_keeps_all {A} (f : A -> bool) (l : list A) :
  (forall x, In x l -> f x = true) -> filter f l = l.
Proof.
  induction l as [|x l IH]; simpl; intros H; [reflexivity|].
  rewrite (H x (or_introl eq_refl)), IH; [reflexivity|].
  intros y Hy. apply H. now right.
Qed.

Lemma filter_drops_all {A} (f : A -> bool) (l : list A) :
  (forall x, In x l -> f x = false) -> filter f l = [].
Proof.
  induction l as [|x l IH]; simpl; intros H; [reflexivity|].
  rewrite (H x (or_introl eq_refl)). apply IH.
  intros y Hy. apply H. now right.
Qed.

Lemma unlink_repointed (gs : list EventGuest) :
  map (unlinkGuest b) (map (repointGuest b a) gs) = map (repointGuest b a) gs.
Proof.
  rewrite map_map. apply map_ext. intros g.
  unfold unlinkGuest. now rewrite repointGuest_owner.
Qed.

Lemma no_reminder_of_deleted (cs : list Celebration) (r : ScheduledReminder) :
  reminderOfDeleted b (map (repointCelebration b a) cs) r = false.
Proof.
  unfold reminderOfDeleted. destruct (reminder_celebrationId r); [|reflexivity].
  induction cs as [|c cs IH]; simpl; [reflexivity|].
  now rewrite repointCelebration_owner, IH.
Qed.

(** The survivor's rows after re-pointing: its own and the donor's. *)
Lemma identities_add (l : list Identity) :
  List.length (filter (fun i => String.eqb (identity_personId i) a)
                 (map (repointIdentity b a) l)) =
  (List.length (filter (fun i => String.eqb (identity_personId i) a) l) +
   List.length (filter (fun i => String.eqb (identity_personId i) b) l))%nat.
Proof.
  induction l as [|i l IH]; simpl; [reflexivity|].
  unfold repointIdentity at 1.
  destruct (String.eqb (identity_personId i) b) eqn:Eb; simpl.
  - rewrite String.eqb_refl. apply eqb_eq_true in Eb. rewrite Eb.
    rewrite (eqb_neq_false b a) by congruence. simpl. lia.
  - destruct (String.eqb (identity_personId i) a); simpl; lia.
Qed.

Lemma addresses_add (l : list Address) :
  List.length (filter (fun x => String.eqb (address_personId x) a)
                 (map (repointAddress b a) l)) =
  (List.length (filter (fun x => String.eqb (address_personId x) a) l) +
   List.length (filter (fun x => String.eqb (address_personId x) b) l))%nat.
Proof.
  induction l as [|i l IH]; simpl; [reflexivity|].
  unfold repointAddress at 1.
  destruct (String.eqb (address_personId i) b) eqn:Eb; simpl.
  - rewrite String.eqb_refl. apply eqb_eq_true in Eb. rewrite Eb.
    rewrite (eqb_neq_false b a) by congruence. simpl. lia.
  - destruct (String.eqb (address_personId i) a); simpl; lia.
Qed.

Lemma celebrations_add (l : list Celebration) :
  List.length (filter (fun c => String.eqb (celebration_personId c) a)
                 (map (repointCelebration b a) l)) =
  (List.length (filter (fun c => String.eqb (celebration_personId c) a) l) +
   List.length (filter (fun c => String.eqb (celebration_personId c) b) l))%nat.
Proof.
  induction l as [|i l IH]; simpl; [reflexivity|].
  unfold repointCelebration at 1.
  destruct (String.eqb (celebration_personId i) b) eqn:Eb; simpl.
  - rewrite String.eqb_refl. apply eqb_eq_true in Eb. rewrite Eb.
    rewrite (eqb_neq_false b a) by congruence. simpl. lia.
  - destruct (String.eqb (celebration_personId i) a); simpl; lia.
Qed.

Lemma guests_add (l : list EventGuest) :
  List.length (filter (fun g => optEqb (guest_personId g) a)
                 (map (repointGuest b a) l)) =
  (List.length (filter (fun g => optEqb (guest_personId g) a) l) +
   List.length (filter (fun g => optEqb (guest_personId g) b) l))%nat.
Proof.
  induction l as [|g l IH]; simpl; [reflexivity|].
  unfold repointGuest at 1.
  destruct (optEqb (guest_personId g) b) eqn:Eb; simpl.
  - rewrite String.eqb_refl.
    destruct (guest_personId g) as [x|]; simpl in *; [|discriminate].
    apply eqb_eq_true in Eb. subst x.
    rewrite (eqb_neq_false b a) by congruence. simpl. lia.
  - destruct (optEqb (guest_personId g) a); simpl; lia.
Qed.

End Repointed.

Lemma findFirst_findUnique (s : Store) (id userId : Id) (p : Person) :
  person_findFirst s id userId = Some p ->
  exists q, person_findUnique s id = Some q.
Proof.
  unfold person_findFirst, person_findUnique. intros H.
  apply find_some in H as [Hin Hp].
  apply andb_true_iff in Hp as [Hid _].
  destruct (find _ (people s)) as [q|] eqn:E; [now exists q|].
  now rewrite (find_none _ _ E p Hin) in Hid.
Qed.

Lemma findUnique_after_delete (id x : Id) (ps : list Person) :
  find (fun p => String.eqb (person_id p) x)
       (filter (fun p => negb (String.eqb (person_id p) id)) ps) =
  if String.eqb x id then None
  else find (fun p => String.eqb (person_id p) x) ps.
Proof.
  induction ps as [|p ps IH]; simpl; [now destruct (String.eqb x id)|].
  destruct (String.eqb (person_id p) id) eqn:E1; simpl.
  - rewrite IH. destruct (String.eqb x id) eqn:E2; [reflexivity|].
    apply eqb_eq_true in E1.
    destruct (String.eqb (person_id p) x) eqn:E3; [|reflexivity].
    apply eqb_eq_true in E3. apply String.eqb_neq in E2. congruence.
  - rewrite IH. destruct (String.eqb x id) eqn:E2; [|reflexivity].
    apply eqb_eq_true in E2. subst x. now rewrite E1.
Qed.

Lemma find_id_sound (x : Id) (ps : list Person) (p : Person) :
  find (fun p => String.eqb (person_id p) x) ps = Some p -> person_id p = x.
Proof. intros H. apply find_some in H as [_ H]. now apply eqb_eq_true. Qed.

(** The donor's row is the only thing the final statement of the batch
    removes once the donor's rows are re-pointed. *)
Lemma merge_batch_commits (s : Store) (a b : Id) (q : Person) :
  a <> b ->
  person_findUnique s b = Some q ->
  runBatch None 0
    [ (fun st => Ok (identity_updateMany b a st));
      (fun st => Ok (address_updateMany b a st));
      (fun st => Ok (celebration_updateMany b a st));
      (fun st => Ok (eventGuest_updateMany b a st));
      person_delete b ] s =
  Ok (mkStore (users s)
        (filter (fun p => negb (String.eqb (person_id p) b)) (people s))
        (map (repointIdentity b a) (identities s))
        (map (repointAddress b a) (addresses s))
        (map (repointCelebration b a) (celebrations s))
        (events s)
        (map (repointGuest b a) (eventGuests s))
        (scheduledReminders s)).
Proof.
  intros Hab Hq. simpl. unfold person_delete, person_findUnique in *. simpl.
  rewrite Hq. f_equal. f_equal.
  - apply filter_keeps_all. intros i Hi. apply in_map_iff in Hi as [i0 [<- _]].
    now rewrite repointIdentity_owner.
  - apply filter_keeps_all. intros x Hx. apply in_map_iff in Hx as [x0 [<- _]].
    now rewrite repointAddress_owner.
  - apply filter_keeps_all. intros c Hc. apply in_map_iff in Hc as [c0 [<- _]].
    now rewrite repointCelebration_owner.
  - now apply unlink_repointed.
  - apply filter_keeps_all. intros r _. now rewrite no_reminder_of_deleted.
Qed.

(** An abort at any statement of the batch, or at the commit, fails it. *)
Lemma merge_batch_aborts (s : Store) (a b : Id) (k : nat) :
  (k <= 5)%nat ->
  exists e,
    runBatch (Some k) 0
      [ (fun st => Ok (identity_updateMany b a st));
        (fun st => Ok (address_updateMany b a st));
        (fun st => Ok (celebration_updateMany b a st));
        (fun st => Ok (eventGuest_updateMany b a st));
        person_delete b ] s = Err e.
Proof.
  intros Hk.
  destruct k as [|[|[|[|[|[|k]]]]]]; try lia; simpl; eauto.
  destruct (person_delete b _); simpl; eauto.
Qed.

(** C1. Merging two distinct persons [a] (survivor) and [b] (donor) of the
    requesting user.  When the transaction commits, the call returns the
    survivor and the store differs from the one before exactly so: every
    identity, address, celebration and event guest that pointed at [b]
    points at [a], nothing else of those rows changes, the donor's row is
    gone and no row refers to it; the survivor then holds its own rows plus
    the donor's.  When the store aborts the transaction, at any of its five
    statements or at the commit, the call raises and the store is the one
    before the call. *)
Theorem mergePeople_all_or_nothing
    (s : Store) (userId a b : Id) (pa pb : Person)
    (Ha : person_findFirst s a userId = Some pa)
    (Hb : person_findFirst s b userId = Some pb)
    (Hab : a <> b) :
  (exists r s',
      mergePeople None s userId a b = (Ok r, s') /\
      person_id (pwr_person r) = a /\
      pwr_identities r = identitiesOf s' a /\
      pwr_addresses r = addressesOf s' a /\
      pwr_celebrations r = celebrationsOf s' a /\
      identities s' = map (repointIdentity b a) (identities s) /\
      addresses s' = map (repointAddress b a) (addresses s) /\
      celebrations s' = map (repointCelebration b a) (celebrations s) /\
      eventGuests s' = map (repointGuest b a) (eventGuests s) /\
      people s' = filter (fun p => negb (String.eqb (person_id p) b)) (people s) /\
      users s' = users s /\ events s' = events s /\
      scheduledReminders s' = scheduledReminders s /\
      person_findUnique s' b = None /\
      identitiesOf s' b = [] /\ addressesOf s' b = [] /\
      celebrationsOf s' b = [] /\ guestsOf s' b = [] /\
      List.length (identitiesOf s' a) =
        (List.length (identitiesOf s a) + List.length (identitiesOf s b))%nat /\
      List.length (addressesOf s' a) =
        (List.length (addressesOf s a) + List.length (addressesOf s b))%nat /\
      List.length (celebrationsOf s' a) =
        (List.length (celebrationsOf s a) + List.length (celebrationsOf s b))%nat /\
      List.length (guestsOf s' a) =
        (List.length (guestsOf s a) + List.length (guestsOf s b))%nat) /\
  (forall k, (k <= 5)%nat ->
      exists e, mergePeople (Some k) s userId a b = (Err e, s)).
Proof.
  destruct (findFirst_findUnique _ _ _ _ Ha) as [qa Hqa].
  destruct (findFirst_findUnique _ _ _ _ Hb) as [qb Hqb].
  split.
  - unfold mergePeople, transaction. rewrite Ha, Hb.
    rewrite (merge_batch_commits s a b qb Hab Hqb).
    set (s' := mkStore _ _ _ _ _ _ _ _).
    assert (Hfa : person_findUnique s' a = Some qa).
    { unfold person_findUnique, s'; simpl. rewrite findUnique_after_delete.
      rewrite (eqb_neq_false a b Hab). exact Hqa. }
    unfold person_findUniqueOrThrow. rewrite Hfa.
    eexists; eexists; split; [reflexivity|]. simpl.
    split; [exact (find_id_sound _ _ _ Hqa)|].
    do 11 (split; [reflexivity|]).
    split.
    { unfold person_findUnique; simpl. rewrite findUnique_after_delete.
      now rewrite String.eqb_refl. }
    unfold identitiesOf, addressesOf, celebrationsOf, guestsOf; simpl.
    repeat split.
    + apply filter_drops_all. intros i Hi. apply in_map_iff in Hi as [i0 [<- _]].
      now apply repointIdentity_owner.
    + apply filter_drops_all. intros i Hi. apply in_map_iff in Hi as [i0 [<- _]].
      now apply repointAddress_owner.
    + apply filter_drops_all. intros i Hi. apply in_map_iff in Hi as [i0 [<- _]].
      now apply (repointCelebration_owner a b Hab).
    + apply filter_drops_all. intros i Hi. apply in_map_iff in Hi as [i0 [<- _]].
      now apply repointGuest_owner.
    + now apply identities_add.
    + now apply addresses_add.
    + now apply celebrations_add.
    + now apply guests_add.
  - intros k Hk. unfold mergePeople, transaction. rewrite Ha, Hb.
    destruct (merge_batch_aborts s a b k Hk) as [e He]. rewrite He.
    now exists e.
Qed.

(** The instance of the specification: A with one identity, B with two
    identities and one celebration, one guest row on B. *)
Definition storeAB : Store :=
  mkStore
    [ mkUser "u1" "demo@moments.app" true None None ]
    [ mkPerson "A" "u1" "Ann" None None; mkPerson "B" "u1" "Ann B." None None ]
    [ mkIdentity "i1" "A" PHONE (Some "+15551230001") None None;
      mkIdentity "i2" "B" PHONE (Some "+15551230002") None None;
      mkIdentity "i3" "B" EMAIL None (Some "ann@example.com") None ]
    []
    [ mkCelebration "c1" "B" BIRTHDAY None 1584230400000 (Some "FREQ=YEARLY")
        [7; 1; 0]%Z ]
    [ mkEvent "e1" "u1" "Dinner" 1767290400000 ]
    [ mkEventGuest "g1" "e1" (Some "B") None PENDING;
      mkEventGuest "g2" "e1" None (Some "Carl") ACCEPTED ]
    [ mkReminder "r1" "u1" (Some "c1") None 1583571600000 false None ].

Lemma mergePeople_all_or_nothing_witness :
  (exists r s',
      mergePeople None storeAB "u1" "A" "B" = (Ok r, s') /\
      List.length (pwr_identities r) = 3%nat /\
      List.length (pwr_celebrations r) = 1%nat /\
      person_findUnique s' "B" = None /\
      guestsOf s' "B" = [] /\
      List.length (guestsOf s' "A") = 1%nat /\
      scheduledReminders s' = scheduledReminders storeAB) /\
  (forall k, (k <= 5)%nat ->
      exists e, mergePeople (Some k) storeAB "u1" "A" "B" = (Err e, storeAB)).
Proof.
  assert (Hab : "A" <> "B") by discriminate.
  destruct (mergePeople_all_or_nothing storeAB "u1" "A" "B"
              (mkPerson "A" "u1" "Ann" None None)
              (mkPerson "B" "u1" "Ann B." None None)
              eq_refl eq_refl Hab) as [Hcommit Habort].
  split; [|exact Habort].
  destruct Hcommit as (r & s' & Hrun & _).
  exists r, s'. split; [exact Hrun|].
  vm_compute in Hrun. inversion Hrun; subst. vm_compute. repeat split.
Defined.

(** C9. A self-merge: with one person [a] of the requesting user given as
    both survivor and donor, the ownership check passes, the committed
    transaction deletes [a] together with its identities, addresses and
    celebrations (and unlinks its guest rows), and the call raises only at
    the final lookup: the store it leaves is not the store it started from. *)
Theorem mergePeople_self_deletes
    (s : Store) (userId a : Id) (pa : Person)
    (Ha : person_findFirst s a userId = Some pa) :
  exists s',
    mergePeople None s userId a a = (Err RecordNotFound, s') /\
    s' <> s /\
    person_findUnique s' a = None /\
    people s' = filter (fun p => negb (String.eqb (person_id p) a)) (people s) /\
    identities s' =
      filter (fun i => negb (String.eqb (identity_personId i) a)) (identities s) /\
    addresses s' =
      filter (fun x => negb (String.eqb (address_personId x) a)) (addresses s) /\
    celebrations s' = filter (fun c => negb (ownedBy a c)) (celebrations s) /\
    eventGuests s' = map (unlinkGuest a) (eventGuests s) /\
    identitiesOf s' a = [] /\ addressesOf s' a = [] /\
    celebrationsOf s' a = [] /\ guestsOf s' a = [].
Proof.
  destruct (findFirst_findUnique _ _ _ _ Ha) as [qa Hqa].
  assert (Hi : map (repointIdentity a a) (identities s) = identities s).
  { rewrite <- (map_id (identities s)) at 2. apply map_ext. intros i.
    unfold repointIdentity. destruct (String.eqb _ a) eqn:E; [|reflexivity].
    apply eqb_eq_true in E. destruct i; simpl in *; now subst. }
  assert (Hx : map (repointAddress a a) (addresses s) = addresses s).
  { rewrite <- (map_id (addresses s)) at 2. apply map_ext. intros i.
    unfold repointAddress. destruct (String.eqb _ a) eqn:E; [|reflexivity].
    apply eqb_eq_true in E. destruct i; simpl in *; now subst. }
  assert (Hc : map (repointCelebration a a) (celebrations s) = celebrations s).
  { rewrite <- (map_id (celebrations s)) at 2. apply map_ext. intros i.
    unfold repointCelebration. destruct (String.eqb _ a) eqn:E; [|reflexivity].
    apply eqb_eq_true in E. destruct i; simpl in *; now subst. }
  assert (Hg : map (repointGuest a a) (eventGuests s) = eventGuests s).
  { rewrite <- (map_id (eventGuests s)) at 2. apply map_ext. intros g.
    unfold repointGuest. destruct (optEqb _ a) eqn:E; [|reflexivity].
    destruct g as [gi ge [x|] gn gs]; simpl in *; [|discriminate].
    apply eqb_eq_true in E. now subst. }
  unfold mergePeople, transaction. rewrite Ha. simpl.
  unfold person_delete, person_findUnique in *. simpl.
  rewrite Hi, Hx, Hc, Hg, Hqa.
  unfold person_findUniqueOrThrow, person_findUnique. simpl.
  rewrite findUnique_after_delete, String.eqb_refl.
  eexists; split; [reflexivity|].
  split.
  { intros Heq. apply (f_equal people) in Heq. simpl in Heq.
    pose proof (find_some _ _ Hqa) as [Hin Hid].
    rewrite <- Heq in Hin. apply filter_In in Hin as [_ Hin].
    now rewrite Hid in Hin. }
  simpl. rewrite findUnique_after_delete, String.eqb_refl.
  do 6 (split; [reflexivity|]).
  unfold identitiesOf, addressesOf, celebrationsOf, guestsOf; simpl.
  repeat split; apply filter_drops_all; intros i Hi'.
  - apply filter_In in Hi' as [_ Hi']. now apply negb_true_iff in Hi'.
  - apply filter_In in Hi' as [_ Hi']. now apply negb_true_iff in Hi'.
  - apply filter_In in Hi' as [_ Hi']. now apply negb_true_iff in Hi'.
  - apply in_map_iff in Hi' as [g [<- _]]. unfold unlinkGuest.
    destruct (optEqb (guest_personId g) a) eqn:E; simpl; [reflexivity|exact E].
Qed.

Lemma mergePeople_self_deletes_witness :
  exists s',
    mergePeople None storeAB "u1" "B" "B" = (Err RecordNotFound, s') /\
    s' <> storeAB /\
    people s' = [ mkPerson "A" "u1" "Ann" None None ] /\
    List.length (identities s') = 1%nat /\
    celebrations s' = [] /\
    scheduledReminders s' = [].
Proof.
  destruct (mergePeople_self_deletes storeAB "u1" "B"
              (mkPerson "B" "u1" "Ann B." None None) eq_refl)
    as (s' & Hrun & Hne & _).
  exists s'. split; [exact Hrun|]. split; [exact Hne|].
  vm_compute in Hrun. inversion Hrun; subst. vm_compute. repeat split.
Defined.

End MergeFacts.

(** ** Duplicate suggestions *)

Module DedupFacts.
Import Prisma Dedup.

(** *** The pair key *)

Lemma pairKey_sorted (a b : Id) :
  pairKey a b = (if String.ltb b a then b ++ "-" ++ a else a ++ "-" ++ b).
Proof. unfold pairKey, sort2. now destruct (String.ltb b a). Qed.

Lemma pairKey_sym (a b : Id) : pairKey a b = pairKey b a.
Proof.
  rewrite !pairKey_sorted. unfold String.ltb.
  rewrite (String.compare_antisym a b).
  destruct (String.compare b a) eqn:E; simpl; try reflexivity.
  apply String.compare_eq_iff in E. now subst.
Qed.

(** Ids whose joined pairs can be told apart.  The generator of the ids is
    not part of the sources at hand; ids free of ['-'] (cuid) and ids of one
    length (uuid) both qualify. *)
Definition Separable (ids : list Id) : Prop :=
  forall a b c d, In a ids -> In b ids -> In c ids -> In d ids ->
    a ++ "-" ++ b = c ++ "-" ++ d -> a = c /\ b = d.

Fixpoint noDash (s : string) : bool :=
  match s with
  | EmptyString => true
  | String c rest => negb (Ascii.eqb c "-") && noDash rest
  end.

Lemma noDash_split (a c b d : string) :
  noDash a = true -> noDash c = true ->
  a ++ "-" ++ b = c ++ "-" ++ d -> a = c /\ b = d.
Proof.
  revert c. induction a as [|x a IH]; intros [|y c] Ha Hc H; simpl in *.
  - now inversion H.
  - inversion H; subst. now rewrite Ascii.eqb_refl in Hc.
  - inversion H; subst. now rewrite Ascii.eqb_refl in Ha.
  - inversion H; subst.
    apply andb_true_iff in Ha as [_ Ha]. apply andb_true_iff in Hc as [_ Hc].
    destruct (IH c Ha Hc H2). now subst.
Qed.

Lemma noDash_separable (ids : list Id) :
  forallb noDash ids = true -> Separable ids.
Proof.
  intros H a b c d Ha _ Hc _. rewrite forallb_forall in H.
  apply noDash_split; now apply H.
Qed.

Lemma sameLength_split (a c t u : string) :
  String.length a = String.length c -> a ++ t = c ++ u -> a = c /\ t = u.
Proof.
  revert c. induction a as [|x a IH]; intros [|y c] Hl H; simpl in *;
    try discriminate.
  - now split.
  - inversion H; subst. destruct (IH c) as [-> ->]; auto.
Qed.

Lemma sameLength_separable (ids : list Id) (n : nat) :
  (forall x, In x ids -> String.length x = n) -> Separable ids.
Proof.
  intros H a b c d Ha _ Hc _ E.
  apply sameLength_split in E; [|now rewrite (H a Ha), (H c Hc)].
  destruct E as [-> E]. now inversion E.
Qed.

(** With separable ids a pair key names one unordered pair. *)
Lemma pairKey_inj (ids : list Id) (a b c d : Id) :
  Separable ids -> In a ids -> In b ids -> In c ids -> In d ids ->
  pairKey a b = pairKey c d -> (a = c /\ b = d) \/ (a = d /\ b = c).
Proof.
  intros Hs Ha Hb Hc Hd. rewrite !pairKey_sorted.
  destruct (String.ltb b a), (String.ltb d c); intros H;
    apply Hs in H; auto; destruct H; subst; auto.
Qed.

(** *** The two maps *)

Local Open Scope list_scope.

Definition getOr (m : JsMap) (k : string) : list PersonWithIdentities :=
  match mapGet m k with Some l => l | None => [] end.

(** What one identity contributes under value [v] of column [sel]. *)
Definition hit (sel : Identity -> option string) (v : string)
    (p : PersonWithIdentities) (i : Identity) : list PersonWithIdentities :=
  match truthy (sel i) with
  | Some w => if String.eqb w v then [p] else []
  | None => []
  end.

(** The persons filed under [v], once per identity carrying [v], in the
    order of the first loop. *)
Definition occ (sel : Identity -> option string) (v : string)
    (ps : list PersonWithIdentities) : list PersonWithIdentities :=
  flat_map (fun p => flat_map (hit sel v p) (pwi_identities p)) ps.

Lemma mapGet_mapSet (m : JsMap) (k v : string) (x : list PersonWithIdentities) :
  mapGet (mapSet m k x) v = if String.eqb k v then Some x else mapGet m v.
Proof.
  induction m as [|[k' x'] m IH]; simpl.
  - now destruct (String.eqb k v).
  - destruct (String.eqb k' k) eqn:E; simpl.
    + apply String.eqb_eq in E. subst k'. now destruct (String.eqb k v).
    + rewrite IH. destruct (String.eqb k' v) eqn:E'; [|reflexivity].
      apply String.eqb_eq in E'. subst k'.
      rewrite String.eqb_sym in E. now rewrite E.
Qed.

Lemma getOr_pushTo (m : JsMap) (k v : string) (p : PersonWithIdentities) :
  getOr (pushTo m k p) v =
  if String.eqb k v then getOr m v ++ [p] else getOr m v.
Proof.
  unfold getOr, pushTo. rewrite mapGet_mapSet.
  destruct (String.eqb k v) eqn:E; [|reflexivity].
  apply String.eqb_eq in E. now subst.
Qed.

Lemma mapGet_In (m : JsMap) (k : string) (l : list PersonWithIdentities) :
  mapGet m k = Some l -> In (k, l) m.
Proof.
  induction m as [|[k' x'] m IH]; simpl; [discriminate|].
  destruct (String.eqb k' k) eqn:E; intros H.
  - apply String.eqb_eq in E. inversion H; subst. now left.
  - right. now apply IH.
Qed.

Lemma in_mapSet (m : JsMap) (k : string) (x : list PersonWithIdentities)
    (e : string * list PersonWithIdentities) :
  In e (mapSet m k x) -> In e m \/ e = (k, x).
Proof.
  induction m as [|[k' x'] m IH]; simpl.
  - intros [H|[]]; auto.
  - destruct (String.eqb k' k); simpl; intros [H|H]; auto.
    destruct (IH H); auto.
Qed.

Lemma getOr_indexIdentity_fst (p : PersonWithIdentities) (maps : JsMap * JsMap)
    (i : Identity) (v : string) :
  getOr (fst (indexIdentity p maps i)) v =
  getOr (fst maps) v ++ hit normalizedPhone v p i.
Proof.
  unfold indexIdentity, hit.
  destruct (truthy (normalizedPhone i)) as [w|];
    destruct (truthy (normalizedEmail i)); simpl;
    rewrite ?getOr_pushTo, ?app_nil_r; try reflexivity;
    destruct (String.eqb w v); now rewrite ?app_nil_r.
Qed.

Lemma getOr_indexIdentity_snd (p : PersonWithIdentities) (maps : JsMap * JsMap)
    (i : Identity) (v : string) :
  getOr (snd (indexIdentity p maps i)) v =
  getOr (snd maps) v ++ hit normalizedEmail v p i.
Proof.
  unfold indexIdentity, hit.
  destruct (truthy (normalizedPhone i));
    destruct (truthy (normalizedEmail i)) as [w|]; simpl;
    rewrite ?getOr_pushTo, ?app_nil_r; try reflexivity;
    destruct (String.eqb w v); now rewrite ?app_nil_r.
Qed.

Lemma getOr_indexPerson (p : PersonWithIdentities) (v : string)
    (maps : JsMap * JsMap) :
  getOr (fst (indexPerson maps p)) v =
    getOr (fst maps) v ++ flat_map (hit normalizedPhone v p) (pwi_identities p) /\
  getOr (snd (indexPerson maps p)) v =
    getOr (snd maps) v ++ flat_map (hit normalizedEmail v p) (pwi_identities p).
Proof.
  unfold indexPerson. revert maps.
  induction (pwi_identities p) as [|i l IH]; intros maps; simpl.
  - now rewrite !app_nil_r.
  - destruct (IH (indexIdentity p maps i)) as [-> ->].
    now rewrite getOr_indexIdentity_fst, getOr_indexIdentity_snd, <- !app_assoc.
Qed.

Lemma getOr_fold (ps : list PersonWithIdentities) (v : string)
    (maps : JsMap * JsMap) :
  getOr (fst (fold_left indexPerson ps maps)) v =
    getOr (fst maps) v ++ occ normalizedPhone v ps /\
  getOr (snd (fold_left indexPerson ps maps)) v =
    getOr (snd maps) v ++ occ normalizedEmail v ps.
Proof.
  revert maps. induction ps as [|p ps IH]; intros maps; simpl.
  - now rewrite !app_nil_r.
  - destruct (IH (indexPerson maps p)) as [-> ->].
    destruct (getOr_indexPerson p v maps) as [-> ->].
    unfold occ. now rewrite <- !app_assoc.
Qed.

(** The maps hold, under each value, exactly the persons carrying it. *)
Lemma buildMaps_occ (ps : list PersonWithIdentities) (v : string) :
  getOr (fst (buildMaps ps)) v = occ normalizedPhone v ps /\
  getOr (snd (buildMaps ps)) v = occ normalizedEmail v ps.
Proof. unfold buildMaps. now destruct (getOr_fold ps v ([], [])) as [-> ->]. Qed.

Lemma getOr_entry (m : JsMap) (v : string) (l : list PersonWithIdentities) :
  getOr m v = l -> l <> [] -> In (v, l) m.
Proof.
  unfold getOr. destruct (mapGet m v) as [x|] eqn:E; intros <- H;
    [now apply mapGet_In | congruence].
Qed.

(** Every list of the maps is drawn from the persons loaded. *)
Definition Within (U : list PersonWithIdentities) (m : JsMap) : Prop :=
  forall e, In e m -> incl (snd e) U.

Lemma Within_pushTo U m k p : Within U m -> In p U -> Within U (pushTo m k p).
Proof.
  intros Hm Hp e He. apply in_mapSet in He as [He| ->]; [now apply Hm|].
  simpl. apply incl_app; [|now intros x [<-|[]]].
  destruct (mapGet m k) as [l|] eqn:E; [|easy].
  exact (Hm _ (mapGet_In _ _ _ E)).
Qed.

Lemma Within_indexIdentity U p maps i :
  In p U -> Within U (fst maps) -> Within U (snd maps) ->
  Within U (fst (indexIdentity p maps i)) /\
  Within U (snd (indexIdentity p maps i)).
Proof.
  intros Hp H1 H2. unfold indexIdentity.
  destruct (truthy (normalizedPhone i)); destruct (truthy (normalizedEmail i));
    simpl; split; auto using Within_pushTo.
Qed.

Lemma Within_indexPerson U p maps :
  In p U -> Within U (fst maps) -> Within U (snd maps) ->
  Within U (fst (indexPerson maps p)) /\ Within U (snd (indexPerson maps p)).
Proof.
  intros Hp. unfold indexPerson. revert maps.
  induction (pwi_identities p) as [|i l IH]; intros maps H1 H2; simpl; [easy|].
  destruct (Within_indexIdentity U p maps i Hp H1 H2). now apply IH.
Qed.

Lemma Within_fold U ps maps :
  incl ps U -> Within U (fst maps) -> Within U (snd maps) ->
  Within U (fst (fold_left indexPerson ps maps)) /\
  Within U (snd (fold_left indexPerson ps maps)).
Proof.
  revert maps. induction ps as [|p ps IH]; intros maps Hps H1 H2; simpl; [easy|].
  destruct (Within_indexPerson U p maps (Hps p (or_introl eq_refl)) H1 H2).
  apply IH; auto. intros x Hx. apply Hps. now right.
Qed.

Lemma buildMaps_within (ps : list PersonWithIdentities) :
  Within ps (fst (buildMaps ps)) /\ Within ps (snd (buildMaps ps)).
Proof. apply Within_fold; [apply incl_refl| |]; intros e []. Qed.

(** *** The two scans *)

(** The key under which a suggestion was recorded. *)
Definition skey (x : DuplicateSuggestion) : string :=
  pairKey (pid (person1 x)) (pid (person2 x)).

(** [seenPairs] is the set of keys of the suggestions, each recorded once. *)
Record AccOk (acc : Acc) : Prop := mkAccOk {
  keys_nodup : NoDup (map skey (suggestions acc));
  seen_keys : forall k, In k (seenPairs acc) <-> In k (map skey (suggestions acc)) }.

(** [acc'] continues [acc]: suggestions are only appended, each of type [t]
    and between persons of [U]; no key is forgotten. *)
Definition Grows (t : MatchType) (U : list PersonWithIdentities)
    (acc acc' : Acc) : Prop :=
  (exists new,
      suggestions acc' = suggestions acc ++ new /\
      Forall (fun x => matchType x = t /\ In (person1 x) U /\ In (person2 x) U)
             new) /\
  (forall k, In k (seenPairs acc) -> In k (seenPairs acc')).

Lemma Grows_refl t U acc : Grows t U acc acc.
Proof. split; [exists []; now rewrite app_nil_r | auto]. Qed.

Lemma Grows_trans t U a b c : Grows t U a b -> Grows t U b c -> Grows t U a c.
Proof.
  intros [(n1 & E1 & F1) M1] [(n2 & E2 & F2) M2]. split; [|auto].
  exists (n1 ++ n2). rewrite E2, E1, app_assoc. split; [reflexivity|].
  apply Forall_app. now split.
Qed.

Lemma has_In (seen : list string) (k : string) : has seen k = true <-> In k seen.
Proof.
  unfold has. rewrite existsb_exists. split.
  - intros (x & Hx & E). apply String.eqb_eq in E. now subst.
  - intros H. exists k. split; [exact H | apply String.eqb_refl].
Qed.

Lemma visit_ok t v U x y acc :
  In x U -> In y U -> AccOk acc ->
  let acc' := visit t v x acc y in
  AccOk acc' /\ Grows t U acc acc' /\
  In (pairKey (pid x) (pid y)) (seenPairs acc').
Proof.
  intros Hx Hy [Hnd Hseen]. unfold visit.
  destruct (has (seenPairs acc) (pairKey (pid x) (pid y))) eqn:E; cbv zeta.
  - apply has_In in E.
    split; [now split|]. split; [apply Grows_refl | exact E].
  - assert (Hnew : ~ In (pairKey (pid x) (pid y)) (seenPairs acc)).
    { intros H. apply has_In in H. congruence. }
    split; [|split].
    + split; simpl.
      * rewrite map_app. simpl.
        apply NoDup_app; [exact Hnd | repeat constructor; easy |].
        intros k Hk1 [<-|[]]. apply Hnew. now apply Hseen.
      * intros k. rewrite map_app, in_app_iff. simpl. rewrite Hseen.
        unfold skey at 2. simpl. tauto.
    + split; simpl; [|now right].
      eexists; split; [reflexivity|]. repeat constructor; assumption.
    + simpl. now left.
Qed.

Lemma fold_visit_ok t v U x rest acc :
  In x U -> incl rest U -> AccOk acc ->
  let acc' := fold_left (visit t v x) rest acc in
  AccOk acc' /\ Grows t U acc acc' /\
  forall y, In y rest -> In (pairKey (pid x) (pid y)) (seenPairs acc').
Proof.
  intros Hx. revert acc. induction rest as [|y rest IH]; intros acc Hr Hok; simpl.
  - split; [exact Hok|]. split; [apply Grows_refl | easy].
  - destruct (visit_ok t v U x y acc Hx (Hr y (or_introl eq_refl)) Hok)
      as (Hok1 & Hg1 & Hk1).
    destruct (IH (visit t v x acc y)) as (Hok2 & Hg2 & Hk2); auto.
    { intros z Hz. apply Hr. now right. }
    split; [exact Hok2|]. split; [eapply Grows_trans; eauto|].
    intros z [<-|Hz]; [|now apply Hk2].
    now apply (proj2 Hg2).
Qed.

(** After the double loop over [l], the key of every two positions
    [i < j] of [l] is among the seen ones. *)
Lemma scanPairs_ok t v U l acc :
  incl l U -> AccOk acc ->
  let acc' := scanPairs t v l acc in
  AccOk acc' /\ Grows t U acc acc' /\
  forall l1 x l2 y l3, l = l1 ++ x :: l2 ++ y :: l3 ->
    In (pairKey (pid x) (pid y)) (seenPairs acc').
Proof.
  revert acc. induction l as [|x0 l IH]; intros acc Hl Hok; simpl.
  - split; [exact Hok|]. split; [apply Grows_refl|].
    intros [|? ?] ? ? ? ? H; discriminate.
  - assert (Hx0 : In x0 U) by (apply Hl; now left).
    assert (Hl' : incl l U) by (intros z Hz; apply Hl; now right).
    destruct (fold_visit_ok t v U x0 l acc Hx0 Hl' Hok) as (Hok1 & Hg1 & Hk1).
    destruct (IH _ Hl' Hok1) as (Hok2 & Hg2 & Hk2).
    split; [exact Hok2|]. split; [eapply Grows_trans; eauto|].
    intros [|z l1] x l2 y l3 E; simpl in E; inversion E; subst.
    + apply (proj2 Hg2). apply Hk1. rewrite in_app_iff. right. now left.
    + eapply Hk2. reflexivity.
Qed.

Lemma scanMap_ok t U m acc :
  Within U m -> AccOk acc ->
  let acc' := scanMap t m acc in
  AccOk acc' /\ Grows t U acc acc' /\
  forall v l l1 x l2 y l3, In (v, l) m -> l = l1 ++ x :: l2 ++ y :: l3 ->
    In (pairKey (pid x) (pid y)) (seenPairs acc').
Proof.
  unfold scanMap. revert acc.
  induction m as [|[v0 l0] m IH]; intros acc Hm Hok; simpl.
  - split; [exact Hok|]. split; [apply Grows_refl | easy].
  - assert (Hl0 : incl l0 U) by (apply (Hm (v0, l0)); now left).
    assert (Hm' : Within U m) by (intros e He; apply Hm; now right).
    assert (H1 : AccOk (scanEntry t acc (v0, l0)) /\
                 Grows t U acc (scanEntry t acc (v0, l0)) /\
                 forall l1 x l2 y l3, l0 = l1 ++ x :: l2 ++ y :: l3 ->
                   In (pairKey (pid x) (pid y))
                      (seenPairs (scanEntry t acc (v0, l0)))).
    { unfold scanEntry. cbn [fst snd].
      destruct (Nat.leb_spec 2 (List.length l0)) as [Hlen|Hlen].
      - now apply scanPairs_ok.
      - split; [exact Hok|]. split; [apply Grows_refl|].
        intros l1 x l2 y l3 ->. rewrite length_app in Hlen. simpl in Hlen.
        rewrite length_app in Hlen. simpl in Hlen. lia. }
    destruct H1 as (Hok1 & Hg1 & Hk1).
    destruct (IH _ Hm' Hok1) as (Hok2 & Hg2 & Hk2).
    split; [exact Hok2|]. split; [eapply Grows_trans; eauto|].
    intros v l l1 x l2 y l3 [E|Hin] Hl.
    + inversion E; subst. apply (proj2 Hg2). eapply Hk1. reflexivity.
    + eapply Hk2; eauto.
Qed.

(** *** The result *)

Definition relates (x : DuplicateSuggestion) (a b : Id) : Prop :=
  (pid (person1 x) = a /\ pid (person2 x) = b) \/
  (pid (person1 x) = b /\ pid (person2 x) = a).

Lemma relates_key x a b : relates x a b -> skey x = pairKey a b.
Proof.
  unfold skey. intros [[-> ->]|[-> ->]]; [reflexivity | apply pairKey_sym].
Qed.

Lemma accOk_empty : AccOk (mkAcc [] []).
Proof. split; simpl; [constructor | tauto]. Qed.

Lemma findMany_ids (s : Store) (userId : Id) (x : PersonWithIdentities) :
  In x (person_findMany s userId) -> In (pid x) (map person_id (people s)).
Proof.
  unfold person_findMany. intros H.
  apply in_map_iff in H as (p & <- & Hp). apply filter_In in Hp as [Hp _].
  unfold pid. simpl. now apply in_map.
Qed.

Lemma findMany_person (s : Store) (userId : Id) (P : Person) :
  In P (people s) -> person_userId P = userId ->
  In (mkPWI P (filter (fun i => String.eqb (identity_personId i) (person_id P))
                      (identities s)))
     (person_findMany s userId).
Proof.
  intros HP Hu. unfold person_findMany.
  apply in_map_iff. exists P. split; [reflexivity|].
  apply filter_In. split; [exact HP|]. subst. apply String.eqb_refl.
Qed.

Lemma hit_In sel v (p : PersonWithIdentities) (i : Identity)
    (ps : list PersonWithIdentities) :
  In p ps -> In i (pwi_identities p) -> truthy (sel i) = Some v ->
  In p (occ sel v ps).
Proof.
  intros Hp Hi Hv. unfold occ. apply in_flat_map. exists p. split; [exact Hp|].
  apply in_flat_map. exists i. split; [exact Hi|].
  unfold hit. rewrite Hv, String.eqb_refl. now left.
Qed.

Lemma two_in_split {A} (l : list A) (p q : A) :
  In p l -> In q l -> p <> q ->
  exists l1 x l2 y l3, l = l1 ++ x :: l2 ++ y :: l3 /\
    ((x = p /\ y = q) \/ (x = q /\ y = p)).
Proof.
  intros Hp Hq Hne.
  apply in_split in Hp as (l1 & l2 & ->).
  apply in_app_or in Hq as [Hq|[Hq|Hq]]; [|congruence|].
  - apply in_split in Hq as (m1 & m2 & ->).
    exists m1, q, m2, p, l2. rewrite <- app_assoc. simpl. auto.
  - apply in_split in Hq as (m1 & m2 & ->).
    exists l1, p, m1, q, m2. auto.
Qed.

Lemma occ_twice sel v (p : PersonWithIdentities) (ps : list PersonWithIdentities)
    (a1 a2 a3 : list Identity) (i1 i2 : Identity) :
  In p ps -> pwi_identities p = a1 ++ i1 :: a2 ++ i2 :: a3 ->
  truthy (sel i1) = Some v -> truthy (sel i2) = Some v ->
  exists l1 l2 l3, occ sel v ps = l1 ++ p :: l2 ++ p :: l3.
Proof.
  intros Hp Hids H1 H2. apply in_split in Hp as (ps1 & ps2 & ->).
  assert (Hh1 : hit sel v p i1 = [p])
    by (unfold hit; now rewrite H1, String.eqb_refl).
  assert (Hh2 : hit sel v p i2 = [p])
    by (unfold hit; now rewrite H2, String.eqb_refl).
  unfold occ. rewrite flat_map_app. cbn [flat_map]. rewrite Hids.
  rewrite flat_map_app. cbn [flat_map]. rewrite flat_map_app. cbn [flat_map].
  rewrite Hh1, Hh2.
  exists (flat_map (fun q => flat_map (hit sel v q) (pwi_identities q)) ps1
            ++ flat_map (hit sel v p) a1),
         (flat_map (hit sel v p) a2),
         (flat_map (hit sel v p) a3
            ++ flat_map (fun q => flat_map (hit sel v q) (pwi_identities q)) ps2).
  rewrite <- !app_assoc. simpl. now rewrite <- ?app_assoc.
Qed.

Section Run.
Variables (s : Store) (userId : Id).

Let ps := person_findMany s userId.
Let acc1 := scanMap phone (fst (buildMaps ps)) (mkAcc [] []).
Let acc2 := scanMap email (snd (buildMaps ps)) acc1.

Lemma run_out : getSuggestedDuplicates s userId = suggestions acc2.
Proof. reflexivity. Qed.

Lemma run_keys_nodup : NoDup (map skey (getSuggestedDuplicates s userId)).
Proof.
  rewrite run_out.
  destruct (buildMaps_within ps) as [W1 W2].
  destruct (scanMap_ok phone ps _ _ W1 accOk_empty) as (Hok1 & _).
  destruct (scanMap_ok email ps _ _ W2 Hok1) as (Hok2 & _).
  exact (keys_nodup _ Hok2).
Qed.

(** Two positions of one phone list end as one suggestion of type 'phone'. *)
Lemma run_phone_hit v l1 x l2 y l3 :
  occ normalizedPhone v ps = l1 ++ x :: l2 ++ y :: l3 ->
  exists z, In z (getSuggestedDuplicates s userId) /\
    skey z = pairKey (pid x) (pid y) /\ matchType z = phone /\
    In (person1 z) ps /\ In (person2 z) ps.
Proof.
  intros Hocc. rewrite run_out.
  destruct (buildMaps_within ps) as [W1 W2].
  destruct (scanMap_ok phone ps _ _ W1 accOk_empty) as (Hok1 & Hg1 & Hk1).
  destruct (scanMap_ok email ps _ _ W2 Hok1) as (Hok2 & Hg2 & _).
  fold acc1 in Hok1, Hg1, Hk1, Hok2, Hg2. fold acc2 in Hok2, Hg2.
  assert (Hentry : In (v, occ normalizedPhone v ps) (fst (buildMaps ps))).
  { apply getOr_entry; [apply buildMaps_occ|].
    rewrite Hocc. now destruct l1. }
  specialize (Hk1 _ _ _ _ _ _ _ Hentry Hocc).
  apply (seen_keys _ Hok1) in Hk1.
  apply in_map_iff in Hk1 as (z & Hz & Hin).
  destruct Hg1 as [(n1 & E1 & F1) _]. destruct Hg2 as [(n2 & E2 & _) _].
  simpl in E1. rewrite E1 in Hin.
  rewrite Forall_forall in F1. destruct (F1 z Hin) as (Ht & Hp1 & Hp2).
  exists z. rewrite E2, E1. simpl. rewrite in_app_iff. auto.
Qed.

(** Two positions of one email list end as one suggestion, of either type. *)
Lemma run_email_hit v l1 x l2 y l3 :
  occ normalizedEmail v ps = l1 ++ x :: l2 ++ y :: l3 ->
  exists z, In z (getSuggestedDuplicates s userId) /\
    skey z = pairKey (pid x) (pid y) /\
    In (person1 z) ps /\ In (person2 z) ps.
Proof.
  intros Hocc. rewrite run_out.
  destruct (buildMaps_within ps) as [W1 W2].
  destruct (scanMap_ok phone ps _ _ W1 accOk_empty) as (Hok1 & Hg1 & _).
  destruct (scanMap_ok email ps _ _ W2 Hok1) as (Hok2 & Hg2 & Hk2).
  fold acc1 in Hok1, Hg1, Hok2, Hg2, Hk2. fold acc2 in Hok2, Hg2, Hk2.
  assert (Hentry : In (v, occ normalizedEmail v ps) (snd (buildMaps ps))).
  { apply getOr_entry; [apply buildMaps_occ|].
    rewrite Hocc. now destruct l1. }
  specialize (Hk2 _ _ _ _ _ _ _ Hentry Hocc).
  apply (seen_keys _ Hok2) in Hk2.
  apply in_map_iff in Hk2 as (z & Hz & Hin).
  destruct Hg1 as [(n1 & E1 & F1) _]. destruct Hg2 as [(n2 & E2 & F2) _].
  simpl in E1. exists z. split; [exact Hin|]. split; [exact Hz|].
  rewrite E2, E1 in Hin. simpl in Hin. rewrite Forall_forall in F1, F2.
  apply in_app_or in Hin as [Hin|Hin]; [apply F1 in Hin | apply F2 in Hin];
    tauto.
Qed.

End Run.

(** [P] is a person of the user. *)
Definition Owned (s : Store) (userId : Id) (P : Person) : Prop :=
  In P (people s) /\ person_userId P = userId.

(** [P] and [Q] each own an identity carrying the same value in column [sel]. *)
Definition Shares (sel : Identity -> option string) (s : Store)
    (P Q : Person) : Prop :=
  exists i j v,
    In i (identities s) /\ In j (identities s) /\
    identity_personId i = person_id P /\ identity_personId j = person_id Q /\
    truthy (sel i) = Some v /\ truthy (sel j) = Some v.

Lemma owned_identity (s : Store) (P : Person) (i : Identity) :
  In i (identities s) -> identity_personId i = person_id P ->
  In i (filter (fun i => String.eqb (identity_personId i) (person_id P))
               (identities s)).
Proof.
  intros Hi E. apply filter_In. split; [exact Hi|].
  rewrite E. apply String.eqb_refl.
Qed.

Lemma relates_of_key (s : Store) (userId : Id) (z : DuplicateSuggestion)
    (P Q : Person) :
  Separable (map person_id (people s)) ->
  In P (people s) -> In Q (people s) ->
  In (person1 z) (person_findMany s userId) ->
  In (person2 z) (person_findMany s userId) ->
  skey z = pairKey (person_id P) (person_id Q) ->
  relates z (person_id P) (person_id Q).
Proof.
  intros Hs HP HQ H1 H2 Hk. unfold skey in Hk.
  apply (pairKey_inj _ _ _ _ _ Hs) in Hk;
    [exact Hk | eauto using findMany_ids, in_map ..].
Qed.

(** C2 (as amended). One set of seen pair keys serves both scans, so
    (1) no unordered pair is returned twice, whatever the match types, and
    (2) two distinct persons of the user who share a normalized phone -
    whether or not they share an email as well - are returned exactly once,
    with matchType 'phone'.  (2) is for ids whose joined pairs are told
    apart, see [Separable]. *)
Theorem suggestions_once_per_pair (s : Store) (userId : Id) :
  let out := getSuggestedDuplicates s userId in
  (forall i j x y,
      nth_error out i = Some x -> nth_error out j = Some y ->
      relates x (pid (person1 y)) (pid (person2 y)) -> i = j) /\
  (forall P Q,
      Separable (map person_id (people s)) ->
      Owned s userId P -> Owned s userId Q -> person_id P <> person_id Q ->
      Shares normalizedPhone s P Q ->
      exists i x,
        nth_error out i = Some x /\ matchType x = phone /\
        relates x (person_id P) (person_id Q) /\
        forall j y, nth_error out j = Some y ->
          relates y (person_id P) (person_id Q) -> j = i).
Proof.
  cbv zeta.
  assert (Huniq : forall i j x y,
      nth_error (getSuggestedDuplicates s userId) i = Some x ->
      nth_error (getSuggestedDuplicates s userId) j = Some y ->
      skey x = skey y -> i = j).
  { intros i j x y Hi Hj Hk.
    pose proof (run_keys_nodup s userId) as Hnd.
    rewrite NoDup_nth_error in Hnd. apply Hnd.
    - rewrite length_map. apply nth_error_Some. congruence.
    - rewrite !nth_error_map, Hi, Hj. simpl. now rewrite Hk. }
  split.
  - intros i j x y Hi Hj Hr. apply (Huniq i j x y Hi Hj).
    now apply relates_key.
  - intros P Q Hsep [HP HuP] [HQ HuQ] Hne (iP & iQ & v & H1 & H2 & H3 & H4 & H5 & H6).
    set (ps := person_findMany s userId).
    pose proof (findMany_person s userId P HP HuP) as HPin.
    pose proof (findMany_person s userId Q HQ HuQ) as HQin.
    set (P' := mkPWI P _) in HPin. set (Q' := mkPWI Q _) in HQin.
    assert (HoP : In P' (occ normalizedPhone v ps)).
    { apply (hit_In _ _ _ iP); auto. now apply owned_identity. }
    assert (HoQ : In Q' (occ normalizedPhone v ps)).
    { apply (hit_In _ _ _ iQ); auto. now apply owned_identity. }
    assert (Hne' : P' <> Q').
    { intros E. apply (f_equal pid) in E. now apply Hne. }
    destruct (two_in_split _ _ _ HoP HoQ Hne')
      as (l1 & x & l2 & y & l3 & Hocc & Hxy).
    destruct (run_phone_hit s userId v l1 x l2 y l3 Hocc)
      as (z & Hz & Hkz & Htz & Hz1 & Hz2).
    assert (Hkey : skey z = pairKey (person_id P) (person_id Q)).
    { rewrite Hkz. destruct Hxy as [[-> ->]|[-> ->]];
        [reflexivity | apply pairKey_sym]. }
    apply In_nth_error in Hz as [i Hi].
    exists i, z. split; [exact Hi|]. split; [exact Htz|].
    split; [now apply (relates_of_key s userId)|].
    intros j y' Hj Hr. apply (Huniq j i y' z Hj Hi).
    rewrite Hkey. now apply relates_key.
Qed.

(** With unique person ids, a loaded person is known by its id. *)
Lemma findMany_unique (s : Store) (userId : Id) (x : PersonWithIdentities)
    (P : Person) :
  NoDup (map person_id (people s)) -> In P (people s) ->
  In x (person_findMany s userId) -> pid x = person_id P ->
  x = mkPWI P (filter (fun i => String.eqb (identity_personId i) (person_id P))
                      (identities s)).
Proof.
  intros Hnd HP Hx Hid. unfold person_findMany in Hx.
  apply in_map_iff in Hx as (p & <- & Hp). apply filter_In in Hp as [Hp _].
  unfold pid in Hid. simpl in Hid.
  assert (p = P); [|now subst].
  clear - Hnd HP Hp Hid. induction (people s) as [|q l IH]; [contradiction|].
  simpl in Hnd. inversion Hnd as [|? ? Hq Hl]; subst.
  destruct Hp as [->|Hp], HP as [->|HP]; auto.
  - exfalso. apply Hq. rewrite Hid. now apply in_map.
  - exfalso. apply Hq. rewrite <- Hid. now apply in_map.
Qed.

Lemma filter_two {A} (f : A -> bool) (a1 a2 a3 : list A) (x y : A) :
  f x = true -> f y = true ->
  filter f (a1 ++ x :: a2 ++ y :: a3) =
  filter f a1 ++ x :: filter f a2 ++ y :: filter f a3.
Proof.
  intros Hx Hy. rewrite filter_app. simpl. rewrite Hx, filter_app. simpl.
  now rewrite Hy.
Qed.

(** C10. A person of the user with two identities carrying one normalized
    phone, or one normalized email, is suggested as a duplicate of itself:
    the result has a suggestion whose [person1] and [person2] carry that
    person's id.  (For ids whose joined pairs are told apart.) *)
Theorem self_suggestion (s : Store) (userId : Id) (P : Person)
    (i1 i2 : Identity) (a1 a2 a3 : list Identity) (v : string)
    (Hsep : Separable (map person_id (people s)))
    (HP : Owned s userId P)
    (Hids : identities s = a1 ++ i1 :: a2 ++ i2 :: a3)
    (H1 : identity_personId i1 = person_id P)
    (H2 : identity_personId i2 = person_id P)
    (Hv : (truthy (normalizedPhone i1) = Some v /\
           truthy (normalizedPhone i2) = Some v) \/
          (truthy (normalizedEmail i1) = Some v /\
           truthy (normalizedEmail i2) = Some v)) :
  exists x,
    In x (getSuggestedDuplicates s userId) /\
    pid (person1 x) = person_id P /\ pid (person2 x) = person_id P /\
    (NoDup (map person_id (people s)) ->
     pwi_person (person1 x) = P /\ person2 x = person1 x).
Proof.
  destruct HP as [HP Hu].
  pose proof (findMany_person s userId P HP Hu) as HPin.
  set (own := fun i => String.eqb (identity_personId i) (person_id P)) in *.
  set (P' := mkPWI P (filter own (identities s))) in *.
  assert (Hown : pwi_identities P' =
                 filter own a1 ++ i1 :: filter own a2 ++ i2 :: filter own a3).
  { unfold P'. simpl. rewrite Hids. apply filter_two; unfold own.
    - rewrite H1. apply String.eqb_refl.
    - rewrite H2. apply String.eqb_refl. }
  assert (Hz : exists z, In z (getSuggestedDuplicates s userId) /\
             skey z = pairKey (pid P') (pid P') /\
             In (person1 z) (person_findMany s userId) /\
             In (person2 z) (person_findMany s userId)).
  { destruct Hv as [[Hv1 Hv2]|[Hv1 Hv2]].
    - destruct (occ_twice normalizedPhone v P' _ _ _ _ _ _ HPin Hown Hv1 Hv2)
        as (l1 & l2 & l3 & Hocc).
      destruct (run_phone_hit s userId v _ _ _ _ _ Hocc) as (z & ? & ? & ? & ? & ?).
      now exists z.
    - destruct (occ_twice normalizedEmail v P' _ _ _ _ _ _ HPin Hown Hv1 Hv2)
        as (l1 & l2 & l3 & Hocc).
      destruct (run_email_hit s userId v _ _ _ _ _ Hocc) as (z & ? & ? & ? & ?).
      now exists z. }
  destruct Hz as (z & Hin & Hk & Hz1 & Hz2).
  exists z. split; [exact Hin|].
  assert (Hpid : pid (person1 z) = person_id P /\ pid (person2 z) = person_id P).
  { destruct (relates_of_key s userId z P P Hsep HP HP Hz1 Hz2 Hk) as [H|H];
      tauto. }
  split; [tauto|]. split; [tauto|].
  intros Hnd. destruct Hpid as [Hp1 Hp2].
  rewrite (findMany_unique s userId _ P Hnd HP Hz1 Hp1).
  rewrite (findMany_unique s userId _ P Hnd HP Hz2 Hp2).
  split; reflexivity.
Qed.

(** Ann and Bob share a phone and an email. *)
Definition storeBoth : Store :=
  mkStore
    [ mkUser "u1" "demo@moments.app" true None None ]
    [ mkPerson "pa" "u1" "Ann" None None; mkPerson "pb" "u1" "Bob" None None ]
    [ mkIdentity "i1" "pa" PHONE (Some "+15551234567") None None;
      mkIdentity "i2" "pb" PHONE (Some "+15551234567") None None;
      mkIdentity "i3" "pa" EMAIL None (Some "home@example.com") None;
      mkIdentity "i4" "pb" EMAIL None (Some "home@example.com") None ]
    [] [] [] [] [].

Definition ann : Person := mkPerson "pa" "u1" "Ann" None None.
Definition bob : Person := mkPerson "pb" "u1" "Bob" None None.

Lemma storeBoth_shares :
  Owned storeBoth "u1" ann /\ Owned storeBoth "u1" bob /\
  person_id ann <> person_id bob /\
  Shares normalizedPhone storeBoth ann bob /\
  Shares normalizedEmail storeBoth ann bob.
Proof.
  split; [split; [now left | reflexivity]|].
  split; [split; [right; now left | reflexivity]|].
  split; [discriminate|]. split.
  - exists (mkIdentity "i1" "pa" PHONE (Some "+15551234567") None None),
           (mkIdentity "i2" "pb" PHONE (Some "+15551234567") None None),
           "+15551234567"%string.
    simpl. tauto.
  - exists (mkIdentity "i3" "pa" EMAIL None (Some "home@example.com") None),
           (mkIdentity "i4" "pb" EMAIL None (Some "home@example.com") None),
           "home@example.com"%string.
    simpl. tauto.
Qed.

(** C2 as stated fails: Ann and Bob share a phone and an email, yet the
    pair is returned once only, under 'phone'; there is no suggestion of
    type 'email' for it. *)
Lemma pair_on_both_returned_once :
  Owned storeBoth "u1" ann /\ Owned storeBoth "u1" bob /\
  person_id ann <> person_id bob /\
  Shares normalizedPhone storeBoth ann bob /\
  Shares normalizedEmail storeBoth ann bob /\
  map (fun x => (pid (person1 x), pid (person2 x), matchType x, matchValue x))
      (getSuggestedDuplicates storeBoth "u1") =
    [ ("pa", "pb", phone, "+15551234567") ]%string /\
  ~ (exists x, In x (getSuggestedDuplicates storeBoth "u1") /\
               matchType x = email /\
               relates x (person_id ann) (person_id bob)).
Proof.
  destruct storeBoth_shares as (H1 & H2 & H3 & H4 & H5).
  do 5 (split; [assumption|]).
  split; [reflexivity|].
  intros (x & Hin & Ht & _). vm_compute in Hin.
  destruct Hin as [<-|[]]. discriminate.
Qed.

Lemma storeBoth_separable : Separable (map person_id (people storeBoth)).
Proof. now apply noDash_separable. Qed.

Lemma suggestions_once_per_pair_witness :
  exists i x,
    nth_error (getSuggestedDuplicates storeBoth "u1") i = Some x /\
    matchType x = phone /\
    relates x (person_id ann) (person_id bob) /\
    forall j y, nth_error (getSuggestedDuplicates storeBoth "u1") j = Some y ->
      relates y (person_id ann) (person_id bob) -> j = i.
Proof.
  destruct storeBoth_shares as (H1 & H2 & H3 & H4 & _).
  exact (proj2 (suggestions_once_per_pair storeBoth "u1")
           ann bob storeBoth_separable H1 H2 H3 H4).
Defined.

(** Carl has two identities with one phone number. *)
Definition storeTwice : Store :=
  mkStore
    [ mkUser "u1" "demo@moments.app" true None None ]
    [ mkPerson "pc" "u1" "Carl" None None ]
    [ mkIdentity "i1" "pc" PHONE (Some "+15551234567") None None;
      mkIdentity "i2" "pc" MANUAL (Some "+15551234567") None None ]
    [] [] [] [] [].

Lemma self_suggestion_witness :
  exists x,
    In x (getSuggestedDuplicates storeTwice "u1") /\
    pid (person1 x) = "pc"%string /\ pid (person2 x) = "pc"%string /\
    (NoDup (map person_id (people storeTwice)) ->
     pwi_person (person1 x) = mkPerson "pc" "u1" "Carl" None None /\
     person2 x = person1 x).
Proof.
  apply (self_suggestion storeTwice "u1" (mkPerson "pc" "u1" "Carl" None None)
           (mkIdentity "i1" "pc" PHONE (Some "+15551234567") None None)
           (mkIdentity "i2" "pc" MANUAL (Some "+15551234567") None None)
           [] [] [] "+15551234567").
  - now apply noDash_separable.
  - split; [now left | reflexivity].
  - reflexivity.
  - reflexivity.
  - reflexivity.
  - left. split; reflexivity.
Defined.

Example carl_suggested_with_himself :
  map (fun x => (pid (person1 x), pid (person2 x), matchType x))
      (getSuggestedDuplicates storeTwice "u1") = [ ("pc", "pc", phone) ]%string.
Proof. reflexivity. Qed.

(** Why [Separable] is asked for: with ids that contain ['-'] two pairs can
    have one key, and the second pair is then skipped as seen. *)
Example pair_key_collision :
  pairKey "a" "b-c" = pairKey "a-b" "c" /\
  map (fun x => (pid (person1 x), pid (person2 x), matchType x))
      (getSuggestedDuplicates
         (mkStore []
            [ mkPerson "a" "u1" "A" None None; mkPerson "b-c" "u1" "B" None None;
              mkPerson "a-b" "u1" "C" None None; mkPerson "c" "u1" "D" None None ]
            [ mkIdentity "i1" "a" PHONE (Some "+15550000001") None None;
              mkIdentity "i2" "b-c" PHONE (Some "+15550000001") None None;
              mkIdentity "i3" "a-b" PHONE (Some "+15550000002") None None;
              mkIdentity "i4" "c" PHONE (Some "+15550000002") None None ]
            [] [] [] [] []) "u1")
  = [ ("a", "b-c", phone) ]%string.
Proof. split; reflexivity. Qed.

(** Three persons with one phone number give the three pairs. *)
Example three_share_one_phone :
  map (fun x => (pid (person1 x), pid (person2 x), matchType x))
      (getSuggestedDuplicates
         (mkStore []
            [ mkPerson "p1" "u1" "A" None None; mkPerson "p2" "u1" "B" None None;
              mkPerson "p3" "u1" "C" None None ]
            [ mkIdentity "i1" "p1" PHONE (Some "+15550000001") None None;
              mkIdentity "i2" "p2" PHONE (Some "+15550000001") None None;
              mkIdentity "i3" "p3" PHONE (Some "+15550000001") None None ]
            [] [] [] [] []) "u1")
  = [ ("p1", "p2", phone); ("p1", "p3", phone); ("p2", "p3", phone) ]%string.
Proof. reflexivity. Qed.

End DedupFacts.

(** ** Calendar *)

Module DateFacts.
Import JSDate.
Local Open Scope Z_scope.

Lemma msPerDay_pos : 0 < msPerDay.
Proof. reflexivity. Qed.

Lemma DayFromYear_next (y : Z) :
  DayFromYear (y + 1) = DayFromYear y + DaysInYear y.
Proof.
  unfold DayFromYear, DaysInYear, isLeap.
  destruct (Z.eqb_spec (y mod 4) 0); cbn [negb];
    [destruct (Z.eqb_spec (y mod 100) 0); cbn [negb];
       [destruct (Z.eqb_spec (y mod 400) 0); cbn [negb]|]|];
    Z.div_mod_to_equations; lia.
Qed.

Lemma DaysInYear_range (y : Z) : 365 <= DaysInYear y <= 366.
Proof. unfold DaysInYear. destruct (isLeap y); lia. Qed.

(** [yearOfDay d] is the year whose days include [d]. *)
Lemma yearOfDay_spec (d : Z) :
  DayFromYear (yearOfDay d) <= d < DayFromYear (yearOfDay d + 1).
Proof.
  unfold yearOfDay.
  destruct (Z.ltb_spec d (DayFromYear (1970 + 400 * d / 146097))).
  - unfold DayFromYear in *. Z.div_mod_to_equations; lia.
  - destruct (Z.leb_spec (DayFromYear (1970 + 400 * d / 146097 + 1)) d).
    + unfold DayFromYear in *. Z.div_mod_to_equations; lia.
    + lia.
Qed.

Lemma DayFromYear_mono (y y' : Z) : y <= y' -> DayFromYear y <= DayFromYear y'.
Proof. unfold DayFromYear. intros H. Z.div_mod_to_equations; lia. Qed.

Lemma yearOfDay_unique (d y : Z) :
  DayFromYear y <= d < DayFromYear (y + 1) -> yearOfDay d = y.
Proof.
  intros H. pose proof (yearOfDay_spec d) as H'.
  destruct (Z.lt_trichotomy (yearOfDay d) y) as [Hlt|[Heq|Hgt]]; [|exact Heq|].
  - pose proof (DayFromYear_mono (yearOfDay d + 1) y ltac:(lia)). lia.
  - pose proof (DayFromYear_mono (y + 1) (yearOfDay d) ltac:(lia)). lia.
Qed.

(** ECMA-262's [YearFromTime]: the largest [y] with [TimeFromYear y <= t]. *)
Lemma YearFromTime_largest (t : Z) :
  TimeFromYear (YearFromTime t) <= t /\
  forall y, TimeFromYear y <= t -> y <= YearFromTime t.
Proof.
  unfold TimeFromYear, YearFromTime. pose proof (yearOfDay_spec (Day t)) as H.
  unfold Day, msPerDay in *. split.
  - Z.div_mod_to_equations; lia.
  - intros y Hy. destruct (Z.le_gt_cases y (yearOfDay (t / 86400000))) as [|Hgt];
      [assumption|].
    pose proof (DayFromYear_mono (yearOfDay (t / 86400000) + 1) y ltac:(lia)).
    Z.div_mod_to_equations; lia.
Qed.

(** *** Months and days of the month *)

Definition leapZ (y : Z) : Z := if isLeap y then 1 else 0.

Definition daysInMonth (leap m : Z) : Z :=
  if m =? 1 then 28 + leap
  else if (m =? 3) || (m =? 5) || (m =? 8) || (m =? 10) then 30
  else 31.

Ltac break_tests :=
  repeat match goal with
         | |- context [Z.ltb ?a ?b] => destruct (Z.ltb_spec a b)
         | |- context [Z.eqb ?a ?b] => destruct (Z.eqb_spec a b)
         end.

Ltac month_case :=
  break_tests; cbn [orb]; try lia; intros; unfold monthOfDay;
  break_tests; lia.

Lemma leapZ_range (y : Z) : 0 <= leapZ y <= 1.
Proof. unfold leapZ. destruct (isLeap y); lia. Qed.

Lemma DaysInYear_leapZ (y : Z) : DaysInYear y = 365 + leapZ y.
Proof. unfold DaysInYear, leapZ. now destruct (isLeap y). Qed.

Lemma monthOfDay_range (leap d : Z) : 0 <= monthOfDay leap d <= 11.
Proof. unfold monthOfDay. break_tests; lia. Qed.

(** A day of the year lies in the month [monthOfDay] names. *)
Lemma monthOfDay_bounds (leap d : Z) :
  0 <= leap <= 1 -> 0 <= d < 365 + leap ->
  let m := monthOfDay leap d in
  monthStart leap m <= d < monthStart leap m + daysInMonth leap m.
Proof.
  intros Hl Hd. cbv zeta. unfold monthOfDay.
  break_tests; unfold monthStart, daysInMonth; break_tests; cbn [orb]; lia.
Qed.

(** The [dt]-th day of month [m] is a day of month [m]. *)
Lemma monthOfDay_start (leap m dt : Z) :
  0 <= leap <= 1 -> 0 <= m <= 11 -> 1 <= dt <= daysInMonth leap m ->
  monthOfDay leap (monthStart leap m + dt - 1) = m.
Proof.
  intros Hl Hm. unfold daysInMonth, monthStart.
  destruct (Z.eqb_spec m 0); [subst; month_case|].
  destruct (Z.eqb_spec m 1); [subst; month_case|].
  destruct (Z.eqb_spec m 2); [subst; month_case|].
  destruct (Z.eqb_spec m 3); [subst; month_case|].
  destruct (Z.eqb_spec m 4); [subst; month_case|].
  destruct (Z.eqb_spec m 5); [subst; month_case|].
  destruct (Z.eqb_spec m 6); [subst; month_case|].
  destruct (Z.eqb_spec m 7); [subst; month_case|].
  destruct (Z.eqb_spec m 8); [subst; month_case|].
  destruct (Z.eqb_spec m 9); [subst; month_case|].
  destruct (Z.eqb_spec m 10); [subst; month_case|].
  assert (m = 11) by lia. subst. month_case.
Qed.

Lemma monthStart_bounds (leap m dt : Z) :
  0 <= leap <= 1 -> 0 <= m <= 11 -> 1 <= dt <= daysInMonth leap m ->
  0 <= monthStart leap m + dt - 1 < 365 + leap.
Proof.
  intros Hl Hm. unfold daysInMonth, monthStart. break_tests; cbn [orb]; lia.
Qed.

(** *** Days and times *)

Lemma Day_MakeDate (d tod : Z) :
  0 <= tod < msPerDay -> Day (MakeDate d tod) = d.
Proof.
  intros H. unfold Day, MakeDate, msPerDay in *. Z.div_mod_to_equations; lia.
Qed.

Lemma TimeWithinDay_MakeDate (d tod : Z) :
  0 <= tod < msPerDay -> TimeWithinDay (MakeDate d tod) = tod.
Proof.
  intros H. unfold TimeWithinDay, MakeDate, msPerDay in *.
  Z.div_mod_to_equations; lia.
Qed.

Lemma TimeWithinDay_range (t : Z) : 0 <= TimeWithinDay t < msPerDay.
Proof. unfold TimeWithinDay. apply Z.mod_pos_bound. reflexivity. Qed.

Lemma MakeDate_Day (t : Z) : MakeDate (Day t) (TimeWithinDay t) = t.
Proof.
  unfold MakeDate, Day, TimeWithinDay, msPerDay. Z.div_mod_to_equations; lia.
Qed.

(** *** The fields of a time value *)

Lemma DayWithinYear_range (t : Z) :
  0 <= DayWithinYear t < 365 + leapZ (YearFromTime t).
Proof.
  unfold DayWithinYear, YearFromTime.
  pose proof (yearOfDay_spec (Day t)) as H.
  rewrite DayFromYear_next, DaysInYear_leapZ in H. lia.
Qed.

Lemma InLeapYear_leapZ (t : Z) : InLeapYear t = leapZ (YearFromTime t).
Proof. reflexivity. Qed.

Lemma MonthFromTime_range (t : Z) : 0 <= MonthFromTime t <= 11.
Proof. apply monthOfDay_range. Qed.

Lemma DateFromTime_range (t : Z) :
  1 <= DateFromTime t <= daysInMonth (leapZ (YearFromTime t)) (MonthFromTime t).
Proof.
  unfold DateFromTime, MonthFromTime. rewrite InLeapYear_leapZ.
  pose proof (monthOfDay_bounds (leapZ (YearFromTime t)) (DayWithinYear t)
                (leapZ_range _) (DayWithinYear_range t)) as H.
  cbv zeta in H. lia.
Qed.

Lemma MakeDay_month (y m dt : Z) :
  0 <= m <= 11 ->
  MakeDay y m dt = DayFromYear y + monthStart (leapZ y) m + dt - 1.
Proof.
  intros Hm. unfold MakeDay, leapZ.
  replace (m / 12) with 0 by (Z.div_mod_to_equations; lia).
  replace (m mod 12) with m by (Z.div_mod_to_equations; lia).
  now rewrite Z.add_0_r.
Qed.

(** [MakeDay] gives back the day of the fields it is made of. *)
Lemma MakeDay_fields_of (t : Z) :
  MakeDay (YearFromTime t) (MonthFromTime t) (DateFromTime t) = Day t.
Proof.
  rewrite MakeDay_month by apply MonthFromTime_range.
  unfold DateFromTime, DayWithinYear. rewrite InLeapYear_leapZ. lia.
Qed.

(** The fields of day [dt] of month [m] of year [y], at time [tod]. *)
Lemma fields_of_MakeDay (y m dt tod : Z) :
  0 <= m <= 11 -> 1 <= dt <= daysInMonth (leapZ y) m -> 0 <= tod < msPerDay ->
  let t := MakeDate (MakeDay y m dt) tod in
  YearFromTime t = y /\ MonthFromTime t = m /\ DateFromTime t = dt /\
  TimeWithinDay t = tod.
Proof.
  intros Hm Hdt Htod. cbv zeta.
  pose proof (monthStart_bounds (leapZ y) m dt (leapZ_range y) Hm Hdt) as Hb.
  assert (Hy : YearFromTime (MakeDate (MakeDay y m dt) tod) = y).
  { unfold YearFromTime. rewrite Day_MakeDate by assumption.
    apply yearOfDay_unique.
    rewrite DayFromYear_next, DaysInYear_leapZ, MakeDay_month by assumption.
    lia. }
  assert (Hdwy : DayWithinYear (MakeDate (MakeDay y m dt) tod) =
                 monthStart (leapZ y) m + dt - 1).
  { unfold DayWithinYear. rewrite Hy, Day_MakeDate by assumption.
    rewrite MakeDay_month by assumption. lia. }
  assert (Hmo : MonthFromTime (MakeDate (MakeDay y m dt) tod) = m).
  { unfold MonthFromTime. rewrite InLeapYear_leapZ, Hy, Hdwy.
    apply monthOfDay_start; auto using leapZ_range. }
  split; [exact Hy|]. split; [exact Hmo|]. split.
  - unfold DateFromTime. rewrite InLeapYear_leapZ, Hmo, Hy, Hdwy. lia.
  - now apply TimeWithinDay_MakeDate.
Qed.

(** *** Rewriting the year of a date *)

Section Zone.
Variable tz : Z.

Lemma LocalTime_UTC (t : Z) : LocalTime tz (UTC tz t) = t.
Proof. unfold LocalTime, UTC. lia. Qed.

Lemma TimeClip_Some (t r : Z) : TimeClip t = Some r -> r = t /\ Z.abs t <= maxTime.
Proof.
  unfold TimeClip. destruct (Z.leb_spec (Z.abs t) maxTime); [|discriminate].
  intros E. inversion E. subst. split; [reflexivity | assumption].
Qed.

Lemma TimeClip_in_range (t : Z) : Z.abs t <= maxTime -> TimeClip t = Some t.
Proof.
  intros H. unfold TimeClip. destruct (Z.leb_spec (Z.abs t) maxTime); [reflexivity|lia].
Qed.

(** [setFullYear] keeps the time of day and gives the year asked for; the
    month and the day of the month are kept too, except that 29 February
    becomes 1 March in a year that is not a leap year. *)
Lemma setFullYear_fields (t y r : Z) :
  setFullYear tz (Some t) y = Some r ->
  TimeWithinDay (LocalTime tz r) = TimeWithinDay (LocalTime tz t) /\
  getFullYear tz r = y /\
  (if (getMonth tz t =? 1) && (getDate tz t =? 29) && negb (isLeap y)
   then getMonth tz r = 2 /\ getDate tz r = 1
   else getMonth tz r = getMonth tz t /\ getDate tz r = getDate tz t).
Proof.
  unfold setFullYear, getFullYear, getMonth, getDate.
  set (l := LocalTime tz t). intros H.
  apply TimeClip_Some in H as [-> _]. rewrite LocalTime_UTC.
  pose proof (MonthFromTime_range l) as Hm.
  pose proof (DateFromTime_range l) as Hd.
  pose proof (TimeWithinDay_range l) as Ht.
  pose proof (leapZ_range (YearFromTime l)) as Hl.
  destruct ((MonthFromTime l =? 1) && (DateFromTime l =? 29) && negb (isLeap y))
    eqn:E.
  - apply andb_true_iff in E as [E E3]. apply andb_true_iff in E as [E1 E2].
    apply Z.eqb_eq in E1, E2. apply negb_true_iff in E3.
    rewrite E1, E2.
    assert (Hsame : MakeDay y 1 29 = MakeDay y 2 1).
    { rewrite !MakeDay_month by lia. unfold leapZ. rewrite E3.
      change (monthStart 0 2) with 59. change (monthStart 0 1) with 31. lia. }
    rewrite Hsame.
    assert (H29 : 1 <= 1 <= daysInMonth (leapZ y) 2)
      by (unfold daysInMonth; simpl; lia).
    pose proof (fields_of_MakeDay y 2 1 (TimeWithinDay l) ltac:(lia) H29 Ht)
      as (H1 & H2 & H3 & H4).
    auto.
  - assert (Hok : DateFromTime l <= daysInMonth (leapZ y) (MonthFromTime l)).
    { revert Hd E. unfold daysInMonth, leapZ.
      destruct (Z.eqb_spec (MonthFromTime l) 1); [|lia].
      destruct (Z.eqb_spec (DateFromTime l) 29), (isLeap y), (isLeap (YearFromTime l));
        simpl; try discriminate; lia. }
    pose proof (fields_of_MakeDay y (MonthFromTime l) (DateFromTime l)
                  (TimeWithinDay l) Hm ltac:(lia) Ht) as (H1 & H2 & H3 & H4).
    auto.
Qed.

(** For a year within the range of time values the result is a date. *)
Lemma setFullYear_is_date (d : option Z) (y : Z) :
  Z.abs tz <= msPerDay -> -271820 <= y <= 275759 ->
  exists r, setFullYear tz d y = Some r.
Proof.
  intros Htz Hy. unfold setFullYear.
  set (l := match d with Some tv => LocalTime tz tv | None => 0 end).
  eexists. apply TimeClip_in_range.
  pose proof (MonthFromTime_range l) as Hm.
  pose proof (DateFromTime_range l) as Hd.
  pose proof (TimeWithinDay_range l) as Ht.
  rewrite MakeDay_month by assumption.
  pose proof (leapZ_range y) as Hl.
  assert (Hs : 0 <= monthStart (leapZ y) (MonthFromTime l) <= 335).
  { unfold monthStart. break_tests; lia. }
  assert (Hdm : daysInMonth (leapZ (YearFromTime l)) (MonthFromTime l) <= 31).
  { pose proof (leapZ_range (YearFromTime l)).
    unfold daysInMonth. break_tests; cbn [orb]; lia. }
  pose proof (DayFromYear_mono (-271820) y ltac:(lia)) as Hlo.
  pose proof (DayFromYear_mono y 275759 ltac:(lia)) as Hhi.
  change (DayFromYear (-271820)) with (-99999744) in Hlo.
  change (DayFromYear 275759) with 99999379 in Hhi.
  unfold UTC, MakeDate, maxTime, msPerDay in *. lia.
Qed.

End Zone.

(** The UTC midnight that starts day [d] of month [m] (1 = January) of year [y]. *)
Definition utcDate (y m d : Z) : Z := MakeDate (MakeDay y (m - 1) d) 0.

(** Zone offsets of a whole number of quarter hours, from -12:00 to +14:00. *)
Definition quarterHours : list Z :=
  map (fun n => (Z.of_nat n - 48) * 900000) (seq 0 105).

Lemma quarterHours_all (k : Z) : -48 <= k <= 56 -> In (k * 900000) quarterHours.
Proof.
  intros Hk. unfold quarterHours. apply in_map_iff.
  exists (Z.to_nat (k + 48)). split; [f_equal; lia|].
  apply in_seq. lia.
Qed.

End DateFacts.

(** ** Next occurrence *)

Module OccurrenceFacts.
Import JSDate Celebrations DateFacts.
Local Open Scope Z_scope.

Definition optZ_eqb (a b : option Z) : bool :=
  match a, b with
  | Some x, Some y => x =? y
  | None, None => true
  | _, _ => false
  end.

Lemma optZ_eqb_eq (a b : option Z) : optZ_eqb a b = true -> a = b.
Proof.
  destruct a, b; simpl; try discriminate; [|reflexivity].
  intros H. apply Z.eqb_eq in H. now subst.
Qed.

Lemma instances_in_every_zone :
  forallb (fun tz =>
             optZ_eqb (getNextOccurrence tz (utcDate 2020 3 15) (utcDate 2025 1 1))
                      (Some (utcDate 2025 3 15)) &&
             optZ_eqb (getNextOccurrence tz (utcDate 2020 3 15) (utcDate 2025 4 1))
                      (Some (utcDate 2026 3 15)))
          quarterHours = true.
Proof. vm_compute. reflexivity. Qed.

Lemma getNextOccurrence_unfold (tz anchor from : Z) :
  getNextOccurrence tz anchor from =
  (if dateLt (setFullYear tz (Some anchor) (getFullYear tz from)) (Some from)
   then setFullYear tz (setFullYear tz (Some anchor) (getFullYear tz from))
                    (getFullYear tz from + 1)
   else setFullYear tz (Some anchor) (getFullYear tz from)).
Proof. reflexivity. Qed.

(** C7. [getNextOccurrence anchor from] is the anchor with its year set to
    the year of [from], and, when that date is strictly before [from], that
    date with its year set one further.  Setting the year keeps the local
    time of day, month and day of the month (29 February becomes 1 March in
    a year without one), so for an anchor not on 29 February the result has
    the anchor's month, day and time of day, in the year of [from] or the
    next.  The result is a date for every year of [from] inside the range of
    time values.  The two instances of the specification hold in every zone
    from -12:00 to +14:00. *)
Theorem getNextOccurrence_rewrites_year (tz anchor from : Z) :
  let Y := getFullYear tz from in
  let rewritten := setFullYear tz (Some anchor) Y in
  getNextOccurrence tz anchor from =
    (if dateLt rewritten (Some from)
     then setFullYear tz rewritten (Y + 1) else rewritten) /\
  (forall t y r, setFullYear tz (Some t) y = Some r ->
     TimeWithinDay (LocalTime tz r) = TimeWithinDay (LocalTime tz t) /\
     getFullYear tz r = y /\
     (if (getMonth tz t =? 1) && (getDate tz t =? 29) && negb (isLeap y)
      then getMonth tz r = 2 /\ getDate tz r = 1
      else getMonth tz r = getMonth tz t /\ getDate tz r = getDate tz t)) /\
  (forall r, getNextOccurrence tz anchor from = Some r ->
     ~ (getMonth tz anchor = 1 /\ getDate tz anchor = 29) ->
     getFullYear tz r = (if dateLt rewritten (Some from) then Y + 1 else Y) /\
     getMonth tz r = getMonth tz anchor /\
     getDate tz r = getDate tz anchor /\
     TimeWithinDay (LocalTime tz r) = TimeWithinDay (LocalTime tz anchor)) /\
  (Z.abs tz <= msPerDay -> -271820 <= Y <= 275758 ->
     exists r, getNextOccurrence tz anchor from = Some r) /\
  (forall k, -48 <= k <= 56 ->
     getNextOccurrence (k * 900000) (utcDate 2020 3 15) (utcDate 2025 1 1)
       = Some (utcDate 2025 3 15) /\
     getNextOccurrence (k * 900000) (utcDate 2020 3 15) (utcDate 2025 4 1)
       = Some (utcDate 2026 3 15)).
Proof.
  cbv zeta. split; [apply getNextOccurrence_unfold|].
  split; [apply setFullYear_fields|].
  split; [|split].
  - intros r Hr Hfeb. rewrite getNextOccurrence_unfold in Hr.
    assert (Hnot : forall y,
               (getMonth tz anchor =? 1) && (getDate tz anchor =? 29) &&
               negb (isLeap y) = false).
    { intros y. destruct (Z.eqb_spec (getMonth tz anchor) 1);
        destruct (Z.eqb_spec (getDate tz anchor) 29); cbn [andb]; tauto. }
    destruct (setFullYear tz (Some anchor) (getFullYear tz from)) as [r1|] eqn:E1.
    + pose proof (setFullYear_fields tz _ _ _ E1) as (T1 & Y1 & F1).
      rewrite Hnot in F1. destruct F1 as [M1 D1].
      destruct (dateLt (Some r1) (Some from)).
      * pose proof (setFullYear_fields tz _ _ _ Hr) as (T2 & Y2 & F2).
        rewrite M1, D1, Hnot in F2. destruct F2 as [M2 D2].
        repeat split; congruence.
      * inversion Hr; subst. repeat split; congruence.
    + change (dateLt None (Some from)) with false in Hr. discriminate.
  - intros Htz HY. rewrite getNextOccurrence_unfold.
    destruct (dateLt _ _).
    + apply setFullYear_is_date; [assumption | lia].
    + apply setFullYear_is_date; [assumption | lia].
  - intros k Hk. apply quarterHours_all in Hk.
    pose proof instances_in_every_zone as H.
    rewrite forallb_forall in H. specialize (H _ Hk).
    apply andb_true_iff in H as [H1 H2].
    apply optZ_eqb_eq in H1, H2. now split.
Qed.

Lemma getNextOccurrence_rewrites_year_witness :
  getNextOccurrence 0 (utcDate 2020 3 15) (utcDate 2025 1 1) = Some (utcDate 2025 3 15) /\
  getNextOccurrence 0 (utcDate 2020 3 15) (utcDate 2025 4 1) = Some (utcDate 2026 3 15).
Proof.
  exact (proj2 (proj2 (proj2 (proj2
           (getNextOccurrence_rewrites_year 0 0 0)))) 0 ltac:(lia)).
Defined.

(** An anchor on 29 February: 1 March of the year of [from], and 1 March
    again when advanced into a leap year. *)
Example getNextOccurrence_feb29 :
  getNextOccurrence 0 (utcDate 2020 2 29) (utcDate 2023 1 1) = Some (utcDate 2023 3 1) /\
  getNextOccurrence 0 (utcDate 2020 2 29) (utcDate 2023 6 1) = Some (utcDate 2024 3 1).
Proof. split; reflexivity. Qed.

End OccurrenceFacts.

(** ** Scheduling the reminders of a celebration *)

Module ScheduleFacts.
Import Prisma Push JSDate Notifications DateFacts.
Local Open Scope Z_scope.
Local Open Scope list_scope.

(** The instants for which [reminderInstant] stays within the time values:
    a day of margin around [date - n] days. *)
Definition InRange (date n : Z) : Prop :=
  Z.abs (date - n * msPerDay) + msPerDay <= maxTime.

(** The reminder [n] days ahead of [date] falls on the local day [n] days
    before the local day of [date], at 09:00:00.000 local time. *)
Lemma reminderInstant_at_nine (tz date n : Z) :
  InRange date n ->
  exists r,
    reminderInstant tz date n = Some r /\
    Day (LocalTime tz r) = Day (LocalTime tz date) - n /\
    TimeWithinDay (LocalTime tz r) = 9 * msPerHour.
Proof.
  unfold InRange. intros Hr. unfold reminderInstant, setDate, getDate.
  set (l := LocalTime tz date).
  pose proof (MonthFromTime_range l) as Hm.
  pose proof (TimeWithinDay_range l) as Ht.
  assert (Hday : MakeDay (YearFromTime l) (MonthFromTime l) (DateFromTime l - n)
                 = Day l - n).
  { rewrite MakeDay_month by assumption.
    rewrite <- (MakeDay_fields_of l), MakeDay_month by assumption. lia. }
  rewrite Hday.
  assert (Hshift : UTC tz (MakeDate (Day l - n) (TimeWithinDay l))
                   = date - n * msPerDay).
  { pose proof (MakeDate_Day l) as H. unfold MakeDate, UTC in *.
    unfold l, LocalTime in *. lia. }
  rewrite Hshift, TimeClip_in_range by lia.
  unfold setHours.
  assert (Hl : LocalTime tz (date - n * msPerDay) = MakeDate (Day l - n) (TimeWithinDay l)).
  { rewrite <- Hshift. apply LocalTime_UTC. }
  rewrite Hl, Day_MakeDate by assumption.
  assert (H9 : 0 <= MakeTime 9 0 0 0 < msPerDay) by (vm_compute; split; congruence).
  eexists. split.
  - apply TimeClip_in_range.
    unfold UTC. unfold MakeDate in *. unfold UTC in Hshift.
    change (MakeTime 9 0 0 0) with 32400000 in *.
    unfold maxTime, msPerDay in *. lia.
  - rewrite LocalTime_UTC, Day_MakeDate, TimeWithinDay_MakeDate by assumption.
    split; reflexivity.
Qed.

(** What a stored reminder for offset [n] looks like. *)
Definition ReminderFor (tz : Z) (userId celebrationId : Id) (date n : Z)
    (r : ScheduledReminder) : Prop :=
  reminder_userId r = userId /\
  reminder_celebrationId r = Some celebrationId /\
  reminder_eventId r = None /\
  sent r = false /\ sentAt r = None /\
  Day (LocalTime tz (scheduledFor r)) = Day (LocalTime tz date) - n /\
  TimeWithinDay (LocalTime tz (scheduledFor r)) = 9 * msPerHour.

Lemma insertRows_all (tz : Z) (newIds : nat -> Id) (userId celebrationId : Id)
    (date : Z) (offsets : list Z) (k : nat) :
  Forall (InRange date) offsets ->
  exists rows,
    insertRows newIds k
      (map (fun n => mkNewReminder userId (Some celebrationId) None
                       (reminderInstant tz date n)) offsets) = Some rows /\
    Forall2 (ReminderFor tz userId celebrationId date) offsets rows /\
    map reminder_id rows = map newIds (seq k (List.length offsets)).
Proof.
  revert k. induction offsets as [|n offsets IH]; intros k H; simpl.
  - exists []. repeat split; constructor.
  - inversion H as [|? ? Hn Hrest]; subst.
    destruct (reminderInstant_at_nine tz date n Hn) as (r & -> & Hd & Ht).
    destruct (IH (S k) Hrest) as (rows & -> & Hall & Hids).
    eexists. split; [reflexivity|]. split.
    + constructor; [|exact Hall]. repeat split; assumption.
    + simpl. now rewrite Hids.
Qed.

Lemma existsb_In_id {A} (key : A -> Id) (table : list A) (id : Id) :
  In id (map key table) ->
  existsb (fun x => String.eqb (key x) id) table = true.
Proof.
  intros H. apply in_map_iff in H as (x & <- & Hx).
  apply existsb_exists. exists x. split; [exact Hx | apply String.eqb_refl].
Qed.

(** One call: delete the rows of the celebration, add one row per offset. *)
Lemma schedule_replaces
    (tz : Z) (newIds : nat -> Id) (s : Store) (userId celebrationId : Id)
    (date : Z) (offsets : list Z)
    (Huser : In userId (map user_id (users s)))
    (Hcel : In celebrationId (map celebration_id (celebrations s)))
    (Hrange : Forall (InRange date) offsets) :
  exists s' rows,
    scheduleCelebrationReminders tz newIds s userId celebrationId date offsets
      = (Ok tt, s') /\
    scheduledReminders s' =
      filter (fun r => negb (reminderOf celebrationId r)) (scheduledReminders s)
      ++ rows /\
    filter (reminderOf celebrationId) (scheduledReminders s') = rows /\
    List.length rows = List.length offsets /\
    Forall2 (ReminderFor tz userId celebrationId date) offsets rows /\
    users s' = users s /\ people s' = people s /\
    celebrations s' = celebrations s /\ events s' = events s.
Proof.
  destruct (insertRows_all tz newIds userId celebrationId date offsets 0%nat Hrange)
    as (rows & Hins & Hall & _).
  unfold scheduleCelebrationReminders, scheduledReminder_createMany.
  rewrite Hins.
  assert (Hfk : forallb
            (fun d =>
               existsb (fun u => String.eqb (user_id u) (new_userId d))
                       (users (scheduledReminder_deleteMany celebrationId s))
               && refExists celebration_id
                    (celebrations (scheduledReminder_deleteMany celebrationId s))
                    (new_celebrationId d)
               && refExists event_id
                    (events (scheduledReminder_deleteMany celebrationId s))
                    (new_eventId d))
            (map (fun n => mkNewReminder userId (Some celebrationId) None
                             (reminderInstant tz date n)) offsets) = true).
  { apply forallb_forall. intros d Hd. apply in_map_iff in Hd as (n & <- & _).
    simpl. rewrite (existsb_In_id user_id _ _ Huser).
    now rewrite (existsb_In_id celebration_id _ _ Hcel). }
  rewrite Hfk.
  exists (mkStore (users s) (people s) (identities s) (addresses s)
            (celebrations s) (events s) (eventGuests s)
            (filter (fun r => negb (reminderOf celebrationId r))
                    (scheduledReminders s) ++ rows)), rows.
  split; [reflexivity|]. simpl. split; [reflexivity|].
  assert (Hmine : Forall (fun r => reminderOf celebrationId r = true) rows).
  { clear - Hall. induction Hall as [|n r ? ? Hr ? IH]; constructor; [|exact IH].
    destruct Hr as (_ & Hc & _). unfold reminderOf. rewrite Hc. simpl.
    apply String.eqb_refl. }
  split.
  - rewrite filter_app.
    rewrite (MergeFacts.filter_drops_all (reminderOf celebrationId)).
    + simpl. apply MergeFacts.filter_keeps_all.
      now apply Forall_forall.
    + intros r Hr. apply filter_In in Hr as [_ Hr].
      now apply negb_true_iff in Hr.
  - split; [symmetry; exact (Forall2_length Hall)|].
    split; [exact Hall|]. repeat split.
Qed.



(** The instance of the specification: a birthday on 15 March 2020, first
    scheduled with offsets 7, 1, 0 and then again with offsets 3, 0. *)
Definition birthdayStore : Store :=
  mkStore
    [ mkUser "u1" "demo@moments.app" true None None ]
    [ mkPerson "p1" "u1" "Mom" None None ]
    [] []
    [ mkCelebration "c1" "p1" BIRTHDAY None (utcDate 2020 3 15)
        (Some "FREQ=YEARLY") [7; 1; 0] ]
    [] []
    [ mkReminder "r0" "u1" None (Some "e9") (utcDate 2020 3 1) false None ].

Definition firstIds (k : nat) : Id :=
  ("a" ++ NilZero.string_of_uint (Nat.to_uint k))%string.

Definition afterFirst : Store :=
  snd (scheduleCelebrationReminders 0 firstIds birthdayStore "u1" "c1"
         (utcDate 2020 3 15) [7; 1; 0]).

Definition at9 (y m d : Z) : Z := utcDate y m d + 9 * msPerHour.

Example first_scheduling :
  map scheduledFor (filter (reminderOf "c1") (scheduledReminders afterFirst)) =
  [ at9 2020 3 8; at9 2020 3 14; at9 2020 3 15 ].
Proof. vm_compute. reflexivity. Qed.



End ScheduleFacts.

(** ** Creating and updating celebrations *)

Module CelebrationFacts.
Import Prisma Push JSDate Notifications Celebrations DateFacts.
Local Open Scope list_scope.






(** The rule POST / stores for a request. *)
Definition storedRule (body : CreateBody) : option string :=
  if isYearly (cb_type body)
  then Some (match nonEmpty (cb_recurringRule body) with
             | Some rule => rule
             | None => "FREQ=YEARLY"%string
             end)
  else cb_recurringRule body.











End CelebrationFacts.

(** ** Processing due reminders *)

Module ProcessFacts.
Import Prisma Push JSDate Notifications.
Local Open Scope list_scope.

(** *** The notifier *)

Section Notifier.
Variable isExpoPushToken : string -> bool.

(** [sendPushNotification] raises only when the store rejects the user
    lookup; no answer of Expo makes it raise, and it returns [true] only on
    an ok ticket.  It never touches the reminders. *)
Lemma sendPushNotification_shape (b : PushBehaviour) (s : Store)
    (n : PushNotification) :
  let out := sendPushNotification isExpoPushToken b s n in
  scheduledReminders (snd (fst out)) = scheduledReminders s /\
  (if lookupFails b
   then fst (fst out) = Err StoreUnavailable
   else exists ok, fst (fst out) = Ok ok /\
                   (ok = true -> expoReply b = TicketOk)).
Proof.
  cbv zeta. unfold sendPushNotification.
  destruct (lookupFails b); [now split|].
  destruct (user_findUnique s (pn_userId n)) as [u|];
    [|split; [reflexivity | exists false; now split]].
  destruct (nonEmpty (pushToken u)) as [token|];
    [|split; [reflexivity | exists false; now split]].
  destruct (negb (pushEnabled u));
    [split; [reflexivity | exists false; now split]|].
  destruct (negb (isExpoPushToken token));
    [split; [reflexivity | exists false; now split]|].
  destruct (expoReply b) as [|text [|]| |];
    try destruct (cleanupFails b);
    (split; [reflexivity | eexists; split; [reflexivity | try discriminate; auto]]).
Qed.

Lemma sendBirthdayReminder_shape b s userId personName daysUntil :
  let out := sendBirthdayReminder isExpoPushToken b s userId personName daysUntil in
  scheduledReminders (snd (fst out)) = scheduledReminders s /\
  (if lookupFails b
   then fst (fst out) = Err StoreUnavailable
   else exists ok, fst (fst out) = Ok ok /\
                   (ok = true -> expoReply b = TicketOk)).
Proof.
  unfold sendBirthdayReminder.
  destruct (match daysUntil with Some 0%Z => _ | _ => _ end) as [title body].
  apply sendPushNotification_shape.
Qed.

Lemma sendEventReminder_shape b s userId eventTitle hoursUntil :
  let out := sendEventReminder isExpoPushToken b s userId eventTitle hoursUntil in
  scheduledReminders (snd (fst out)) = scheduledReminders s /\
  (if lookupFails b
   then fst (fst out) = Err StoreUnavailable
   else exists ok, fst (fst out) = Ok ok /\
                   (ok = true -> expoReply b = TicketOk)).
Proof.
  unfold sendEventReminder.
  destruct (if numLe hoursUntil 1 then _ else _) as [title body].
  apply sendPushNotification_shape.
Qed.

End Notifier.

(** *** One reminder *)

(** When the body of the [try] raises nothing: the rows joined to the
    reminder are there, the store answers the user lookup of each push that
    is attempted, and it accepts the final update.  What Expo answers, and
    whether a stale token could be removed, plays no part. *)
Definition celebrationOk (b : Behaviour) (d : Due) : bool :=
  match due_celebration d with
  | None => true
  | Some (_, person) =>
      match person, due_user d with
      | Some _, Some u => negb (wantsPush u && lookupFails (celebrationPush b))
      | _, _ => false
      end
  end.

Definition eventOk (b : Behaviour) (d : Due) : bool :=
  match due_event d with
  | None => true
  | Some _ =>
      match due_user d with
      | Some u => negb (wantsPush u && lookupFails (eventPush b))
      | None => false
      end
  end.

Definition succeeds (b : Behaviour) (d : Due) : bool :=
  celebrationOk b d && eventOk b d && negb (markFails b).

Definition dueId (d : Due) : Id := reminder_id (due_reminder d).

Definition rowExists (id : Id) (s : Store) : bool :=
  existsb (fun r => String.eqb (reminder_id r) id) (scheduledReminders s).

Section Server.
Variable tz : Z.
Variable isExpoPushToken : string -> bool.

Lemma celebrationBlock_shape (b : Behaviour) (d : Due) (s : Store) :
  let out := celebrationBlock tz isExpoPushToken b d s in
  scheduledReminders (snd (fst out)) = scheduledReminders s /\
  (if celebrationOk b d then fst (fst out) = Ok tt
   else exists e, fst (fst out) = Err e).
Proof.
  cbv zeta. unfold celebrationBlock, celebrationOk.
  destruct (due_celebration d) as [[c [p|]]|]; [| |now split].
  - destruct (due_user d) as [u|];
      [|split; [reflexivity | eexists; reflexivity]].
    destruct (wantsPush u); cbn [andb negb]; [|now split].
    match goal with
    | |- context [sendBirthdayReminder ?x1 ?x2 ?x3 ?x4 ?x5 ?x6] =>
        pose proof (sendBirthdayReminder_shape x1 x2 x3 x4 x5 x6) as H;
        destruct (sendBirthdayReminder x1 x2 x3 x4 x5 x6) as [[[ok|err] s'] fx]
    end; cbv zeta in H; cbn [fst snd] in *; destruct H as [Hs Hr];
      (split; [exact Hs|]);
      destruct (lookupFails (celebrationPush b)); cbn [negb];
      first [ discriminate Hr | reflexivity | (eexists; reflexivity)
            | (destruct Hr as (? & Hr' & _); discriminate Hr') ].
  - split; [reflexivity | eexists; reflexivity].
Qed.

Lemma eventBlock_shape (b : Behaviour) (d : Due) (s : Store) :
  let out := eventBlock isExpoPushToken b d s in
  scheduledReminders (snd (fst out)) = scheduledReminders s /\
  (if eventOk b d then fst (fst out) = Ok tt
   else exists e, fst (fst out) = Err e).
Proof.
  cbv zeta. unfold eventBlock, eventOk.
  destruct (due_event d) as [ev|]; [|now split].
  destruct (due_user d) as [u|];
    [|split; [reflexivity | eexists; reflexivity]].
  destruct (wantsPush u); cbn [andb negb]; [|now split].
  match goal with
  | |- context [sendEventReminder ?x1 ?x2 ?x3 ?x4 ?x5 ?x6] =>
      pose proof (sendEventReminder_shape x1 x2 x3 x4 x5 x6) as H;
      destruct (sendEventReminder x1 x2 x3 x4 x5 x6) as [[[ok|err] s'] fx]
  end; cbv zeta in H; cbn [fst snd] in *; destruct H as [Hs Hr];
    (split; [exact Hs|]);
    destruct (lookupFails (eventPush b)); cbn [negb];
    first [ discriminate Hr | reflexivity | (eexists; reflexivity)
          | (destruct Hr as (? & Hr' & _); discriminate Hr') ].
Qed.

(** The body of the [try] on a reminder whose row is in the store: it ends
    normally exactly when [succeeds] says so, and then the row is marked;
    otherwise it raises and the reminders are as before. *)
Lemma tryBody_shape (b : Behaviour) (now : Z) (d : Due) (s : Store) :
  rowExists (dueId d) s = true ->
  let out := tryBody tz isExpoPushToken b now d s in
  if succeeds b d
  then fst (fst out) = Ok tt /\
       scheduledReminders (snd (fst out)) =
         map (markSent (dueId d) now) (scheduledReminders s)
  else (exists e, fst (fst out) = Err e) /\
       scheduledReminders (snd (fst out)) = scheduledReminders s.
Proof.
  intros Hrow. cbv zeta. unfold tryBody, succeeds.
  pose proof (celebrationBlock_shape b d s) as Hc. cbv zeta in Hc.
  destruct (celebrationBlock tz isExpoPushToken b d s) as [[[u1|e1] s1] fx1];
    cbn [fst snd] in Hc; destruct Hc as [Hs1 Hr1];
    destruct (celebrationOk b d); cbn [andb];
    try discriminate; try (destruct Hr1; discriminate).
  2: { split; [eexists; reflexivity | cbn [fst snd]; exact Hs1]. }
  pose proof (eventBlock_shape b d s1) as He. cbv zeta in He.
  destruct (eventBlock isExpoPushToken b d s1) as [[[u2|e2] s2] fx2];
    cbn [fst snd] in He; destruct He as [Hs2 Hr2];
    destruct (eventOk b d); cbn [andb];
    try discriminate; try (destruct Hr2; discriminate).
  2: { split; [eexists; reflexivity | cbn [fst snd]; congruence]. }
  destruct (markFails b); cbn [negb].
  - split; [eexists; reflexivity | cbn [fst snd]; congruence].
  - unfold scheduledReminder_update.
    assert (Hrow2 : existsb (fun r => String.eqb (reminder_id r)
                                        (reminder_id (due_reminder d)))
                      (scheduledReminders s2) = true).
    { rewrite Hs2, Hs1. exact Hrow. }
    rewrite Hrow2. cbn [fst snd scheduledReminders].
    split; [reflexivity|]. unfold dueId. now rewrite Hs2, Hs1.
Qed.

End Server.

(** *** The pass *)

(** A reminder row once marked. *)
Definition sentVersion (now : Z) (r : ScheduledReminder) : ScheduledReminder :=
  mkReminder (reminder_id r) (reminder_userId r) (reminder_celebrationId r)
             (reminder_eventId r) (scheduledFor r) true (Some now).

(** The rows whose id is in [ids] marked, the others as they are. *)
Definition markAll (ids : list Id) (now : Z) (r : ScheduledReminder)
    : ScheduledReminder :=
  if existsb (String.eqb (reminder_id r)) ids then sentVersion now r else r.

Lemma markAll_id ids now r : reminder_id (markAll ids now r) = reminder_id r.
Proof.
  unfold markAll. now destruct (existsb (String.eqb (reminder_id r)) ids).
Qed.

Lemma markSent_id id now r : reminder_id (markSent id now r) = reminder_id r.
Proof. unfold markSent. now destruct (String.eqb _ id). Qed.

Lemma markAll_nil now r : markAll [] now r = r.
Proof. reflexivity. Qed.

Lemma markAll_cons id ids now r :
  markAll ids now (markSent id now r) = markAll (id :: ids) now r.
Proof.
  unfold markAll, markSent. cbn [existsb].
  destruct (String.eqb (reminder_id r) id); cbn [orb reminder_id].
  - now destruct (existsb (String.eqb (reminder_id r)) ids).
  - reflexivity.
Qed.

Lemma markAll_marked ids now r :
  In (reminder_id r) ids -> markAll ids now r = sentVersion now r.
Proof.
  intros H. unfold markAll.
  assert (E : existsb (String.eqb (reminder_id r)) ids = true).
  { apply existsb_exists. exists (reminder_id r).
    split; [exact H | apply String.eqb_refl]. }
  now rewrite E.
Qed.

Lemma markAll_other ids now r :
  ~ In (reminder_id r) ids -> markAll ids now r = r.
Proof.
  intros H. unfold markAll.
  destruct (existsb (String.eqb (reminder_id r)) ids) eqn:E; [|reflexivity].
  apply existsb_exists in E as (x & Hx & E). apply String.eqb_eq in E.
  subst x. contradiction.
Qed.

Lemma rowExists_iff id s :
  rowExists id s = true <-> In id (map reminder_id (scheduledReminders s)).
Proof.
  unfold rowExists. rewrite existsb_exists, in_map_iff. split.
  - intros (r & Hr & E). apply String.eqb_eq in E. now exists r.
  - intros (r & E & Hr). exists r. split; [exact Hr|].
    rewrite E. apply String.eqb_refl.
Qed.

Section Server.
Variable tz : Z.
Variable isExpoPushToken : string -> bool.
Variable behave : Id -> Behaviour.
Variable now : Z.

Definition ok (d : Due) : bool := succeeds (behave (dueId d)) d.

(** The ids of the reminders of a batch that are processed without an
    exception. *)
Definition okIds (batch : list Due) : list Id := map dueId (filter ok batch).

Definition errorLine (d : Due) : Id * Effect :=
  (dueId d, ConsoleError ("Error processing reminder " ++ dueId d ++ ":")).

(** One turn of the loop. *)
Lemma turn_shape (p : Pass) (d : Due) :
  rowExists (dueId d) (pass_store p) = true ->
  let p' := turn tz isExpoPushToken behave now p d in
  scheduledReminders (pass_store p') =
    map (markAll (okIds [d]) now) (scheduledReminders (pass_store p)) /\
  processedCount p' = (processedCount p + List.length (okIds [d]))%nat /\
  exists new,
    pass_effects p' = pass_effects p ++ new /\
    Forall (fun x => fst x = dueId d) new /\
    (ok d = false -> In (errorLine d) new).
Proof.
  intros Hrow. cbv zeta. unfold turn, okIds. cbn [filter].
  pose proof (tryBody_shape tz isExpoPushToken (behave (dueId d)) now d
                (pass_store p) Hrow) as H.
  cbv zeta in H. fold (dueId d). fold (ok d) in H.
  destruct (tryBody tz isExpoPushToken (behave (dueId d)) now d (pass_store p))
    as [[[u|e] s'] fx]; cbn [fst snd] in H; destruct (ok d);
    destruct H as [Hr Hs]; try discriminate Hr;
    try (now destruct Hr);
    cbn [pass_store processedCount pass_effects map List.length].
  - split.
    { rewrite Hs. apply map_ext. intros r.
      now rewrite <- markAll_cons. }
    split; [lia|].
    eexists. split; [reflexivity|]. split; [|discriminate].
    apply Forall_forall. intros x Hx. apply in_map_iff in Hx as (y & <- & _).
    reflexivity.
  - split.
    { rewrite Hs. symmetry. rewrite <- (map_id (scheduledReminders _)) at 2.
      apply map_ext. intros r. apply markAll_nil. }
    split; [lia|].
    eexists. split; [reflexivity|]. split.
    + apply Forall_forall. intros x Hx. apply in_app_or in Hx as [Hx|[<-|[]]].
      * apply in_map_iff in Hx as (y & <- & _). reflexivity.
      * reflexivity.
    + intros _. apply in_or_app. right. now left.
Qed.

Lemma markAll_app ids1 ids2 r :
  markAll ids2 now (markAll ids1 now r) = markAll (ids1 ++ ids2) now r.
Proof.
  unfold markAll, Id in *. rewrite existsb_app.
  destruct (existsb (String.eqb (reminder_id r)) ids1) eqn:E1; cbn [orb].
  - unfold sentVersion.
    cbn [reminder_id reminder_userId reminder_celebrationId reminder_eventId
         scheduledFor].
    now destruct (existsb (String.eqb (reminder_id r)) ids2).
  - reflexivity.
Qed.

(** The whole loop, from any state in which the rows of the batch exist. *)
Lemma fold_shape (batch : list Due) (p : Pass) :
  (forall d, In d batch -> rowExists (dueId d) (pass_store p) = true) ->
  let p' := fold_left (turn tz isExpoPushToken behave now) batch p in
  scheduledReminders (pass_store p') =
    map (markAll (okIds batch) now) (scheduledReminders (pass_store p)) /\
  processedCount p' = (processedCount p + List.length (okIds batch))%nat /\
  exists new,
    pass_effects p' = pass_effects p ++ new /\
    Forall (fun x => In (fst x) (map dueId batch)) new /\
    (forall d, In d batch -> ok d = false -> In (errorLine d) new).
Proof.
  revert p. induction batch as [|d batch IH]; intros p Hrows; cbv zeta.
  - cbn [fold_left okIds filter map List.length]. split.
    { rewrite <- (map_id (scheduledReminders _)) at 1.
      apply map_ext. intros r. symmetry. apply markAll_nil. }
    split; [lia|]. exists []. rewrite app_nil_r.
    split; [reflexivity|]. split; [constructor | intros ? []].
  - cbn [fold_left].
    destruct (turn_shape p d (Hrows d (or_introl eq_refl)))
      as (Hs1 & Hc1 & new1 & He1 & Ht1 & Hl1).
    set (p1 := turn tz isExpoPushToken behave now p d) in *.
    assert (Hrows1 : forall d', In d' batch ->
                       rowExists (dueId d') (pass_store p1) = true).
    { intros d' Hd'. apply rowExists_iff. rewrite Hs1, map_map.
      rewrite (map_ext _ reminder_id) by (intros; apply markAll_id).
      apply rowExists_iff. apply Hrows. now right. }
    destruct (IH p1 Hrows1) as (Hs2 & Hc2 & new2 & He2 & Ht2 & Hl2).
    assert (Hids : okIds (d :: batch) = okIds [d] ++ okIds batch).
    { unfold okIds. cbn [filter]. destruct (ok d); reflexivity. }
    split.
    { rewrite Hs2, Hs1, map_map, Hids. apply map_ext. intros r.
      apply markAll_app. }
    split.
    { rewrite Hc2, Hc1, Hids, length_app. lia. }
    exists (new1 ++ new2). split; [now rewrite He2, He1, app_assoc|]. split.
    + apply Forall_app. split.
      * eapply Forall_impl; [|exact Ht1]. intros x Hx. left. now symmetry.
      * eapply Forall_impl; [|exact Ht2]. intros x Hx. now right.
    + intros d' [<-|Hd'] Hf; apply in_or_app; [left | right]; auto.
Qed.

End Server.

Lemma firstn_incl {A} (n : nat) (l : list A) (x : A) :
  In x (firstn n l) -> In x l.
Proof.
  revert l. induction n as [|n IH]; intros [|y l]; simpl; try tauto.
  intros [H|H]; [now left | right; now apply IH].
Qed.

(** The batch a pass loads: unsent rows of the store, due at [now]. *)
Lemma dueReminders_rows (s : Store) (now : Z) (d : Due) :
  In d (dueReminders s now) ->
  In (due_reminder d) (scheduledReminders s) /\
  sent (due_reminder d) = false /\
  (scheduledFor (due_reminder d) <=? now)%Z = true.
Proof.
  unfold dueReminders. intros H. apply in_map_iff in H as (r & <- & Hr).
  apply firstn_incl in Hr. apply filter_In in Hr as [Hin Hdue].
  unfold isDue in Hdue. apply andb_true_iff in Hdue as [H1 H2].
  apply negb_true_iff in H1. cbn [include due_reminder]. auto.
Qed.

Lemma dueReminders_exist (s : Store) (now : Z) (d : Due) :
  In d (dueReminders s now) -> rowExists (dueId d) s = true.
Proof.
  intros H. apply dueReminders_rows in H as [H _].
  apply rowExists_iff. unfold dueId. now apply in_map.
Qed.

(** What a pass does to the store's reminders, its count and its effects. *)
Lemma pass_shape tz isExpoPushToken behave now s :
  let batch := dueReminders s now in
  let p := processDueReminders tz isExpoPushToken behave now s in
  scheduledReminders (pass_store p) =
    map (markAll (okIds behave batch) now) (scheduledReminders s) /\
  processedCount p = List.length (okIds behave batch) /\
  Forall (fun x => In (fst x) (map dueId batch)) (pass_effects p) /\
  (forall d, In d batch -> ok behave d = false ->
     In (errorLine d) (pass_effects p)).
Proof.
  cbv zeta. unfold processDueReminders.
  destruct (fold_shape tz isExpoPushToken behave now (dueReminders s now)
              (mkPass s 0 []))
    as (Hs & Hc & new & He & Ht & Hl).
  { intros d Hd. now apply (dueReminders_exist s now). }
  cbn [pass_store processedCount pass_effects] in *.
  rewrite He. cbn [app]. auto.
Qed.



Lemma marked_row ids now rows r :
  In r (map (markAll ids now) rows) -> In (reminder_id r) ids ->
  sent r = true /\ sentAt r = Some now.
Proof.
  intros Hr Hid. apply in_map_iff in Hr as (r0 & <- & _).
  rewrite markAll_id in Hid. rewrite (markAll_marked _ _ _ Hid). now split.
Qed.

Lemma okIds_In behave batch d :
  In d batch -> ok behave d = true -> In (dueId d) (okIds behave batch).
Proof.
  intros Hd Hok. unfold okIds. apply in_map. apply filter_In. now split.
Qed.


(** C3. Each reminder is processed at most once.  A reminder that a pass
    processes (loads, and handles without an exception) is marked
    [sent = true]; a later pass, whatever the clock and the collaborators
    then, does not load it, has no effect that concerns it and leaves its
    row as the first pass marked it.  When no processing raises, the pass
    marks and counts every reminder it loads; if moreover every reminder due
    at the time of the second pass was loaded by the first, the second pass
    is a no-op that returns 0.  So is any pass that finds nothing due. *)
Theorem processDueReminders_once
    (tz : Z) (isExpoPushToken : string -> bool) (behave1 behave2 : Id -> Behaviour)
    (now1 now2 : Z) (s : Store) :
  let batch1 := dueReminders s now1 in
  let p1 := processDueReminders tz isExpoPushToken behave1 now1 s in
  let p2 := processDueReminders tz isExpoPushToken behave2 now2 (pass_store p1) in
  (forall d r, In d batch1 -> ok behave1 d = true ->
     In r (scheduledReminders (pass_store p1)) -> reminder_id r = dueId d ->
     sent r = true /\ sentAt r = Some now1) /\
  (forall d, In d batch1 -> ok behave1 d = true ->
     ~ In (dueId d) (map dueId (dueReminders (pass_store p1) now2)) /\
     (forall e, ~ In (dueId d, e) (pass_effects p2)) /\
     (forall r, In r (scheduledReminders (pass_store p2)) ->
        reminder_id r = dueId d -> sent r = true /\ sentAt r = Some now1)) /\
  ((forall d, In d batch1 -> ok behave1 d = true) ->
   processedCount p1 = List.length batch1 /\
   ((forall r, In r (scheduledReminders s) -> isDue now2 r = true ->
       In (reminder_id r) (map dueId batch1)) ->
    p2 = mkPass (pass_store p1) 0 [])) /\
  (forall behave now s0,
     dueReminders s0 now = [] ->
     processDueReminders tz isExpoPushToken behave now s0 = mkPass s0 0 []).
Proof.
  cbv zeta.
  destruct (pass_shape tz isExpoPushToken behave1 now1 s) as (Hs1 & Hc1 & _).
  set (p1 := processDueReminders tz isExpoPushToken behave1 now1 s) in *.
  destruct (pass_shape tz isExpoPushToken behave2 now2 (pass_store p1))
    as (Hs2 & _ & Ht2 & _).
  set (p2 := processDueReminders tz isExpoPushToken behave2 now2 (pass_store p1)) in *.
  assert (Hmarked : forall d r, In d (dueReminders s now1) -> ok behave1 d = true ->
            In r (scheduledReminders (pass_store p1)) ->
            reminder_id r = dueId d -> sent r = true /\ sentAt r = Some now1).
  { intros d r Hd Hok Hr Hid. rewrite Hs1 in Hr. apply (marked_row _ _ _ _ Hr).
    rewrite Hid. now apply okIds_In. }
  assert (Hnot : forall d, In d (dueReminders s now1) -> ok behave1 d = true ->
            ~ In (dueId d) (map dueId (dueReminders (pass_store p1) now2))).
  { intros d Hd Hok Hin. apply in_map_iff in Hin as (d' & Hid & Hd').
    apply dueReminders_rows in Hd' as (Hrow & Hsent & _).
    destruct (Hmarked d (due_reminder d') Hd Hok Hrow Hid) as [Hs _]. congruence. }
  split; [exact Hmarked|].
  split.
  { intros d Hd Hok. split; [now apply Hnot|]. split.
    - intros e He. rewrite Forall_forall in Ht2. apply Ht2 in He.
      now apply (Hnot d Hd Hok).
    - intros r Hr Hid. rewrite Hs2 in Hr.
      apply in_map_iff in Hr as (r1 & <- & Hr1).
      rewrite markAll_id in Hid. rewrite markAll_other.
      + now apply (Hmarked d).
      + rewrite Hid. unfold okIds. intros Hin.
        apply in_map_iff in Hin as (d' & Hid' & Hd').
        apply filter_In in Hd' as [Hd' _].
        apply (Hnot d Hd Hok). apply in_map_iff. now exists d'. }
  split.
  { intros Hclean.
    assert (Hall : okIds behave1 (dueReminders s now1) = map dueId (dueReminders s now1)).
    { unfold okIds. f_equal. apply MergeFacts.filter_keeps_all. exact Hclean. }
    split; [rewrite Hc1, Hall; apply length_map|].
    intros Hnone.
    assert (Hempty : filter (isDue now2) (scheduledReminders (pass_store p1)) = []).
    { apply MergeFacts.filter_drops_all. intros r Hr. rewrite Hs1 in Hr.
      apply in_map_iff in Hr as (r0 & <- & Hr0).
      destruct (isDue now2 (markAll _ now1 r0)) eqn:E; [|reflexivity].
      exfalso. unfold markAll in E.
      destruct (existsb (String.eqb (reminder_id r0)) _) eqn:Ex.
      - unfold isDue, sentVersion in E. discriminate E.
      - specialize (Hnone r0 Hr0 E). rewrite <- Hall in Hnone.
        assert (Ex' : existsb (String.eqb (reminder_id r0))
                        (okIds behave1 (dueReminders s now1)) = true).
        { apply existsb_exists. exists (reminder_id r0).
          split; [exact Hnone | apply String.eqb_refl]. }
        congruence. }
    unfold p2, processDueReminders, dueReminders. now rewrite Hempty. }
  intros behave now s0 Hnone. unfold processDueReminders. now rewrite Hnone.
Qed.

(** A store with five reminders at noon of 14 March 2020: three due and
    unsent (a birthday, an event, a bare one), one in the future, one sent. *)
Definition noon : Z := (DateFacts.utcDate 2020 3 14 + 12 * msPerHour)%Z.

Definition reminderStore : Store :=
  mkStore
    [ mkUser "u1" "demo@moments.app" true (Some "ExponentPushToken[abc]") (Some "ios") ]
    [ mkPerson "p1" "u1" "Mom" None None ]
    [] []
    [ mkCelebration "c1" "p1" BIRTHDAY None (DateFacts.utcDate 2020 3 15)
        (Some "FREQ=YEARLY") [7; 1; 0]%Z ]
    [ mkEvent "e1" "u1" "Dinner" (DateFacts.utcDate 2020 3 14 + 18 * msPerHour)%Z ]
    []
    [ mkReminder "r1" "u1" (Some "c1") None (DateFacts.utcDate 2020 3 14 + 9 * msPerHour)%Z false None;
      mkReminder "r2" "u1" None (Some "e1") (DateFacts.utcDate 2020 3 13 + 9 * msPerHour)%Z false None;
      mkReminder "r3" "u1" None None (DateFacts.utcDate 2020 3 1) false None;
      mkReminder "r4" "u1" (Some "c1") None (DateFacts.utcDate 2020 3 15 + 9 * msPerHour)%Z false None;
      mkReminder "r5" "u1" (Some "c1") None (DateFacts.utcDate 2020 3 8 + 9 * msPerHour)%Z true
        (Some (DateFacts.utcDate 2020 3 8 + 10 * msPerHour)%Z) ].

Definition isToken (t : string) : bool := String.prefix "ExponentPushToken[" t.

(** Expo rejects every send; the store answers every call. *)
Definition expoDown (id : Id) : Behaviour :=
  mkBehaviour noon (mkPushBehaviour false SendRejected false)
              (mkPushBehaviour false SendRejected false) false.

(** As [expoDown], and the store rejects the update that marks "r2". *)
Definition storeFlaky (id : Id) : Behaviour :=
  mkBehaviour noon (mkPushBehaviour false SendRejected false)
              (mkPushBehaviour false SendRejected false)
              (String.eqb id "r2").


Lemma processDueReminders_once_witness :
  let p1 := processDueReminders 0 isToken expoDown noon reminderStore in
  let p2 := processDueReminders 0 isToken expoDown (noon + msPerHour)%Z (pass_store p1) in
  processedCount p1 = 3%nat /\
  map (fun r => (reminder_id r, sent r)) (scheduledReminders (pass_store p1)) =
    [ ("r1", true); ("r2", true); ("r3", true); ("r4", false); ("r5", true) ]%string /\
  p2 = mkPass (pass_store p1) 0 [].
Proof.
  cbv zeta.
  pose proof (processDueReminders_once 0 isToken expoDown expoDown noon
                (noon + msPerHour)%Z reminderStore) as H.
  cbv zeta in H. destruct H as (_ & _ & H & _).
  assert (Hclean : forall d, In d (dueReminders reminderStore noon) ->
                     ok expoDown d = true).
  { intros d Hd. vm_compute in Hd.
    repeat (destruct Hd as [<-|Hd]; [vm_compute; reflexivity|]). destruct Hd. }
  destruct (H Hclean) as [Hc Hnoop].
  split; [rewrite Hc; vm_compute; reflexivity|].
  split; [vm_compute; reflexivity|].
  apply Hnoop. intros r Hr Hdue. vm_compute in Hr.
  repeat (destruct Hr as [<-|Hr];
          [first [ discriminate Hdue | vm_compute; tauto ]|]).
  destruct Hr.
Defined.

(** Expo delivers every push; the store rejects the update that marks
    "r2". *)
Definition updateRejected (id : Id) : Behaviour :=
  mkBehaviour noon (mkPushBehaviour false TicketOk false)
              (mkPushBehaviour false TicketOk false)
              (String.eqb id "r2").

(** An hour later: Expo delivers, the store answers every call. *)
Definition allWell (id : Id) : Behaviour :=
  mkBehaviour (noon + msPerHour)%Z (mkPushBehaviour false TicketOk false)
              (mkPushBehaviour false TicketOk false) false.

(** The pushes handed to Expo for the reminder [id]. *)
Definition pushesFor (id : Id) (effects : list (Id * Effect))
    : list ExpoPushMessage :=
  flat_map (fun x => if String.eqb (fst x) id
                     then match snd x with ExpoSend m => [m] | _ => [] end
                     else [])
           effects.

(** C3 as stated fails: a pass loads the due reminder "r2" and hands its
    push to Expo, the store rejects the update that follows, and the row
    stays unsent; the next pass loads it again and delivers it a second
    time. *)
Lemma unmarked_reminder_delivered_again :
  let p1 := processDueReminders 0 isToken updateRejected noon reminderStore in
  let p2 := processDueReminders 0 isToken allWell (noon + msPerHour)%Z
              (pass_store p1) in
  map dueId (dueReminders reminderStore noon) = [ "r1"; "r2"; "r3" ]%string /\
  map msg_title (pushesFor "r2" (pass_effects p1)) = [ "Dinner is vandaag" ]%string /\
  map (fun r => (reminder_id r, sent r)) (scheduledReminders (pass_store p1)) =
    [ ("r1", true); ("r2", false); ("r3", true); ("r4", false); ("r5", true) ]%string /\
  map dueId (dueReminders (pass_store p1) (noon + msPerHour)%Z) = [ "r2" ]%string /\
  map msg_title (pushesFor "r2" (pass_effects p2)) = [ "Dinner is vandaag" ]%string /\
  processedCount p2 = 1%nat.
Proof. vm_compute. repeat split; reflexivity. Qed.



End ProcessFacts.

(** ** Phone numbers *)

Module PhoneFacts.
Import Normalize.

Lemma stripNonDigits_idem (s : string) :
  stripNonDigits (stripNonDigits s) = stripNonDigits s.
Proof.
  induction s as [|c s IH]; simpl; [reflexivity|].
  destruct (isDigit c) eqn:E; simpl; [rewrite E, IH; reflexivity | exact IH].
Qed.

Lemma stripNonDigits_length (s : string) :
  (String.length (stripNonDigits s) <= String.length s)%nat.
Proof.
  induction s as [|c s IH]; simpl; [lia|].
  destruct (isDigit c); simpl; lia.
Qed.

(** What [normalizePhone] returns, and the digits of it. *)
Lemma normalizePhone_digits (raw : string) :
  let d := stripNonDigits raw in
  if (String.length d =? 10)%nat
  then normalizePhone raw = "+1" ++ d /\
       stripNonDigits (normalizePhone raw) = "1" ++ d
  else normalizePhone raw = "+" ++ d /\
       stripNonDigits (normalizePhone raw) = d.
Proof.
  cbv zeta. unfold normalizePhone.
  destruct (String.length (stripNonDigits raw) =? 10)%nat.
  - split; [reflexivity|]. simpl. now rewrite stripNonDigits_idem.
  - assert (H : stripNonDigits ("+" ++ stripNonDigits raw) = stripNonDigits raw)
      by (simpl; apply stripNonDigits_idem).
    destruct (_ && _); [now split|].
    destruct (_ <? _)%nat; now split.
Qed.

Lemma normalizePhone_again (raw : string) :
  normalizePhone (normalizePhone raw) = normalizePhone raw.
Proof.
  pose proof (normalizePhone_digits raw) as H. cbv zeta in H.
  destruct (Nat.eqb_spec (String.length (stripNonDigits raw)) 10) as [E|E];
    destruct H as [Hout Hdig].
  - unfold normalizePhone at 1. rewrite Hdig, Hout.
    change (String.length ("1" ++ stripNonDigits raw))
      with (S (String.length (stripNonDigits raw))).
    rewrite E. simpl. now destruct (startsWith _ _).
  - unfold normalizePhone at 1. rewrite Hdig, Hout.
    apply Nat.eqb_neq in E. rewrite E.
    destruct (_ && _); [reflexivity|].
    now destruct (_ <? _)%nat.
Qed.

Lemma normalizePhone_plus (raw : string) :
  exists rest, normalizePhone raw = "+" ++ rest.
Proof.
  pose proof (normalizePhone_digits raw) as H. cbv zeta in H.
  destruct (Nat.eqb _ 10); destruct H as [-> _]; eexists; reflexivity.
Qed.

(** The normalized form of a valid number. *)
Lemma normalizePhone_valid (raw : string) :
  isValidPhone raw = true ->
  exists d, normalizePhone raw = "+" ++ d /\
    forallb isDigit (list_ascii_of_string d) = true /\
    (11 <= String.length d <= 15)%nat.
Proof.
  pose proof (normalizePhone_digits raw) as H. cbv zeta in H.
  pose proof (NormalizeFacts.stripNonDigits_all_digits raw) as Hall.
  unfold isValidPhone.
  destruct (Nat.eqb_spec (String.length (stripNonDigits raw)) 10) as [E|E];
    destruct H as [Hout Hdig].
  - intros _. exists ("1" ++ stripNonDigits raw). split; [exact Hout|].
    split; [|simpl; lia].
    simpl. exact Hall.
  - intros Hv. apply andb_true_iff in Hv as [H1 H2].
    apply Nat.leb_le in H1, H2.
    exists (stripNonDigits raw). split; [exact Hout|]. split; [exact Hall|]. lia.
Qed.

(** X1. [normalizePhone] is idempotent: a number that is already normalized
    is kept as it is, so a value read back from the store can be normalized
    again.  Its result starts with a plus sign, whatever the input; it is
    never empty. *)
Theorem normalizePhone_idempotent (raw : string) :
  normalizePhone (normalizePhone raw) = normalizePhone raw /\
  startsWith "+" (normalizePhone raw) = true /\
  normalizePhone raw <> EmptyString.
Proof.
  split; [apply normalizePhone_again|].
  destruct (normalizePhone_plus raw) as [rest ->]. split; [|discriminate].
  unfold startsWith. simpl. now destruct rest.
Qed.

(** X2. Normalizing keeps validity, and the normalized form of a valid
    number is a plus sign followed by 11 to 15 digits (a ten-digit number
    gets the country code 1). *)
Theorem isValidPhone_normalized (raw : string) :
  isValidPhone (normalizePhone raw) = isValidPhone raw /\
  (isValidPhone raw = true ->
   exists d, normalizePhone raw = "+" ++ d /\
     forallb isDigit (list_ascii_of_string d) = true /\
     (11 <= String.length d <= 15)%nat).
Proof.
  split; [|apply normalizePhone_valid].
  pose proof (normalizePhone_digits raw) as H. cbv zeta in H.
  unfold isValidPhone.
  destruct (Nat.eqb_spec (String.length (stripNonDigits raw)) 10) as [E|E];
    destruct H as [Hout Hdig]; rewrite Hdig; [|reflexivity].
  change (String.length ("1" ++ stripNonDigits raw))
    with (S (String.length (stripNonDigits raw))).
  now rewrite E.
Qed.

End PhoneFacts.

(** ** Email addresses *)

Module EmailFacts.
Import RegExp Normalize.
Local Open Scope list_scope.

(** The words a pattern denotes. *)
Inductive Matches : Pattern -> list N -> Prop :=
  | MEmpty : Matches Empty []
  | MClass f c : f c = true -> Matches (Class f) [c]
  | MSeq a b u v : Matches a u -> Matches b v -> Matches (Seq a b) (u ++ v)
  | MAltL a b u : Matches a u -> Matches (Alt a b) u
  | MAltR a b u : Matches b u -> Matches (Alt a b) u
  | MStarNil a : Matches (Star a) []
  | MStarCons a u v :
      Matches a u -> Matches (Star a) v -> Matches (Star a) (u ++ v).

Lemma seq_inv (a b : Pattern) (w : list N) :
  Matches (Seq a b) w <-> exists u v, w = u ++ v /\ Matches a u /\ Matches b v.
Proof.
  split.
  - intros H. inversion H; subst. eauto.
  - intros (u & v & -> & H1 & H2). now constructor.
Qed.

Lemma class_inv (f : N -> bool) (w : list N) :
  Matches (Class f) w <-> exists c, w = [c] /\ f c = true.
Proof.
  split.
  - intros H. inversion H; subst. eauto.
  - intros (c & -> & H). now constructor.
Qed.

Lemma nullable_spec (r : Pattern) : nullable r = true <-> Matches r [].
Proof.
  induction r as [| |f|a IHa b IHb|a IHa b IHb|a IHa]; simpl.
  - split; [discriminate | intros H; inversion H].
  - split; [constructor | reflexivity].
  - split; [discriminate | intros H; inversion H].
  - rewrite andb_true_iff, IHa, IHb. split.
    + intros [H1 H2]. exact (MSeq a b [] [] H1 H2).
    + intros H. apply seq_inv in H as (u & v & E & H1 & H2).
      symmetry in E. apply app_eq_nil in E as [-> ->]. now split.
  - rewrite orb_true_iff, IHa, IHb. split.
    + intros [H|H]; [now apply MAltL | now apply MAltR].
    + intros H. inversion H; subst; auto.
  - split; [constructor | reflexivity].
Qed.

Lemma star_cons (a : Pattern) (c : N) (w : list N) :
  Matches (Star a) (c :: w) ->
  exists u v, w = u ++ v /\ Matches a (c :: u) /\ Matches (Star a) v.
Proof.
  intros H. remember (Star a) as r eqn:Er. remember (c :: w) as x eqn:Ex.
  revert w Ex.
  induction H as [| | | | | |a' u v H1 _ H2 IH2]; intros w Ex; try discriminate.
  inversion Er; subst a'.
  destruct u as [|c' u].
  - simpl in Ex. now apply IH2.
  - simpl in Ex. inversion Ex; subst. now exists u, v.
Qed.

Lemma deriv_spec (c : N) (r : Pattern) (w : list N) :
  Matches (deriv c r) w <-> Matches r (c :: w).
Proof.
  revert w.
  induction r as [| |f|a IHa b IHb|a IHa b IHb|a IHa]; intros w; simpl.
  - split; intros H; inversion H.
  - split; intros H; inversion H.
  - destruct (f c) eqn:E; split; intros H; inversion H; subst.
    + now constructor.
    + constructor.
    + congruence.
  - assert (Hseq : Matches (Seq (deriv c a) b) w <->
                   exists u v, w = u ++ v /\ Matches a (c :: u) /\ Matches b v).
    { split.
      - intros H. apply seq_inv in H as (u & v & -> & H1 & H2).
        exists u, v. split; [reflexivity|]. split; [now apply IHa | exact H2].
      - intros (u & v & -> & H1 & H2). constructor; [now apply IHa | exact H2]. }
    assert (Hsplit : Matches (Seq a b) (c :: w) <->
                     (exists u v, w = u ++ v /\ Matches a (c :: u) /\ Matches b v) \/
                     (Matches a [] /\ Matches b (c :: w))).
    { split.
      - intros H. apply seq_inv in H as (u & v & E & H1 & H2).
        destruct u as [|c' u]; simpl in E.
        + right. subst v. now split.
        + inversion E; subst. left. now exists u, v.
      - intros [(u & v & -> & H1 & H2)|[H1 H2]].
        + exact (MSeq a b (c :: u) v H1 H2).
        + exact (MSeq a b [] (c :: w) H1 H2). }
    rewrite Hsplit. destruct (nullable a) eqn:En.
    + split.
      * intros H. inversion H; subst.
        -- left. now apply Hseq.
        -- right. split; [now apply nullable_spec | now apply IHb].
      * intros [H|[H1 H2]].
        -- apply MAltL. now apply Hseq.
        -- apply MAltR. now apply IHb.
    + rewrite Hseq. split; [now left|].
      intros [H|[H1 _]]; [exact H|].
      apply nullable_spec in H1. congruence.
  - split; intros H; inversion H; subst.
    + apply MAltL. now apply IHa.
    + apply MAltR. now apply IHb.
    + apply MAltL. now apply IHa.
    + apply MAltR. now apply IHb.
  - split.
    + intros H. apply seq_inv in H as (u & v & -> & H1 & H2).
      apply IHa in H1. exact (MStarCons a (c :: u) v H1 H2).
    + intros H. apply star_cons in H as (u & v & -> & H1 & H2).
      constructor; [now apply IHa | exact H2].
Qed.

(** [test] decides membership. *)
Lemma test_spec (r : Pattern) (w : list N) : test r w = true <-> Matches r w.
Proof.
  revert r. induction w as [|c w IH]; intros r; simpl.
  - apply nullable_spec.
  - rewrite IH. apply deriv_spec.
Qed.

Lemma star_class (f : N -> bool) (w : list N) :
  Matches (Star (Class f)) w <-> forallb f w = true.
Proof.
  split.
  - intros H. remember (Star (Class f)) as r eqn:Er.
    induction H as [| | | | | |a u v H1 _ H2 IH2]; try discriminate;
      [reflexivity|].
    inversion Er; subst a. inversion H1; subst. simpl.
    rewrite IH2 by reflexivity. now rewrite andb_true_r.
  - induction w as [|c w IH]; simpl; intros H; [constructor|].
    apply andb_true_iff in H as [H1 H2].
    exact (MStarCons (Class f) [c] w (MClass f c H1) (IH H2)).
Qed.

(** A non-empty run of characters of one class. *)
Definition Run (f : N -> bool) (w : list N) : Prop :=
  w <> [] /\ forallb f w = true.

Lemma plus_class (f : N -> bool) (w : list N) :
  Matches (Plus (Class f)) w <-> Run f w.
Proof.
  unfold Plus, Run. split.
  - intros H. apply seq_inv in H as (u & v & -> & H1 & H2).
    apply class_inv in H1 as (c & -> & H1). apply star_class in H2. simpl.
    split; [discriminate|]. now rewrite H1, H2.
  - intros [Hne H]. destruct w as [|c w]; [congruence|].
    simpl in H. apply andb_true_iff in H as [H1 H2].
    apply (MSeq (Class f) (Star (Class f)) [c] w);
      [now constructor | now apply star_class].
Qed.

Definition at_sign : N := 64.
Definition full_stop : N := 46.

Lemma plain_no_at (w : list N) :
  forallb plainChar w = true ->
  count_occ N.eq_dec w at_sign = 0%nat /\
  forallb (fun c => negb (isWhiteSpace c)) w = true.
Proof.
  induction w as [|c w IH]; simpl; intros H; [now split|].
  apply andb_true_iff in H as [H1 H2]. destruct (IH H2) as [IH1 IH2].
  unfold plainChar in H1. apply negb_true_iff, orb_false_iff in H1 as [Hs Ha].
  rewrite Hs, IH2. split; [|reflexivity].
  destruct (N.eq_dec c at_sign) as [->|_]; [discriminate Ha | exact IH1].
Qed.

(** X3. [isValidEmail] accepts exactly the addresses made of a local
    part, one ['@'], and a domain with a full stop inside it, where the local
    part and the two sides of that full stop are non-empty runs of characters
    that are neither white space nor ['@'].  An accepted address therefore
    holds exactly one ['@'], no white space, and at least five characters. *)
Theorem isValidEmail_shape (email : string) :
  (isValidEmail email = true <->
   exists l d1 d2,
     codePoints email = l ++ at_sign :: d1 ++ full_stop :: d2 /\
     Run plainChar l /\ Run plainChar d1 /\ Run plainChar d2) /\
  (isValidEmail email = true ->
   count_occ N.eq_dec (codePoints email) at_sign = 1%nat /\
   forallb (fun c => negb (isWhiteSpace c)) (codePoints email) = true /\
   (5 <= List.length (codePoints email))%nat).
Proof.
  assert (Hshape : isValidEmail email = true <->
    exists l d1 d2,
      codePoints email = l ++ at_sign :: d1 ++ full_stop :: d2 /\
      Run plainChar l /\ Run plainChar d1 /\ Run plainChar d2).
  { unfold isValidEmail, emailRegex. rewrite test_spec. split.
    - intros H.
      apply seq_inv in H as (l & r1 & E1 & Hl & H).
      apply seq_inv in H as (a & r2 & E2 & Ha & H).
      apply seq_inv in H as (d1 & r3 & E3 & Hd1 & H).
      apply seq_inv in H as (p & d2 & E4 & Hp & Hd2).
      apply class_inv in Ha as (ca & -> & Hca).
      apply class_inv in Hp as (cp & -> & Hcp).
      apply N.eqb_eq in Hca, Hcp. subst ca cp.
      apply plus_class in Hl, Hd1, Hd2.
      exists l, d1, d2. subst.
      split; [exact E1|]. split; [exact Hl|]. split; [exact Hd1 | exact Hd2].
    - intros (l & d1 & d2 & E & Hl & Hd1 & Hd2). rewrite E.
      apply plus_class in Hl, Hd1, Hd2.
      apply (MSeq _ _ l (at_sign :: d1 ++ full_stop :: d2) Hl).
      apply (MSeq _ _ [at_sign] (d1 ++ full_stop :: d2));
        [constructor; reflexivity|].
      apply (MSeq _ _ d1 (full_stop :: d2) Hd1).
      apply (MSeq _ _ [full_stop] d2); [constructor; reflexivity | exact Hd2]. }
  split; [exact Hshape|].
  intros H. apply Hshape in H as (l & d1 & d2 & E & [Nl Hl] & [N1 H1] & [N2 H2]).
  rewrite E.
  destruct (plain_no_at l Hl) as [Cl Wl].
  destruct (plain_no_at d1 H1) as [C1 W1].
  destruct (plain_no_at d2 H2) as [C2 W2].
  split; [|split].
  - rewrite count_occ_app. cbn [count_occ].
    destruct (N.eq_dec at_sign at_sign) as [_|Hne]; [|congruence].
    rewrite count_occ_app. cbn [count_occ].
    destruct (N.eq_dec full_stop at_sign) as [Heq|_]; [discriminate Heq|].
    lia.
  - rewrite forallb_app. cbn [forallb]. rewrite forallb_app. cbn [forallb].
    rewrite Wl, W1, W2. reflexivity.
  - rewrite length_app. cbn [List.length]. rewrite length_app. cbn [List.length].
    destruct l; [congruence|]. destruct d1; [congruence|].
    destruct d2; [congruence|]. cbn [List.length]. lia.
Qed.

Example isValidEmail_accepts : isValidEmail "ann@example.com" = true.
Proof. reflexivity. Qed.

Example isValidEmail_rejects :
  map isValidEmail
    [ "ann@example"; "ann example@mail.com"; "ann@@example.com"; "@example.com";
      "ann@.com"; "ann@example."; "ann" ] =
  [ false; false; false; false; false; false; false ].
Proof. reflexivity. Qed.

(** A no-break space (U+00A0) is white space to the pattern. *)
Example isValidEmail_nbsp :
  isValidEmail (String (ascii_of_nat 97)
                  (String (ascii_of_nat 194) (String (ascii_of_nat 160) "@b.c")))
  = false.
Proof. reflexivity. Qed.

End EmailFacts.

(** ** What a suggestion rests on *)

Module SuggestionFacts.
Import Prisma Dedup MergeFacts DedupFacts.
Local Open Scope list_scope.

(** The column a match type is about. *)
Definition column (t : MatchType) : Identity -> option string :=
  match t with phone => normalizedPhone | email => normalizedEmail end.

Lemma truthy_Some (o : option string) (v : string) :
  truthy o = Some v <-> o = Some v /\ v <> EmptyString.
Proof.
  destruct o as [[|c w]|]; simpl; split; try discriminate.
  - intros [E H]. inversion E; subst. congruence.
  - intros E. inversion E; subst. split; [reflexivity | discriminate].
  - intros [E _]. exact E.
  - intros [E _]. discriminate E.
Qed.

(** [p] has an identity carrying [v] in column [sel]. *)
Definition Carries (sel : Identity -> option string) (v : string)
    (p : PersonWithIdentities) : Prop :=
  exists i, In i (pwi_identities p) /\ truthy (sel i) = Some v.

(** Every person of a map is filed under a value it carries. *)
Definition Filed (sel : Identity -> option string) (m : JsMap) : Prop :=
  forall v l p, In (v, l) m -> In p l -> Carries sel v p.

Lemma Filed_pushTo sel m k p :
  Filed sel m -> Carries sel k p -> Filed sel (pushTo m k p).
Proof.
  intros Hm Hp v l q Hin Hq. unfold pushTo in Hin.
  apply in_mapSet in Hin as [Hin|E]; [now apply (Hm v l)|].
  inversion E; subst. apply in_app_or in Hq as [Hq|[<-|[]]]; [|exact Hp].
  destruct (mapGet m k) as [old|] eqn:Eg; [|contradiction].
  apply (Hm k old); [now apply mapGet_In | exact Hq].
Qed.

Lemma Filed_indexIdentity p maps i :
  In i (pwi_identities p) ->
  Filed normalizedPhone (fst maps) -> Filed normalizedEmail (snd maps) ->
  Filed normalizedPhone (fst (indexIdentity p maps i)) /\
  Filed normalizedEmail (snd (indexIdentity p maps i)).
Proof.
  intros Hi H1 H2. unfold indexIdentity.
  destruct (truthy (normalizedPhone i)) as [v|] eqn:Ep;
    destruct (truthy (normalizedEmail i)) as [w|] eqn:Ee; cbn [fst snd];
    split; try assumption; apply Filed_pushTo; try assumption;
    exists i; now split.
Qed.

Lemma Filed_fold p l maps :
  incl l (pwi_identities p) ->
  Filed normalizedPhone (fst maps) -> Filed normalizedEmail (snd maps) ->
  Filed normalizedPhone (fst (fold_left (indexIdentity p) l maps)) /\
  Filed normalizedEmail (snd (fold_left (indexIdentity p) l maps)).
Proof.
  revert maps. induction l as [|i l IH]; intros maps Hl H1 H2; simpl; [now split|].
  destruct (Filed_indexIdentity p maps i (Hl i (or_introl eq_refl)) H1 H2).
  apply IH; auto. intros j Hj. apply Hl. now right.
Qed.

Lemma Filed_buildMaps (ps : list PersonWithIdentities) :
  Filed normalizedPhone (fst (buildMaps ps)) /\
  Filed normalizedEmail (snd (buildMaps ps)).
Proof.
  unfold buildMaps.
  assert (H0 : Filed normalizedPhone (fst (([], []) : JsMap * JsMap)) /\
               Filed normalizedEmail (snd (([], []) : JsMap * JsMap))).
  { split; intros v l p []. }
  revert H0. generalize (([], []) : JsMap * JsMap).
  induction ps as [|p ps IH]; intros maps [H1 H2]; simpl; [now split|].
  apply IH. unfold indexPerson. apply Filed_fold; auto. apply incl_refl.
Qed.

(** What the scans append. *)
Definition Appends (P : DuplicateSuggestion -> Prop) (acc acc' : Acc) : Prop :=
  exists new, suggestions acc' = suggestions acc ++ new /\ Forall P new.

Lemma Appends_refl P acc : Appends P acc acc.
Proof. exists []. now rewrite app_nil_r. Qed.

Lemma Appends_trans P a b c : Appends P a b -> Appends P b c -> Appends P a c.
Proof.
  intros (n1 & E1 & F1) (n2 & E2 & F2). exists (n1 ++ n2).
  rewrite E2, E1, app_assoc. split; [reflexivity|]. apply Forall_app. now split.
Qed.

Lemma Appends_impl (P Q : DuplicateSuggestion -> Prop) a b :
  (forall x, P x -> Q x) -> Appends P a b -> Appends Q a b.
Proof.
  intros H (n & E & F). exists n. split; [exact E|].
  eapply Forall_impl; [|exact F]. exact H.
Qed.

Definition Pairs (t : MatchType) (v : string) (l : list PersonWithIdentities)
    (x : DuplicateSuggestion) : Prop :=
  matchType x = t /\ matchValue x = v /\ In (person1 x) l /\ In (person2 x) l.

Lemma visit_appends t v l x y acc :
  In x l -> In y l -> Appends (Pairs t v l) acc (visit t v x acc y).
Proof.
  intros Hx Hy. unfold visit.
  destruct (has (seenPairs acc) (pairKey (pid x) (pid y))); [apply Appends_refl|].
  eexists. split; [reflexivity|]. repeat constructor; assumption.
Qed.

Lemma fold_visit_appends t v l x rest acc :
  In x l -> incl rest l ->
  Appends (Pairs t v l) acc (fold_left (visit t v x) rest acc).
Proof.
  intros Hx. revert acc. induction rest as [|y rest IH]; intros acc Hr; simpl.
  - apply Appends_refl.
  - eapply Appends_trans.
    + apply (visit_appends t v l x y acc Hx). apply Hr. now left.
    + apply IH. intros z Hz. apply Hr. now right.
Qed.

Lemma scanPairs_appends t v l rest acc :
  incl rest l -> Appends (Pairs t v l) acc (scanPairs t v rest acc).
Proof.
  revert acc. induction rest as [|x rest IH]; intros acc Hr; simpl.
  - apply Appends_refl.
  - assert (Hr' : incl rest l) by (intros z Hz; apply Hr; now right).
    eapply Appends_trans; [|now apply IH].
    apply fold_visit_appends; [apply Hr; now left | exact Hr'].
Qed.

(** A suggestion drawn from one entry of [m]. *)
Definition Drawn (t : MatchType) (m : JsMap) (x : DuplicateSuggestion) : Prop :=
  matchType x = t /\
  exists l, In (matchValue x, l) m /\ In (person1 x) l /\ In (person2 x) l.

Lemma scanMap_appends t (M m : JsMap) acc :
  incl m M -> Appends (Drawn t M) acc (scanMap t m acc).
Proof.
  unfold scanMap. revert acc.
  induction m as [|[v l] m IH]; intros acc Hm; simpl.
  - apply Appends_refl.
  - eapply Appends_trans; [|apply IH; intros e He; apply Hm; now right].
    unfold scanEntry. cbn [fst snd].
    destruct (2 <=? List.length l)%nat; [|apply Appends_refl].
    apply (Appends_impl (Pairs t v l)); [|apply scanPairs_appends, incl_refl].
    intros x (Ht & Hv & H1 & H2). split; [exact Ht|].
    exists l. rewrite Hv. split; [apply Hm; now left | now split].
Qed.

(** A loaded person: a person of the user, with the identities stored for
    its id. *)
Lemma findMany_loaded (s : Store) (userId : Id) (p : PersonWithIdentities) :
  In p (person_findMany s userId) ->
  Owned s userId (pwi_person p) /\ pwi_identities p = identitiesOf s (pid p).
Proof.
  unfold person_findMany. intros H. apply in_map_iff in H as (P & <- & HP).
  apply filter_In in HP as [HP Hu]. apply eqb_eq_true in Hu.
  split; [now split | reflexivity].
Qed.

(** The two parts of the result, each drawn from its map. *)
Lemma run_parts (s : Store) (userId : Id) :
  let ps := person_findMany s userId in
  exists byPhone byEmail,
    getSuggestedDuplicates s userId = byPhone ++ byEmail /\
    Forall (Drawn phone (fst (buildMaps ps))) byPhone /\
    Forall (Drawn email (snd (buildMaps ps))) byEmail.
Proof.
  cbv zeta. unfold getSuggestedDuplicates.
  set (ps := person_findMany s userId).
  destruct (scanMap_appends phone (fst (buildMaps ps)) (fst (buildMaps ps))
              (mkAcc [] []) (incl_refl _)) as (n1 & E1 & F1).
  destruct (scanMap_appends email (snd (buildMaps ps)) (snd (buildMaps ps))
              (scanMap phone (fst (buildMaps ps)) (mkAcc [] [])) (incl_refl _))
    as (n2 & E2 & F2).
  exists n1, n2. rewrite E2, E1. now split.
Qed.

(** What a drawn suggestion says about the store. *)
Definition Grounded (s : Store) (userId : Id) (x : DuplicateSuggestion) : Prop :=
  let sel := column (matchType x) in
  Owned s userId (pwi_person (person1 x)) /\
  Owned s userId (pwi_person (person2 x)) /\
  pwi_identities (person1 x) = identitiesOf s (pid (person1 x)) /\
  pwi_identities (person2 x) = identitiesOf s (pid (person2 x)) /\
  matchValue x <> EmptyString /\
  (exists i, In i (identitiesOf s (pid (person1 x))) /\
             sel i = Some (matchValue x)) /\
  (exists j, In j (identitiesOf s (pid (person2 x))) /\
             sel j = Some (matchValue x)).

Lemma drawn_grounded (s : Store) (userId : Id) (t : MatchType) (m : JsMap)
    (x : DuplicateSuggestion) :
  Within (person_findMany s userId) m -> Filed (column t) m ->
  Drawn t m x -> Grounded s userId x.
Proof.
  intros HW HF (Ht & l & Hl & H1 & H2). unfold Grounded. cbv zeta. rewrite Ht.
  pose proof (HW _ Hl) as Hin. cbn [snd] in Hin.
  destruct (findMany_loaded s userId _ (Hin _ H1)) as [Ho1 Hi1].
  destruct (findMany_loaded s userId _ (Hin _ H2)) as [Ho2 Hi2].
  destruct (HF _ _ _ Hl H1) as (i & Hi & Hvi).
  destruct (HF _ _ _ Hl H2) as (j & Hj & Hvj).
  apply truthy_Some in Hvi as [Hvi Hne]. apply truthy_Some in Hvj as [Hvj _].
  rewrite Hi1 in Hi. rewrite Hi2 in Hj.
  repeat (split; [assumption|]). split; [now exists i | now exists j].
Qed.

Lemma suggestion_grounded (s : Store) (userId : Id) (x : DuplicateSuggestion) :
  In x (getSuggestedDuplicates s userId) -> Grounded s userId x.
Proof.
  intros Hx. destruct (run_parts s userId) as (n1 & n2 & E & F1 & F2).
  destruct (buildMaps_within (person_findMany s userId)) as [W1 W2].
  destruct (Filed_buildMaps (person_findMany s userId)) as [G1 G2].
  rewrite E in Hx. rewrite Forall_forall in F1, F2.
  apply in_app_or in Hx as [Hx|Hx].
  - exact (drawn_grounded s userId phone _ x W1 G1 (F1 x Hx)).
  - exact (drawn_grounded s userId email _ x W2 G2 (F2 x Hx)).
Qed.

(** X4. Every suggestion is grounded in the store: its two persons are
    persons of the requesting user, loaded with exactly the identities stored
    for them, and each owns an identity whose column named by [matchType]
    (normalizedPhone or normalizedEmail) holds [matchValue], which is not
    empty.  The suggestions found on a phone come first, those found on an
    email after them. *)
Theorem suggestions_grounded (s : Store) (userId : Id) :
  let out := getSuggestedDuplicates s userId in
  (forall x, In x out ->
     let sel := column (matchType x) in
     Owned s userId (pwi_person (person1 x)) /\
     Owned s userId (pwi_person (person2 x)) /\
     pwi_identities (person1 x) = identitiesOf s (pid (person1 x)) /\
     pwi_identities (person2 x) = identitiesOf s (pid (person2 x)) /\
     matchValue x <> EmptyString /\
     (exists i, In i (identitiesOf s (pid (person1 x))) /\
                sel i = Some (matchValue x)) /\
     (exists j, In j (identitiesOf s (pid (person2 x))) /\
                sel j = Some (matchValue x))) /\
  (exists byPhone byEmail,
     out = byPhone ++ byEmail /\
     Forall (fun x => matchType x = phone) byPhone /\
     Forall (fun x => matchType x = email) byEmail).
Proof.
  cbv zeta. split.
  - intros x Hx. exact (suggestion_grounded s userId x Hx).
  - destruct (run_parts s userId) as (n1 & n2 & E & F1 & F2).
    exists n1, n2. split; [exact E|].
    split; (eapply Forall_impl; [|eassumption]); intros x [Ht _]; exact Ht.
Qed.

(** A pair of persons of the user sharing a value in a column is suggested. *)
Lemma shared_suggested (s : Store) (userId : Id) (t : MatchType) (P Q : Person) :
  Separable (map person_id (people s)) ->
  Owned s userId P -> Owned s userId Q -> person_id P <> person_id Q ->
  Shares (column t) s P Q ->
  exists z, In z (getSuggestedDuplicates s userId) /\
            relates z (person_id P) (person_id Q).
Proof.
  intros Hsep [HP HuP] [HQ HuQ] Hne (iP & iQ & v & H1 & H2 & H3 & H4 & H5 & H6).
  set (ps := person_findMany s userId).
  pose proof (findMany_person s userId P HP HuP) as HPin.
  pose proof (findMany_person s userId Q HQ HuQ) as HQin.
  set (P' := mkPWI P _) in HPin. set (Q' := mkPWI Q _) in HQin.
  assert (HoP : In P' (occ (column t) v ps)).
  { apply (hit_In _ _ _ iP); auto. now apply owned_identity. }
  assert (HoQ : In Q' (occ (column t) v ps)).
  { apply (hit_In _ _ _ iQ); auto. now apply owned_identity. }
  assert (Hne' : P' <> Q').
  { intros E. apply (f_equal pid) in E. now apply Hne. }
  destruct (two_in_split _ _ _ HoP HoQ Hne')
    as (l1 & x & l2 & y & l3 & Hocc & Hxy).
  assert (Hz : exists z, In z (getSuggestedDuplicates s userId) /\
                 skey z = pairKey (pid x) (pid y) /\
                 In (person1 z) ps /\ In (person2 z) ps).
  { destruct t; cbn [column] in Hocc.
    - destruct (run_phone_hit s userId v l1 x l2 y l3 Hocc)
        as (z & ? & ? & ? & ? & ?). now exists z.
    - destruct (run_email_hit s userId v l1 x l2 y l3 Hocc)
        as (z & ? & ? & ? & ?). now exists z. }
  destruct Hz as (z & Hz & Hkz & Hz1 & Hz2).
  exists z. split; [exact Hz|].
  apply (relates_of_key s userId); auto.
  rewrite Hkz. destruct Hxy as [[-> ->]|[-> ->]];
    [reflexivity | apply pairKey_sym].
Qed.

Lemma key_unique (s : Store) (userId : Id) (i j : nat)
    (x y : DuplicateSuggestion) :
  nth_error (getSuggestedDuplicates s userId) i = Some x ->
  nth_error (getSuggestedDuplicates s userId) j = Some y ->
  skey x = skey y -> i = j.
Proof.
  intros Hi Hj Hk.
  pose proof (run_keys_nodup s userId) as Hnd.
  rewrite NoDup_nth_error in Hnd. apply Hnd.
  - rewrite length_map. apply nth_error_Some. congruence.
  - rewrite !nth_error_map, Hi, Hj. simpl. now rewrite Hk.
Qed.

(** X5. Two distinct persons of the user who share a normalized email
    and no normalized phone are returned exactly once, with matchType
    'email' (ids whose joined pairs are told apart, see [Separable]). *)
Theorem email_pair_once (s : Store) (userId : Id) (P Q : Person)
    (Hsep : Separable (map person_id (people s)))
    (HP : Owned s userId P) (HQ : Owned s userId Q)
    (Hne : person_id P <> person_id Q)
    (Hemail : Shares normalizedEmail s P Q)
    (Hphone : ~ Shares normalizedPhone s P Q) :
  let out := getSuggestedDuplicates s userId in
  exists i x,
    nth_error out i = Some x /\ matchType x = email /\
    relates x (person_id P) (person_id Q) /\
    forall j y, nth_error out j = Some y ->
      relates y (person_id P) (person_id Q) -> j = i.
Proof.
  cbv zeta.
  destruct (shared_suggested s userId email P Q Hsep HP HQ Hne Hemail)
    as (z & Hz & Hrel).
  pose proof (suggestion_grounded s userId z Hz)
    as (_ & _ & _ & _ & Hv & (i1 & Hi1 & Hs1) & (i2 & Hi2 & Hs2)).
  cbv zeta in Hs1, Hs2.
  apply In_nth_error in Hz as [i Hi].
  exists i, z. split; [exact Hi|]. split.
  - destruct (matchType z) eqn:Et; [|reflexivity]. exfalso. apply Hphone.
    cbn [column] in Hs1, Hs2. unfold identitiesOf in Hi1, Hi2.
    apply filter_In in Hi1 as [Hin1 Ho1]. apply filter_In in Hi2 as [Hin2 Ho2].
    apply eqb_eq_true in Ho1, Ho2.
    assert (T1 : truthy (normalizedPhone i1) = Some (matchValue z))
      by (apply truthy_Some; now split).
    assert (T2 : truthy (normalizedPhone i2) = Some (matchValue z))
      by (apply truthy_Some; now split).
    destruct Hrel as [[E1 E2]|[E1 E2]].
    + exists i1, i2, (matchValue z). repeat split; congruence.
    + exists i2, i1, (matchValue z). repeat split; congruence.
  - split; [exact Hrel|].
    intros j y Hj Hr. apply (key_unique s userId j i y z Hj Hi).
    rewrite (relates_key _ _ _ Hr). symmetry. now apply relates_key.
Qed.

(** Ann and Bob share an email; their phones differ. *)
Definition storeEmail : Store :=
  mkStore
    [ mkUser "u1" "demo@moments.app" true None None ]
    [ mkPerson "pa" "u1" "Ann" None None; mkPerson "pb" "u1" "Bob" None None ]
    [ mkIdentity "i1" "pa" PHONE (Some "+15551234567") None None;
      mkIdentity "i2" "pb" PHONE (Some "+15557654321") None None;
      mkIdentity "i3" "pa" EMAIL None (Some "home@example.com") None;
      mkIdentity "i4" "pb" EMAIL None (Some "home@example.com") None ]
    [] [] [] [] [].

Lemma storeEmail_no_phone : ~ Shares normalizedPhone storeEmail ann bob.
Proof.
  intros (i & j & v & Hi & Hj & Hpi & Hpj & Hvi & Hvj).
  simpl in Hi, Hj.
  destruct Hi as [<-|[<-|[<-|[<-|[]]]]]; try discriminate Hpi;
    try discriminate Hvi;
    destruct Hj as [<-|[<-|[<-|[<-|[]]]]]; try discriminate Hpj;
    try discriminate Hvj.
  simpl in Hvi, Hvj. congruence.
Qed.

Lemma email_pair_once_witness :
  exists i x,
    nth_error (getSuggestedDuplicates storeEmail "u1") i = Some x /\
    matchType x = email /\ relates x "pa" "pb" /\
    List.length (getSuggestedDuplicates storeEmail "u1") = 1%nat.
Proof.
  assert (Hsep : Separable (map person_id (people storeEmail))).
  { apply noDash_separable. reflexivity. }
  assert (Hne : person_id ann <> person_id bob) by discriminate.
  assert (Hsh : Shares normalizedEmail storeEmail ann bob).
  { exists (mkIdentity "i3" "pa" EMAIL None (Some "home@example.com") None),
           (mkIdentity "i4" "pb" EMAIL None (Some "home@example.com") None),
           "home@example.com".
    simpl. repeat split; auto. }
  destruct (email_pair_once storeEmail "u1" ann bob Hsep
              (conj (or_introl eq_refl) eq_refl)
              (conj (or_intror (or_introl eq_refl)) eq_refl)
              Hne Hsh storeEmail_no_phone)
    as (i & x & Hi & Ht & Hr & _).
  exists i, x. split; [exact Hi|]. split; [exact Ht|]. split; [exact Hr|].
  vm_compute. reflexivity.
Defined.

End SuggestionFacts.

(** ** Looking a person up *)

Module LookupFacts.
Import Prisma Normalize Dedup MergeFacts DedupFacts PhoneFacts SuggestionFacts.
Local Open Scope list_scope.

Lemma optEqb_eq (o : option Id) (x : Id) : optEqb o x = true <-> o = Some x.
Proof.
  destruct o as [y|]; simpl; [|split; discriminate].
  rewrite String.eqb_eq. split; [now intros -> | now intros [= ->]].
Qed.

Lemma orMember_spec (column key : option string) :
  orMember column key = true <->
  exists v, truthy key = Some v /\ column = Some v.
Proof.
  unfold orMember. destruct (truthy key) as [v|].
  - rewrite optEqb_eq. split; [intros H; now exists v|].
    intros (w & E & H). now inversion E; subst.
  - split; [discriminate | intros (w & E & _); discriminate].
Qed.

Lemma ofUser_spec (s : Store) (userId : Id) (i : Identity) :
  ofUser s userId i = true <->
  exists P, In P (people s) /\ person_id P = identity_personId i /\
            person_userId P = userId.
Proof.
  unfold ofUser. rewrite existsb_exists. split.
  - intros (P & HP & H). apply andb_true_iff in H as [H1 H2].
    apply eqb_eq_true in H1, H2. now exists P.
  - intros (P & HP & H1 & H2). exists P. split; [exact HP|].
    rewrite H1, H2, !String.eqb_refl. reflexivity.
Qed.

Lemma person_by_id (ps : list Person) (P Q : Person) :
  NoDup (map person_id ps) -> In P ps -> In Q ps ->
  person_id P = person_id Q -> P = Q.
Proof.
  induction ps as [|R ps IH]; [contradiction|].
  simpl. intros Hnd HP HQ E. inversion Hnd as [|? ? HR Hps]; subst.
  destruct HP as [->|HP], HQ as [->|HQ]; auto.
  - exfalso. apply HR. rewrite E. now apply in_map.
  - exfalso. apply HR. rewrite <- E. now apply in_map.
Qed.

Section Lookup.
Variable toLowerCase : string -> string.
Variable trim : string -> string.

(** The keys the lookup searches for. *)
Definition phoneKey (phone : option string) : option string :=
  truthy (option_map normalizePhone (truthy phone)).
Definition emailKey (email : option string) : option string :=
  truthy (option_map (normalizeEmail toLowerCase trim) (truthy email)).

(** An identity the lookup accepts. *)
Definition Hit (s : Store) (userId : Id) (phone email : option string)
    (i : Identity) : Prop :=
  ofUser s userId i = true /\
  ((exists v, phoneKey phone = Some v /\ normalizedPhone i = Some v) \/
   (exists v, emailKey email = Some v /\ normalizedEmail i = Some v)).

Lemma truthy_twice (o : option string) : truthy (truthy o) = truthy o.
Proof. now destruct o as [[|c w]|]. Qed.

Lemma findMatchingPerson_unfold (s : Store) (userId : Id)
    (phone email : option string) :
  findMatchingPerson toLowerCase trim s userId phone email =
  match find (fun i => ofUser s userId i &&
                       (orMember (normalizedPhone i)
                          (option_map normalizePhone (truthy phone)) ||
                        orMember (normalizedEmail i)
                          (option_map (normalizeEmail toLowerCase trim)
                             (truthy email))))
             (identities s) with
  | Some i => person_findUnique s (identity_personId i)
  | None => None
  end.
Proof.
  unfold findMatchingPerson.
  destruct (truthy (option_map normalizePhone (truthy phone))) eqn:Ep;
    [reflexivity|].
  destruct (truthy (option_map (normalizeEmail toLowerCase trim) (truthy email)))
    eqn:Ee; [reflexivity|].
  destruct (find _ (identities s)) as [i|] eqn:Ef; [|reflexivity].
  apply find_some in Ef as [_ H]. apply andb_true_iff in H as [_ H].
  unfold orMember in H. rewrite Ep, Ee in H. discriminate H.
Qed.

Lemma accepts_spec (s : Store) (userId : Id) (phone email : option string)
    (i : Identity) :
  ofUser s userId i &&
  (orMember (normalizedPhone i) (option_map normalizePhone (truthy phone)) ||
   orMember (normalizedEmail i)
     (option_map (normalizeEmail toLowerCase trim) (truthy email))) = true <->
  Hit s userId phone email i.
Proof.
  unfold Hit, phoneKey, emailKey.
  rewrite andb_true_iff, orb_true_iff, !orMember_spec. tauto.
Qed.

(** What a successful lookup returns. *)
Lemma findMatchingPerson_some (s : Store) (userId : Id)
    (phone email : option string) (P : Person) :
  findMatchingPerson toLowerCase trim s userId phone email = Some P ->
  exists i, In i (identities s) /\ Hit s userId phone email i /\
            In P (people s) /\ person_id P = identity_personId i /\
            (NoDup (map person_id (people s)) -> person_userId P = userId).
Proof.
  rewrite findMatchingPerson_unfold.
  destruct (find _ (identities s)) as [i|] eqn:Ef; [|discriminate].
  apply find_some in Ef as [Hi Hacc]. apply accepts_spec in Hacc.
  intros HP. unfold person_findUnique in HP.
  apply find_some in HP as [HP Hid]. apply eqb_eq_true in Hid.
  exists i. repeat (split; [assumption|]).
  intros Hnd. destruct Hacc as [Hu _].
  apply ofUser_spec in Hu as (Q & HQ & Hq & Hqu).
  now rewrite (person_by_id _ P Q Hnd HP HQ) by congruence.
Qed.

Lemma findMatchingPerson_finds (s : Store) (userId : Id)
    (phone email : option string) (i : Identity) :
  In i (identities s) -> Hit s userId phone email i ->
  exists P, findMatchingPerson toLowerCase trim s userId phone email = Some P.
Proof.
  intros Hi Hhit. rewrite findMatchingPerson_unfold.
  destruct (find _ (identities s)) as [j|] eqn:Ef.
  - apply find_some in Ef as [Hj Hacc]. apply accepts_spec in Hacc.
    destruct Hacc as [Hu _]. apply ofUser_spec in Hu as (Q & HQ & Hq & _).
    unfold person_findUnique.
    destruct (find _ (people s)) as [P|] eqn:EP; [now exists P|].
    apply (find_none _ _ EP) in HQ. rewrite Hq, String.eqb_refl in HQ.
    discriminate HQ.
  - apply (find_none _ _ Ef) in Hi. apply accepts_spec in Hhit. congruence.
Qed.

(** X6. [findMatchingPerson] returns a person exactly when some identity
    of a person of the user carries the normalized phone or the normalized
    email asked for: the person returned owns such an identity (and, ids
    being unique, is a person of the user); with neither a phone nor an
    email it returns nothing; a phone finds the same person whether it is
    given raw or already normalized. *)
Theorem findMatchingPerson_matches (s : Store) (userId : Id)
    (phone email : option string) :
  let found := findMatchingPerson toLowerCase trim s userId phone email in
  (forall P, found = Some P ->
     exists i, In i (identities s) /\ Hit s userId phone email i /\
               In P (people s) /\ person_id P = identity_personId i /\
               (NoDup (map person_id (people s)) -> person_userId P = userId)) /\
  (forall i, In i (identities s) -> Hit s userId phone email i ->
     exists P, found = Some P) /\
  (truthy phone = None -> truthy email = None -> found = None) /\
  (forall raw, phone = Some raw -> raw <> EmptyString ->
     findMatchingPerson toLowerCase trim s userId (Some (normalizePhone raw)) email
     = found).
Proof.
  cbv zeta. split; [apply findMatchingPerson_some|].
  split; [apply findMatchingPerson_finds|]. split.
  - intros Hp He. unfold findMatchingPerson. now rewrite Hp, He.
  - intros raw -> Hne. rewrite !findMatchingPerson_unfold.
    assert (E1 : truthy (Some raw) = Some raw) by (destruct raw; [now elim Hne | reflexivity]).
    assert (E2 : truthy (Some (normalizePhone raw)) = Some (normalizePhone raw)).
    { destruct (normalizePhone_plus raw) as [rest ->]. reflexivity. }
    rewrite E1, E2. cbn [option_map]. now rewrite normalizePhone_again.
Qed.

End Lookup.

End LookupFacts.

(** ** Adding an identity *)

Module IdentityFacts.
Import Prisma Normalize Dedup Encryption Identities MergeFacts DedupFacts
       PhoneFacts SuggestionFacts LookupFacts.
Local Open Scope list_scope.

Section Server.
Variable toLowerCase : string -> string.
Variable trim : string -> string.
Variable aesEncrypt : string -> string -> string.
Variable aesDecrypt : string -> string.

(** The data POST / hands to [create], and the row the middleware makes of
    them. *)
Definition requested (newId : Id) (body : CreateBody) : Identity :=
  mkIdentity newId (cb_personId body) (cb_sourceType body)
    (option_map normalizePhone (truthy (cb_phone body)))
    (option_map (normalizeEmail toLowerCase trim) (truthy (cb_email body)))
    (cb_username body).

Definition stored (newId : Id) (salt : string) (body : CreateBody) : Identity :=
  encryptIdentity aesEncrypt salt (requested newId body).

Lemma createIdentity_created (newId : Id) (salt : string) (s : Store)
    (userId : Id) (body : CreateBody) (identity : Identity)
    (flag : option PotentialDuplicate) (s' : Store) :
  createIdentity toLowerCase trim aesEncrypt aesDecrypt newId salt s userId body
    = (Created identity flag, s') ->
  (exists P, person_findFirst s (cb_personId body) userId = Some P) /\
  (forall p, truthy (cb_phone body) = Some p -> isValidPhone p = true) /\
  (forall e, truthy (cb_email body) = Some e -> isValidEmail e = true) /\
  identity = decryptIdentity aesDecrypt (stored newId salt body) /\
  s' = withIdentities s (identities s ++ [stored newId salt body]) /\
  flag =
    match findMatchingPerson toLowerCase trim s userId (cb_phone body)
            (cb_email body) with
    | Some m =>
        if negb (String.eqb (person_id m) (cb_personId body))
        then Some (mkPotentialDuplicate (person_id m) (displayName m)
                     (match phoneKey (cb_phone body) with
                      | Some _ => phone
                      | None => email
                      end))
        else None
    | None => None
    end.
Proof.
  unfold createIdentity, phoneKey, stored, requested.
  destruct (person_findFirst s (cb_personId body) userId) as [P|];
    [|discriminate].
  destruct (truthy (cb_phone body)) as [p|] eqn:Ep.
  - destruct (isValidPhone p) eqn:Vp; cbn [negb]; [|discriminate].
    destruct (truthy (cb_email body)) as [e|] eqn:Ee.
    + destruct (isValidEmail e) eqn:Ve; cbn [negb]; [|discriminate].
      intros H. inversion H; subst.
      split; [now exists P|]. split; [now intros ? [= <-]|].
      split; [now intros ? [= <-]|]. auto.
    + intros H. inversion H; subst.
      split; [now exists P|]. split; [now intros ? [= <-]|].
      split; [discriminate|]. auto.
  - destruct (truthy (cb_email body)) as [e|] eqn:Ee.
    + destruct (isValidEmail e) eqn:Ve; cbn [negb]; [|discriminate].
      intros H. inversion H; subst.
      split; [now exists P|]. split; [discriminate|].
      split; [now intros ? [= <-]|]. auto.
    + intros H. inversion H; subst.
      split; [now exists P|]. split; [discriminate|].
      split; [discriminate|]. auto.
Qed.

(** X7. POST /identities stores what it validated, the phone encrypted: a
    reply other than 201 leaves the store as it was; a 201 appends one
    identity, for a person of the requesting user.  The phone of the stored
    row (when the request carries one) is the ciphertext, under the salt
    drawn, of the normalized number - a plus sign followed by 11 to 15
    digits; its email (when the request carries one) is the normalized
    form of an address [isValidEmail] accepts, in the clear.  The reply
    carries the row as the middleware decrypts it.  Nothing else of the
    store changes. *)
Theorem createIdentity_stores_encrypted (newId : Id) (salt : string) (s : Store)
    (userId : Id) (body : CreateBody) :
  let out :=
    createIdentity toLowerCase trim aesEncrypt aesDecrypt newId salt s userId
                   body in
  match fst out with
  | Created identity _ =>
      exists row,
        snd out = withIdentities s (identities s ++ [row]) /\
        identity = decryptIdentity aesDecrypt row /\
        identity_id row = newId /\
        identity_personId row = cb_personId body /\
        (exists P, In P (people s) /\ person_id P = cb_personId body /\
                   person_userId P = userId) /\
        match truthy (cb_phone body) with
        | Some raw =>
            isValidPhone raw = true /\
            normalizedPhone row = Some (aesEncrypt salt (normalizePhone raw)) /\
            exists d, normalizePhone raw = ("+" ++ d)%string /\
              forallb isDigit (list_ascii_of_string d) = true /\
              (11 <= String.length d <= 15)%nat
        | None => normalizedPhone row = None
        end /\
        match truthy (cb_email body) with
        | Some e =>
            isValidEmail e = true /\
            normalizedEmail row = Some (normalizeEmail toLowerCase trim e)
        | None => normalizedEmail row = None
        end
  | _ => snd out = s
  end.
Proof.
  cbv zeta.
  destruct (createIdentity toLowerCase trim aesEncrypt aesDecrypt newId salt s
              userId body)
    as [[identity flag|err|err] s'] eqn:E; cbn [fst snd].
  - apply createIdentity_created in E as ((P & HP) & Hvp & Hve & -> & -> & _).
    exists (stored newId salt body).
    split; [reflexivity|]. split; [reflexivity|]. split; [reflexivity|].
    split; [reflexivity|]. split.
    { unfold person_findFirst in HP. apply find_some in HP as [HP H].
      apply andb_true_iff in H as [H1 H2]. apply eqb_eq_true in H1, H2.
      now exists P. }
    unfold stored, requested, encryptIdentity.
    cbn [normalizedPhone normalizedEmail]. split.
    + destruct (truthy (cb_phone body)) as [p|] eqn:Ep; [|reflexivity].
      pose proof (Hvp p eq_refl) as Hval.
      destruct (normalizePhone_valid p Hval) as (d & Hd & Hdig & Hlen).
      split; [exact Hval|]. split.
      * cbn [option_map]. rewrite Hd. reflexivity.
      * now exists d.
    + destruct (truthy (cb_email body)) as [e|] eqn:Ee; [|reflexivity].
      split; [now apply Hve | reflexivity].
  - revert E. unfold createIdentity.
    destruct (person_findFirst s (cb_personId body) userId); [|now intros [= _ <-]].
    destruct (match truthy (cb_phone body) with Some p => _ | None => _ end);
      [now intros [= _ <-]|].
    destruct (match truthy (cb_email body) with Some p => _ | None => _ end);
      [now intros [= _ <-] | discriminate].
  - revert E. unfold createIdentity.
    destruct (person_findFirst s (cb_personId body) userId); [|now intros [= _ <-]].
    destruct (match truthy (cb_phone body) with Some p => _ | None => _ end);
      [now intros [= _ <-]|].
    destruct (match truthy (cb_email body) with Some p => _ | None => _ end);
      [now intros [= _ <-] | discriminate].
Qed.

(** X8. A duplicate flagged on an email is a suggested duplicate: when
    POST /identities, for a request that carries no phone, answers with
    [potentialDuplicate], it names another person than the one the identity
    was added to, with matchType 'email', and [getSuggestedDuplicates] on the
    store the request leaves returns a suggestion relating the two (unique
    person ids whose joined pairs are told apart).  Emails are stored in the
    clear, so the new row and the row that matched share the value. *)
Theorem createIdentity_email_flag_is_suggested (newId : Id) (salt : string)
    (s : Store) (userId : Id)
    (body : CreateBody) (identity : Identity) (flag : PotentialDuplicate)
    (s' : Store)
    (Hsep : Separable (map person_id (people s)))
    (Hnd : NoDup (map person_id (people s)))
    (Hnophone : truthy (cb_phone body) = None)
    (Hrun : createIdentity toLowerCase trim aesEncrypt aesDecrypt newId salt s
              userId body
            = (Created identity (Some flag), s')) :
  pd_personId flag <> cb_personId body /\
  pd_matchType flag = email /\
  exists x, In x (getSuggestedDuplicates s' userId) /\
            relates x (cb_personId body) (pd_personId flag).
Proof.
  apply createIdentity_created in Hrun
    as ((P0 & HP0) & _ & _ & -> & -> & Hflag).
  destruct (findMatchingPerson toLowerCase trim s userId (cb_phone body)
              (cb_email body)) as [m|] eqn:Em; [|discriminate].
  destruct (String.eqb (person_id m) (cb_personId body)) eqn:Eid;
    cbn [negb] in Hflag; [discriminate|].
  inversion Hflag; subst flag. cbn [pd_personId pd_matchType]. clear Hflag.
  apply String.eqb_neq in Eid. split; [exact Eid|].
  assert (Hpk : phoneKey (cb_phone body) = None).
  { unfold phoneKey. now rewrite Hnophone. }
  split; [now rewrite Hpk|].
  apply findMatchingPerson_some in Em
    as (j & Hj & [_ Hhit] & Hm & Hmj & Hmu).
  specialize (Hmu Hnd).
  unfold person_findFirst in HP0. apply find_some in HP0 as [HP0 H].
  apply andb_true_iff in H as [H1 H2]. apply eqb_eq_true in H1, H2.
  set (s' := withIdentities s (identities s ++ [stored newId salt body])).
  assert (Hshare : Shares (column email) s' P0 m).
  { destruct Hhit as [(v & Hk & Hv)|(v & Hk & Hv)];
      [rewrite Hpk in Hk; discriminate|].
    exists (stored newId salt body), j, v. cbn [column].
    unfold s'. cbn [identities withIdentities].
    split; [apply in_or_app; right; now left|].
    split; [apply in_or_app; now left|].
    split; [now rewrite H1|]. split; [now symmetry|].
    split; [exact Hk|]. apply truthy_Some. split; [exact Hv|].
    unfold emailKey in Hk. now apply truthy_Some in Hk. }
  destruct (shared_suggested s' userId email P0 m) as (z & Hz & Hrel); auto.
  - now split.
  - now split.
  - congruence.
  - exists z. split; [exact Hz|]. now rewrite <- H1.
Qed.

End Server.

(** Ann has an email on file; the same address is added to Bob.  The
    cipher stands in for AES: it is not used by a request without a phone. *)
Definition storeAnn : Store :=
  mkStore
    [ mkUser "u1" "demo@moments.app" true None None ]
    [ mkPerson "pa" "u1" "Ann" None None; mkPerson "pb" "u1" "Bob" None None ]
    [ mkIdentity "i1" "pa" EMAIL None (Some "home@example.com") None ]
    [] [] [] [] [].

Definition bobsEmail : CreateBody :=
  mkCreateBody "pb" EMAIL None (Some "home@example.com") None.

Definition asIs (x : string) : string := x.

Definition salted (salt value : string) : string :=
  ("U2FsdGVkX1" ++ salt ++ value)%string.

Lemma createIdentity_email_flag_is_suggested_witness :
  exists identity flag s',
    createIdentity asIs asIs salted asIs "i2" "c2FsdA" storeAnn "u1" bobsEmail
      = (Created identity (Some flag), s') /\
    pd_personId flag = "pa"%string /\
    exists x, In x (getSuggestedDuplicates s' "u1") /\ relates x "pb" "pa".
Proof.
  assert (Hsep : Separable (map person_id (people storeAnn))).
  { apply noDash_separable. reflexivity. }
  assert (Hnd : NoDup (map person_id (people storeAnn))).
  { repeat constructor; simpl; intuition discriminate. }
  eexists. eexists. eexists. split; [reflexivity|]. split; [reflexivity|].
  exact (proj2 (proj2 (createIdentity_email_flag_is_suggested asIs asIs salted
                         asIs "i2" "c2FsdA" storeAnn "u1" bobsEmail _ _ _
                         Hsep Hnd eq_refl eq_refl))).
Defined.

End IdentityFacts.

(** ** Referential integrity *)

Module IntegrityFacts.
Import Prisma Dedup MergeFacts.
Local Open Scope list_scope.

(** Every foreign key [fk] of [rows] that is set names a row of [targets]. *)
Definition refers {A B} (key : B -> Id) (targets : list B)
    (fk : A -> option Id) (rows : list A) : Prop :=
  forall r x, In r rows -> fk r = Some x -> In x (map key targets).

(** The foreign keys of the migration, on the tables of the model. *)
Record Integrity (s : Store) : Prop := mkIntegrity {
  people_userId :
    refers user_id (users s) (fun p => Some (person_userId p)) (people s);
  identities_personId :
    refers person_id (people s) (fun i => Some (identity_personId i)) (identities s);
  addresses_personId :
    refers person_id (people s) (fun a => Some (address_personId a)) (addresses s);
  celebrations_personId :
    refers person_id (people s) (fun c => Some (celebration_personId c))
           (celebrations s);
  events_hostUserId :
    refers user_id (users s) (fun e => Some (hostUserId e)) (events s);
  guests_eventId :
    refers event_id (events s) (fun g => Some (guest_eventId g)) (eventGuests s);
  guests_personId :
    refers person_id (people s) guest_personId (eventGuests s);
  reminders_userId :
    refers user_id (users s) (fun r => Some (reminder_userId r))
           (scheduledReminders s);
  reminders_celebrationId :
    refers celebration_id (celebrations s) reminder_celebrationId
           (scheduledReminders s);
  reminders_eventId :
    refers event_id (events s) reminder_eventId (scheduledReminders s) }.

Lemma refers_filter {A B} (key : B -> Id) (targets : list B)
    (fk : A -> option Id) (rows : list A) (f : A -> bool) :
  refers key targets fk rows -> refers key targets fk (filter f rows).
Proof. intros H r x Hr. apply filter_In in Hr as [Hr _]. now apply H. Qed.

Lemma refers_app {A B} (key : B -> Id) (targets : list B)
    (fk : A -> option Id) (rows more : list A) :
  refers key targets fk rows -> refers key targets fk more ->
  refers key targets fk (rows ++ more).
Proof.
  intros H1 H2 r x Hr. apply in_app_or in Hr as [Hr|Hr]; [now apply H1 | now apply H2].
Qed.

Lemma in_remaining (id x : Id) (ps : list Person) :
  In x (map person_id ps) -> x <> id ->
  In x (map person_id (filter (fun p => negb (String.eqb (person_id p) id)) ps)).
Proof.
  intros H Hne. apply in_map_iff in H as (p & <- & Hp).
  apply in_map. apply filter_In. split; [exact Hp|].
  apply negb_true_iff. now apply eqb_neq_false.
Qed.

(** [person.delete] with its cascades leaves no dangling reference. *)
Lemma person_delete_integrity (id : Id) (s s' : Store) :
  person_delete id s = Ok s' -> Integrity s -> Integrity s'.
Proof.
  unfold person_delete. destruct (person_findUnique s id); [|discriminate].
  intros E [H1 H2 H3 H4 H5 H6 H7 H8 H9 H10]. inversion E; subst; clear E.
  split; cbn [users people identities addresses celebrations events eventGuests
              scheduledReminders].
  - now apply refers_filter.
  - intros r x Hr Hx. apply filter_In in Hr as [Hr Hne].
    apply negb_true_iff, String.eqb_neq in Hne. inversion Hx; subst.
    apply in_remaining; [now apply (H2 r) | exact Hne].
  - intros r x Hr Hx. apply filter_In in Hr as [Hr Hne].
    apply negb_true_iff, String.eqb_neq in Hne. inversion Hx; subst.
    apply in_remaining; [now apply (H3 r) | exact Hne].
  - intros r x Hr Hx. apply filter_In in Hr as [Hr Hne]. unfold ownedBy in Hne.
    apply negb_true_iff, String.eqb_neq in Hne. inversion Hx; subst.
    apply in_remaining; [now apply (H4 r) | exact Hne].
  - exact H5.
  - intros r x Hr Hx. apply in_map_iff in Hr as (g & <- & Hg).
    apply (H6 g); [exact Hg|]. rewrite <- Hx. unfold unlinkGuest.
    now destruct (optEqb (guest_personId g) id).
  - intros r x Hr Hx. apply in_map_iff in Hr as (g & <- & Hg).
    unfold unlinkGuest in Hx.
    destruct (optEqb (guest_personId g) id) eqn:Eg; [discriminate Hx|].
    apply in_remaining; [now apply (H7 g)|].
    intros ->. rewrite Hx in Eg. simpl in Eg. now rewrite String.eqb_refl in Eg.
  - now apply refers_filter.
  - intros r x Hr Hx. apply filter_In in Hr as [Hr Hkeep].
    apply negb_true_iff in Hkeep. unfold reminderOfDeleted in Hkeep.
    rewrite Hx in Hkeep.
    pose proof (H9 r x Hr Hx) as Hc. apply in_map_iff in Hc as (c & Hcid & Hc).
    apply in_map_iff. exists c. split; [exact Hcid|].
    apply filter_In. split; [exact Hc|].
    destruct (ownedBy id c) eqn:Eo; [|reflexivity]. exfalso.
    assert (Hex : existsb (fun c0 => ownedBy id c0 && String.eqb (celebration_id c0) x)
                    (celebrations s) = true).
    { apply existsb_exists. exists c. split; [exact Hc|].
      now rewrite Eo, Hcid, String.eqb_refl. }
    congruence.
  - now apply refers_filter.
Qed.

(** Re-pointing rows to a person of the store keeps the references. *)
Lemma repoint_integrity (from to : Id) (s : Store) :
  In to (map person_id (people s)) -> Integrity s ->
  Integrity (eventGuest_updateMany from to
               (celebration_updateMany from to
                  (address_updateMany from to
                     (identity_updateMany from to s)))).
Proof.
  intros Hto [H1 H2 H3 H4 H5 H6 H7 H8 H9 H10].
  split; cbn [users people identities addresses celebrations events eventGuests
              scheduledReminders eventGuest_updateMany celebration_updateMany
              address_updateMany identity_updateMany]; try assumption.
  - intros r x Hr Hx. apply in_map_iff in Hr as (i & <- & Hi).
    unfold repointIdentity in Hx.
    destruct (String.eqb (identity_personId i) from); cbn in Hx;
      inversion Hx; subst; [exact Hto | now apply (H2 i)].
  - intros r x Hr Hx. apply in_map_iff in Hr as (i & <- & Hi).
    unfold repointAddress in Hx.
    destruct (String.eqb (address_personId i) from); cbn in Hx;
      inversion Hx; subst; [exact Hto | now apply (H3 i)].
  - intros r x Hr Hx. apply in_map_iff in Hr as (i & <- & Hi).
    unfold repointCelebration in Hx.
    destruct (String.eqb (celebration_personId i) from); cbn in Hx;
      inversion Hx; subst; [exact Hto | now apply (H4 i)].
  - intros r x Hr Hx. apply in_map_iff in Hr as (g & <- & Hg).
    apply (H6 g); [exact Hg|]. rewrite <- Hx. unfold repointGuest.
    now destruct (optEqb (guest_personId g) from).
  - intros r x Hr Hx. apply in_map_iff in Hr as (g & <- & Hg).
    unfold repointGuest in Hx.
    destruct (optEqb (guest_personId g) from); cbn in Hx;
      [inversion Hx; subst; exact Hto | now apply (H7 g)].
  - intros r x Hr Hx. pose proof (H9 r x Hr Hx) as Hc.
    rewrite map_map.
    replace (map (fun c => celebration_id (repointCelebration from to c))
                 (celebrations s))
      with (map celebration_id (celebrations s)); [exact Hc|].
    apply map_ext. intros c. unfold repointCelebration.
    now destruct (String.eqb (celebration_personId c) from).
Qed.

(** A batch that ends normally has run every statement. *)
Lemma runBatch_ran (abortAt : option nat) (k : nat)
    (ops : list (Store -> Result Store)) (s s' : Store) :
  runBatch abortAt k ops s = Ok s' -> runBatch None k ops s = Ok s'.
Proof.
  revert k s. induction ops as [|op ops IH]; intros k s; simpl.
  - now destruct (match abortAt with Some a => Nat.eqb a k | None => false end).
  - destruct (match abortAt with Some a => Nat.eqb a k | None => false end);
      [discriminate|].
    destruct (op s) as [s1|e]; [apply IH | auto].
Qed.

(** The store a merge leaves: the one it found, or the one after the five
    statements of its transaction. *)
Lemma mergePeople_store (abortAt : option nat) (s : Store)
    (userId a b : Id) :
  let s' := snd (mergePeople abortAt s userId a b) in
  s' = s \/
  ((exists pa, person_findFirst s a userId = Some pa) /\
   (exists pb, person_findFirst s b userId = Some pb) /\
   person_delete b
     (eventGuest_updateMany b a
        (celebration_updateMany b a
           (address_updateMany b a (identity_updateMany b a s)))) = Ok s').
Proof.
  cbv zeta. unfold mergePeople, transaction.
  destruct (person_findFirst s a userId) as [pa|] eqn:Ea; [|now left].
  destruct (person_findFirst s b userId) as [pb|] eqn:Eb; [|now left].
  match goal with
  | |- context [runBatch abortAt 0 ?ops s] =>
      destruct (runBatch abortAt 0 ops s) as [s1|e] eqn:Er
  end; [|now left].
  right. split; [now exists pa|]. split; [now exists pb|].
  apply runBatch_ran in Er. cbn [snd]. simpl in Er.
  destruct (person_delete b _) as [s2|e] eqn:Ed; [|discriminate].
  now inversion Er; subst.
Qed.

(** X9. Referential integrity survives every merge: whatever the two
    ids, whoever owns them and whether or not the store aborts the
    transaction, the store [mergePeople] leaves has no identity, address,
    celebration or guest row pointing at a missing person and no reminder
    pointing at a missing celebration (nor any other dangling foreign key),
    if the store it found had none.  This covers the self-merge, where the
    person is deleted with all it owns. *)
Theorem mergePeople_integrity (abortAt : option nat) (s : Store)
    (userId person1Id person2Id : Id) :
  Integrity s ->
  Integrity (snd (mergePeople abortAt s userId person1Id person2Id)).
Proof.
  intros HI.
  destruct (mergePeople_store abortAt s userId person1Id person2Id)
    as [->|((pa & Ha) & _ & Hd)]; [exact HI|].
  apply (person_delete_integrity _ _ _ Hd).
  apply repoint_integrity; [|exact HI].
  unfold person_findFirst in Ha. apply find_some in Ha as [Hin H].
  apply andb_true_iff in H as [H _]. apply eqb_eq_true in H. subst person1Id.
  now apply in_map.
Qed.

(** A decision procedure for [refers], to check concrete stores. *)
Definition refersb {A B} (key : B -> Id) (targets : list B)
    (fk : A -> option Id) (rows : list A) : bool :=
  forallb (fun r => match fk r with
                    | Some x => existsb (fun t => String.eqb (key t) x) targets
                    | None => true
                    end) rows.

Lemma refersb_sound {A B} (key : B -> Id) (targets : list B)
    (fk : A -> option Id) (rows : list A) :
  refersb key targets fk rows = true -> refers key targets fk rows.
Proof.
  unfold refersb. rewrite forallb_forall. intros H r x Hr Hx.
  specialize (H r Hr). rewrite Hx in H.
  apply existsb_exists in H as (t & Ht & E). apply eqb_eq_true in E.
  subst x. now apply in_map.
Qed.

Definition integrityb (s : Store) : bool :=
  refersb user_id (users s) (fun p => Some (person_userId p)) (people s) &&
  refersb person_id (people s) (fun i => Some (identity_personId i)) (identities s) &&
  refersb person_id (people s) (fun a => Some (address_personId a)) (addresses s) &&
  refersb person_id (people s) (fun c => Some (celebration_personId c))
          (celebrations s) &&
  refersb user_id (users s) (fun e => Some (hostUserId e)) (events s) &&
  refersb event_id (events s) (fun g => Some (guest_eventId g)) (eventGuests s) &&
  refersb person_id (people s) guest_personId (eventGuests s) &&
  refersb user_id (users s) (fun r => Some (reminder_userId r))
          (scheduledReminders s) &&
  refersb celebration_id (celebrations s) reminder_celebrationId
          (scheduledReminders s) &&
  refersb event_id (events s) reminder_eventId (scheduledReminders s).

Lemma integrityb_sound (s : Store) : integrityb s = true -> Integrity s.
Proof.
  unfold integrityb. rewrite !andb_true_iff.
  intros [[[[[[[[[H1 H2] H3] H4] H5] H6] H7] H8] H9] H10].
  split; now apply refersb_sound.
Qed.

Lemma mergePeople_integrity_witness :
  Integrity storeAB /\
  Integrity (snd (mergePeople None storeAB "u1" "A" "B")) /\
  Integrity (snd (mergePeople None storeAB "u1" "B" "B")).
Proof.
  assert (H : Integrity storeAB) by (apply integrityb_sound; reflexivity).
  split; [exact H|].
  split; apply mergePeople_integrity; exact H.
Defined.

End IntegrityFacts.

(** ** Merging, third persons and the suggestions *)

Module MergeMoreFacts.
Import Prisma Dedup People MergeFacts DedupFacts SuggestionFacts IntegrityFacts.
Local Open Scope list_scope.

(** *** Rows of third persons *)

Section Third.
Variables a b x : Id.
Hypothesis Hxa : x <> a.
Hypothesis Hxb : x <> b.

Lemma third_rows {A} (key : A -> Id) (h : A -> A) (l : list A) :
  (forall r, key r = x -> h r = r) ->
  (forall r, key (h r) = x -> key r = x) ->
  filter (fun r => String.eqb (key r) x)
    (filter (fun r => negb (String.eqb (key r) b)) (map h l)) =
  filter (fun r => String.eqb (key r) x) l.
Proof.
  intros Hfix Hback. induction l as [|r l IH]; [reflexivity|]. cbn [map filter].
  destruct (String.eqb (key r) x) eqn:Ex.
  - apply eqb_eq_true in Ex. rewrite (Hfix r Ex).
    assert (Eb : String.eqb (key r) b = false)
      by (rewrite Ex; exact (eqb_neq_false x b Hxb)).
    rewrite Eb. cbn [negb filter].
    assert (Ex' : String.eqb (key r) x = true)
      by (rewrite Ex; apply String.eqb_refl).
    now rewrite Ex', IH.
  - assert (Ex' : String.eqb (key (h r)) x = false).
    { apply String.eqb_neq. intros E. apply Hback in E.
      apply String.eqb_neq in Ex. contradiction. }
    destruct (negb (String.eqb (key (h r)) b)); cbn [filter];
      rewrite ?Ex'; exact IH.
Qed.

Lemma third_identities (l : list Identity) :
  filter (fun i => String.eqb (identity_personId i) x)
    (filter (fun i => negb (String.eqb (identity_personId i) b))
       (map (repointIdentity b a) l)) =
  filter (fun i => String.eqb (identity_personId i) x) l.
Proof.
  apply third_rows; intros r; unfold repointIdentity;
    destruct (String.eqb (identity_personId r) b) eqn:E; cbn; try congruence.
  apply eqb_eq_true in E. congruence.
Qed.

Lemma third_addresses (l : list Address) :
  filter (fun i => String.eqb (address_personId i) x)
    (filter (fun i => negb (String.eqb (address_personId i) b))
       (map (repointAddress b a) l)) =
  filter (fun i => String.eqb (address_personId i) x) l.
Proof.
  apply third_rows; intros r; unfold repointAddress;
    destruct (String.eqb (address_personId r) b) eqn:E; cbn; try congruence.
  apply eqb_eq_true in E. congruence.
Qed.

Lemma third_celebrations (l : list Celebration) :
  filter (fun i => String.eqb (celebration_personId i) x)
    (filter (fun i => negb (ownedBy b i)) (map (repointCelebration b a) l)) =
  filter (fun i => String.eqb (celebration_personId i) x) l.
Proof.
  unfold ownedBy.
  apply third_rows; intros r; unfold repointCelebration;
    destruct (String.eqb (celebration_personId r) b) eqn:E; cbn; try congruence.
  apply eqb_eq_true in E. congruence.
Qed.

Lemma third_guests (l : list EventGuest) :
  filter (fun g => optEqb (guest_personId g) x)
    (map (unlinkGuest b) (map (repointGuest b a) l)) =
  filter (fun g => optEqb (guest_personId g) x) l.
Proof.
  induction l as [|g l IH]; [reflexivity|]. cbn [map filter].
  rewrite IH. unfold repointGuest, unlinkGuest.
  destruct (optEqb (guest_personId g) b) eqn:Eb.
  - assert (Ex : optEqb (guest_personId g) x = false).
    { destruct (guest_personId g) as [y|]; [|reflexivity]. simpl in *.
      apply eqb_eq_true in Eb. subst y. now apply eqb_neq_false. }
    rewrite Ex. cbn [guest_personId optEqb].
    destruct (String.eqb a b); cbn [guest_personId optEqb];
      rewrite ?(eqb_neq_false a x) by congruence; reflexivity.
  - rewrite Eb. reflexivity.
Qed.

End Third.

(** X10. A merge touches no third person: for every id other than the
    two given, the person, its identities, addresses, celebrations and guest
    rows are the same before and after, whatever the outcome of the call;
    users and events are never touched. *)
Theorem mergePeople_frame (abortAt : option nat) (s : Store)
    (userId a b x : Id) (Hxa : x <> a) (Hxb : x <> b) :
  let s' := snd (mergePeople abortAt s userId a b) in
  person_findUnique s' x = person_findUnique s x /\
  identitiesOf s' x = identitiesOf s x /\
  addressesOf s' x = addressesOf s x /\
  celebrationsOf s' x = celebrationsOf s x /\
  guestsOf s' x = guestsOf s x /\
  users s' = users s /\ events s' = events s.
Proof.
  cbv zeta.
  destruct (mergePeople_store abortAt s userId a b) as [->|(_ & _ & Hd)];
    [repeat split|].
  unfold person_delete in Hd.
  destruct (person_findUnique _ b); [|discriminate].
  inversion Hd as [Hs']. clear Hd.
  unfold person_findUnique, identitiesOf, addressesOf, celebrationsOf, guestsOf.
  cbn [users people identities addresses celebrations events eventGuests
       scheduledReminders eventGuest_updateMany celebration_updateMany
       address_updateMany identity_updateMany].
  split.
  { rewrite findUnique_after_delete. now rewrite (eqb_neq_false x b). }
  split; [now apply third_identities|].
  split; [now apply third_addresses|].
  split; [now apply third_celebrations|].
  split; [now apply third_guests|].
  split; reflexivity.
Qed.

(** Ann and her double, and Carl with a celebration of his own. *)
Definition storeABC : Store :=
  mkStore
    [ mkUser "u1" "demo@moments.app" true None None ]
    [ mkPerson "A" "u1" "Ann" None None; mkPerson "B" "u1" "Ann B." None None;
      mkPerson "C" "u1" "Carl" None None ]
    [ mkIdentity "i1" "A" PHONE (Some "+15551230001") None None;
      mkIdentity "i2" "B" PHONE (Some "+15551230001") None None;
      mkIdentity "i3" "C" EMAIL None (Some "carl@example.com") None ]
    []
    [ mkCelebration "c1" "C" BIRTHDAY None 1584230400000 (Some "FREQ=YEARLY")
        [7; 1; 0]%Z ]
    [ mkEvent "e1" "u1" "Dinner" 1767290400000 ]
    [ mkEventGuest "g1" "e1" (Some "B") None PENDING;
      mkEventGuest "g2" "e1" (Some "C") None ACCEPTED ]
    [ mkReminder "r1" "u1" (Some "c1") None 1583571600000 false None ].

Lemma mergePeople_frame_witness :
  let s' := snd (mergePeople None storeABC "u1" "A" "B") in
  s' <> storeABC /\
  List.length (identitiesOf s' "C") = 1%nat /\
  celebrationsOf s' "C" = celebrationsOf storeABC "C" /\
  guestsOf s' "C" = guestsOf storeABC "C".
Proof.
  cbv zeta.
  assert (HA : "C" <> "A") by discriminate.
  assert (HB : "C" <> "B") by discriminate.
  destruct (mergePeople_frame None storeABC "u1" "A" "B" "C" HA HB)
    as (_ & Hi & _ & Hc & Hg & _).
  split; [|split; [|split]].
  - vm_compute. discriminate.
  - rewrite Hi. reflexivity.
  - exact Hc.
  - exact Hg.
Defined.

(** *** Merging and the suggestions *)

(** A person of the user with two identity rows carrying one value is
    suggested with itself. *)
Lemma twice_suggested (s : Store) (userId : Id) (t : MatchType) (P : Person)
    (i1 i2 : Identity) (a1 a2 a3 : list Identity) (v : string) :
  Separable (map person_id (people s)) ->
  Owned s userId P ->
  identities s = a1 ++ i1 :: a2 ++ i2 :: a3 ->
  identity_personId i1 = person_id P -> identity_personId i2 = person_id P ->
  truthy (column t i1) = Some v -> truthy (column t i2) = Some v ->
  exists x, In x (getSuggestedDuplicates s userId) /\
            pid (person1 x) = person_id P /\ pid (person2 x) = person_id P.
Proof.
  intros Hsep [HP Hu] Hids H1 H2 Hv1 Hv2.
  pose proof (findMany_person s userId P HP Hu) as HPin.
  set (own := fun i => String.eqb (identity_personId i) (person_id P)) in *.
  set (P' := mkPWI P (filter own (identities s))) in *.
  assert (Hown : pwi_identities P' =
                 filter own a1 ++ i1 :: filter own a2 ++ i2 :: filter own a3).
  { unfold P'. simpl. rewrite Hids. apply filter_two; unfold own.
    - rewrite H1. apply String.eqb_refl.
    - rewrite H2. apply String.eqb_refl. }
  destruct (occ_twice (column t) v P' _ _ _ _ _ _ HPin Hown Hv1 Hv2)
    as (l1 & l2 & l3 & Hocc).
  assert (Hz : exists z, In z (getSuggestedDuplicates s userId) /\
             skey z = pairKey (pid P') (pid P') /\
             In (person1 z) (person_findMany s userId) /\
             In (person2 z) (person_findMany s userId)).
  { destruct t; cbn [column] in Hocc.
    - destruct (run_phone_hit s userId v _ _ _ _ _ Hocc) as (z & ? & ? & ? & ? & ?).
      now exists z.
    - destruct (run_email_hit s userId v _ _ _ _ _ Hocc) as (z & ? & ? & ? & ?).
      now exists z. }
  destruct Hz as (z & Hin & Hk & Hz1 & Hz2).
  exists z. split; [exact Hin|].
  destruct (relates_of_key s userId z P P Hsep HP HP Hz1 Hz2 Hk) as [H|H]; tauto.
Qed.

Lemma Separable_incl (small big : list Id) :
  incl small big -> Separable big -> Separable small.
Proof. intros Hi Hs p q c d Hp Hq Hc Hd. apply Hs; now apply Hi. Qed.

(** X11. After a committed merge of two distinct persons of the user, no
    suggestion of any user mentions the donor; but when survivor and donor
    shared a phone or an email - the very reason to merge them - the
    survivor now holds two identities with that value and is suggested as a
    duplicate of itself (person ids whose joined pairs are told apart). *)
Theorem mergePeople_then_suggestions
    (s : Store) (userId a b : Id) (pa pb : Person)
    (Ha : person_findFirst s a userId = Some pa)
    (Hb : person_findFirst s b userId = Some pb)
    (Hab : a <> b) :
  let s' := snd (mergePeople None s userId a b) in
  (forall u x, In x (getSuggestedDuplicates s' u) ->
     pid (person1 x) <> b /\ pid (person2 x) <> b) /\
  (forall t, Separable (map person_id (people s)) ->
     Shares (column t) s pa pb ->
     exists x, In x (getSuggestedDuplicates s' userId) /\
               pid (person1 x) = a /\ pid (person2 x) = a).
Proof.
  cbv zeta.
  destruct (findFirst_findUnique _ _ _ _ Hb) as [qb Hqb].
  unfold mergePeople, transaction. rewrite Ha, Hb.
  rewrite (merge_batch_commits s a b qb Hab Hqb). cbn [snd].
  set (s' := mkStore _ _ _ _ _ _ _ _).
  unfold person_findFirst in Ha, Hb.
  apply find_some in Ha as [Hina Ha]. apply find_some in Hb as [Hinb Hb].
  apply andb_true_iff in Ha as [Ha1 Ha2]. apply andb_true_iff in Hb as [Hb1 Hb2].
  apply eqb_eq_true in Ha1, Ha2, Hb1, Hb2.
  split.
  - intros u x Hx.
    assert (Hp : forall p, In p (person_findMany s' u) -> pid p <> b).
    { intros p Hp. apply findMany_loaded in Hp as [[Hp _] _].
      unfold s' in Hp. cbn [people] in Hp. apply filter_In in Hp as [_ Hp].
      apply negb_true_iff, String.eqb_neq in Hp. exact Hp. }
    pose proof (suggestion_grounded s' u x Hx) as ([H1 _] & [H2 _] & _).
    unfold s' in H1, H2. cbn [people] in H1, H2.
    apply filter_In in H1 as [_ H1]. apply filter_In in H2 as [_ H2].
    apply negb_true_iff, String.eqb_neq in H1, H2. now split.
  - intros t Hsep (i & j & v & Hi & Hj & Hoi & Hoj & Hvi & Hvj).
    assert (Hij : i <> j) by (intros ->; congruence).
    destruct (two_in_split _ _ _ Hi Hj Hij)
      as (l1 & y & l2 & z & l3 & Hids & Hyz).
    assert (Hsep' : Separable (map person_id (people s'))).
    { apply (Separable_incl _ (map person_id (people s))); [|exact Hsep].
      intros k Hk. unfold s' in Hk. cbn [people] in Hk.
      apply in_map_iff in Hk as (p & <- & Hp). apply filter_In in Hp as [Hp _].
      now apply in_map. }
    assert (Hown : Owned s' userId pa).
    { split; [|exact Ha2]. unfold s'. cbn [people]. apply filter_In.
      split; [exact Hina|]. apply negb_true_iff, eqb_neq_false. congruence. }
    assert (Hkeep : forall k, identity_personId k = person_id pa \/
                              identity_personId k = person_id pb ->
              identity_personId (repointIdentity b a k) = person_id pa /\
              column t (repointIdentity b a k) = column t k).
    { intros k Hk. unfold repointIdentity.
      destruct (String.eqb (identity_personId k) b) eqn:E.
      - split; [now rewrite Ha1 | now destruct t].
      - split; [|reflexivity]. destruct Hk as [Hk|Hk]; [exact Hk|].
        apply String.eqb_neq in E. congruence. }
    destruct (Hkeep i (or_introl Hoi)) as [Oi Ci].
    destruct (Hkeep j (or_intror Hoj)) as [Oj Cj].
    assert (Hids' : identities s' =
                    map (repointIdentity b a) l1 ++ repointIdentity b a y ::
                    map (repointIdentity b a) l2 ++ repointIdentity b a z ::
                    map (repointIdentity b a) l3).
    { unfold s'. cbn [identities]. rewrite Hids.
      rewrite map_app. cbn [map]. rewrite map_app. reflexivity. }
    rewrite <- Ha1.
    destruct Hyz as [[-> ->]|[-> ->]].
    + apply (twice_suggested s' userId t pa _ _ _ _ _ v Hsep' Hown Hids');
        congruence.
    + apply (twice_suggested s' userId t pa _ _ _ _ _ v Hsep' Hown Hids');
        congruence.
Qed.

Lemma mergePeople_then_suggestions_witness :
  let s' := snd (mergePeople None storeABC "u1" "A" "B") in
  getSuggestedDuplicates storeABC "u1" <> [] /\
  (forall x, In x (getSuggestedDuplicates s' "u1") ->
     pid (person1 x) <> "B" /\ pid (person2 x) <> "B") /\
  exists x, In x (getSuggestedDuplicates s' "u1") /\
            pid (person1 x) = "A" /\ pid (person2 x) = "A".
Proof.
  cbv zeta.
  assert (Hab : "A" <> "B") by discriminate.
  destruct (mergePeople_then_suggestions storeABC "u1" "A" "B"
              (mkPerson "A" "u1" "Ann" None None)
              (mkPerson "B" "u1" "Ann B." None None) eq_refl eq_refl Hab)
    as [Hnone Hself].
  split; [vm_compute; discriminate|].
  split; [exact (Hnone "u1")|].
  apply (Hself phone).
  - apply noDash_separable. reflexivity.
  - exists (mkIdentity "i1" "A" PHONE (Some "+15551230001") None None),
           (mkIdentity "i2" "B" PHONE (Some "+15551230001") None None),
           "+15551230001".
    simpl. repeat split; auto.
Defined.

(** *** DELETE /people/:id *)

(** X12. DELETE /people/:id removes a person of the requesting user and
    nothing of anyone else: for an id that is not a person of the user the
    reply is 404 and the store is untouched; otherwise the reply is 200, the
    person is gone with its identities, addresses and celebrations, its guest
    rows stay without a person, the rows of every other person are as
    before, and no reference is left dangling.  The handler never raises. *)
Theorem deletePerson_cascades (s : Store) (userId id : Id) :
  let out := deletePerson s userId id in
  match person_findFirst s id userId with
  | None => out = (NotFound "Person not found", s)
  | Some _ =>
      fst out = Success /\
      person_findUnique (snd out) id = None /\
      identitiesOf (snd out) id = [] /\ addressesOf (snd out) id = [] /\
      celebrationsOf (snd out) id = [] /\ guestsOf (snd out) id = [] /\
      List.length (eventGuests (snd out)) = List.length (eventGuests s) /\
      (forall x, x <> id ->
         person_findUnique (snd out) x = person_findUnique s x /\
         identitiesOf (snd out) x = identitiesOf s x /\
         addressesOf (snd out) x = addressesOf s x /\
         celebrationsOf (snd out) x = celebrationsOf s x /\
         guestsOf (snd out) x = guestsOf s x)
  end /\
  (Integrity s -> Integrity (snd out)).
Proof.
  cbv zeta. unfold deletePerson.
  destruct (person_findFirst s id userId) as [p|] eqn:Ep; [|now split].
  destruct (findFirst_findUnique _ _ _ _ Ep) as [q Hq].
  destruct (person_delete id s) as [s'|e] eqn:Ed.
  2: { unfold person_delete in Ed. rewrite Hq in Ed. discriminate. }
  cbn [fst snd]. split; [|now apply (person_delete_integrity id)].
  unfold person_delete in Ed. rewrite Hq in Ed. inversion Ed as [Hs']. clear Ed.
  subst s'.
  unfold person_findUnique, identitiesOf, addressesOf, celebrationsOf, guestsOf.
  cbn [people identities addresses celebrations eventGuests].
  split; [reflexivity|].
  split; [rewrite findUnique_after_delete; now rewrite String.eqb_refl|].
  split.
  { apply filter_drops_all. intros i Hi. apply filter_In in Hi as [_ Hi].
    now apply negb_true_iff in Hi. }
  split.
  { apply filter_drops_all. intros i Hi. apply filter_In in Hi as [_ Hi].
    now apply negb_true_iff in Hi. }
  split.
  { apply filter_drops_all. intros i Hi. apply filter_In in Hi as [_ Hi].
    now apply negb_true_iff in Hi. }
  split.
  { apply filter_drops_all. intros g Hg. apply in_map_iff in Hg as (g0 & <- & _).
    unfold unlinkGuest.
    destruct (optEqb (guest_personId g0) id) eqn:E; simpl; [reflexivity|exact E]. }
  split; [apply length_map|].
  intros x Hx.
  split; [rewrite findUnique_after_delete; now rewrite (eqb_neq_false x id)|].
  assert (Hf : forall {A} (key : A -> Id) (l : list A),
             filter (fun r => String.eqb (key r) x)
               (filter (fun r => negb (String.eqb (key r) id)) l) =
             filter (fun r => String.eqb (key r) x) l).
  { intros A key l. induction l as [|r l IH]; [reflexivity|]. cbn [filter].
    destruct (String.eqb (key r) id) eqn:E1; cbn [negb filter].
    - apply eqb_eq_true in E1. rewrite E1, (eqb_neq_false id x) by congruence.
      exact IH.
    - destruct (String.eqb (key r) x); now rewrite IH. }
  split; [apply (Hf _ identity_personId)|].
  split; [apply (Hf _ address_personId)|].
  split; [apply (Hf _ celebration_personId)|].
  induction (eventGuests s) as [|g l IH]; [reflexivity|]. cbn [map filter].
  rewrite IH. unfold unlinkGuest.
  destruct (optEqb (guest_personId g) id) eqn:E; [|reflexivity].
  cbn [guest_personId optEqb].
  destruct (guest_personId g) as [y|]; [|discriminate]. simpl in E.
  apply eqb_eq_true in E. subst y. simpl.
  now rewrite (eqb_neq_false id x) by congruence.
Qed.

End MergeMoreFacts.

(** ** Scheduling the reminders of an event *)

Module EventScheduleFacts.
Import Prisma Push JSDate Notifications DateFacts ScheduleFacts.
Local Open Scope Z_scope.
Local Open Scope list_scope.

Lemma hour_back (l : Z) :
  MakeDate (Day l)
    (MakeTime (HourFromTime l - 1) (MinFromTime l) (SecFromTime l) (msFromTime l))
  = l - msPerHour.
Proof.
  unfold MakeDate, MakeTime, Day, HourFromTime, MinFromTime, SecFromTime,
    msFromTime, msPerDay, msPerHour, msPerMinute, msPerSecond.
  Z.div_mod_to_equations. lia.
Qed.

(** An hour taken off the hour field gives the instant one hour earlier,
    also across midnight. *)
Lemma setHour_back (tz t : Z) :
  Z.abs (t - msPerHour) <= maxTime ->
  setHour tz (Some t) (getHours tz t - 1) = Some (t - msPerHour).
Proof.
  intros Hr. unfold setHour, getHours. rewrite hour_back.
  unfold UTC, LocalTime.
  replace (t + tz - msPerHour - tz) with (t - msPerHour) by lia.
  now apply TimeClip_in_range.
Qed.

(** What the two stored reminders of an event look like. *)
Definition EventReminder (userId eventId : Id) (r : ScheduledReminder) : Prop :=
  reminder_userId r = userId /\
  reminder_celebrationId r = None /\
  reminder_eventId r = Some eventId /\
  sent r = false /\ sentAt r = None.

Lemma scheduleEventReminders_unfold
    (tz : Z) (newIds : nat -> Id) (s : Store) (userId eventId : Id)
    (datetime : Z) :
  scheduleEventReminders tz newIds s userId eventId datetime =
  scheduledReminder_createMany newIds
    [ mkNewReminder userId None (Some eventId)
        (setHours tz (setDate tz (Some datetime) (getDate tz datetime - 1))
                  9 0 0 0);
      mkNewReminder userId None (Some eventId)
        (setHour tz (Some datetime) (getHours tz datetime - 1)) ]
    (scheduledReminder_deleteManyEvent eventId s).
Proof. reflexivity. Qed.

Lemma reminderInstant_unfold (tz date n : Z) :
  reminderInstant tz date n =
  setHours tz (setDate tz (Some date) (getDate tz date - n)) 9 0 0 0.
Proof. reflexivity. Qed.

(** [createMany] of two rows of an event, for a user and an event of the
    store and two valid dates. *)
Lemma createMany_two (newIds : nat -> Id) (s : Store) (userId eventId : Id)
    (t1 t2 : Z) :
  In userId (map user_id (users s)) ->
  In eventId (map event_id (events s)) ->
  scheduledReminder_createMany newIds
    [ mkNewReminder userId None (Some eventId) (Some t1);
      mkNewReminder userId None (Some eventId) (Some t2) ] s =
  (Ok tt,
   mkStore (users s) (people s) (identities s) (addresses s) (celebrations s)
     (events s) (eventGuests s)
     (scheduledReminders s ++
        [ mkReminder (newIds 0%nat) userId None (Some eventId) t1 false None;
          mkReminder (newIds 1%nat) userId None (Some eventId) t2 false None ])).
Proof.
  intros Hu He. unfold scheduledReminder_createMany.
  cbn [insertRows new_scheduledFor new_userId new_celebrationId new_eventId
       forallb refExists].
  rewrite (existsb_In_id user_id _ _ Hu), (existsb_In_id event_id _ _ He).
  reflexivity.
Qed.

(** One call, with the instants of the two rows as the zone of one offset
    gives them. *)
Lemma scheduleEventReminders_rows
    (tz : Z) (newIds : nat -> Id) (s : Store) (userId eventId : Id)
    (datetime : Z)
    (Huser : In userId (map user_id (users s)))
    (Hevent : In eventId (map event_id (events s)))
    (Hrange : InRange datetime 1) :
  exists s' dayBefore hourBefore,
    scheduleEventReminders tz newIds s userId eventId datetime = (Ok tt, s') /\
    scheduledReminders s' =
      filter (fun r => negb (eventReminderOf eventId r)) (scheduledReminders s)
      ++ [dayBefore; hourBefore] /\
    filter (eventReminderOf eventId) (scheduledReminders s')
      = [dayBefore; hourBefore] /\
    EventReminder userId eventId dayBefore /\
    EventReminder userId eventId hourBefore /\
    reminder_id dayBefore = newIds 0%nat /\
    reminder_id hourBefore = newIds 1%nat /\
    Day (LocalTime tz (scheduledFor dayBefore)) = Day (LocalTime tz datetime) - 1 /\
    TimeWithinDay (LocalTime tz (scheduledFor dayBefore)) = 9 * msPerHour /\
    scheduledFor hourBefore = datetime - msPerHour /\
    scheduledFor dayBefore < datetime /\ scheduledFor hourBefore < datetime /\
    users s' = users s /\ people s' = people s /\
    celebrations s' = celebrations s /\ events s' = events s.
Proof.
  destruct (reminderInstant_at_nine tz datetime 1 Hrange) as (r1 & Hr1 & Hd1 & Ht1).
  assert (Hr2 : setHour tz (Some datetime) (getHours tz datetime - 1)
                = Some (datetime - msPerHour)).
  { apply setHour_back. unfold InRange, maxTime, msPerDay, msPerHour in *. lia. }
  assert (Hlt : r1 < datetime).
  { clear - Hd1. unfold LocalTime, Day, msPerDay in Hd1.
    Z.div_mod_to_equations. lia. }
  rewrite scheduleEventReminders_unfold, <- reminderInstant_unfold, Hr1, Hr2.
  rewrite createMany_two by assumption.
  generalize dependent r1. intros r1 _ Hd1 Ht1 Hlt.
  set (d := mkReminder (newIds 0%nat) userId None (Some eventId) r1 false None).
  set (h := mkReminder (newIds 1%nat) userId None (Some eventId)
                       (datetime - msPerHour) false None).
  exists (mkStore (users s) (people s) (identities s) (addresses s)
            (celebrations s) (events s) (eventGuests s)
            (filter (fun r => negb (eventReminderOf eventId r))
                    (scheduledReminders s) ++ [d; h])), d, h.
  split; [reflexivity|]. split; [reflexivity|]. split.
  { cbn [scheduledReminders]. rewrite filter_app.
    rewrite (MergeFacts.filter_drops_all (eventReminderOf eventId)).
    - cbn [app filter]. unfold eventReminderOf, d, h.
      cbn [reminder_eventId optEqb]. now rewrite String.eqb_refl.
    - intros r Hr. apply filter_In in Hr as [_ Hr].
      now apply negb_true_iff in Hr. }
  split; [repeat split|]. split; [repeat split|].
  split; [reflexivity|]. split; [reflexivity|].
  split; [exact Hd1|]. split; [exact Ht1|]. split; [reflexivity|].
  split; [exact Hlt|].
  split; [unfold h; cbn [scheduledFor]; unfold msPerHour; lia|]. repeat split.
Qed.

(** X13. Scheduling the reminders of an event of the store, for a user of
    the store: every reminder row of that event is deleted, the rows of
    other events and of celebrations stay, and exactly two rows are added,
    both unsent, for that user and that event: first the day-before
    reminder, due at 09:00:00.000 local time on the local day before the
    local day of the event, and so before the event starts; then the
    hour-before reminder.  (For a [datetime] with a day of margin inside
    the range of time values.) *)
Theorem scheduleEventReminders_replaces
    (tz : Z) (newIds : nat -> Id) (s : Store) (userId eventId : Id)
    (datetime : Z)
    (Huser : In userId (map user_id (users s)))
    (Hevent : In eventId (map event_id (events s)))
    (Hrange : InRange datetime 1) :
  exists s' dayBefore hourBefore,
    scheduleEventReminders tz newIds s userId eventId datetime = (Ok tt, s') /\
    scheduledReminders s' =
      filter (fun r => negb (eventReminderOf eventId r)) (scheduledReminders s)
      ++ [dayBefore; hourBefore] /\
    filter (eventReminderOf eventId) (scheduledReminders s')
      = [dayBefore; hourBefore] /\
    EventReminder userId eventId dayBefore /\
    EventReminder userId eventId hourBefore /\
    reminder_id dayBefore = newIds 0%nat /\
    reminder_id hourBefore = newIds 1%nat /\
    Day (LocalTime tz (scheduledFor dayBefore)) = Day (LocalTime tz datetime) - 1 /\
    TimeWithinDay (LocalTime tz (scheduledFor dayBefore)) = 9 * msPerHour /\
    scheduledFor dayBefore < datetime /\
    users s' = users s /\ people s' = people s /\
    celebrations s' = celebrations s /\ events s' = events s.
Proof.
  destruct (scheduleEventReminders_rows tz newIds s userId eventId datetime
              Huser Hevent Hrange)
    as (s' & d & h & H1 & H2 & H3 & H4 & H5 & H6 & H7 & H8 & H9 & _ & H11 & _
        & H13).
  exists s', d, h. repeat (split; [assumption|]). exact H13.
Qed.

(** A dinner on 1 January 2026 at 00:30 UTC. *)
Definition dinnerStore : Store :=
  mkStore
    [ mkUser "u1" "demo@moments.app" true None None ]
    [] [] [] []
    [ mkEvent "e1" "u1" "Dinner" (utcDate 2026 1 1 + 30 * msPerMinute) ]
    []
    [ mkReminder "r0" "u1" None (Some "e1") (utcDate 2025 12 1) true None;
      mkReminder "r1" "u1" (Some "c9") None (utcDate 2025 12 2) false None ].

Lemma scheduleEventReminders_replaces_witness :
  exists s',
    scheduleEventReminders 0 firstIds dinnerStore "u1" "e1"
      (utcDate 2026 1 1 + 30 * msPerMinute) = (Ok tt, s') /\
    map scheduledFor (filter (eventReminderOf "e1") (scheduledReminders s')) =
      [ at9 2025 12 31; utcDate 2025 12 31 + 23 * msPerHour + 30 * msPerMinute ] /\
    List.length (scheduledReminders s') = 3%nat.
Proof.
  assert (Hu : In "u1"%string (map user_id (users dinnerStore)))
    by (left; reflexivity).
  assert (He : In "e1"%string (map event_id (events dinnerStore)))
    by (left; reflexivity).
  assert (Hr : InRange (utcDate 2026 1 1 + 30 * msPerMinute) 1)
    by (vm_compute; discriminate).
  destruct (scheduleEventReminders_replaces 0 firstIds dinnerStore "u1" "e1"
              (utcDate 2026 1 1 + 30 * msPerMinute) Hu He Hr)
    as (s' & r1 & r2 & Hrun & _).
  exists s'. split; [exact Hrun|].
  vm_compute in Hrun. inversion Hrun; subst. vm_compute. split; reflexivity.
Defined.

End EventScheduleFacts.

(** ** Counting days *)

Module CountdownFacts.
Import Prisma Push JSDate Notifications DateFacts ScheduleFacts.
Local Open Scope Z_scope.
Local Open Scope list_scope.

(** [setHours(0, 0, 0, 0)]: the local midnight that starts the local day. *)
Lemma setHours_midnight (tz t : Z) :
  Z.abs t + msPerDay <= maxTime ->
  setHours tz (Some t) 0 0 0 0 = Some (Day (LocalTime tz t) * msPerDay - tz).
Proof.
  intros Hr. unfold setHours, UTC, MakeDate.
  change (MakeTime 0 0 0 0) with 0. rewrite Z.add_0_r.
  apply TimeClip_in_range.
  unfold LocalTime, Day, maxTime, msPerDay in *. Z.div_mod_to_equations. lia.
Qed.

Lemma ceilDiv_exact (k q : Z) : 0 < q -> ceilDiv (k * q) q = k.
Proof.
  intros Hq. unfold ceilDiv.
  replace (- (k * q)) with ((- k) * q) by lia.
  rewrite Z.div_mul by lia. lia.
Qed.

(** The least [h] with [x <= h * q]. *)
Lemma ceilDiv_le (x q h : Z) : 0 < q -> (ceilDiv x q <= h <-> x <= h * q).
Proof.
  intros Hq. unfold ceilDiv. split; intros H.
  - Z.div_mod_to_equations. nia.
  - Z.div_mod_to_equations. nia.
Qed.

Lemma getDaysUntil_days (tz clock target : Z) :
  Z.abs clock + msPerDay <= maxTime -> Z.abs target + msPerDay <= maxTime ->
  getDaysUntil tz clock target =
  Some (Day (LocalTime tz target) - Day (LocalTime tz clock)).
Proof.
  intros Hc Ht. unfold getDaysUntil.
  rewrite (setHours_midnight tz target Ht), (setHours_midnight tz clock Hc).
  cbn [numSub option_map]. f_equal.
  change (1000 * 60 * 60 * 24) with msPerDay.
  replace (Day (LocalTime tz target) * msPerDay - tz -
           (Day (LocalTime tz clock) * msPerDay - tz))
    with ((Day (LocalTime tz target) - Day (LocalTime tz clock)) * msPerDay)
    by lia.
  apply ceilDiv_exact. reflexivity.
Qed.

(** X14. [getDaysUntil] looks at local calendar days, not at the time
    left: for a clock and a target inside the range of time values it is a
    number, which is zero when the target falls on the local day of the
    clock, at least one when it falls on a later local day - be it minutes
    after the clock -, and never positive when it falls on an earlier
    one. *)
Theorem getDaysUntil_by_local_day (tz clock target : Z)
    (Hclock : Z.abs clock + msPerDay <= maxTime)
    (Htarget : Z.abs target + msPerDay <= maxTime) :
  exists days,
    getDaysUntil tz clock target = Some days /\
    (Day (LocalTime tz target) = Day (LocalTime tz clock) -> days = 0) /\
    (Day (LocalTime tz clock) < Day (LocalTime tz target) -> 1 <= days) /\
    (Day (LocalTime tz target) < Day (LocalTime tz clock) -> days <= 0).
Proof.
  exists (Day (LocalTime tz target) - Day (LocalTime tz clock)).
  split; [now apply getDaysUntil_days|]. repeat split; lia.
Qed.

(** At 23:30 local time, a target at 00:30 of the next local day. *)
Lemma getDaysUntil_by_local_day_witness :
  exists days,
    getDaysUntil 3600000 (utcDate 2025 3 14 + 22 * msPerHour + 30 * msPerMinute)
                 (utcDate 2025 3 14 + 23 * msPerHour + 30 * msPerMinute)
    = Some days /\ 1 <= days.
Proof.
  destruct (getDaysUntil_by_local_day 3600000
              (utcDate 2025 3 14 + 22 * msPerHour + 30 * msPerMinute)
              (utcDate 2025 3 14 + 23 * msPerHour + 30 * msPerMinute))
    as (days & Hrun & _ & Hlater & _).
  - vm_compute. discriminate.
  - vm_compute. discriminate.
  - exists days. split; [exact Hrun|]. apply Hlater. vm_compute. reflexivity.
Defined.

End CountdownFacts.

(** ** The notifier *)

Module PushFacts.
Import Prisma Push JSDate Notifications.
Local Open Scope list_scope.

(** The messages handed to Expo, in order. *)
Definition sends (fx : list Effect) : list ExpoPushMessage :=
  flat_map (fun e => match e with ExpoSend m => [m] | _ => [] end) fx.

Lemma sends_app (fx fx' : list Effect) : sends (fx ++ fx') = sends fx ++ sends fx'.
Proof. apply flat_map_app. Qed.

Section Notifier.
Variable isExpoPushToken : string -> bool.

(** The token a notification for [userId] goes to: that of a user of the
    store that has push enabled and a non-empty token Expo recognises. *)
Definition reachable (s : Store) (userId : Id) : option string :=
  match user_findUnique s userId with
  | Some u =>
      match nonEmpty (pushToken u) with
      | Some token =>
          if pushEnabled u && isExpoPushToken token then Some token else None
      | None => None
      end
  | None => None
  end.

(** Whether the call ends by removing the user's token. *)
Definition cleans (b : PushBehaviour) : bool :=
  match expoReply b with
  | TicketError _ true => negb (cleanupFails b)
  | _ => false
  end.

Definition delivered (b : PushBehaviour) : bool :=
  match expoReply b with TicketOk => true | _ => false end.

Lemma sendPushNotification_cases (b : PushBehaviour) (s : Store)
    (n : PushNotification) :
  let out := sendPushNotification isExpoPushToken b s n in
  if lookupFails b
  then out = (Err StoreUnavailable, s, [])
  else
    match reachable s (pn_userId n) with
    | None => fst out = (Ok false, s) /\ sends (snd out) = []
    | Some token =>
        fst out = (Ok (delivered b),
                   if cleans b then user_clearToken (pn_userId n) s else s) /\
        sends (snd out) =
          [mkMessage token "default" (pn_title n) (pn_body n) (pn_data n)]
    end.
Proof.
  cbv zeta. unfold sendPushNotification, reachable, cleans, delivered.
  destruct (lookupFails b); [reflexivity|].
  destruct (user_findUnique s (pn_userId n)) as [u|]; [|now split].
  destruct (nonEmpty (pushToken u)) as [token|]; [|now split].
  destruct (pushEnabled u); cbn [negb andb]; [|now split].
  destruct (isExpoPushToken token); cbn [negb]; [|now split].
  destruct (expoReply b) as [|text [|]| |]; try (now split).
  destruct (cleanupFails b); now split.
Qed.

Lemma clearToken_id (userId : Id) (u : User) :
  user_id (clearToken userId u) = user_id u.
Proof. unfold clearToken. now destruct (String.eqb (user_id u) userId). Qed.

Lemma find_cleared (userId x : Id) (l : list User) :
  find (fun u => String.eqb (user_id u) x) (map (clearToken userId) l) =
  option_map (clearToken userId) (find (fun u => String.eqb (user_id u) x) l).
Proof.
  induction l as [|u l IH]; [reflexivity|]. cbn [map find].
  rewrite clearToken_id. destruct (String.eqb (user_id u) x); [reflexivity|exact IH].
Qed.

(** The user found under [userId] after the removal holds no token. *)
Lemma cleared_user (s : Store) (userId : Id) (u : User) :
  user_findUnique (user_clearToken userId s) userId = Some u ->
  pushToken u = None.
Proof.
  unfold user_findUnique, user_clearToken. cbn [users]. rewrite find_cleared.
  destruct (find _ (users s)) as [u0|] eqn:E; [|discriminate].
  apply find_some in E as [_ E]. cbn [option_map]. unfold clearToken.
  rewrite E. now intros [= <-].
Qed.

Lemma reachable_cleared (s : Store) (userId x : Id) :
  reachable (user_clearToken userId s) x =
  if String.eqb x userId then None else reachable s x.
Proof.
  unfold reachable, user_findUnique, user_clearToken. cbn [users].
  rewrite find_cleared.
  destruct (find _ (users s)) as [u|] eqn:E; cbn [option_map];
    [|now destruct (String.eqb x userId)].
  apply find_some in E as [_ E]. apply String.eqb_eq in E. subst x.
  unfold clearToken. destruct (String.eqb (user_id u) userId); reflexivity.
Qed.

(** X15. What [sendPushNotification] does, in terms of the user it is
    for.  It hands a message to Expo exactly when the store answers the
    lookup and the user exists, has push enabled and holds a non-empty token
    Expo recognises: then exactly one message, to that token, with the
    title, body and data of the notification.  It returns [true] exactly
    when, in addition, Expo answers with an ok ticket.  It changes the store
    only by removing that user's token, exactly when the ticket says
    DeviceNotRegistered and the store accepts the update; it raises only
    when the store rejects the lookup, and then nothing was sent. *)
Theorem sendPushNotification_delivery (b : PushBehaviour) (s : Store)
    (n : PushNotification) :
  let out := sendPushNotification isExpoPushToken b s n in
  let result := fst (fst out) in
  let s' := snd (fst out) in
  let target := if lookupFails b then None else reachable s (pn_userId n) in
  sends (snd out) =
    match target with
    | Some token =>
        [mkMessage token "default" (pn_title n) (pn_body n) (pn_data n)]
    | None => []
    end /\
  (result = Ok true <-> target <> None /\ expoReply b = TicketOk) /\
  (result = Err StoreUnavailable <-> lookupFails b = true) /\
  (forall e, result = Err e -> e = StoreUnavailable) /\
  s' = (if match target with Some _ => cleans b | None => false end
        then user_clearToken (pn_userId n) s else s).
Proof.
  cbv zeta. pose proof (sendPushNotification_cases b s n) as H. cbv zeta in H.
  destruct (lookupFails b).
  - rewrite H. cbn [fst snd sends flat_map]. split; [reflexivity|].
    split; [split; [discriminate | now intros [? _]]|].
    split; [now split|]. split; [now intros e [= <-] | reflexivity].
  - destruct (reachable s (pn_userId n)) as [token|]; destruct H as [H1 H2];
      rewrite H2;
      destruct (sendPushNotification isExpoPushToken b s n) as [[r s1] fx];
      cbn [fst snd] in *; inversion H1; subst; (split; [reflexivity|]).
    + split.
      { unfold delivered. destruct (expoReply b); split;
          try discriminate; try (now intros [_ ?]); intros _;
          split; congruence. }
      split; [split; discriminate|]. split; [discriminate | reflexivity].
    + split; [split; [discriminate | now intros [? _]]|].
      split; [split; discriminate|]. split; [discriminate | reflexivity].
Qed.

(** X16. Once a token has been removed as unregistered, the user is not
    notified again: a call that ends with DeviceNotRegistered (and an
    accepted update) leaves a store in which the user holds no token, every
    later call for that user sends nothing, returns [false] and changes
    nothing when the store answers its lookup, and the tokens of the other
    users are as before. *)
Theorem unregistered_token_is_dropped (b : PushBehaviour) (s : Store)
    (n : PushNotification) (text token : string)
    (Hlookup : lookupFails b = false)
    (Htoken : reachable s (pn_userId n) = Some token)
    (Hreply : expoReply b = TicketError text true)
    (Hclean : cleanupFails b = false) :
  let out := sendPushNotification isExpoPushToken b s n in
  let s' := snd (fst out) in
  fst (fst out) = Ok false /\
  s' = user_clearToken (pn_userId n) s /\
  reachable s' (pn_userId n) = None /\
  (forall x, x <> pn_userId n -> reachable s' x = reachable s x) /\
  (forall b' n', lookupFails b' = false -> pn_userId n' = pn_userId n ->
     sendPushNotification isExpoPushToken b' s' n' = (Ok false, s', [])).
Proof.
  cbv zeta. pose proof (sendPushNotification_cases b s n) as H. cbv zeta in H.
  rewrite Hlookup, Htoken in H. destruct H as [H _].
  unfold delivered, cleans in H. rewrite Hreply, Hclean in H. cbn [negb] in H.
  destruct (sendPushNotification isExpoPushToken b s n) as [[r s1] fx].
  cbn [fst snd] in *. inversion H; subst. clear H.
  split; [reflexivity|]. split; [reflexivity|].
  split; [rewrite reachable_cleared; now rewrite String.eqb_refl|].
  split.
  { intros x Hx. rewrite reachable_cleared.
    now rewrite (MergeFacts.eqb_neq_false x (pn_userId n)). }
  intros b' n' Hl Hu.
  unfold sendPushNotification. rewrite Hl, Hu.
  destruct (user_findUnique _ (pn_userId n)) as [u|] eqn:Eu; [|reflexivity].
  now rewrite (cleared_user _ _ _ Eu).
Qed.

End Notifier.

(** Two users with tokens; the device of the first is no longer
    registered. *)
Definition tokenStore : Store :=
  mkStore
    [ mkUser "u1" "ann@moments.app" true (Some "ExponentPushToken[abc]") (Some "ios");
      mkUser "u2" "bob@moments.app" true (Some "ExponentPushToken[xyz]")
        (Some "android") ]
    [] [] [] [] [] [] [].

Definition unregistered : PushBehaviour :=
  mkPushBehaviour false (TicketError "not registered" true) false.

Definition greeting : PushNotification :=
  mkNotification "u1" "Hello" "There" (EventData "Dinner" (Some 1%Z)).

Lemma unregistered_token_is_dropped_witness :
  let s' := snd (fst (sendPushNotification ProcessFacts.isToken unregistered
                        tokenStore greeting)) in
  reachable ProcessFacts.isToken s' "u1" = None /\
  reachable ProcessFacts.isToken s' "u2" = Some "ExponentPushToken[xyz]" /\
  sendPushNotification ProcessFacts.isToken (mkPushBehaviour false TicketOk false)
    s' greeting = (Ok false, s', []).
Proof.
  cbv zeta.
  destruct (unregistered_token_is_dropped ProcessFacts.isToken unregistered
              tokenStore greeting "not registered" "ExponentPushToken[abc]"
              eq_refl eq_refl eq_refl eq_refl) as (_ & _ & H1 & H2 & H3).
  split; [exact H1|]. split.
  - rewrite H2 by discriminate. reflexivity.
  - apply H3; reflexivity.
Defined.

End PushFacts.

(** ** The text of a reminder *)

Module MessageFacts.
Import Prisma Push JSDate Notifications DateFacts CountdownFacts PushFacts.
Local Open Scope list_scope.

Section Notifier.
Variable isExpoPushToken : string -> bool.

(** Every message of a call carries the title, body and data of the
    notification. *)
Lemma sendPushNotification_text (b : PushBehaviour) (s : Store)
    (n : PushNotification) (m : ExpoPushMessage) :
  In m (sends (snd (sendPushNotification isExpoPushToken b s n))) ->
  msg_title m = pn_title n /\ msg_body m = pn_body n /\ msg_data m = pn_data n.
Proof.
  pose proof (sendPushNotification_cases isExpoPushToken b s n) as H.
  cbv zeta in H. destruct (lookupFails b); [rewrite H; intros []|].
  destruct (reachable isExpoPushToken s (pn_userId n)); destruct H as [_ ->];
    [|intros []].
  intros [<-|[]]. now split.
Qed.

(** The title and the body of a birthday reminder. *)
Definition birthdayText (personName : string) (daysUntil : option Z)
    : string * string :=
  match daysUntil with
  | Some 0%Z =>
      (personName ++ " is vandaag jarig! 🎂", "Vergeet niet te feliciteren!")
  | Some 1%Z =>
      (personName ++ " is morgen jarig! 🎉",
       "Bereid je voor om " ++ personName ++ " te feliciteren")
  | _ =>
      (personName ++ " is over " ++ showNumber daysUntil ++ " dagen jarig",
       "Zet alvast een reminder om " ++ personName ++ " te feliciteren")
  end%string.

Lemma sendBirthdayReminder_text (b : PushBehaviour) (s : Store) (userId : Id)
    (personName : string) (daysUntil : option Z) (m : ExpoPushMessage) :
  In m (sends (snd (sendBirthdayReminder isExpoPushToken b s userId personName
                      daysUntil))) ->
  msg_title m = fst (birthdayText personName daysUntil) /\
  msg_body m = snd (birthdayText personName daysUntil) /\
  msg_data m = BirthdayData personName daysUntil.
Proof.
  unfold sendBirthdayReminder. fold (birthdayText personName daysUntil).
  destruct (birthdayText personName daysUntil) as [title body].
  intros H. apply sendPushNotification_text in H. exact H.
Qed.

(** The title and the body of an event reminder. *)
Definition eventText (eventTitle : string) (hoursUntil : option Z)
    : string * string :=
  (if numLe hoursUntil 1 then
     (eventTitle ++ " begint zo! ⏰", "Het evenement begint binnen een uur")
   else if numLe hoursUntil 24 then
     (eventTitle ++ " is vandaag",
      "Het evenement begint over " ++ showNumber hoursUntil ++ " uur")
   else
     let days := option_map (fun h => (h / 24)%Z) hoursUntil in
     (eventTitle ++ " over " ++ showNumber days ++ " " ++
        (match days with Some 1%Z => "dag" | _ => "dagen" end),
      "Vergeet niet je agenda vrij te houden"))%string.

Lemma sendEventReminder_text (b : PushBehaviour) (s : Store) (userId : Id)
    (eventTitle : string) (hoursUntil : option Z) (m : ExpoPushMessage) :
  In m (sends (snd (sendEventReminder isExpoPushToken b s userId eventTitle
                      hoursUntil))) ->
  msg_title m = fst (eventText eventTitle hoursUntil) /\
  msg_body m = snd (eventText eventTitle hoursUntil) /\
  msg_data m = EventData eventTitle hoursUntil.
Proof.
  unfold sendEventReminder. fold (eventText eventTitle hoursUntil).
  destruct (eventText eventTitle hoursUntil) as [title body].
  intros H. apply sendPushNotification_text in H. exact H.
Qed.

Local Open Scope Z_scope.

(** The text of the birthday push, with the days as the zone of one offset
    counts them. *)
Lemma birthday_push_exact (tz : Z) (b : Behaviour) (d : Due) (s : Store)
    (c : Celebration) (p : Person)
    (Hd : due_celebration d = Some (c, Some p))
    (Hclock : Z.abs (clock b) + msPerDay <= maxTime)
    (Hdate : Z.abs (celebration_date c) + msPerDay <= maxTime) :
  let days := Day (LocalTime tz (celebration_date c)) -
              Day (LocalTime tz (clock b)) in
  forall m,
    In m (sends (snd (celebrationBlock tz isExpoPushToken b d s))) ->
    msg_data m = BirthdayData (displayName p) (Some (Z.max 0 days)) /\
    msg_title m =
      (displayName p ++
       (if (days <=? 0)%Z then " is vandaag jarig! 🎂"
        else if (days =? 1)%Z then " is morgen jarig! 🎉"
        else " is over " ++ showNumber (Some days) ++ " dagen jarig"))%string /\
    (celebration_date c <= clock b ->
     msg_title m = (displayName p ++ " is vandaag jarig! 🎂")%string /\
     msg_body m = "Vergeet niet te feliciteren!"%string).
Proof.
  cbv zeta. intros m. unfold celebrationBlock. rewrite Hd.
  rewrite (getDaysUntil_days tz (clock b) (celebration_date c) Hclock Hdate).
  set (days := Day (LocalTime tz (celebration_date c)) -
               Day (LocalTime tz (clock b))).
  assert (Hpast : celebration_date c <= clock b -> days <= 0).
  { intros Hle. unfold days, LocalTime, Day, msPerDay.
    Z.div_mod_to_equations. lia. }
  clearbody days.
  destruct (due_user d) as [u|]; [|unfold sends; cbn [snd flat_map]; intros []].
  destruct (wantsPush u); [|unfold sends; cbn [snd flat_map app]; intros []].
  cbn [max0 option_map].
  match goal with
  | |- context [sendBirthdayReminder ?x1 ?x2 ?x3 ?x4 ?x5 ?x6] =>
      pose proof (sendBirthdayReminder_text x2 x3 x4 x5 x6 m) as H;
      destruct (sendBirthdayReminder x1 x2 x3 x4 x5 x6) as [[[ok|err] s'] fx]
  end; cbn [fst snd] in *; intros Hm;
    (assert (Hin : In m (sends fx))
       by (unfold sends in *; cbn [flat_map app] in Hm; exact Hm));
    destruct (H Hin) as (Ht & Hb & Hdata); clear H;
    (split; [exact Hdata|]); rewrite Ht, Hb; unfold birthdayText.
  - destruct (Z.leb_spec days 0) as [H0|H0].
    + rewrite Z.max_l by lia. now split.
    + rewrite Z.max_r by lia. destruct (Z.eqb_spec days 1) as [->|H1].
      * split; [reflexivity | lia].
      * split; [|lia]. destruct days as [|[q|q|]|]; try lia; reflexivity.
  - destruct (Z.leb_spec days 0) as [H0|H0].
    + rewrite Z.max_l by lia. now split.
    + rewrite Z.max_r by lia. destruct (Z.eqb_spec days 1) as [->|H1].
      * split; [reflexivity | lia].
      * split; [|lia]. destruct days as [|[q|q|]|]; try lia; reflexivity.
Qed.

(** X17. The birthday push goes by the local day of the stored date.  When
    that day is the local day of the clock or an earlier one, a message sent
    for the celebration says "vandaag" and carries zero days: so a
    celebration whose stored date lies in the past - a date of birth, say -
    is always announced as today.  When it is a later local day, the message
    carries a number of days of at least one, and says "morgen" for one and
    "over [n] dagen" for more. *)
Theorem birthday_push_text (tz : Z) (b : Behaviour) (d : Due) (s : Store)
    (c : Celebration) (p : Person)
    (Hd : due_celebration d = Some (c, Some p))
    (Hclock : Z.abs (clock b) + msPerDay <= maxTime)
    (Hdate : Z.abs (celebration_date c) + msPerDay <= maxTime) :
  forall m,
    In m (sends (snd (celebrationBlock tz isExpoPushToken b d s))) ->
    (Day (LocalTime tz (celebration_date c)) <= Day (LocalTime tz (clock b)) ->
     msg_data m = BirthdayData (displayName p) (Some 0) /\
     msg_title m = (displayName p ++ " is vandaag jarig! 🎂")%string /\
     msg_body m = "Vergeet niet te feliciteren!"%string) /\
    (Day (LocalTime tz (clock b)) < Day (LocalTime tz (celebration_date c)) ->
     exists n,
       1 <= n /\
       msg_data m = BirthdayData (displayName p) (Some n) /\
       msg_title m =
         (displayName p ++
          (if (n =? 1)%Z then " is morgen jarig! 🎉"
           else " is over " ++ showNumber (Some n) ++ " dagen jarig"))%string).
Proof.
  intros m Hm.
  pose proof (birthday_push_exact tz b d s c p Hd Hclock Hdate m Hm) as H.
  cbv zeta in H. destruct H as (Hdata & Htitle & _).
  set (days := Day (LocalTime tz (celebration_date c)) -
               Day (LocalTime tz (clock b))) in *.
  split.
  - intros Hle. assert (H0 : days <= 0) by (unfold days; lia).
    rewrite Z.max_l in Hdata by lia.
    destruct (Z.leb_spec days 0) as [_|Hgt]; [|lia].
    split; [exact Hdata|]. split; [exact Htitle|].
    unfold celebrationBlock in Hm. rewrite Hd in Hm.
    rewrite (getDaysUntil_days tz (clock b) (celebration_date c) Hclock Hdate)
      in Hm.
    fold days in Hm. cbn [max0 option_map] in Hm.
    rewrite Z.max_l in Hm by lia.
    destruct (due_user d) as [u|];
      [|unfold sends in Hm; cbn [snd flat_map] in Hm; destruct Hm].
    destruct (wantsPush u);
      [|unfold sends in Hm; cbn [snd flat_map app] in Hm; destruct Hm].
    match type of Hm with
    | context [sendBirthdayReminder ?x1 ?x2 ?x3 ?x4 ?x5 ?x6] =>
        pose proof (sendBirthdayReminder_text x2 x3 x4 x5 x6 m) as Ht;
        destruct (sendBirthdayReminder x1 x2 x3 x4 x5 x6) as [[[ok|err] s'] fx]
    end; cbn [fst snd] in *;
      (assert (Hin : In m (sends fx))
         by (unfold sends in *; cbn [flat_map app] in Hm; exact Hm));
      destruct (Ht Hin) as (_ & Hb & _); exact Hb.
  - intros Hlt. assert (H1 : 1 <= days) by (unfold days; lia).
    exists days. split; [exact H1|].
    rewrite Z.max_r in Hdata by lia. split; [exact Hdata|].
    destruct (Z.leb_spec days 0) as [Hle|_]; [lia|]. exact Htitle.
Qed.

Lemma max0_hours (h : Z) :
  numLe (Some (Z.max 0 h)) 1 = (h <=? 1) /\
  numLe (Some (Z.max 0 h)) 24 = (h <=? 24).
Proof.
  cbn [numLe]. split.
  - destruct (Z.leb_spec h 1); [apply Z.leb_le | apply Z.leb_gt]; lia.
  - destruct (Z.leb_spec h 24); [apply Z.leb_le | apply Z.leb_gt]; lia.
Qed.

(** X18. The event push rounds the time left up to whole hours: with
    [left] the milliseconds from the clock to the event, a message sent for
    the event says "begint zo" when at most one hour is left (or the event
    has started), "is vandaag" with the hours rounded up when at most 24
    hours are left, and "over N dag(en)" otherwise, with N the whole days in
    the rounded hours. *)
Theorem event_push_text (b : Behaviour) (d : Due) (s : Store) (e : Event)
    (Hd : due_event d = Some e) :
  let left := event_datetime e - clock b in
  let hours := ceilDiv left msPerHour in
  forall m,
    In m (sends (snd (eventBlock isExpoPushToken b d s))) ->
    msg_data m = EventData (event_title e) (Some (Z.max 0 hours)) /\
    (msg_title m, msg_body m) =
      (if (left <=? msPerHour)%Z then
         (event_title e ++ " begint zo! ⏰", "Het evenement begint binnen een uur")
       else if (left <=? 24 * msPerHour)%Z then
         (event_title e ++ " is vandaag",
          "Het evenement begint over " ++ showNumber (Some hours) ++ " uur")
       else
         (event_title e ++ " over " ++ showNumber (Some (hours / 24)%Z) ++ " " ++
            (if (hours / 24 =? 1)%Z then "dag" else "dagen"),
          "Vergeet niet je agenda vrij te houden"))%string.
Proof.
  cbv zeta. intros m. unfold eventBlock. rewrite Hd.
  unfold getHoursUntil. change (1000 * 60 * 60) with msPerHour.
  set (left := event_datetime e - clock b).
  pose proof (ceilDiv_le left msPerHour 1 eq_refl) as H1.
  pose proof (ceilDiv_le left msPerHour 24 eq_refl) as H24.
  set (hours := ceilDiv left msPerHour) in *.
  destruct (max0_hours hours) as [E1 E24].
  clearbody hours left.
  destruct (due_user d) as [u|]; [|unfold sends; cbn [snd flat_map]; intros []].
  destruct (wantsPush u); [|unfold sends; cbn [snd flat_map app]; intros []].
  cbn [max0 option_map].
  assert (Htext : eventText (event_title e) (Some (Z.max 0 hours)) =
    (if (left <=? msPerHour)%Z then
       (event_title e ++ " begint zo! ⏰", "Het evenement begint binnen een uur")
     else if (left <=? 24 * msPerHour)%Z then
       (event_title e ++ " is vandaag",
        "Het evenement begint over " ++ showNumber (Some hours) ++ " uur")
     else
       (event_title e ++ " over " ++ showNumber (Some (hours / 24)%Z) ++ " " ++
          (if (hours / 24 =? 1)%Z then "dag" else "dagen"),
        "Vergeet niet je agenda vrij te houden"))%string).
  { unfold eventText. rewrite E1, E24.
    destruct (Z.leb_spec left msPerHour) as [L1|L1].
    - assert (Hh : hours <= 1) by (apply H1; lia).
      apply Z.leb_le in Hh. now rewrite Hh.
    - assert (Hh : ~ hours <= 1) by (rewrite H1; lia).
      apply Z.leb_nle in Hh. rewrite Hh.
      assert (Hmax : Z.max 0 hours = hours) by (apply Z.leb_nle in Hh; lia).
      rewrite Hmax.
      destruct (Z.leb_spec left (24 * msPerHour)) as [L2|L2].
      + assert (Hh2 : hours <= 24) by (apply H24; lia).
        apply Z.leb_le in Hh2. now rewrite Hh2.
      + assert (Hh2 : ~ hours <= 24) by (rewrite H24; lia).
        apply Z.leb_nle in Hh2. rewrite Hh2. cbn [option_map].
        destruct (Z.eqb_spec (hours / 24) 1) as [->|Hq]; [reflexivity|].
        destruct (hours / 24) as [|[q|q|]|]; try reflexivity. congruence. }
  match goal with
  | |- context [sendEventReminder ?x1 ?x2 ?x3 ?x4 ?x5 ?x6] =>
      pose proof (sendEventReminder_text x2 x3 x4 x5 x6 m) as H;
      destruct (sendEventReminder x1 x2 x3 x4 x5 x6) as [[[ok|err] s'] fx]
  end; cbn [fst snd] in *; intros Hm;
    (assert (Hin : In m (sends fx))
       by (unfold sends in *; cbn [flat_map app] in Hm; exact Hm));
    destruct (H Hin) as (Ht & Hb & Hdata); clear H;
    (split; [exact Hdata|]); rewrite Ht, Hb, <- Htext;
    now destruct (eventText _ _).
Qed.

End Notifier.

(** Mom was born on 15 March 1960; her reminder is processed at noon on
    14 March 2020.  The dinner starts six hours after that. *)
Definition momsBirthday : Celebration :=
  mkCelebration "c1" "p1" BIRTHDAY None (utcDate 1960 3 15) (Some "FREQ=YEARLY")
    [7; 1; 0]%Z.

Definition dueBirthday : Due :=
  mkDue (mkReminder "r1" "u1" (Some "c1") None (utcDate 1960 3 14) false None)
        (Some (mkUser "u1" "demo@moments.app" true (Some "ExponentPushToken[abc]")
                 (Some "ios")))
        (Some (momsBirthday, Some (mkPerson "p1" "u1" "Mom" None None)))
        None.

Definition dueDinner : Due :=
  mkDue (mkReminder "r2" "u1" None (Some "e1") (utcDate 2020 3 13) false None)
        (Some (mkUser "u1" "demo@moments.app" true (Some "ExponentPushToken[abc]")
                 (Some "ios")))
        None
        (Some (mkEvent "e1" "u1" "Dinner" (utcDate 2020 3 14 + 18 * msPerHour))).

Definition delivering : Behaviour :=
  mkBehaviour ProcessFacts.noon (mkPushBehaviour false TicketOk false)
              (mkPushBehaviour false TicketOk false) false.

Lemma birthday_push_text_witness :
  exists m,
    sends (snd (celebrationBlock 0 ProcessFacts.isToken delivering dueBirthday
                  ProcessFacts.reminderStore)) = [m] /\
    msg_title m = "Mom is vandaag jarig! 🎂"%string /\
    msg_body m = "Vergeet niet te feliciteren!"%string.
Proof.
  eexists. split; [vm_compute; reflexivity|].
  refine (proj2 (proj1 (birthday_push_text ProcessFacts.isToken 0 delivering
                          dueBirthday ProcessFacts.reminderStore momsBirthday
                          (mkPerson "p1" "u1" "Mom" None None) eq_refl _ _ _ _)
                   _)).
  - vm_compute. discriminate.
  - vm_compute. discriminate.
  - vm_compute. left. reflexivity.
  - vm_compute. discriminate.
Defined.

Lemma event_push_text_witness :
  exists m,
    sends (snd (eventBlock ProcessFacts.isToken delivering dueDinner
                  ProcessFacts.reminderStore)) = [m] /\
    (msg_title m, msg_body m) =
      ("Dinner is vandaag", "Het evenement begint over 6 uur")%string.
Proof.
  eexists. split; [vm_compute; reflexivity|].
  refine (eq_trans (proj2 (event_push_text ProcessFacts.isToken delivering
                             dueDinner ProcessFacts.reminderStore
                             (mkEvent "e1" "u1" "Dinner"
                                (utcDate 2020 3 14 + 18 * msPerHour))
                             eq_refl _ _)) _).
  - vm_compute. left. reflexivity.
  - vm_compute. reflexivity.
Defined.

End MessageFacts.

(** ** What a pass changes *)

Module PassFacts.
Import Prisma Push JSDate Notifications MergeFacts ProcessFacts PushFacts.
Local Open Scope list_scope.

(** A user row after a pass: the same user, with its token or without. *)
Definition UserKept (u u' : User) : Prop :=
  user_id u' = user_id u /\ user_email u' = user_email u /\
  pushEnabled u' = pushEnabled u /\
  (u' = u \/ (pushToken u' = None /\ pushPlatform u' = None)).

(** What processing may change outside the reminders: push tokens. *)
Definition TokensOnly (s s' : Store) : Prop :=
  people s' = people s /\ identities s' = identities s /\
  addresses s' = addresses s /\ celebrations s' = celebrations s /\
  events s' = events s /\ eventGuests s' = eventGuests s /\
  Forall2 UserKept (users s) (users s').

Lemma UserKept_refl (l : list User) : Forall2 UserKept l l.
Proof. induction l; constructor; [repeat split; now left | assumption]. Qed.

Lemma UserKept_trans (l1 l2 l3 : list User) :
  Forall2 UserKept l1 l2 -> Forall2 UserKept l2 l3 -> Forall2 UserKept l1 l3.
Proof.
  intros H. revert l3. induction H as [|u1 u2 l1 l2 Hu _ IH]; intros l3 H3;
    inversion H3 as [|? u3 ? l3' Hu' Hl']; subst; constructor; [|now apply IH].
  destruct Hu as (A1 & A2 & A3 & A4), Hu' as (B1 & B2 & B3 & B4).
  repeat split; try congruence.
  destruct B4 as [->|B4]; [exact A4 | now right].
Qed.

Lemma TokensOnly_refl s : TokensOnly s s.
Proof. repeat split. apply UserKept_refl. Qed.

Lemma TokensOnly_trans s1 s2 s3 :
  TokensOnly s1 s2 -> TokensOnly s2 s3 -> TokensOnly s1 s3.
Proof.
  intros (A1 & A2 & A3 & A4 & A5 & A6 & A7) (B1 & B2 & B3 & B4 & B5 & B6 & B7).
  repeat split; try congruence. eapply UserKept_trans; eassumption.
Qed.

Lemma TokensOnly_cleared (id : Id) (s : Store) :
  TokensOnly s (user_clearToken id s).
Proof.
  repeat split. unfold user_clearToken. cbn [users].
  induction (users s) as [|u l IH]; cbn [map]; constructor; [|exact IH].
  unfold clearToken. destruct (String.eqb (user_id u) id);
    repeat split; auto.
Qed.

Section Server.
Variable tz : Z.
Variable isExpoPushToken : string -> bool.

Lemma sendPushNotification_tokens (b : PushBehaviour) (s : Store)
    (n : PushNotification) :
  TokensOnly s (snd (fst (sendPushNotification isExpoPushToken b s n))).
Proof.
  pose proof (sendPushNotification_cases isExpoPushToken b s n) as H.
  cbv zeta in H. destruct (lookupFails b); [rewrite H; apply TokensOnly_refl|].
  destruct (reachable isExpoPushToken s (pn_userId n)); destruct H as [-> _];
    cbn [snd]; [|apply TokensOnly_refl].
  destruct (cleans b); [apply TokensOnly_cleared | apply TokensOnly_refl].
Qed.

Lemma celebrationBlock_tokens (b : Behaviour) (d : Due) (s : Store) :
  TokensOnly s (snd (fst (celebrationBlock tz isExpoPushToken b d s))).
Proof.
  unfold celebrationBlock.
  destruct (due_celebration d) as [[c [p|]]|]; try apply TokensOnly_refl.
  destruct (due_user d) as [u|]; [|apply TokensOnly_refl].
  destruct (wantsPush u); [|apply TokensOnly_refl].
  unfold sendBirthdayReminder.
  destruct (match max0 _ with Some 0%Z => _ | _ => _ end) as [title body].
  match goal with
  | |- context [sendPushNotification ?x1 ?x2 ?x3 ?x4] =>
      pose proof (sendPushNotification_tokens x2 x3 x4) as H;
      destruct (sendPushNotification x1 x2 x3 x4) as [[[ok|err] s'] fx]
  end; exact H.
Qed.

Lemma eventBlock_tokens (b : Behaviour) (d : Due) (s : Store) :
  TokensOnly s (snd (fst (eventBlock isExpoPushToken b d s))).
Proof.
  unfold eventBlock.
  destruct (due_event d) as [e|]; try apply TokensOnly_refl.
  destruct (due_user d) as [u|]; [|apply TokensOnly_refl].
  destruct (wantsPush u); [|apply TokensOnly_refl].
  unfold sendEventReminder.
  destruct (if numLe _ 1 then _ else _) as [title body].
  match goal with
  | |- context [sendPushNotification ?x1 ?x2 ?x3 ?x4] =>
      pose proof (sendPushNotification_tokens x2 x3 x4) as H;
      destruct (sendPushNotification x1 x2 x3 x4) as [[[ok|err] s'] fx]
  end; exact H.
Qed.

Lemma tryBody_tokens (b : Behaviour) (now : Z) (d : Due) (s : Store) :
  TokensOnly s (snd (fst (tryBody tz isExpoPushToken b now d s))).
Proof.
  unfold tryBody.
  pose proof (celebrationBlock_tokens b d s) as H1.
  destruct (celebrationBlock tz isExpoPushToken b d s) as [[[u1|e1] s1] fx1];
    cbn [fst snd] in *; [|exact H1].
  pose proof (eventBlock_tokens b d s1) as H2.
  destruct (eventBlock isExpoPushToken b d s1) as [[[u2|e2] s2] fx2];
    cbn [fst snd] in *; [|eapply TokensOnly_trans; eassumption].
  assert (H : TokensOnly s s2) by (eapply TokensOnly_trans; eassumption).
  destruct (markFails b); [exact H|].
  unfold scheduledReminder_update.
  destruct (existsb _ (scheduledReminders s2)); cbn [fst snd]; [|exact H].
  destruct H as (A1 & A2 & A3 & A4 & A5 & A6 & A7). repeat split; assumption.
Qed.

Lemma turn_tokens (behave : Id -> Behaviour) (now : Z) (p : Pass) (d : Due) :
  TokensOnly (pass_store p)
    (pass_store (turn tz isExpoPushToken behave now p d)).
Proof.
  unfold turn.
  pose proof (tryBody_tokens (behave (reminder_id (due_reminder d))) now d
                (pass_store p)) as H.
  destruct (tryBody _ _ _ _ _ _) as [[[u|e] s'] fx]; exact H.
Qed.

Lemma fold_tokens (behave : Id -> Behaviour) (now : Z) (batch : list Due)
    (p : Pass) :
  TokensOnly (pass_store p)
    (pass_store (fold_left (turn tz isExpoPushToken behave now) batch p)).
Proof.
  revert p. induction batch as [|d batch IH]; intros p; cbn [fold_left].
  - apply TokensOnly_refl.
  - eapply TokensOnly_trans; [apply turn_tokens | apply IH].
Qed.

End Server.

(** A reminder row after a pass: the same reminder, as it was or marked. *)
Definition ReminderKept (now : Z) (r r' : ScheduledReminder) : Prop :=
  reminder_id r' = reminder_id r /\ reminder_userId r' = reminder_userId r /\
  reminder_celebrationId r' = reminder_celebrationId r /\
  reminder_eventId r' = reminder_eventId r /\
  scheduledFor r' = scheduledFor r /\
  (r' = r \/ (sent r' = true /\ sentAt r' = Some now)).

Lemma markAll_kept (ids : list Id) (now : Z) (l : list ScheduledReminder) :
  Forall2 (ReminderKept now) l (map (markAll ids now) l).
Proof.
  induction l as [|r l IH]; cbn [map]; constructor; [|exact IH].
  unfold markAll. destruct (existsb (String.eqb (reminder_id r)) ids);
    repeat split; auto.
Qed.

Lemma firstn_length_le {A} (n : nat) (l : list A) :
  (List.length (firstn n l) <= n)%nat.
Proof. rewrite length_firstn. lia. Qed.

(** X19. A pass of [processDueReminders] changes nothing but flags and
    tokens: people, identities, addresses, celebrations, events and guests
    are as before; every user row is the same user, at most without its push
    token; every reminder row is the same reminder, as it was or marked as
    sent at [now] - no row is added, removed, moved or re-dated.  At most
    100 reminders are loaded, and no more are counted than were loaded. *)
Theorem processDueReminders_frame
    (tz : Z) (isExpoPushToken : string -> bool) (behave : Id -> Behaviour)
    (now : Z) (s : Store) :
  let p := processDueReminders tz isExpoPushToken behave now s in
  TokensOnly s (pass_store p) /\
  Forall2 (ReminderKept now) (scheduledReminders s)
          (scheduledReminders (pass_store p)) /\
  (processedCount p <= List.length (dueReminders s now) <= 100)%nat.
Proof.
  cbv zeta.
  destruct (pass_shape tz isExpoPushToken behave now s) as (Hs & Hc & _).
  split; [apply (fold_tokens tz isExpoPushToken behave now _ (mkPass s 0 []))|].
  split; [rewrite Hs; apply markAll_kept|].
  rewrite Hc. unfold okIds, dueReminders. rewrite !length_map. split.
  - rewrite <- (length_map (include s)). apply filter_length_le.
  - apply firstn_length_le.
Qed.

(** *** Counting *)

Section Counting.
Variable now : Z.
Variable g : ScheduledReminder -> bool.

(** The ids marked by a pass that loads [n] due rows of [l] and processes
    those that [g] accepts. *)
Definition markedIds (n : nat) (l : list ScheduledReminder) : list Id :=
  map reminder_id (filter g (firstn n (filter (isDue now) l))).

Lemma markedIds_rows (n : nat) (l : list ScheduledReminder) (x : Id) :
  In x (markedIds n l) ->
  exists r, In r l /\ isDue now r = true /\ reminder_id r = x.
Proof.
  unfold markedIds. intros H. apply in_map_iff in H as (r & <- & Hr).
  apply filter_In in Hr as [Hr _]. apply firstn_incl in Hr.
  apply filter_In in Hr as [Hr Hd]. now exists r.
Qed.

Lemma markAll_skip (id : Id) (ids : list Id) (r : ScheduledReminder) :
  reminder_id r <> id -> markAll (id :: ids) now r = markAll ids now r.
Proof.
  intros H. unfold markAll. cbn [existsb].
  now rewrite (eqb_neq_false _ _ H).
Qed.

Lemma markAll_none (l : list ScheduledReminder) : map (markAll [] now) l = l.
Proof.
  rewrite <- (map_id l) at 2. apply map_ext. intros r. apply markAll_nil.
Qed.

Lemma isDue_sent (r : ScheduledReminder) : isDue now (sentVersion now r) = false.
Proof. reflexivity. Qed.

Lemma counting (n : nat) (l : list ScheduledReminder) :
  NoDup (map reminder_id l) ->
  (List.length (filter (isDue now) (map (markAll (markedIds n l) now) l)) +
   List.length (markedIds n l) = List.length (filter (isDue now) l))%nat.
Proof.
  revert n. induction l as [|r l IH]; intros n Hnd; [now destruct n|].
  cbn [map] in Hnd. inversion Hnd as [|? ? Hr Hl]; subst.
  assert (Hfresh : forall k, ~ In (reminder_id r) (markedIds k l)).
  { intros k H. apply markedIds_rows in H as (r0 & H0 & _ & E).
    apply Hr. rewrite <- E. now apply in_map. }
  unfold markedIds in *. cbn [filter]. destruct (isDue now r) eqn:Ed.
  - destruct n as [|n]; cbn [firstn filter map].
    + rewrite markAll_nil, Ed. cbn [filter List.length].
      rewrite markAll_none. cbn [List.length]. lia.
    + destruct (g r) eqn:Eg; cbn [map List.length].
      * rewrite markAll_marked by now left.
        rewrite isDue_sent.
        rewrite (map_ext_in _ (markAll (map reminder_id
                     (filter g (firstn n (filter (isDue now) l)))) now)).
        -- specialize (IH n Hl). lia.
        -- intros r0 H0. apply markAll_skip. intros E. apply Hr.
           rewrite <- E. now apply in_map.
      * rewrite markAll_other by apply Hfresh. rewrite Ed.
        cbn [List.length]. specialize (IH n Hl). lia.
  - cbn [map filter]. rewrite markAll_other by apply Hfresh. rewrite Ed.
    apply IH, Hl.
Qed.

End Counting.

Lemma okIds_markedIds (behave : Id -> Behaviour) (s : Store) (now : Z) :
  okIds behave (dueReminders s now) =
  markedIds now (fun r => ok behave (include s r)) 100 (scheduledReminders s).
Proof.
  unfold okIds, dueReminders, markedIds.
  induction (firstn 100 (filter (isDue now) (scheduledReminders s))) as [|r l IH];
    [reflexivity|].
  cbn [map filter]. destruct (ok behave (include s r)); cbn [map]; now rewrite IH.
Qed.

Lemma row_by_id (l : list ScheduledReminder) (a b : ScheduledReminder) :
  NoDup (map reminder_id l) -> In a l -> In b l ->
  reminder_id a = reminder_id b -> a = b.
Proof.
  induction l as [|r l IH]; [contradiction|].
  cbn [map]. intros Hnd Ha Hb E. inversion Hnd as [|? ? Hr Hl]; subst.
  destruct Ha as [->|Ha], Hb as [->|Hb]; auto.
  - exfalso. apply Hr. rewrite E. now apply in_map.
  - exfalso. apply Hr. rewrite <- E. now apply in_map.
Qed.

(** X20. With unique reminder ids, a pass accounts for every reminder:
    the number of reminders due at [now] goes down by exactly the number the
    pass returns; a row that is not due (already sent, or scheduled after
    [now]) is left as it is; and every row of the store after the pass is a
    row from before, or a due row from before marked as sent at [now]. *)
Theorem processDueReminders_accounting
    (tz : Z) (isExpoPushToken : string -> bool) (behave : Id -> Behaviour)
    (now : Z) (s : Store)
    (Hids : NoDup (map reminder_id (scheduledReminders s))) :
  let p := processDueReminders tz isExpoPushToken behave now s in
  let due st := filter (isDue now) (scheduledReminders st) in
  (List.length (due (pass_store p)) + processedCount p
   = List.length (due s))%nat /\
  (forall r, In r (scheduledReminders s) -> isDue now r = false ->
     In r (scheduledReminders (pass_store p))) /\
  (forall r', In r' (scheduledReminders (pass_store p)) ->
     In r' (scheduledReminders s) \/
     exists r, In r (scheduledReminders s) /\ isDue now r = true /\
               r' = sentVersion now r).
Proof.
  cbv zeta.
  destruct (pass_shape tz isExpoPushToken behave now s) as (Hs & Hc & _).
  rewrite Hs, Hc, okIds_markedIds.
  set (g := fun r => ok behave (include s r)).
  assert (Hdue : forall r, In r (scheduledReminders s) ->
             In (reminder_id r) (markedIds now g 100 (scheduledReminders s)) ->
             isDue now r = true).
  { intros r Hr Hin. apply markedIds_rows in Hin as (r0 & H0 & Hd & E).
    now rewrite (row_by_id _ r r0 Hids Hr H0). }
  split; [now apply counting|]. split.
  - intros r Hr Hd. apply in_map_iff. exists r. split; [|exact Hr].
    apply markAll_other. intros Hin. apply Hdue in Hin; congruence.
  - intros r' Hr'. apply in_map_iff in Hr' as (r & <- & Hr).
    unfold markAll.
    destruct (existsb (String.eqb (reminder_id r))
                (markedIds now g 100 (scheduledReminders s))) eqn:E;
      [|now left].
    right. exists r. split; [exact Hr|]. split; [|reflexivity].
    apply Hdue; [exact Hr|].
    apply existsb_exists in E as (x & Hx & E). apply eqb_eq_true in E.
    now subst x.
Qed.

Lemma processDueReminders_accounting_witness :
  let p := processDueReminders 0 isToken storeFlaky noon reminderStore in
  List.length (filter (isDue noon) (scheduledReminders reminderStore)) = 3%nat /\
  processedCount p = 2%nat /\
  List.length (filter (isDue noon) (scheduledReminders (pass_store p))) = 1%nat.
Proof.
  cbv zeta.
  assert (Hids : NoDup (map reminder_id (scheduledReminders reminderStore))).
  { repeat constructor; simpl; intuition discriminate. }
  pose proof (proj1 (processDueReminders_accounting 0 isToken storeFlaky noon
                       reminderStore Hids)) as H.
  assert (Hc : processedCount
                 (processDueReminders 0 isToken storeFlaky noon reminderStore)
               = 2%nat) by (vm_compute; reflexivity).
  assert (Hd : List.length (filter (isDue noon) (scheduledReminders reminderStore))
               = 3%nat) by (vm_compute; reflexivity).
  rewrite Hc, Hd in H. split; [exact Hd|]. split; [exact Hc|]. lia.
Defined.

End PassFacts.

(** ** The next occurrence, bounded *)

Module WindowFacts.
Import JSDate Celebrations DateFacts OccurrenceFacts.
Local Open Scope Z_scope.

Lemma YearFromTime_mono (t t' : Z) : t <= t' -> YearFromTime t <= YearFromTime t'.
Proof.
  intros H. destruct (YearFromTime_largest t) as [H1 _].
  destruct (YearFromTime_largest t') as [_ H2]. apply H2. lia.
Qed.

(** The days of a year lie in that year. *)
Lemma year_bounds (t : Z) :
  TimeFromYear (YearFromTime t) <= t < TimeFromYear (YearFromTime t + 1).
Proof.
  unfold TimeFromYear, YearFromTime. pose proof (yearOfDay_spec (Day t)) as H.
  unfold Day, msPerDay in *. Z.div_mod_to_equations. lia.
Qed.

Lemma year_length (y : Z) :
  TimeFromYear (y + 1) - TimeFromYear y <= 366 * msPerDay.
Proof.
  unfold TimeFromYear. rewrite DayFromYear_next.
  pose proof (DaysInYear_range y). unfold msPerDay. lia.
Qed.

Lemma isLeap_mod4 (y : Z) : isLeap y = true -> y mod 4 = 0.
Proof.
  unfold isLeap. destruct (Z.eqb_spec (y mod 4) 0); [auto | discriminate].
Qed.

(** The same month and day one year on: 365 or 366 days later. *)
Lemma MakeDay_next_year (y m dt : Z) :
  0 <= m <= 11 -> MakeDay (y + 1) m dt - MakeDay y m dt <= 366.
Proof.
  intros Hm. rewrite !MakeDay_month by assumption. rewrite DayFromYear_next.
  rewrite DaysInYear_leapZ.
  pose proof (leapZ_range y) as H1. pose proof (leapZ_range (y + 1)) as H2.
  assert (Hboth : leapZ y + leapZ (y + 1) <= 1).
  { unfold leapZ in *. destruct (isLeap y) eqn:E; [|lia].
    apply isLeap_mod4 in E.
    assert (E' : isLeap (y + 1) = false).
    { unfold isLeap. destruct (Z.eqb_spec ((y + 1) mod 4) 0); [|reflexivity].
      exfalso. Z.div_mod_to_equations. lia. }
    rewrite E'. lia. }
  unfold monthStart. break_tests; lia.
Qed.

Section Zone.
Variable tz : Z.

Lemma setFullYear_value (t y r : Z) :
  setFullYear tz (Some t) y = Some r ->
  LocalTime tz r =
  MakeDate (MakeDay y (MonthFromTime (LocalTime tz t)) (DateFromTime (LocalTime tz t)))
           (TimeWithinDay (LocalTime tz t)).
Proof.
  unfold setFullYear. intros H. apply TimeClip_Some in H as [-> _].
  apply LocalTime_UTC.
Qed.

(** Setting the year one further moves a date by at most 366 days. *)
Lemma setFullYear_next (t r : Z) :
  setFullYear tz (Some t) (getFullYear tz t + 1) = Some r ->
  r - t <= 366 * msPerDay.
Proof.
  intros H. apply setFullYear_value in H.
  pose proof (MakeDate_Day (LocalTime tz t)) as Ht.
  rewrite <- (MakeDay_fields_of (LocalTime tz t)) in Ht.
  pose proof (MakeDay_next_year (YearFromTime (LocalTime tz t))
                (MonthFromTime (LocalTime tz t)) (DateFromTime (LocalTime tz t))
                (MonthFromTime_range _)) as Hd.
  unfold getFullYear in H.
  revert H Ht Hd.
  generalize (MakeDay (YearFromTime (LocalTime tz t) + 1)
                (MonthFromTime (LocalTime tz t)) (DateFromTime (LocalTime tz t))).
  generalize (MakeDay (YearFromTime (LocalTime tz t))
                (MonthFromTime (LocalTime tz t)) (DateFromTime (LocalTime tz t))).
  generalize (TimeWithinDay (LocalTime tz t)).
  unfold MakeDate, LocalTime, msPerDay. intros tod d0 d1 H Ht Hd. lia.
Qed.

Lemma getNextOccurrence_bounds (anchor from r : Z) :
  getNextOccurrence tz anchor from = Some r ->
  from <= r < from + 366 * msPerDay.
Proof.
  intros Hr.
  rewrite getNextOccurrence_unfold in Hr.
  destruct (setFullYear tz (Some anchor) (getFullYear tz from)) as [r1|] eqn:E1.
  2: { change (dateLt None (Some from)) with false in Hr. discriminate. }
  pose proof (setFullYear_fields tz _ _ _ E1) as (_ & Y1 & _).
  change (dateLt (Some r1) (Some from)) with (r1 <? from) in Hr.
  destruct (Z.ltb_spec r1 from) as [Hlt|Hge].
  - pose proof (setFullYear_fields tz _ _ _ Hr) as (_ & Y2 & _).
    rewrite <- Y1 in Hr. apply setFullYear_next in Hr.
    split; [|lia].
    destruct (Z.le_gt_cases from r) as [|Hgt]; [assumption|].
    pose proof (YearFromTime_mono (LocalTime tz r) (LocalTime tz from)
                  ltac:(unfold LocalTime; lia)) as Hm.
    unfold getFullYear in Y2. lia.
  - inversion Hr; subst r. split; [exact Hge|].
    unfold getFullYear in Y1.
    pose proof (year_bounds (LocalTime tz r1)) as B1.
    pose proof (year_bounds (LocalTime tz from)) as B2.
    rewrite Y1 in B1.
    pose proof (year_length (YearFromTime (LocalTime tz from))) as L.
    unfold LocalTime in *. lia.
Qed.

(** X21. The next occurrence is never in the past and never much more
    than a year away: whenever [getNextOccurrence] returns a date, that date
    is not before [fromDate] and less than 367 days after it, in the local
    year of [fromDate] or the next - for every anchor, 29 February
    included. *)
Theorem getNextOccurrence_within_a_year (anchor from r : Z)
    (Hr : getNextOccurrence tz anchor from = Some r) :
  from <= r < from + 367 * msPerDay /\
  (getFullYear tz r = getFullYear tz from \/
   getFullYear tz r = getFullYear tz from + 1).
Proof.
  split.
  { pose proof (getNextOccurrence_bounds anchor from r Hr) as H.
    unfold msPerDay in *. lia. }
  rewrite getNextOccurrence_unfold in Hr.
  destruct (setFullYear tz (Some anchor) (getFullYear tz from)) as [r1|] eqn:E1.
  2: { change (dateLt None (Some from)) with false in Hr. discriminate. }
  destruct (dateLt (Some r1) (Some from)).
  - right. now apply (setFullYear_fields tz r1).
  - left. inversion Hr; subst. now apply (setFullYear_fields tz anchor).
Qed.

End Zone.

Lemma getNextOccurrence_within_a_year_witness :
  utcDate 2025 4 1 <= utcDate 2026 3 15 < utcDate 2025 4 1 + 367 * msPerDay.
Proof.
  exact (proj1 (getNextOccurrence_within_a_year 0 (utcDate 2020 3 15)
                  (utcDate 2025 4 1) (utcDate 2026 3 15) eq_refl)).
Defined.

End WindowFacts.

(** ** GET /upcoming *)

Module UpcomingFacts.
Import Prisma Push JSDate Notifications Celebrations DateFacts OccurrenceFacts
       WindowFacts.
Local Open Scope Z_scope.
Local Open Scope list_scope.

(** [setDate(getDate() + n)]: the same time of day, [n] days on. *)
Lemma setDate_days (tz t n : Z) :
  Z.abs (t + n * msPerDay) <= maxTime ->
  setDate tz (Some t) (getDate tz t + n) = Some (t + n * msPerDay).
Proof.
  intros Hr. unfold setDate, getDate.
  set (l := LocalTime tz t).
  assert (Hday : MakeDay (YearFromTime l) (MonthFromTime l) (DateFromTime l + n)
                 = Day l + n).
  { rewrite MakeDay_month by apply MonthFromTime_range.
    rewrite <- (MakeDay_fields_of l), MakeDay_month by apply MonthFromTime_range.
    lia. }
  rewrite Hday.
  assert (Hshift : UTC tz (MakeDate (Day l + n) (TimeWithinDay l))
                   = t + n * msPerDay).
  { pose proof (MakeDate_Day l) as H. unfold MakeDate, UTC in *.
    unfold l, LocalTime in *. lia. }
  rewrite Hshift. now apply TimeClip_in_range.
Qed.

(** *** The stable sort *)

Section Sorting.
Context {A : Type} (key : A -> Z).

Lemma insertBy_perm (x : A) (l : list A) : Permutation (x :: l) (insertBy key x l).
Proof.
  induction l as [|y l IH]; cbn [insertBy]; [reflexivity|].
  destruct (key y <? key x); [|reflexivity].
  rewrite perm_swap. now constructor.
Qed.

Lemma sortBy_perm (l : list A) : Permutation l (sortBy key l).
Proof.
  unfold sortBy. induction l as [|x l IH]; cbn [fold_right]; [reflexivity|].
  rewrite <- insertBy_perm. now constructor.
Qed.

Definition ascending (a b : A) : Prop := key a <= key b.

Lemma insertBy_sorted (x : A) (l : list A) :
  StronglySorted ascending l -> StronglySorted ascending (insertBy key x l).
Proof.
  induction l as [|y l IH]; cbn [insertBy]; intros H.
  - repeat constructor.
  - inversion H as [|? ? Hl Hy]; subst.
    destruct (Z.ltb_spec (key y) (key x)) as [Hlt|Hge].
    + constructor; [now apply IH|].
      rewrite Forall_forall in *. intros z Hz.
      apply (Permutation_in _ (Permutation_sym (insertBy_perm x l))) in Hz.
      destruct Hz as [<-|Hz]; [unfold ascending; lia | now apply Hy].
    + constructor; [exact H|]. constructor; [exact Hge|].
      rewrite Forall_forall in *. intros z Hz. specialize (Hy z Hz).
      unfold ascending in *. lia.
Qed.

Lemma sortBy_sorted (l : list A) : StronglySorted ascending (sortBy key l).
Proof.
  unfold sortBy. induction l as [|x l IH]; cbn [fold_right]; [constructor|].
  now apply insertBy_sorted.
Qed.

End Sorting.

Section Server.
Variable tz : Z.

(** A celebration of a person of the user. *)
Definition belongsTo (s : Store) (userId : Id) (c : Celebration) : bool :=
  existsb (fun p => String.eqb (person_id p) (celebration_personId c) &&
                    String.eqb (person_userId p) userId) (people s).

(** The date GET /upcoming takes as the next one of a celebration. *)
Definition nextOf (now : Z) (c : Celebration) : option Z :=
  match nonEmpty (recurringRule c) with
  | Some _ => getNextOccurrence tz (celebration_date c) now
  | None => Some (celebration_date c)
  end.

Lemma getUpcoming_unfold (s : Store) (userId : Id) (now : Z) :
  getUpcoming tz s userId now =
  sortBy getTime
    (filter (fun u => dateLe (Some now) (nextDate u) &&
                      dateLe (nextDate u)
                             (setDate tz (Some now) (getDate tz now + 30)))
       (map (fun c => mkUpcoming c (person_findUnique s (celebration_personId c))
                        (nextOf now c))
            (filter (belongsTo s userId) (celebrations s)))).
Proof. reflexivity. Qed.

(** X22. GET /upcoming lists, in ascending order of their next date, the
    celebrations of the persons of the requesting user whose next date lies
    between [now] and [thirtyDaysFromNow], and no others.  The end of the
    window is the instant [setDate(getDate() + 30)] makes of [now]: it lies
    on the thirtieth local day after the local day of [now].  A one-off
    celebration is listed when its date lies in the window, a recurring one
    when its next occurrence is not after the end of the window - for a
    recurring celebration the test against [now] never excludes anything.
    (For a clock 30 days inside the range of time values.) *)
Theorem getUpcoming_window (s : Store) (userId : Id) (now : Z)
    (Hrange : Z.abs (now + 30 * msPerDay) <= maxTime) :
  exists thirtyDaysFromNow,
    setDate tz (Some now) (getDate tz now + 30) = Some thirtyDaysFromNow /\
    Day (LocalTime tz thirtyDaysFromNow) = Day (LocalTime tz now) + 30 /\
    let out := getUpcoming tz s userId now in
    StronglySorted (fun a b => getTime a <= getTime b) out /\
    (forall u, In u out <->
       exists c t,
         In c (celebrations s) /\ belongsTo s userId c = true /\
         u = mkUpcoming c (person_findUnique s (celebration_personId c))
                        (Some t) /\
         nextOf now c = Some t /\ now <= t <= thirtyDaysFromNow) /\
    (forall c t,
       In c (celebrations s) -> belongsTo s userId c = true ->
       nonEmpty (recurringRule c) <> None ->
       getNextOccurrence tz (celebration_date c) now = Some t ->
       t <= thirtyDaysFromNow ->
       In (mkUpcoming c (person_findUnique s (celebration_personId c)) (Some t))
          out).
Proof.
  exists (now + 30 * msPerDay).
  split; [exact (setDate_days tz now 30 Hrange)|].
  split.
  { unfold LocalTime, Day, msPerDay. Z.div_mod_to_equations. lia. }
  cbv zeta. rewrite getUpcoming_unfold.
  rewrite (setDate_days tz now 30 Hrange).
  set (entry := fun c => mkUpcoming c (person_findUnique s (celebration_personId c))
                           (nextOf now c)).
  set (inWindow := fun u : Upcoming =>
                     dateLe (Some now) (nextDate u) &&
                     dateLe (nextDate u) (Some (now + 30 * msPerDay))).
  assert (Hmem : forall u,
    In u (sortBy getTime (filter inWindow
            (map entry (filter (belongsTo s userId) (celebrations s))))) <->
    exists c t,
      In c (celebrations s) /\ belongsTo s userId c = true /\
      u = mkUpcoming c (person_findUnique s (celebration_personId c)) (Some t) /\
      nextOf now c = Some t /\ now <= t <= now + 30 * msPerDay).
  { intros u. split.
    - intros H. apply (Permutation_in _ (Permutation_sym (sortBy_perm _ _))) in H.
      apply filter_In in H as [H Hw]. apply in_map_iff in H as (c & <- & Hc).
      apply filter_In in Hc as [Hc Ho].
      unfold inWindow, entry in Hw. cbn [nextDate] in Hw.
      destruct (nextOf now c) as [t|] eqn:En; [|discriminate Hw].
      cbn [dateLe] in Hw. apply andb_true_iff in Hw as [H1 H2].
      apply Z.leb_le in H1, H2.
      exists c, t. unfold entry. rewrite En. repeat split; assumption.
    - intros (c & t & Hc & Ho & -> & En & H1 & H2).
      apply (Permutation_in _ (sortBy_perm _ _)).
      apply filter_In. split.
      + apply in_map_iff. exists c. split.
        * unfold entry. now rewrite En.
        * apply filter_In. now split.
      + unfold inWindow. cbn [nextDate dateLe].
        apply andb_true_iff. split; now apply Z.leb_le. }
  split; [apply sortBy_sorted|]. split; [exact Hmem|].
  intros c t Hc Ho Hrule Hnext Hle. apply Hmem. exists c, t.
  assert (En : nextOf now c = Some t).
  { unfold nextOf. destruct (nonEmpty (recurringRule c)); [exact Hnext|congruence]. }
  repeat split; try assumption.
  now apply (getNextOccurrence_bounds tz (celebration_date c)).
Qed.

End Server.

(** Mom's birthday is on 15 March; the list is asked for on 1 March 2025. *)
Lemma getUpcoming_window_witness :
  In (mkUpcoming
        (mkCelebration "c1" "p1" BIRTHDAY None (utcDate 2020 3 15)
           (Some "FREQ=YEARLY") [7; 1; 0])
        (Some (mkPerson "p1" "u1" "Mom" None None))
        (Some (utcDate 2025 3 15)))
     (getUpcoming 0 ScheduleFacts.birthdayStore "u1" (utcDate 2025 3 1)).
Proof.
  destruct (getUpcoming_window 0 ScheduleFacts.birthdayStore "u1"
              (utcDate 2025 3 1))
    as (e & He & _ & _ & _ & H).
  - vm_compute. discriminate.
  - apply H.
    + left. reflexivity.
    + reflexivity.
    + discriminate.
    + reflexivity.
    + vm_compute in He. inversion He. vm_compute. discriminate.
Defined.

End UpcomingFacts.

(** ** Routes and the foreign keys *)

Module RouteFacts.
Import Prisma Push JSDate Notifications Celebrations MergeFacts DateFacts
       ScheduleFacts CelebrationFacts ProcessFacts IntegrityFacts PassFacts.
Local Open Scope list_scope.

(** *** What the store looks like after a scheduling that succeeded *)

Lemma insertRows_fields (newIds : nat -> Id) (k : nat) (data : list NewReminder)
    (rows : list ScheduledReminder) :
  insertRows newIds k data = Some rows ->
  Forall2 (fun d r => reminder_userId r = new_userId d /\
                      reminder_celebrationId r = new_celebrationId d /\
                      reminder_eventId r = new_eventId d /\
                      new_scheduledFor d = Some (scheduledFor r) /\
                      sent r = false /\ sentAt r = None) data rows.
Proof.
  revert k rows. induction data as [|d data IH]; intros k rows; cbn [insertRows].
  - intros [= <-]. constructor.
  - destruct (new_scheduledFor d) as [t|] eqn:Et; [|discriminate].
    destruct (insertRows newIds (S k) data) as [rest|] eqn:Er; [|discriminate].
    intros [= <-]. constructor; [now repeat split | now apply (IH (S k))].
Qed.

(** [createMany] either adds rows that satisfy the foreign keys, or leaves
    the store as it is. *)
Lemma createMany_shape (newIds : nat -> Id) (data : list NewReminder) (s : Store) :
  let out := scheduledReminder_createMany newIds data s in
  (fst out <> Ok tt /\ snd out = s) \/
  exists rows,
    out = (Ok tt,
           mkStore (users s) (people s) (identities s) (addresses s)
             (celebrations s) (events s) (eventGuests s)
             (scheduledReminders s ++ rows)) /\
    Forall2 (fun d r => reminder_userId r = new_userId d /\
                        reminder_celebrationId r = new_celebrationId d /\
                        reminder_eventId r = new_eventId d /\
                        new_scheduledFor d = Some (scheduledFor r) /\
                        sent r = false /\ sentAt r = None) data rows /\
    Forall (fun d => In (new_userId d) (map user_id (users s)) /\
                     (forall x, new_celebrationId d = Some x ->
                        In x (map celebration_id (celebrations s))) /\
                     (forall x, new_eventId d = Some x ->
                        In x (map event_id (events s)))) data.
Proof.
  cbv zeta. unfold scheduledReminder_createMany.
  destruct (insertRows newIds 0 data) as [rows|] eqn:Ei;
    [|left; split; [discriminate | reflexivity]].
  destruct (forallb _ data) eqn:Ef; [|left; split; [discriminate | reflexivity]].
  right. exists rows. split; [reflexivity|].
  split; [now apply (insertRows_fields newIds 0%nat)|].
  rewrite forallb_forall in Ef. apply Forall_forall. intros d Hd.
  specialize (Ef d Hd). apply andb_true_iff in Ef as [Ef He].
  apply andb_true_iff in Ef as [Hu Hc].
  assert (Hex : forall {B} (key : B -> Id) (table : list B) (x : Id),
             existsb (fun y => String.eqb (key y) x) table = true ->
             In x (map key table)).
  { intros B key table x H. apply existsb_exists in H as (y & Hy & E).
    apply eqb_eq_true in E. subst x. now apply in_map. }
  split; [now apply Hex|]. split.
  - intros x Hx. rewrite Hx in Hc. now apply Hex.
  - intros x Hx. rewrite Hx in He. now apply Hex.
Qed.

Lemma createMany_integrity (newIds : nat -> Id) (data : list NewReminder)
    (s : Store) :
  Integrity s -> Integrity (snd (scheduledReminder_createMany newIds data s)).
Proof.
  intros HI.
  destruct (createMany_shape newIds data s) as [[_ ->]|(rows & -> & Hf & Hk)];
    [exact HI|].
  destruct HI as [H1 H2 H3 H4 H5 H6 H7 H8 H9 H10].
  split; cbn [snd users people identities addresses celebrations events
              eventGuests scheduledReminders]; try assumption.
  - apply refers_app; [exact H8|]. intros r x Hr Hx.
    clear - Hf Hk Hr Hx. induction Hf as [|d r0 data rows Hd _ IH];
      [contradiction|].
    inversion Hk as [|? ? Hkd Hkr]; subst. destruct Hr as [->|Hr]; [|now apply IH].
    destruct Hd as (E & _). destruct Hkd as (Hu & _).
    inversion Hx; subst. now rewrite E.
  - apply refers_app; [exact H9|]. intros r x Hr Hx.
    clear - Hf Hk Hr Hx. induction Hf as [|d r0 data rows Hd _ IH];
      [contradiction|].
    inversion Hk as [|? ? Hkd Hkr]; subst. destruct Hr as [->|Hr]; [|now apply IH].
    destruct Hd as (_ & E & _). destruct Hkd as (_ & Hc & _).
    apply Hc. now rewrite <- E.
  - apply refers_app; [exact H10|]. intros r x Hr Hx.
    clear - Hf Hk Hr Hx. induction Hf as [|d r0 data rows Hd _ IH];
      [contradiction|].
    inversion Hk as [|? ? Hkd Hkr]; subst. destruct Hr as [->|Hr]; [|now apply IH].
    destruct Hd as (_ & _ & E & _). destruct Hkd as (_ & _ & He).
    apply He. now rewrite <- E.
Qed.

Lemma deleteMany_integrity (celebrationId : Id) (s : Store) :
  Integrity s -> Integrity (scheduledReminder_deleteMany celebrationId s).
Proof.
  intros [H1 H2 H3 H4 H5 H6 H7 H8 H9 H10].
  split; cbn [scheduledReminder_deleteMany users people identities addresses
              celebrations events eventGuests scheduledReminders];
    try assumption; now apply refers_filter.
Qed.

Lemma deleteManyEvent_integrity (eventId : Id) (s : Store) :
  Integrity s -> Integrity (scheduledReminder_deleteManyEvent eventId s).
Proof.
  intros [H1 H2 H3 H4 H5 H6 H7 H8 H9 H10].
  split; cbn [scheduledReminder_deleteManyEvent users people identities addresses
              celebrations events eventGuests scheduledReminders];
    try assumption; now apply refers_filter.
Qed.

Lemma scheduleCelebration_integrity tz newIds s userId celebrationId date offsets :
  Integrity s ->
  Integrity (snd (scheduleCelebrationReminders tz newIds s userId celebrationId
                    date offsets)).
Proof.
  intros HI. unfold scheduleCelebrationReminders.
  now apply createMany_integrity, deleteMany_integrity.
Qed.

Lemma scheduleEvent_integrity tz newIds s userId eventId datetime :
  Integrity s ->
  Integrity (snd (scheduleEventReminders tz newIds s userId eventId datetime)).
Proof.
  intros HI. unfold scheduleEventReminders.
  now apply createMany_integrity, deleteManyEvent_integrity.
Qed.

(** *** The celebration routes *)

Lemma refers_targets {A B} (key : B -> Id) (targets targets' : list B)
    (fk : A -> option Id) (rows : list A) :
  incl (map key targets) (map key targets') ->
  refers key targets fk rows -> refers key targets' fk rows.
Proof. intros Hi H r x Hr Hx. apply Hi. now apply (H r). Qed.

Lemma refers_map {A B} (key : B -> Id) (targets : list B)
    (fk : A -> option Id) (h : A -> A) (rows : list A) :
  (forall r, fk (h r) = fk r) ->
  refers key targets fk rows -> refers key targets fk (map h rows).
Proof.
  intros Hh H r x Hr Hx. apply in_map_iff in Hr as (r0 & <- & Hr0).
  apply (H r0); [exact Hr0 | now rewrite <- Hh].
Qed.

Lemma added_celebration_integrity (s : Store) (c : Celebration) :
  In (celebration_personId c) (map person_id (people s)) ->
  Integrity s -> Integrity (withCelebrations s (celebrations s ++ [c])).
Proof.
  intros Hp [H1 H2 H3 H4 H5 H6 H7 H8 H9 H10].
  split; cbn [withCelebrations users people identities addresses celebrations
              events eventGuests scheduledReminders]; try assumption.
  - apply refers_app; [exact H4|]. intros r x [<-|[]] [= <-]. exact Hp.
  - apply (refers_targets _ (celebrations s)); [|exact H9].
    rewrite map_app. now apply incl_appl, incl_refl.
Qed.

Lemma applyUpdate_keys id date body c :
  celebration_id (applyUpdate id date body c) = celebration_id c /\
  celebration_personId (applyUpdate id date body c) = celebration_personId c.
Proof.
  unfold applyUpdate. now destruct (String.eqb (celebration_id c) id).
Qed.

Lemma updated_celebrations_integrity (s : Store) id date body :
  Integrity s ->
  Integrity (withCelebrations s (map (applyUpdate id date body) (celebrations s))).
Proof.
  intros [H1 H2 H3 H4 H5 H6 H7 H8 H9 H10].
  split; cbn [withCelebrations users people identities addresses celebrations
              events eventGuests scheduledReminders]; try assumption.
  - apply refers_map; [|exact H4]. intros r. f_equal. apply applyUpdate_keys.
  - apply (refers_targets _ (celebrations s)); [|exact H9].
    rewrite map_map.
    assert (E : map (fun x => celebration_id (applyUpdate id date body x))
                    (celebrations s) = map celebration_id (celebrations s))
      by (apply map_ext; intros; apply applyUpdate_keys).
    rewrite E. apply incl_refl.
Qed.

Lemma celebration_delete_integrity (id : Id) (s s' : Store) :
  celebration_delete id s = Ok s' -> Integrity s -> Integrity s'.
Proof.
  unfold celebration_delete. destruct (existsb _ (celebrations s)); [|discriminate].
  intros [= <-] [H1 H2 H3 H4 H5 H6 H7 H8 H9 H10].
  split; cbn [users people identities addresses celebrations events eventGuests
              scheduledReminders]; try assumption;
    try (now apply refers_filter).
  intros r x Hr Hx. apply filter_In in Hr as [Hr Hkeep].
  apply negb_true_iff in Hkeep. unfold reminderOf in Hkeep. rewrite Hx in Hkeep.
  cbn [optEqb] in Hkeep. apply String.eqb_neq in Hkeep.
  pose proof (H9 r x Hr Hx) as Hc. apply in_map_iff in Hc as (c & Hcid & Hc).
  apply in_map_iff. exists c. split; [exact Hcid|].
  apply filter_In. split; [exact Hc|].
  apply negb_true_iff, eqb_neq_false. congruence.
Qed.

(** X23. The celebration routes leave no dangling reference: after POST,
    PUT or DELETE, whatever the reply - also when the handler raises half
    way - every celebration of the store belongs to a person of the store
    and every reminder to a user, a celebration and an event of the store,
    if that was so before.  POST checks the person before it writes, PUT
    never moves a celebration to another person, and DELETE takes the
    reminders of the celebration with it. *)
Theorem celebration_routes_integrity (s : Store) (HI : Integrity s) :
  (forall tz newId newIds userId body,
     Integrity (snd (createCelebration tz newId newIds s userId body))) /\
  (forall tz newIds userId id body,
     Integrity (snd (updateCelebration tz newIds s userId id body))) /\
  (forall userId id, Integrity (snd (deleteCelebration s userId id))).
Proof.
  split; [|split].
  - intros tz newId newIds userId body. unfold createCelebration.
    destruct (_ && _); [exact HI|].
    destruct (person_findFirst s (cb_personId body) userId) as [p|] eqn:Ep;
      [|exact HI].
    destruct (cb_date body) as [date|]; [|exact HI].
    cbn [celebration_id celebration_date reminderOffsets].
    match goal with
    | |- context [scheduleCelebrationReminders ?a ?b ?c ?d ?e ?f ?g] =>
        pose proof (scheduleCelebration_integrity a b c d e f g) as H;
        destruct (scheduleCelebrationReminders a b c d e f g) as [[u|e0] s2]
    end; cbn [snd] in *; apply H; apply added_celebration_integrity;
      try exact HI; cbn [celebration_personId];
      unfold person_findFirst in Ep; apply find_some in Ep as [Hin Hp];
      apply andb_true_iff in Hp as [Hp _]; apply eqb_eq_true in Hp;
      rewrite <- Hp; now apply in_map.
  - intros tz newIds userId id body. unfold updateCelebration.
    destruct (celebration_findFirst s id userId); [|exact HI].
    assert (Hcore : forall date,
      Integrity
        (snd match find (fun c => String.eqb (celebration_id c) id)
                     (celebrations
                        (withCelebrations s
                           (map (applyUpdate id date body) (celebrations s)))) with
             | None => (Failed RecordNotFound, s)
             | Some updated =>
                 match ub_date body, ub_reminderOffsets body with
                 | None, None =>
                     (Updated updated,
                      withCelebrations s
                        (map (applyUpdate id date body) (celebrations s)))
                 | _, _ =>
                     match scheduleCelebrationReminders tz newIds
                             (withCelebrations s
                                (map (applyUpdate id date body) (celebrations s)))
                             userId (celebration_id updated)
                             (celebration_date updated) (reminderOffsets updated) with
                     | (Ok _, s2) => (Updated updated, s2)
                     | (Err e, s2) => (Failed e, s2)
                     end
                 end
             end)).
    { intros date.
      pose proof (updated_celebrations_integrity s id date body HI) as H1.
      destruct (find _ _) as [updated|]; [|exact HI].
      assert (Hs : Integrity
                (snd (let (r, s2) :=
                        scheduleCelebrationReminders tz newIds
                          (withCelebrations s
                             (map (applyUpdate id date body) (celebrations s)))
                          userId (celebration_id updated)
                          (celebration_date updated) (reminderOffsets updated) in
                      match r with
                      | Ok _ => (Updated updated, s2)
                      | Err e => (Failed e, s2)
                      end))).
      { pose proof (scheduleCelebration_integrity tz newIds _ userId
                      (celebration_id updated) (celebration_date updated)
                      (reminderOffsets updated) H1) as H2.
        destruct (scheduleCelebrationReminders _ _ _ _ _ _ _) as [[u|e] s2];
          exact H2. }
      destruct (ub_date body), (ub_reminderOffsets body); try exact Hs.
      exact H1. }
    destruct (ub_date body) as [[d|]|] eqn:Ed; [|exact HI|].
    + apply (Hcore (Some d)).
    + apply (Hcore None).
  - intros userId id. unfold deleteCelebration.
    destruct (celebration_findFirst s id userId); [|exact HI].
    destruct (celebration_delete id s) as [s'|e] eqn:Ed; [|exact HI].
    now apply (celebration_delete_integrity id s).
Qed.

(** *** The notification service *)

Lemma UserKept_ids (l l' : list User) :
  Forall2 UserKept l l' -> map user_id l' = map user_id l.
Proof.
  induction 1 as [|u u' l l' Hu _ IH]; [reflexivity|]. cbn [map].
  destruct Hu as (E & _). now rewrite E, IH.
Qed.

Lemma pass_integrity tz isExpoPushToken behave now s :
  Integrity s ->
  Integrity (pass_store (processDueReminders tz isExpoPushToken behave now s)).
Proof.
  intros [H1 H2 H3 H4 H5 H6 H7 H8 H9 H10].
  destruct (pass_shape tz isExpoPushToken behave now s) as (Hs & _).
  pose proof (fold_tokens tz isExpoPushToken behave now (dueReminders s now)
                (mkPass s 0 [])) as (T1 & T2 & T3 & T4 & T5 & T6 & T7).
  fold (processDueReminders tz isExpoPushToken behave now s) in T1, T2, T3, T4,
    T5, T6, T7.
  cbn [pass_store] in T1, T2, T3, T4, T5, T6, T7.
  apply UserKept_ids in T7.
  set (s' := pass_store (processDueReminders tz isExpoPushToken behave now s)) in *.
  assert (Hfk : forall r, reminder_userId (markAll (okIds behave (dueReminders s now))
                                            now r) = reminder_userId r /\
                          reminder_celebrationId
                            (markAll (okIds behave (dueReminders s now)) now r)
                          = reminder_celebrationId r /\
                          reminder_eventId
                            (markAll (okIds behave (dueReminders s now)) now r)
                          = reminder_eventId r).
  { intros r. unfold markAll. now destruct (existsb _ _). }
  split; rewrite ?T1, ?T2, ?T3, ?T4, ?T5, ?T6, ?Hs.
  - intros r x Hr Hx. rewrite T7. now apply (H1 r).
  - exact H2.
  - exact H3.
  - exact H4.
  - intros r x Hr Hx. rewrite T7. now apply (H5 r).
  - exact H6.
  - exact H7.
  - intros r x Hr Hx. rewrite T7. apply in_map_iff in Hr as (r0 & <- & Hr0).
    apply (H8 r0); [exact Hr0|]. rewrite <- Hx. f_equal. symmetry. apply Hfk.
  - apply refers_map; [apply Hfk | exact H9].
  - apply refers_map; [apply Hfk | exact H10].
Qed.

(** X24. The notification service leaves no dangling reference: both
    schedulers and the processing pass keep every foreign key of the store,
    whatever their arguments and whatever fails on the way, if the store
    they find has none dangling. *)
Theorem notifications_integrity (s : Store) (HI : Integrity s) :
  (forall tz newIds userId celebrationId date offsets,
     Integrity (snd (scheduleCelebrationReminders tz newIds s userId
                       celebrationId date offsets))) /\
  (forall tz newIds userId eventId datetime,
     Integrity (snd (scheduleEventReminders tz newIds s userId eventId datetime))) /\
  (forall tz isExpoPushToken behave now,
     Integrity (pass_store (processDueReminders tz isExpoPushToken behave now s))).
Proof.
  split; [|split]; intros.
  - now apply scheduleCelebration_integrity.
  - now apply scheduleEvent_integrity.
  - now apply pass_integrity.
Qed.

(** *** POST then DELETE *)

Lemma createCelebration_created tz newId newIds s userId body c s1 :
  createCelebration tz newId newIds s userId body = (Created c, s1) ->
  exists p date rows,
    person_findFirst s (cb_personId body) userId = Some p /\
    cb_date body = Some date /\
    c = mkCelebration newId (cb_personId body) (cb_type body) (cb_title body)
          date (storedRule body) (cb_reminderOffsets body) /\
    s1 = mkStore (users s) (people s) (identities s) (addresses s)
           (celebrations s ++ [c]) (events s) (eventGuests s)
           (filter (fun r => negb (reminderOf newId r)) (scheduledReminders s)
            ++ rows) /\
    Forall (fun r => reminderOf newId r = true) rows.
Proof.
  unfold createCelebration. fold (storedRule body).
  destruct (_ && _); [discriminate|].
  destruct (person_findFirst s (cb_personId body) userId) as [p|]; [|discriminate].
  destruct (cb_date body) as [date|]; [|discriminate].
  cbn [celebration_id celebration_date reminderOffsets].
  unfold scheduleCelebrationReminders.
  match goal with
  | |- context [scheduledReminder_createMany ?a ?b ?c] =>
      destruct (createMany_shape a b c) as [[Hne Hs]|(rows & E & Hf & _)]
  end.
  - destruct (scheduledReminder_createMany _ _ _) as [[[]|e] s2];
      cbn [fst snd] in *; [congruence | discriminate].
  - rewrite E. intros [= <- <-].
    exists p, date, rows. split; [reflexivity|]. split; [reflexivity|].
    split; [reflexivity|]. split; [reflexivity|].
    clear - Hf. remember (map _ (cb_reminderOffsets body)) as data eqn:Ed.
    assert (Hd : Forall (fun d => new_celebrationId d = Some newId) data).
    { subst data. apply Forall_forall. intros d Hd.
      apply in_map_iff in Hd as (n & <- & _). reflexivity. }
    clear Ed. induction Hf as [|d r data rows Hr _ IH]; constructor.
    + destruct Hr as (_ & Hc & _). inversion Hd; subst.
      unfold reminderOf. rewrite Hc. cbn [optEqb].
      match goal with H : new_celebrationId d = _ |- _ => rewrite H end.
      apply String.eqb_refl.
    + apply IH. now inversion Hd.
Qed.

(** X25. DELETE undoes POST: when POST / answers 201 for an id that no
    celebration of the store carries, a DELETE for that id by the same user
    answers 200 and gives back the store as it was before the POST - the
    celebration and every reminder scheduled for it are gone, and nothing
    else has changed.  In between, the celebration is one the user can
    address. *)
Theorem delete_undoes_create tz newId newIds s userId body c s1
    (HI : Integrity s)
    (Hfresh : ~ In newId (map celebration_id (celebrations s)))
    (Hrun : createCelebration tz newId newIds s userId body = (Created c, s1)) :
  celebration_findFirst s1 newId userId = Some c /\
  deleteCelebration s1 userId newId = (Success, s).
Proof.
  apply createCelebration_created in Hrun
    as (p & date & rows & Hp & Hdate & Hc & -> & Hrows).
  assert (Hold : forall c0, In c0 (celebrations s) ->
                   String.eqb (celebration_id c0) newId = false).
  { intros c0 H0. apply eqb_neq_false. intros E. apply Hfresh.
    rewrite <- E. now apply in_map. }
  assert (Hid : celebration_id c = newId) by (now subst c).
  assert (Hfind : celebration_findFirst
                    (mkStore (users s) (people s) (identities s) (addresses s)
                       (celebrations s ++ [c]) (events s) (eventGuests s)
                       (filter (fun r => negb (reminderOf newId r))
                               (scheduledReminders s) ++ rows))
                    newId userId = Some c).
  { unfold celebration_findFirst. cbn [celebrations people].
    induction (celebrations s) as [|c0 l IH]; cbn [app find].
    - rewrite Hid, String.eqb_refl. cbn [andb].
      assert (Ho : existsb (fun q => String.eqb (person_id q) (celebration_personId c) &&
                                     String.eqb (person_userId q) userId) (people s)
                   = true).
      { unfold person_findFirst in Hp. apply find_some in Hp as [Hin H].
        apply existsb_exists. exists p. split; [exact Hin|]. now subst c. }
      now rewrite Ho.
    - rewrite (Hold c0) by now left. cbn [andb]. apply IH.
      + intros E. apply Hfresh. now right.
      + intros c1 H1. apply Hold. now right. }
  split; [exact Hfind|].
  unfold deleteCelebration. rewrite Hfind. unfold celebration_delete.
  cbn [celebrations users people identities addresses events eventGuests
       scheduledReminders].
  assert (Hex : existsb (fun c0 => String.eqb (celebration_id c0) newId)
                  (celebrations s ++ [c]) = true).
  { rewrite existsb_app. cbn [existsb]. rewrite Hid, String.eqb_refl.
    now rewrite orb_true_r. }
  rewrite Hex. f_equal.
  assert (Hcs : filter (fun c0 => negb (String.eqb (celebration_id c0) newId))
                  (celebrations s ++ [c]) = celebrations s).
  { rewrite filter_app. cbn [filter]. rewrite Hid, String.eqb_refl. cbn [negb].
    rewrite app_nil_r. apply filter_keeps_all. intros c0 H0.
    now rewrite (Hold c0 H0). }
  assert (Hrs : filter (fun r => negb (reminderOf newId r))
                  (filter (fun r => negb (reminderOf newId r))
                          (scheduledReminders s) ++ rows)
                = scheduledReminders s).
  { rewrite filter_app.
    rewrite (filter_drops_all _ rows).
    2: { rewrite Forall_forall in Hrows. intros r Hr. now rewrite (Hrows r Hr). }
    rewrite app_nil_r.
    assert (Hkeep : forall r, In r (scheduledReminders s) ->
                      negb (reminderOf newId r) = true).
    { intros r Hr. unfold reminderOf.
      destruct (reminder_celebrationId r) as [x|] eqn:Ex; [|reflexivity].
      cbn [optEqb]. apply negb_true_iff, eqb_neq_false. intros ->.
      apply Hfresh. exact (reminders_celebrationId s HI r newId Hr Ex). }
    rewrite (filter_keeps_all _ (scheduledReminders s) Hkeep).
    apply filter_keeps_all. exact Hkeep. }
  rewrite Hcs, Hrs. now destruct s.
Qed.

(** A second celebration for Ann's double, created and deleted again. *)
Definition graduationOfB : CreateBody :=
  mkCreateBody "B" LIFE_EVENT (Some "Graduation") (Some (utcDate 2026 6 1)) None
    [7; 0]%Z.

Lemma celebration_routes_integrity_witness :
  Integrity (snd (createCelebration 0 "c2" firstIds storeAB "u1" graduationOfB)) /\
  Integrity (snd (deleteCelebration storeAB "u1" "c1")) /\
  scheduledReminders (snd (deleteCelebration storeAB "u1" "c1")) = [].
Proof.
  destruct (celebration_routes_integrity storeAB
              (integrityb_sound storeAB eq_refl)) as (H1 & _ & H3).
  split; [apply H1|]. split; [apply H3 | reflexivity].
Defined.

Lemma notifications_integrity_witness :
  Integrity (snd (scheduleEventReminders 0 firstIds storeAB "u1" "e1"
                    1767290400000)) /\
  Integrity (snd (scheduleEventReminders 0 firstIds storeAB "u1" "e404"
                    1767290400000)) /\
  Integrity (pass_store (processDueReminders 0 isToken expoDown 1767290400000
                           storeAB)).
Proof.
  destruct (notifications_integrity storeAB (integrityb_sound storeAB eq_refl))
    as (_ & H2 & H3).
  split; [apply H2|]. split; [apply H2 | apply H3].
Defined.

Lemma delete_undoes_create_witness :
  exists c s1,
    createCelebration 0 "c2" firstIds storeAB "u1" graduationOfB = (Created c, s1) /\
    List.length (scheduledReminders s1) = 3%nat /\
    deleteCelebration s1 "u1" "c2" = (Success, storeAB).
Proof.
  eexists. eexists. split; [vm_compute; reflexivity|].
  split; [reflexivity|].
  refine (proj2 (delete_undoes_create 0 "c2" firstIds storeAB "u1" graduationOfB
                   _ _ (integrityb_sound storeAB eq_refl) _ _)).
  - simpl. intuition discriminate.
  - vm_compute. reflexivity.
Defined.

End RouteFacts.

(** ** When a reminder is due *)

Module DueFacts.
Import Prisma Push JSDate Notifications DateFacts ScheduleFacts.
Local Open Scope Z_scope.
Local Open Scope list_scope.

(** When the reminder for offset [n] becomes due. *)
Lemma reminder_due (tz : Z) (userId celebrationId : Id) (date n now : Z)
    (r : ScheduledReminder) :
  ReminderFor tz userId celebrationId date n r ->
  isDue now r =
  (MakeDate (Day (LocalTime tz date) - n) (9 * msPerHour) <=? LocalTime tz now).
Proof.
  intros (_ & _ & _ & Hs & _ & Hd & Ht). unfold isDue. rewrite Hs. cbn [negb andb].
  pose proof (MakeDate_Day (LocalTime tz (scheduledFor r))) as H.
  rewrite Hd, Ht in H.
  destruct (Z.leb_spec (scheduledFor r) now);
    [symmetry; apply Z.leb_le | symmetry; apply Z.leb_gt];
    rewrite H; unfold LocalTime; lia.
Qed.

(** X26. Reminders are scheduled against the stored date of the
    celebration, not against its next occurrence: the reminder for offset
    [n] is due from 09:00 local time of the day [n] days before that date.
    So for a celebration whose date lies on an earlier local day than the
    clock - a date of birth, say - every reminder with an offset of zero or
    more days is due at once: it is among the rows the next pass selects
    from. *)
Theorem past_date_reminders_are_due
    (tz : Z) (newIds : nat -> Id) (s : Store) (userId celebrationId : Id)
    (date : Z) (offsets : list Z) (now : Z)
    (Huser : In userId (map user_id (users s)))
    (Hcel : In celebrationId (map celebration_id (celebrations s)))
    (Hrange : Forall (InRange date) offsets) :
  exists s' rows,
    scheduleCelebrationReminders tz newIds s userId celebrationId date offsets
      = (Ok tt, s') /\
    filter (reminderOf celebrationId) (scheduledReminders s') = rows /\
    Forall2 (fun n r =>
               isDue now r =
               (MakeDate (Day (LocalTime tz date) - n) (9 * msPerHour)
                <=? LocalTime tz now)) offsets rows /\
    (Forall (fun n => 0 <= n) offsets ->
     Day (LocalTime tz date) < Day (LocalTime tz now) ->
     Forall (fun r => isDue now r = true) rows /\
     incl rows (filter (isDue now) (scheduledReminders s'))).
Proof.
  destruct (schedule_replaces tz newIds s userId celebrationId date offsets
              Huser Hcel Hrange)
    as (s' & rows & Hrun & _ & Hmine & _ & Hall & _).
  exists s', rows. split; [exact Hrun|]. split; [exact Hmine|].
  assert (Hdue : Forall2 (fun n r =>
             isDue now r =
             (MakeDate (Day (LocalTime tz date) - n) (9 * msPerHour)
              <=? LocalTime tz now)) offsets rows).
  { clear - Hall. induction Hall as [|n r ns rs Hr _ IH]; constructor;
      [now apply (reminder_due tz userId celebrationId) | exact IH]. }
  split; [exact Hdue|].
  intros Hoff Hpast.
  assert (Hrows : Forall (fun r => isDue now r = true) rows).
  { clear - Hdue Hoff Hpast. induction Hdue as [|n r ns rs Hr _ IH];
      constructor; inversion Hoff; subst; [|now apply IH].
    rewrite Hr. apply Z.leb_le.
    pose proof (MakeDate_Day (LocalTime tz now)) as Hn.
    pose proof (TimeWithinDay_range (LocalTime tz now)) as Ht.
    unfold MakeDate, msPerHour, msPerDay in *. lia. }
  split; [exact Hrows|].
  intros r Hr. apply filter_In. split.
  - rewrite <- Hmine in Hr. now apply filter_In in Hr.
  - rewrite Forall_forall in Hrows. now apply Hrows.
Qed.

Lemma past_date_reminders_are_due_witness :
  exists s',
    scheduleCelebrationReminders 0 firstIds birthdayStore "u1" "c1"
      (utcDate 2020 3 15) [7; 1; 0] = (Ok tt, s') /\
    List.length (filter (isDue (utcDate 2025 1 1)) (scheduledReminders s')) = 4%nat.
Proof.
  assert (Hu : In "u1"%string (map user_id (users birthdayStore)))
    by (left; reflexivity).
  assert (Hc : In "c1"%string (map celebration_id (celebrations birthdayStore)))
    by (left; reflexivity).
  assert (Hr : Forall (InRange (utcDate 2020 3 15)) [7; 1; 0])
    by (repeat constructor; vm_compute; discriminate).
  destruct (past_date_reminders_are_due 0 firstIds birthdayStore "u1" "c1"
              (utcDate 2020 3 15) [7; 1; 0] (utcDate 2025 1 1) Hu Hc Hr)
    as (s' & rows & Hrun & _).
  exists s'. split; [exact Hrun|].
  vm_compute in Hrun. inversion Hrun; subst. vm_compute. reflexivity.
Defined.

End DueFacts.

(** ** Blocked contacts *)

Module SafetyFacts.
Import Prisma Dedup Normalize Encryption Safety.

(** Two rows carry the same email when they belong to one user and hold
    the same email, null and the empty string apart. *)
Definition SameEmail (b c : BlockedContact) : Prop :=
  blocked_userId b = blocked_userId c /\
  exists v, truthy (blockedEmail b) = Some v /\ blockedEmail c = Some v.

(** No row carries the email of a later one. *)
Definition Distinct (table : list BlockedContact) : Prop :=
  ForallOrdPairs (fun b c => ~ SameEmail b c) table.

Lemma distinct_app (table : list BlockedContact) (row : BlockedContact) :
  Distinct table -> (forall b, In b table -> ~ SameEmail b row) ->
  Distinct (table ++ [row]).
Proof.
  unfold Distinct. induction 1 as [|b l Hb Hl IH]; intros Hrow; simpl.
  - constructor; constructor.
  - constructor.
    + apply Forall_app. split; [exact Hb|].
      constructor; [|constructor]. apply Hrow. now left.
    + apply IH. intros c Hc. apply Hrow. now right.
Qed.

Lemma distinct_filter (f : BlockedContact -> bool) (table : list BlockedContact) :
  Distinct table -> Distinct (filter f table).
Proof.
  unfold Distinct. induction 1 as [|b l Hb Hl IH]; simpl; [constructor|].
  destruct (f b); [|exact IH].
  constructor; [|exact IH].
  rewrite Forall_forall in *. intros c Hc. apply filter_In in Hc.
  apply Hb, Hc.
Qed.

Lemma orMember_same (column key : option string) (v : string) :
  truthy column = Some v -> key = Some v -> orMember column key = true.
Proof.
  intros Hc ->. unfold orMember.
  assert (Hcol : column = Some v /\ truthy (Some v) = Some v).
  { destruct column as [[|a w]|]; simpl in Hc; try discriminate.
    inversion Hc; subst. now split. }
  destruct Hcol as [-> ->]. simpl. apply String.eqb_refl.
Qed.

Lemma findFirst_none (table : list BlockedContact) (userId : Id)
    (phoneKey emailKey : option string) (row : BlockedContact) :
  blockedContact_findFirst table userId phoneKey emailKey = None ->
  blocked_userId row = userId -> blockedEmail row = emailKey ->
  forall b, In b table -> ~ SameEmail b row.
Proof.
  intros Hnone Hu He b Hb [Huser [v [Hv Hrow]]].
  pose proof (find_none _ _ Hnone b Hb) as Hf. cbv beta in Hf.
  rewrite Huser, Hu, String.eqb_refl in Hf. simpl in Hf.
  apply orb_false_iff in Hf. destruct Hf as [_ Hf2].
  rewrite (orMember_same _ _ v Hv) in Hf2; [discriminate|congruence].
Qed.

Lemma find_none_all {A} (f : A -> bool) (l : list A) :
  (forall x, In x l -> f x = false) -> find f l = None.
Proof.
  induction l as [|a l IH]; intros H; simpl; [reflexivity|].
  rewrite (H a (or_introl eq_refl)). apply IH. intros x Hx. apply H. now right.
Qed.

Lemma find_appended (table : list BlockedContact) (b : BlockedContact)
    (id userId : Id) :
  ~ In id (map blocked_id table) ->
  blocked_id b = id -> blocked_userId b = userId ->
  find (fun c => String.eqb (blocked_id c) id &&
                 String.eqb (blocked_userId c) userId) (table ++ [b]) = Some b.
Proof.
  intros Hfresh Hib Hub. induction table as [|c l IH]; simpl.
  - now rewrite Hib, Hub, !String.eqb_refl.
  - destruct (String.eqb_spec (blocked_id c) id) as [E|E].
    + exfalso. apply Hfresh. left. exact E.
    + simpl. apply IH. intros Hl. apply Hfresh. now right.
Qed.

Lemma filter_fresh (table : list BlockedContact) (id : Id) :
  ~ In id (map blocked_id table) ->
  filter (fun b => negb (String.eqb (blocked_id b) id)) table = table.
Proof.
  intros Hfresh. induction table as [|c l IH]; simpl; [reflexivity|].
  destruct (String.eqb_spec (blocked_id c) id) as [E|E].
  - exfalso. apply Hfresh. left. exact E.
  - simpl. f_equal. apply IH. intros Hl. apply Hfresh. now right.
Qed.

Lemma unblock_appended (table : list BlockedContact) (row : BlockedContact)
    (userId : Id) :
  ~ In (blocked_id row) (map blocked_id table) ->
  blocked_userId row = userId ->
  unblockContact (table ++ [row]) userId (blocked_id row) = (Success, table).
Proof.
  intros Hfresh Hu. unfold unblockContact.
  rewrite (find_appended table row (blocked_id row) userId Hfresh eq_refl Hu).
  unfold blockedContact_delete.
  assert (Hex : existsb (fun c => String.eqb (blocked_id c) (blocked_id row))
                        (table ++ [row]) = true).
  { apply existsb_exists. exists row.
    split; [apply in_or_app; right; now left | apply String.eqb_refl]. }
  rewrite Hex. f_equal.
  rewrite filter_app. cbn [filter]. rewrite String.eqb_refl. cbn [negb].
  rewrite app_nil_r. now apply filter_fresh.
Qed.

Lemma normalizePhone_truthy (raw : string) :
  truthy (Some (normalizePhone raw)) = Some (normalizePhone raw).
Proof.
  destruct (PhoneFacts.normalizePhone_plus raw) as [rest ->]. reflexivity.
Qed.

Section Server.
Variable toLowerCase : string -> string.
Variable trim : string -> string.
Variable aesEncrypt : string -> string -> string.
Variable aesDecrypt : string -> string.

(** The normalized phone as the middleware stores it. *)
Lemma encryptField_phone (salt raw : string) :
  encryptField aesEncrypt salt (Some (normalizePhone raw))
  = Some (aesEncrypt salt (normalizePhone raw)).
Proof.
  destruct (PhoneFacts.normalizePhone_plus raw) as [rest ->]. reflexivity.
Qed.

(** The row POST /block stores for a request. *)
Definition stored (newId : Id) (salt : string) (userId : Id) (body : BlockBody)
    : BlockedContact :=
  mkBlockedContact newId userId
    (option_map (fun raw => aesEncrypt salt (normalizePhone raw))
                (truthy (bb_phone body)))
    (option_map (normalizeEmail toLowerCase trim) (truthy (bb_email body)))
    (bb_reason body).

(** What POST /block does, by reply. *)
Lemma blockContact_cases (newId : Id) (salt : string) (s : Store)
    (table : list BlockedContact) (userId : Id) (body : BlockBody) :
  let out :=
    blockContact toLowerCase trim aesEncrypt aesDecrypt newId salt s table
                 userId body in
  let row := stored newId salt userId body in
  match fst out with
  | Created b =>
      b = decryptBlocked aesDecrypt row /\ snd out = (table ++ [row])%list /\
      In userId (map user_id (users s)) /\
      blockedContact_findFirst table userId
        (option_map normalizePhone (truthy (bb_phone body)))
        (blockedEmail row) = None
  | _ => snd out = table
  end.
Proof.
  cbv zeta. unfold blockContact, stored.
  set (pk := option_map normalizePhone (truthy (bb_phone body))).
  set (ek := option_map (normalizeEmail toLowerCase trim) (truthy (bb_email body))).
  assert (Hrow : encryptBlocked aesEncrypt salt
                   (mkBlockedContact newId userId pk ek (bb_reason body))
                 = mkBlockedContact newId userId
                     (option_map (fun raw => aesEncrypt salt (normalizePhone raw))
                                 (truthy (bb_phone body)))
                     ek (bb_reason body)).
  { unfold encryptBlocked, pk. cbn [blocked_id blocked_userId blockedPhone
                                    blockedEmail blocked_reason].
    f_equal. destruct (truthy (bb_phone body)) as [raw|]; [|reflexivity].
    cbn [option_map]. apply encryptField_phone. }
  rewrite Hrow.
  set (row := mkBlockedContact newId userId _ ek (bb_reason body)).
  assert (Hmain :
    match fst (match blockedContact_findFirst table userId pk ek with
               | Some _ => (BadRequest "Contact already blocked", table)
               | None =>
                   match blockedContact_create s row table with
                   | Ok table' => (Created (decryptBlocked aesDecrypt row), table')
                   | Err e => (Failed e, table)
                   end
               end) with
    | Created b =>
        b = decryptBlocked aesDecrypt row /\
        snd (match blockedContact_findFirst table userId pk ek with
             | Some _ => (BadRequest "Contact already blocked", table)
             | None =>
                 match blockedContact_create s row table with
                 | Ok table' => (Created (decryptBlocked aesDecrypt row), table')
                 | Err e => (Failed e, table)
                 end
             end)
        = (table ++ [row])%list /\
        In userId (map user_id (users s)) /\
        blockedContact_findFirst table userId pk ek = None
    | _ =>
        snd (match blockedContact_findFirst table userId pk ek with
             | Some _ => (BadRequest "Contact already blocked", table)
             | None =>
                 match blockedContact_create s row table with
                 | Ok table' => (Created (decryptBlocked aesDecrypt row), table')
                 | Err e => (Failed e, table)
                 end
             end) = table
    end).
  { destruct (blockedContact_findFirst table userId pk ek) eqn:Ef;
      [reflexivity|].
    unfold blockedContact_create. cbn [blocked_userId row].
    destruct (existsb _ (users s)) eqn:Eu; cbn [fst snd]; [|reflexivity].
    repeat split.
    apply existsb_exists in Eu. destruct Eu as [u [Hu Heq]].
    apply String.eqb_eq in Heq. subst userId. now apply in_map. }
  destruct (truthy (bb_phone body)), (truthy (bb_email body));
    try exact Hmain.
  reflexivity.
Qed.

(** X27. The block list of a user never holds the same email twice, and
    unblocking undoes blocking.  If no two rows of one user carry the same
    non-empty email, that is still so after POST /block and after DELETE
    /block/:id, whatever they are sent.  A 201 appends exactly one row, of
    the requesting user - who exists -, with the email in its normalized
    form and the phone as the ciphertext, under the salt drawn, of its
    normalized form; the row carries the email of no earlier row of the
    user; the reply is the row as the middleware decrypts it; and when no
    row carried the new id, a DELETE of it by the same user answers 200 and
    gives the table back.  A 200 removes the rows with the given id, one of
    which was a row of the requesting user; every other reply leaves the
    table as it was. *)
Theorem block_routes_keep_emails_distinct (s : Store)
    (table : list BlockedContact) (userId : Id) (HD : Distinct table) :
  (forall newId salt body,
     let out :=
       blockContact toLowerCase trim aesEncrypt aesDecrypt newId salt s table
                    userId body in
     Distinct (snd out) /\
     match fst out with
     | Created b =>
         exists row,
           snd out = (table ++ [row])%list /\
           b = decryptBlocked aesDecrypt row /\
           blocked_id row = newId /\ blocked_userId row = userId /\
           In userId (map user_id (users s)) /\
           blockedPhone row =
             option_map (fun raw => aesEncrypt salt (normalizePhone raw))
                        (truthy (bb_phone body)) /\
           blockedEmail row =
             option_map (normalizeEmail toLowerCase trim)
                        (truthy (bb_email body)) /\
           (forall c, In c table -> ~ SameEmail c row) /\
           (~ In newId (map blocked_id table) ->
            unblockContact (snd out) userId newId = (Success, table))
     | _ => snd out = table
     end) /\
  (forall id,
     let out := unblockContact table userId id in
     Distinct (snd out) /\
     match fst out with
     | Success =>
         snd out = filter (fun b => negb (String.eqb (blocked_id b) id)) table /\
         exists b, In b table /\ blocked_id b = id /\ blocked_userId b = userId
     | _ => snd out = table
     end).
Proof.
  split.
  - intros newId salt body. cbv zeta.
    pose proof (blockContact_cases newId salt s table userId body) as H.
    cbv zeta in H.
    destruct (fst (blockContact toLowerCase trim aesEncrypt aesDecrypt newId
                     salt s table userId body))
      as [b| | | |] eqn:Er;
      try (rewrite H; split; [exact HD|reflexivity]).
    destruct H as [Hb [Hs [Hu Hnone]]].
    assert (Hclash : forall c, In c table ->
                       ~ SameEmail c (stored newId salt userId body)).
    { now apply (findFirst_none table userId _ _ _ Hnone). }
    rewrite Hs. split; [now apply distinct_app|].
    exists (stored newId salt userId body).
    split; [reflexivity|]. split; [exact Hb|]. split; [reflexivity|].
    split; [reflexivity|]. split; [exact Hu|]. split; [reflexivity|].
    split; [reflexivity|]. split; [exact Hclash|].
    intros Hfresh.
    now apply (unblock_appended table (stored newId salt userId body)).
  - intros id. cbv zeta. unfold unblockContact.
    destruct (find _ table) as [b|] eqn:Ef; [|split; [exact HD|reflexivity]].
    apply find_some in Ef. destruct Ef as [Hin Hb].
    apply andb_true_iff in Hb. destruct Hb as [Hid Hu].
    apply String.eqb_eq in Hid, Hu.
    unfold blockedContact_delete.
    destruct (existsb _ table) eqn:Ee; cbn [fst snd].
    + split; [now apply distinct_filter|].
      split; [reflexivity|]. now exists b.
    + split; [exact HD|reflexivity].
Qed.

(** The phones of the rows of a user are ciphertexts of CryptoJS: strings
    that start with the Base64 of [Salted__].  So it is for every row that
    POST /block has written. *)
Definition Encrypted (table : list BlockedContact) (userId : Id) : Prop :=
  forall b v, In b table -> blocked_userId b = userId ->
    blockedPhone b = Some v -> String.prefix "U2FsdGVkX1" v = true.

Lemma salted_no_phone (v raw : string) :
  String.prefix "U2FsdGVkX1" v = true -> v <> normalizePhone raw.
Proof.
  destruct (PhoneFacts.normalizePhone_plus raw) as [rest ->].
  intros H ->. discriminate H.
Qed.

(** CryptoJS writes a ciphertext in the OpenSSL format: the Base64 of
    [Salted__], of the salt and of the encrypted bytes. *)
Hypothesis aesEncrypt_salted :
  forall salt v, String.prefix "U2FsdGVkX1" (aesEncrypt salt v) = true.

Lemma phone_block_created (newId : Id) (salt : string) (s : Store)
    (table : list BlockedContact) (userId : Id) (raw : string)
    (reason : option string) :
  In userId (map user_id (users s)) -> Encrypted table userId ->
  raw <> EmptyString ->
  let row :=
    mkBlockedContact newId userId (Some (aesEncrypt salt (normalizePhone raw)))
                     None reason in
  blockContact toLowerCase trim aesEncrypt aesDecrypt newId salt s table userId
               (mkBlockBody (Some raw) None reason)
  = (Created (decryptBlocked aesDecrypt row), (table ++ [row])%list) /\
  Encrypted (table ++ [row]) userId.
Proof.
  intros Huser Henc Hraw. cbv zeta.
  assert (Htr : truthy (Some raw) = Some raw).
  { destruct raw; [now elim Hraw | reflexivity]. }
  split.
  - unfold blockContact. cbn [bb_phone bb_email bb_reason]. rewrite Htr.
    cbn [truthy option_map].
    assert (Hnone : blockedContact_findFirst table userId
                      (Some (normalizePhone raw)) None = None).
    { unfold blockedContact_findFirst.
      apply find_none_all. intros b Hb.
      destruct (String.eqb_spec (blocked_userId b) userId) as [Hu|Hu];
        [|reflexivity].
      cbn [andb].
      assert (Hp : orMember (blockedPhone b) (Some (normalizePhone raw))
                   = false).
      { unfold orMember. rewrite normalizePhone_truthy.
        destruct (blockedPhone b) as [v|] eqn:Ev; [|reflexivity].
        cbn [optEqb]. apply String.eqb_neq.
        apply salted_no_phone. now apply (Henc b v). }
      assert (He : orMember (blockedEmail b) None = false) by reflexivity.
      now rewrite Hp, He. }
    rewrite Hnone. unfold encryptBlocked.
    cbn [blocked_id blocked_userId blockedPhone blockedEmail blocked_reason].
    rewrite encryptField_phone.
    unfold blockedContact_create. cbn [blocked_userId].
    assert (Hex : existsb (fun u => String.eqb (user_id u) userId) (users s)
                  = true).
    { apply in_map_iff in Huser. destruct Huser as [u [Hu Hin]].
      apply existsb_exists. exists u. split; [exact Hin|].
      rewrite Hu. apply String.eqb_refl. }
    now rewrite Hex.
  - intros b v Hb Hu Hv. apply in_app_or in Hb. destruct Hb as [Hb|[<-|[]]].
    + now apply (Henc b v).
    + cbn [blockedPhone] in Hv. inversion Hv. apply aesEncrypt_salted.
Qed.

(** X28. The already-blocked check never recognises a phone.  POST /block
    stores the phone as a ciphertext and compares the normalized number of
    the next request with what is stored.  So, for a user of the store none
    of whose rows holds a phone in the clear - as is the case when POST
    /block wrote them -, a request that carries a phone and no email is
    answered with 201 whatever the table holds, and it leaves a table of
    which the same is true: the same request again is answered with 201
    again, and the phone is blocked twice.  (CryptoJS writes ciphertexts
    that start with the Base64 of [Salted__]; a normalized number starts
    with a plus sign.) *)
Theorem blocked_phone_is_not_recognised (newId : Id) (salt : string) (s : Store)
    (table : list BlockedContact) (userId : Id) (raw : string)
    (reason : option string)
    (Huser : In userId (map user_id (users s)))
    (Henc : Encrypted table userId)
    (Hraw : raw <> EmptyString) :
  let body := mkBlockBody (Some raw) None reason in
  let row :=
    mkBlockedContact newId userId (Some (aesEncrypt salt (normalizePhone raw)))
                     None reason in
  blockContact toLowerCase trim aesEncrypt aesDecrypt newId salt s table userId
               body
  = (Created (decryptBlocked aesDecrypt row), (table ++ [row])%list) /\
  Encrypted (table ++ [row]) userId /\
  forall newId' salt',
    let row' :=
      mkBlockedContact newId' userId
        (Some (aesEncrypt salt' (normalizePhone raw))) None reason in
    blockContact toLowerCase trim aesEncrypt aesDecrypt newId' salt' s
                 (table ++ [row]) userId body
    = (Created (decryptBlocked aesDecrypt row'),
       ((table ++ [row]) ++ [row'])%list).
Proof.
  cbv zeta.
  destruct (phone_block_created newId salt s table userId raw reason
              Huser Henc Hraw) as [H1 H2].
  split; [exact H1|]. split; [exact H2|].
  intros newId' salt'.
  exact (proj1 (phone_block_created newId' salt' s _ userId raw reason
                  Huser H2 Hraw)).
Qed.

End Server.

(** A user who has blocked one contact by email; another user has blocked
    the same address.  The cipher stands in for AES with the format of
    CryptoJS. *)
Definition asWritten (x : string) : string := x.

Definition salted (salt value : string) : string :=
  ("U2FsdGVkX1" ++ salt ++ value)%string.

Definition oneUser : Store :=
  mkStore [mkUser "u1" "ann@example.org" true None None] [] [] [] [] [] [] [].

Definition blockedBefore : list BlockedContact :=
  [mkBlockedContact "k1" "u1" None (Some "spam@example.org") None;
   mkBlockedContact "k2" "u2" None (Some "spam@example.org") (Some "spam")].

Lemma blockedBefore_distinct : Distinct blockedBefore.
Proof.
  unfold Distinct, blockedBefore.
  constructor; [|constructor; constructor].
  constructor; [|constructor].
  intros [Hu _]. discriminate.
Qed.

Lemma block_routes_keep_emails_distinct_witness :
  Distinct blockedBefore /\
  Distinct (snd (blockContact asWritten asWritten salted asWritten "k3" "c2FsdA"
                   oneUser blockedBefore "u1"
                   (mkBlockBody (Some "(555) 123-4567")
                                (Some "other@example.org") None))).
Proof.
  split; [exact blockedBefore_distinct|].
  exact (proj1 (proj1 (block_routes_keep_emails_distinct asWritten asWritten
                         salted asWritten oneUser blockedBefore "u1"
                         blockedBefore_distinct)
                  "k3" "c2FsdA"
                  (mkBlockBody (Some "(555) 123-4567")
                               (Some "other@example.org") None))).
Defined.

Lemma salted_salted (salt v : string) :
  String.prefix "U2FsdGVkX1" (salted salt v) = true.
Proof. unfold salted. cbn. now destruct (salt ++ v)%string. Qed.

Lemma blockedBefore_encrypted : Encrypted blockedBefore "u1".
Proof.
  intros b v [<-|[<-|[]]] _ H; discriminate H.
Qed.

Lemma blocked_phone_is_not_recognised_witness :
  In "u1"%string (map user_id (users oneUser)) /\
  Encrypted blockedBefore "u1" /\
  exists table1 table2 b1 b2,
    blockContact asWritten asWritten salted asWritten "k3" "c2FsdA" oneUser
      blockedBefore "u1" (mkBlockBody (Some "(555) 123-4567") None None)
    = (Created b1, table1) /\
    blockContact asWritten asWritten salted asWritten "k4" "cGVwcGVy" oneUser
      table1 "u1" (mkBlockBody (Some "(555) 123-4567") None None)
    = (Created b2, table2) /\
    List.length table2 = 4%nat.
Proof.
  assert (Hu : In "u1"%string (map user_id (users oneUser)))
    by (left; reflexivity).
  split; [exact Hu|]. split; [exact blockedBefore_encrypted|].
  pose proof (blocked_phone_is_not_recognised asWritten asWritten salted
                asWritten salted_salted "k3" "c2FsdA" oneUser blockedBefore
                "u1" "(555) 123-4567" None Hu blockedBefore_encrypted
                ltac:(discriminate)) as H.
  cbv zeta in H. destruct H as [H1 [_ H2]].
  eexists. eexists. eexists. eexists.
  split; [exact H1|]. split; [exact (H2 "k4" "cGVwcGVy")|]. reflexivity.
Defined.

End SafetyFacts.

(** ** Rate limits *)

Module RateLimitFacts.
Import JSDate RateLimit.

Local Open Scope Z_scope.
Local Open Scope list_scope.

(** *** The map *)

Lemma getEntry_setEntry (m : Limits) (k k' : string) (v : Entry) :
  getEntry (setEntry m k v) k' = if String.eqb k k' then Some v else getEntry m k'.
Proof.
  induction m as [|[k0 v0] m IH]; simpl; [reflexivity|].
  destruct (String.eqb_spec k0 k) as [->|Hk]; simpl.
  - now destruct (String.eqb k k').
  - rewrite IH.
    destruct (String.eqb_spec k0 k') as [->|Hk'];
      destruct (String.eqb_spec k k') as [->|Hkk]; try reflexivity.
    now elim Hk.
Qed.

Lemma setEntry_keys (m : Limits) (k : string) (v : Entry) (x : string) :
  In x (map fst (setEntry m k v)) -> x = k \/ In x (map fst m).
Proof.
  induction m as [|[k0 v0] m IH]; simpl.
  - intros [H|[]]. now left.
  - destruct (String.eqb_spec k0 k) as [->|Hk]; simpl.
    + intros [H|H]; [now left|right; now right].
    + intros [H|H]; [right; now left|].
      destruct (IH H) as [E|E]; [now left|right; now right].
Qed.

Lemma setEntry_NoDup (m : Limits) (k : string) (v : Entry) :
  NoDup (map fst m) -> NoDup (map fst (setEntry m k v)).
Proof.
  induction m as [|[k0 v0] m IH]; simpl; intros H.
  - constructor; [intros []|constructor].
  - inversion H as [|? ? Hnot Hrest]; subst.
    destruct (String.eqb_spec k0 k) as [->|Hk]; simpl.
    + now constructor.
    + constructor; [|now apply IH].
      intros Hin. destruct (setEntry_keys _ _ _ _ Hin) as [E|E];
        [now elim Hk|now elim Hnot].
Qed.

Lemma getEntry_absent (m : Limits) (k : string) :
  ~ In k (map fst m) -> getEntry m k = None.
Proof.
  induction m as [|[k0 v0] m IH]; simpl; intros H; [reflexivity|].
  destruct (String.eqb_spec k0 k) as [->|Hk].
  - elim H. now left.
  - apply IH. intros Hin. apply H. now right.
Qed.

Lemma filter_keys (f : string * Entry -> bool) (m : Limits) (x : string) :
  In x (map fst (filter f m)) -> In x (map fst m).
Proof.
  intros H. apply in_map_iff in H. destruct H as [kv [E Hin]].
  apply filter_In in Hin. apply in_map_iff. exists kv. now split.
Qed.

Lemma filter_NoDup (f : string * Entry -> bool) (m : Limits) :
  NoDup (map fst m) -> NoDup (map fst (filter f m)).
Proof.
  induction m as [|[k0 v0] m IH]; simpl; intros H; [constructor|].
  inversion H as [|? ? Hnot Hrest]; subst.
  destruct (f (k0, v0)); simpl; [|now apply IH].
  constructor; [|now apply IH].
  intros Hin. apply Hnot. now apply filter_keys in Hin.
Qed.

Lemma getEntry_filter (f : string * Entry -> bool) (m : Limits) (k : string) :
  NoDup (map fst m) ->
  getEntry (filter f m) k =
    match getEntry m k with
    | Some e => if f (k, e) then Some e else None
    | None => None
    end.
Proof.
  induction m as [|[k0 v0] m IH]; simpl; intros H; [reflexivity|].
  inversion H as [|? ? Hnot Hrest]; subst.
  destruct (String.eqb_spec k0 k) as [->|Hk].
  - destruct (f (k, v0)) eqn:Ef; simpl.
    + now rewrite String.eqb_refl.
    + apply getEntry_absent. intros Hin. apply Hnot.
      now apply filter_keys in Hin.
  - destruct (f (k0, v0)); simpl.
    + destruct (String.eqb_spec k0 k) as [E|_]; [now elim Hk|]. now apply IH.
    + now apply IH.
Qed.

(** Without unique keys: an entry that is kept is still found, a key that
    was absent stays absent. *)
Lemma getEntry_filter_kept (f : string * Entry -> bool) (m : Limits) (k : string)
    (e : Entry) :
  getEntry m k = Some e -> f (k, e) = true -> getEntry (filter f m) k = Some e.
Proof.
  induction m as [|[k0 v0] m IH]; simpl; [discriminate|].
  destruct (String.eqb_spec k0 k) as [->|Hk].
  - intros H Hf. inversion H; subst. rewrite Hf. simpl.
    now rewrite String.eqb_refl.
  - intros H Hf. destruct (f (k0, v0)); simpl.
    + destruct (String.eqb_spec k0 k) as [E|_]; [now elim Hk|]. now apply IH.
    + now apply IH.
Qed.

Lemma getEntry_filter_absent (f : string * Entry -> bool) (m : Limits)
    (k : string) :
  getEntry m k = None -> getEntry (filter f m) k = None.
Proof.
  induction m as [|[k0 v0] m IH]; simpl; [reflexivity|].
  destruct (String.eqb_spec k0 k) as [->|Hk]; [discriminate|].
  intros H. destruct (f (k0, v0)); simpl.
  - destruct (String.eqb_spec k0 k) as [E|_]; [now elim Hk|]. now apply IH.
  - now apply IH.
Qed.

(** *** The hour of a reading *)

Definition hourOf (tz t : Z) : Z := t - (t + tz) mod msPerHour.

Lemma hour_arith (x : Z) :
  x / 86400000 * 86400000 + ((x / 3600000) mod 24 * 3600000 + 0 * 60000 + 0 * 1000 + 0)
  = x - x mod 3600000.
Proof.
  replace (x / 86400000) with (x / 3600000 / 24)
    by (rewrite Z.div_div by lia; reflexivity).
  pose proof (Z.div_mod (x / 3600000) 24 ltac:(lia)).
  pose proof (Z.div_mod x 3600000 ltac:(lia)).
  lia.
Qed.

Lemma getHourWindow_unfold (tz t : Z) :
  getHourWindow tz t = TimeClip (hourOf tz t).
Proof.
  unfold getHourWindow, setMinutes, hourOf, UTC, LocalTime, MakeDate, MakeTime,
    Day, HourFromTime, msPerDay, msPerHour, msPerMinute, msPerSecond.
  rewrite hour_arith. f_equal. lia.
Qed.

Lemma hourOf_bounds (tz t : Z) : t - msPerHour < hourOf tz t <= t.
Proof.
  unfold hourOf, msPerHour.
  pose proof (Z.mod_pos_bound (t + tz) 3600000 ltac:(lia)). lia.
Qed.

Lemma hourOf_mono (tz t t' : Z) : t <= t' -> hourOf tz t <= hourOf tz t'.
Proof.
  intros H. unfold hourOf, msPerHour.
  pose proof (Z.div_mod (t + tz) 3600000 ltac:(lia)).
  pose proof (Z.div_mod (t' + tz) 3600000 ltac:(lia)).
  pose proof (Z.div_le_mono (t + tz) (t' + tz) 3600000 ltac:(lia) ltac:(lia)).
  lia.
Qed.

Lemma getHourWindow_some (tz t w : Z) :
  getHourWindow tz t = Some w -> w = hourOf tz t.
Proof.
  rewrite getHourWindow_unfold. unfold TimeClip.
  destruct (_ <=? _); [|discriminate]. now intros [= <-].
Qed.

(** A reading an hour inside the range of time values. *)
Definition InHours (t : Z) : Prop := Z.abs t + msPerHour <= maxTime.

Lemma getHourWindow_inside (tz t : Z) :
  InHours t -> getHourWindow tz t = Some (hourOf tz t).
Proof.
  intros H. rewrite getHourWindow_unfold. unfold TimeClip.
  pose proof (hourOf_bounds tz t) as Hb. unfold InHours in H.
  destruct (Z.leb_spec (Z.abs (hourOf tz t)) maxTime) as [_|Hgt];
    [reflexivity|].
  exfalso. unfold msPerHour, maxTime in *. lia.
Qed.

Lemma sameNumber_some (a b : Z) : sameNumber (Some a) (Some b) = (a =? b).
Proof. reflexivity. Qed.

(** *** Histories *)

(** A call on the plugin, with what the clock reads during it. *)
Inductive Call :=
  | CheckLogin (ip : string) (clock1 clock2 : Z)
  | RecordFailedLogin (ip : string) (clock : Z)
  | CheckRegistration (ip : string) (clock1 clock2 : Z)
  | CleanUp (clock : Z).

(** The readings of a call, in order.  A registration reads the clock a
    second time only for a refusal; for an allowed one [clock2] stands for
    any instant of the call. *)
Definition readings (c : Call) : list Z :=
  match c with
  | CheckLogin _ t1 t2 => [t1; t2]
  | RecordFailedLogin _ t => [t]
  | CheckRegistration _ t1 t2 => [t1; t2]
  | CleanUp t => [t]
  end.

Definition times (cs : list Call) : list Z := flat_map readings cs.

Section Plugin.
Variable tz : Z.

Definition step (m : Limits) (c : Call) : option Verdict * Limits :=
  match c with
  | CheckLogin ip t1 t2 =>
      (Some (fst (checkLoginRateLimit tz m ip t1 t2)),
       snd (checkLoginRateLimit tz m ip t1 t2))
  | RecordFailedLogin ip t => (None, recordFailedLogin tz m ip t)
  | CheckRegistration ip t1 t2 =>
      (Some (fst (checkRegistrationRateLimit tz m ip t1 t2)),
       snd (checkRegistrationRateLimit tz m ip t1 t2))
  | CleanUp t => (None, cleanUp m t)
  end.

(** The calls of a history made one after the other on the map [m]: each
    call with its answer, and the map they leave. *)
Fixpoint run (m : Limits) (cs : list Call)
    : list (Call * option Verdict) * Limits :=
  match cs with
  | [] => ([], m)
  | c :: rest =>
      ((c, fst (step m c)) :: fst (run (snd (step m c)) rest),
       snd (run (snd (step m c)) rest))
  end.

(** An allowed registration from [ip] in the hour that starts at [w]. *)
Definition registered (ip : string) (w : Z) (x : Call * option Verdict) : bool :=
  match x with
  | (CheckRegistration ip' t1 _, Some Allowed) =>
      String.eqb ip' ip && sameNumber (getHourWindow tz t1) (Some w)
  | _ => false
  end.

Definition registrations (ip : string) (w : Z)
    (log : list (Call * option Verdict)) : Z :=
  Z.of_nat (List.length (filter (registered ip w) log)).

(** The failed logins recorded for [ip]. *)
Definition failed (ip : string) (c : Call) : bool :=
  match c with
  | RecordFailedLogin ip' _ => String.eqb ip' ip
  | _ => false
  end.

Definition failures (ip : string) (cs : list Call) : Z :=
  Z.of_nat (List.length (filter (failed ip) cs)).

(** Readings that never go back, from [T] on. *)
Fixpoint Chrono (T : Z) (ts : list Z) : Prop :=
  match ts with
  | [] => True
  | t :: rest => T <= t /\ Chrono t rest
  end.

Lemma Chrono_app (T : Z) (a b : list Z) :
  Chrono T (a ++ b) <-> Chrono T a /\ Chrono (last a T) b.
Proof.
  revert T. induction a as [|t a IH]; intros T; simpl.
  - tauto.
  - rewrite IH. assert (E : last (t :: a) T = last a t).
    { clear. revert t. induction a as [|u a IH]; intros t; [reflexivity|].
      simpl in *. destruct a; [reflexivity|]. apply IH. }
    simpl in E. rewrite E. tauto.
Qed.

Lemma Chrono_last (T : Z) (ts : list Z) : Chrono T ts -> T <= last ts T.
Proof.
  revert T. induction ts as [|t ts IH]; intros T; simpl; [lia|].
  intros [H1 H2]. specialize (IH t H2).
  destruct ts; [exact H1|].
  assert (E : last (z :: ts) T = last (z :: ts) t).
  { clear. revert z. induction ts as [|u ts IH]; intros z; [reflexivity|].
    simpl in *. apply IH. }
  rewrite E. lia.
Qed.

Lemma Sorted_Chrono (t : Z) (ts : list Z) :
  Sorted Z.le (t :: ts) -> Chrono t ts.
Proof.
  revert t. induction ts as [|u ts IH]; intros t H; simpl; [exact I|].
  inversion H as [|? ? Hs Hh]; subst. inversion Hh; subst.
  split; [assumption|]. now apply IH.
Qed.

(** *** Keys *)

Lemma login_register (a b : string) :
  ("login:" ++ a)%string <> ("register:" ++ b)%string.
Proof. discriminate. Qed.

Lemma register_inj (a b : string) :
  ("register:" ++ a)%string = ("register:" ++ b)%string -> a = b.
Proof. now intros [= ->]. Qed.

Lemma login_inj (a b : string) :
  ("login:" ++ a)%string = ("login:" ++ b)%string -> a = b.
Proof. now intros [= ->]. Qed.

Lemma countUp_other (m : Limits) (k k' : string) (h : option Z) :
  k <> k' -> getEntry (countUp m k h) k' = getEntry m k'.
Proof.
  intros Hk. apply String.eqb_neq in Hk. unfold countUp.
  destruct (getEntry m k) as [e|]; [destruct (sameNumber _ _)|];
    now rewrite getEntry_setEntry, Hk.
Qed.

Lemma countUp_NoDup (m : Limits) (k : string) (h : option Z) :
  NoDup (map fst m) -> NoDup (map fst (countUp m k h)).
Proof.
  intros H. unfold countUp.
  destruct (getEntry m k) as [e|]; [destruct (sameNumber _ _)|];
    now apply setEntry_NoDup.
Qed.

Lemma checkLogin_other (m : Limits) (ip : string) (t1 t2 : Z) (k : string) :
  ("login:" ++ ip)%string <> k ->
  getEntry (snd (checkLoginRateLimit tz m ip t1 t2)) k = getEntry m k.
Proof.
  intros Hk. apply String.eqb_neq in Hk. unfold checkLoginRateLimit.
  destruct (getEntry m _) as [e|]; [|reflexivity].
  destruct (lockedAt e t2); [reflexivity|].
  destruct (_ && _); [|reflexivity].
  cbn [snd]. now rewrite getEntry_setEntry, Hk.
Qed.

Lemma checkLogin_NoDup (m : Limits) (ip : string) (t1 t2 : Z) :
  NoDup (map fst m) ->
  NoDup (map fst (snd (checkLoginRateLimit tz m ip t1 t2))).
Proof.
  intros H. unfold checkLoginRateLimit.
  destruct (getEntry m _) as [e|]; [|exact H].
  destruct (lockedAt e t2); [exact H|].
  destruct (_ && _); [|exact H].
  cbn [snd]. now apply setEntry_NoDup.
Qed.

Lemma checkRegistration_other (m : Limits) (ip : string) (t1 t2 : Z)
    (k : string) :
  ("register:" ++ ip)%string <> k ->
  getEntry (snd (checkRegistrationRateLimit tz m ip t1 t2)) k = getEntry m k.
Proof.
  intros Hk. unfold checkRegistrationRateLimit.
  destruct (match getEntry m _ with Some _ => _ | None => _ end);
    [reflexivity|].
  cbn [snd]. now apply countUp_other.
Qed.

Lemma checkRegistration_NoDup (m : Limits) (ip : string) (t1 t2 : Z) :
  NoDup (map fst m) ->
  NoDup (map fst (snd (checkRegistrationRateLimit tz m ip t1 t2))).
Proof.
  intros H. unfold checkRegistrationRateLimit.
  destruct (match getEntry m _ with Some _ => _ | None => _ end);
    [exact H|].
  cbn [snd]. now apply countUp_NoDup.
Qed.

Lemma step_NoDup (m : Limits) (c : Call) :
  NoDup (map fst m) -> NoDup (map fst (snd (step m c))).
Proof.
  intros H. destruct c as [ip t1 t2|ip t|ip t1 t2|t]; cbn [step snd].
  - now apply checkLogin_NoDup.
  - now apply countUp_NoDup.
  - now apply checkRegistration_NoDup.
  - now apply filter_NoDup.
Qed.

Lemma last_app2 (a b : list Z) (d : Z) : last (a ++ b) d = last b (last a d).
Proof.
  revert d. induction a as [|t a IH]; intros d; [reflexivity|].
  assert (E : forall l x, last (t :: l) x = last l t).
  { clear. intros l. revert t. induction l as [|u l IH]; intros t x;
      [reflexivity|]. simpl in *. destruct l; [reflexivity|]. apply IH. }
  change ((t :: a) ++ b) with (t :: (a ++ b)). rewrite !E. apply IH.
Qed.

Lemma Sorted_Chrono_any (ts : list Z) :
  Sorted Z.le ts -> exists T, Chrono T ts.
Proof.
  destruct ts as [|t ts]; intros H; [now exists 0|].
  exists t. split; [lia|]. now apply Sorted_Chrono.
Qed.

(** *** Registrations *)

Definition registerKey (ip : string) : string := ("register:" ++ ip)%string.

(** What the map holds against [ip] for the hour that starts at [w]. *)
Definition tally (ip : string) (m : Limits) (w : Z) : Z :=
  match getEntry m (registerKey ip) with
  | Some e => if sameNumber (windowStart e) (Some w) then count e else 0
  | None => 0
  end.

(** After a history whose last reading is [T]: the entry of [ip] is of an
    hour that has begun, the map counts the registrations of every hour that
    can still come, and no hour has seen more than the limit. *)
Record Counted (ip : string) (T : Z) (m : Limits)
    (log : list (Call * option Verdict)) : Prop := mkCounted {
  counted_keys : NoDup (map fst m);
  counted_past : forall e, getEntry m (registerKey ip) = Some e ->
                   exists we, windowStart e = Some we /\ we <= hourOf tz T;
  counted_now : forall w, hourOf tz T <= w ->
                  registrations ip w log = tally ip m w;
  counted_cap : forall w, registrations ip w log <= registrationsPerHour }.

Lemma registrations_snoc (ip : string) (w : Z)
    (log : list (Call * option Verdict)) (x : Call * option Verdict) :
  registrations ip w (log ++ [x]) =
  registrations ip w log + (if registered ip w x then 1 else 0).
Proof.
  unfold registrations. rewrite filter_app, length_app. cbn [filter].
  destruct (registered ip w x); cbn [List.length]; lia.
Qed.

Lemma counted_start (ip : string) (T : Z) : Counted ip T [] [].
Proof.
  constructor.
  - constructor.
  - discriminate.
  - reflexivity.
  - intros w. unfold registrations, registrationsPerHour. simpl. lia.
Qed.

(** A call that leaves the entry of [ip] alone and is no registration of
    [ip]. *)
Lemma counted_aside (ip : string) (T T' : Z) (m m' : Limits)
    (log : list (Call * option Verdict)) (x : Call * option Verdict) :
  Counted ip T m log -> T <= T' ->
  NoDup (map fst m') ->
  getEntry m' (registerKey ip) = getEntry m (registerKey ip) ->
  (forall w, registered ip w x = false) ->
  Counted ip T' m' (log ++ [x]).
Proof.
  intros [Hk Hp Hn Hc] HT Hk' Hget Hx.
  pose proof (hourOf_mono tz T T' HT) as Hh.
  constructor.
  - exact Hk'.
  - intros e He. rewrite Hget in He. destruct (Hp e He) as [we [E1 E2]].
    exists we. split; [exact E1|lia].
  - intros w Hw. rewrite registrations_snoc, Hx, Z.add_0_r.
    unfold tally. rewrite Hget. apply Hn. lia.
  - intros w. rewrite registrations_snoc, Hx, Z.add_0_r. apply Hc.
Qed.

Lemma registered_other (ip ip' : string) (t1 t2 : Z) (v : option Verdict)
    (w : Z) :
  ip' <> ip -> registered ip w (CheckRegistration ip' t1 t2, v) = false.
Proof.
  intros H. apply String.eqb_neq in H. unfold registered. rewrite H.
  now destruct v as [[|]|].
Qed.

Lemma checkRegistration_cases (m : Limits) (ip : string) (t1 t2 : Z) :
  InHours t1 ->
  let full :=
    match getEntry m (registerKey ip) with
    | Some e => sameNumber (windowStart e) (Some (hourOf tz t1)) &&
                (registrationsPerHour <=? count e)
    | None => false
    end in
  checkRegistrationRateLimit tz m ip t1 t2 =
    if full then (TooMany (60 - MinFromTime (LocalTime tz t2)), m)
    else (Allowed, countUp m (registerKey ip) (Some (hourOf tz t1))).
Proof.
  intros H. cbv zeta. unfold checkRegistrationRateLimit.
  now rewrite (getHourWindow_inside tz t1 H).
Qed.

Lemma counted_registration (ip : string) (T : Z) (m : Limits)
    (log : list (Call * option Verdict)) (t1 t2 : Z) :
  Counted ip T m log -> T <= t1 -> t1 <= t2 -> InHours t1 ->
  Counted ip t2 (snd (checkRegistrationRateLimit tz m ip t1 t2))
    (log ++ [(CheckRegistration ip t1 t2,
              Some (fst (checkRegistrationRateLimit tz m ip t1 t2)))]).
Proof.
  intros HC H1 H2 Hin.
  pose proof (hourOf_mono tz T t1 H1) as Hh1.
  pose proof (hourOf_mono tz t1 t2 H2) as Hh2.
  rewrite (checkRegistration_cases m ip t1 t2 Hin). cbv zeta.
  assert (Hreg : forall w,
            registered ip w (CheckRegistration ip t1 t2, Some Allowed)
            = (hourOf tz t1 =? w)).
  { intros w. unfold registered.
    now rewrite String.eqb_refl, (getHourWindow_inside tz t1 Hin). }
  destruct (match getEntry m (registerKey ip) with
            | Some e => _ | None => false end) eqn:Efull.
  - (* refused *)
    cbn [fst snd]. apply (counted_aside ip T t2 m m); try assumption.
    + lia.
    + now destruct HC.
    + reflexivity.
    + reflexivity.
  - (* allowed *)
    cbn [fst snd].
    destruct HC as [Hk Hp Hn Hc].
    assert (Hnew : forall e',
              countUp m (registerKey ip) (Some (hourOf tz t1))
              = setEntry m (registerKey ip) e' ->
              windowStart e' = Some (hourOf tz t1) ->
              registrations ip (hourOf tz t1) log + 1 = count e' ->
              count e' <= registrationsPerHour ->
              (forall w, hourOf tz t2 <= w -> w <> hourOf tz t1 ->
                         registrations ip w log = 0) ->
              Counted ip t2 (countUp m (registerKey ip) (Some (hourOf tz t1)))
                (log ++ [(CheckRegistration ip t1 t2, Some Allowed)])).
    { intros e' Eup Ew Ecount Ecap Hzero. rewrite Eup. constructor.
      - now apply setEntry_NoDup.
      - intros e He. rewrite getEntry_setEntry, String.eqb_refl in He.
        inversion He; subst e. exists (hourOf tz t1). split; [exact Ew|lia].
      - intros w Hw. rewrite registrations_snoc, Hreg.
        unfold tally. rewrite getEntry_setEntry, String.eqb_refl, Ew, sameNumber_some.
        destruct (Z.eqb_spec (hourOf tz t1) w) as [<-|Hne].
        + exact Ecount.
        + rewrite Hzero; [reflexivity|exact Hw|congruence].
      - intros w. rewrite registrations_snoc, Hreg.
        destruct (Z.eqb_spec (hourOf tz t1) w) as [<-|Hne].
        + lia.
        + rewrite Z.add_0_r. apply Hc. }
    unfold countUp in *.
    destruct (getEntry m (registerKey ip)) as [e|] eqn:Em.
    + destruct (Hp e eq_refl) as [we [Ewe Hle]].
      rewrite Ewe, sameNumber_some in *.
      destruct (Z.eqb_spec we (hourOf tz t1)) as [Esame|Ediff].
      * (* one more in the hour of the entry *)
        cbn [andb] in Efull. apply Z.leb_gt in Efull.
        pose proof (Hn (hourOf tz t1) Hh1) as Hcount.
        unfold tally in Hcount.
        rewrite Em, Ewe, sameNumber_some, Esame, Z.eqb_refl in Hcount.
        apply (Hnew _ eq_refl); cbn [windowStart count].
        -- now rewrite Esame.
        -- lia.
        -- lia.
        -- intros w Hw Hne. rewrite (Hn w ltac:(lia)). unfold tally.
           rewrite Em, Ewe, sameNumber_some.
           destruct (Z.eqb_spec we w); [congruence|reflexivity].
      * (* the first of a new hour *)
        pose proof (Hn (hourOf tz t1) Hh1) as Hcount.
        unfold tally in Hcount. rewrite Em, Ewe, sameNumber_some in Hcount.
        destruct (Z.eqb_spec we (hourOf tz t1)) as [E|_]; [now elim Ediff|].
        apply (Hnew _ eq_refl); cbn [windowStart count].
        -- reflexivity.
        -- lia.
        -- unfold registrationsPerHour. lia.
        -- intros w Hw Hne. rewrite (Hn w ltac:(lia)). unfold tally.
           rewrite Em, Ewe, sameNumber_some.
           destruct (Z.eqb_spec we w); [lia|reflexivity].
    + pose proof (Hn (hourOf tz t1) Hh1) as Hcount.
      unfold tally in Hcount. rewrite Em in Hcount.
      apply (Hnew _ eq_refl); cbn [windowStart count].
      * reflexivity.
      * lia.
      * unfold registrationsPerHour. lia.
      * intros w Hw Hne. rewrite (Hn w ltac:(lia)). unfold tally.
        now rewrite Em.
Qed.

Lemma counted_cleanUp (ip : string) (T : Z) (m : Limits)
    (log : list (Call * option Verdict)) (t : Z) :
  Counted ip T m log -> T <= t ->
  Counted ip t (cleanUp m t) (log ++ [(CleanUp t, None)]).
Proof.
  intros [Hk Hp Hn Hc] HT.
  pose proof (hourOf_mono tz T t HT) as Hh.
  pose proof (hourOf_bounds tz t) as Hb.
  assert (Hget := getEntry_filter
                    (fun kv : string * Entry =>
                       negb match windowStart (snd kv) with
                            | Some w => 2 * 60 * 60 * 1000 <? t - w
                            | None => false
                            end) m (registerKey ip) Hk).
  fold (cleanUp m t) in Hget. cbn [snd] in Hget.
  constructor.
  - now apply filter_NoDup.
  - intros e He. rewrite Hget in He.
    destruct (getEntry m (registerKey ip)) as [e0|] eqn:Em; [|discriminate].
    destruct (negb _); [|discriminate]. inversion He; subst e0.
    destruct (Hp e eq_refl) as [we [E1 E2]]. exists we. split; [exact E1|lia].
  - intros w Hw. rewrite registrations_snoc. cbn [registered].
    rewrite Z.add_0_r, (Hn w ltac:(lia)). unfold tally. rewrite Hget.
    destruct (getEntry m (registerKey ip)) as [e|] eqn:Em; [|reflexivity].
    destruct (Hp e eq_refl) as [we [E1 E2]]. rewrite E1.
    destruct (Z.ltb_spec (2 * 60 * 60 * 1000) (t - we)) as [Hold|Hyoung];
      cbn [negb]; [|now rewrite E1].
    rewrite sameNumber_some.
    destruct (Z.eqb_spec we w) as [->|_]; [|reflexivity].
    exfalso. unfold msPerHour in Hb. lia.
  - intros w. rewrite registrations_snoc. cbn [registered].
    rewrite Z.add_0_r. apply Hc.
Qed.

Lemma counted_step (ip : string) (T : Z) (m : Limits)
    (log : list (Call * option Verdict)) (c : Call) :
  Counted ip T m log -> Chrono T (readings c) -> Forall InHours (readings c) ->
  Counted ip (last (readings c) T) (snd (step m c))
    (log ++ [(c, fst (step m c))]).
Proof.
  intros HC Hchrono Hin.
  destruct c as [ip' t1 t2|ip' t|ip' t1 t2|t]; cbn [readings last step fst snd];
    cbn [readings Chrono] in Hchrono.
  - destruct Hchrono as [H1 [H2 _]].
    apply (counted_aside ip T t2 m); try assumption.
    + lia.
    + apply checkLogin_NoDup. now destruct HC.
    + apply checkLogin_other. apply login_register.
    + reflexivity.
  - destruct Hchrono as [H1 _].
    apply (counted_aside ip T t m); try assumption.
    + apply countUp_NoDup. now destruct HC.
    + apply countUp_other. apply login_register.
    + reflexivity.
  - destruct Hchrono as [H1 [H2 _]].
    destruct (String.eqb_spec ip' ip) as [->|Hip].
    + apply (counted_registration ip T); try assumption.
      now inversion Hin.
    + apply (counted_aside ip T t2 m); try assumption.
      * lia.
      * apply checkRegistration_NoDup. now destruct HC.
      * apply checkRegistration_other. unfold registerKey.
        intros E. apply register_inj in E. now elim Hip.
      * intros w. now apply registered_other.
  - destruct Hchrono as [H1 _]. now apply (counted_cleanUp ip T).
Qed.

Lemma counted_run (ip : string) (cs : list Call) :
  forall (T : Z) (m : Limits) (log : list (Call * option Verdict)),
  Counted ip T m log -> Chrono T (times cs) -> Forall InHours (times cs) ->
  Counted ip (last (times cs) T) (snd (run m cs)) (log ++ fst (run m cs)).
Proof.
  induction cs as [|c cs IH]; intros T m log HC Hchrono Hin.
  - cbn [times flat_map last run fst snd]. now rewrite app_nil_r.
  - change (times (c :: cs)) with (readings c ++ times cs) in *.
    apply Chrono_app in Hchrono. destruct Hchrono as [Hc1 Hc2].
    apply Forall_app in Hin. destruct Hin as [Hi1 Hi2].
    rewrite last_app2. cbn [run fst snd].
    change ((c, fst (step m c)) :: fst (run (snd (step m c)) cs))
      with ([(c, fst (step m c))] ++ fst (run (snd (step m c)) cs)).
    rewrite app_assoc.
    apply IH; [|assumption|assumption].
    now apply counted_step.
Qed.

Lemma times_app (a b : list Call) : times (a ++ b) = times a ++ times b.
Proof. apply flat_map_app. Qed.

(** X29. No address registers more than five times in an hour, as long
    as the clock never goes back.  In a history of calls on the plugin that
    starts with the empty map - checks and failures of logins, checks of
    registrations, runs of the timer, for any addresses, in any order -
    whose readings of the clock never decrease (and lie an hour inside the
    range of time values): a registration from an address is allowed
    exactly when fewer than five registrations from that address were
    allowed before it in the same hour of the clock; so no address is
    allowed more than five in any hour. *)
Theorem registrations_per_hour (history : list Call) (ip : string)
    (Hrange : Forall InHours (times history))
    (Hclock : Sorted Z.le (times history)) :
  (forall before t1 t2 rest w,
     history = before ++ CheckRegistration ip t1 t2 :: rest ->
     getHourWindow tz t1 = Some w ->
     (fst (checkRegistrationRateLimit tz (snd (run [] before)) ip t1 t2)
      = Allowed <->
      registrations ip w (fst (run [] before)) < registrationsPerHour)) /\
  (forall w, registrations ip w (fst (run [] history)) <= registrationsPerHour).
Proof.
  destruct (Sorted_Chrono_any _ Hclock) as [T0 Hchrono].
  split.
  - intros before t1 t2 rest w -> Hw.
    rewrite times_app in Hchrono, Hrange.
    apply Chrono_app in Hchrono. destruct Hchrono as [Hc1 Hc2].
    apply Forall_app in Hrange. destruct Hrange as [Hr1 Hr2].
    pose proof (counted_run ip before T0 [] [] (counted_start ip T0) Hc1 Hr1)
      as HC.
    cbn [app] in HC.
    change (times (CheckRegistration ip t1 t2 :: rest))
      with (t1 :: t2 :: times rest) in Hc2, Hr2.
    destruct Hc2 as [HT _]. inversion Hr2 as [|? ? Hin _]; subst.
    apply getHourWindow_some in Hw. subst w.
    rewrite (checkRegistration_cases _ ip t1 t2 Hin). cbv zeta.
    destruct HC as [Hk Hp Hn Hc].
    rewrite (Hn (hourOf tz t1) (hourOf_mono tz _ _ HT)). unfold tally.
    destruct (getEntry (snd (run [] before)) (registerKey ip)) as [e|];
      [|unfold registrationsPerHour; cbn [fst]; split; [lia|reflexivity]].
    destruct (sameNumber (windowStart e) (Some (hourOf tz t1))); cbn [andb].
    + destruct (Z.leb_spec registrationsPerHour (count e)); cbn [fst].
      * split; [discriminate|lia].
      * split; [lia|reflexivity].
    + cbn [fst]. unfold registrationsPerHour. split; [lia|reflexivity].
  - intros w.
    pose proof (counted_run ip history T0 [] [] (counted_start ip T0)
                  Hchrono Hrange) as HC.
    cbn [app] in HC. now destruct HC.
Qed.

(** *** Logins *)

Definition loginKey (ip : string) : string := ("login:" ++ ip)%string.

(** Within the hour that starts at [w], after [k] failures of [ip]: the
    map holds no entry for [ip] before the first, and then an entry of this
    hour that counts them and is not locked before the tenth. *)
Definition Tracked (ip : string) (w k : Z) (m : Limits) : Prop :=
  match getEntry m (loginKey ip) with
  | None => k = 0
  | Some e =>
      windowStart e = Some w /\ count e = k /\ 1 <= k /\
      (k < loginAttemptsPerHour -> lockedUntil e = None)
  end.

Lemma failures_cons (ip : string) (c : Call) (cs : list Call) :
  failures ip (c :: cs) = (if failed ip c then 1 else 0) + failures ip cs.
Proof.
  unfold failures. cbn [filter].
  destruct (failed ip c); cbn [List.length]; lia.
Qed.

Lemma tracked_aside (ip : string) (w k : Z) (m m' : Limits) :
  Tracked ip w k m -> getEntry m' (loginKey ip) = getEntry m (loginKey ip) ->
  Tracked ip w (k + 0) m'.
Proof. intros H E. unfold Tracked in *. now rewrite E, Z.add_0_r. Qed.

Lemma tracked_step (ip : string) (w k : Z) (m : Limits) (c : Call) :
  Tracked ip w k m ->
  Forall (fun t => getHourWindow tz t = Some w) (readings c) ->
  Tracked ip w (k + (if failed ip c then 1 else 0)) (snd (step m c)).
Proof.
  intros HT Hin.
  destruct c as [ip' t1 t2|ip' t|ip' t1 t2|t]; cbn [readings step snd failed] in *.
  - (* a check *)
    destruct (String.eqb_spec ip' ip) as [->|Hip].
    + inversion Hin as [|? ? Hw1 _]; subst.
      unfold checkLoginRateLimit. fold (loginKey ip).
      unfold Tracked in HT.
      destruct (getEntry m (loginKey ip)) as [e|] eqn:Em;
        [|apply (tracked_aside ip w k m); [unfold Tracked; now rewrite Em|reflexivity]].
      destruct (lockedAt e t2);
        [apply (tracked_aside ip w k m); [unfold Tracked; now rewrite Em|reflexivity]|].
      destruct (sameNumber _ _ && _) eqn:Efull;
        [|apply (tracked_aside ip w k m); [unfold Tracked; now rewrite Em|reflexivity]].
      cbn [snd]. unfold Tracked.
      rewrite getEntry_setEntry, String.eqb_refl. cbn [windowStart count lockedUntil].
      destruct HT as [H1 [H2 [H3 H4]]].
      apply andb_true_iff in Efull. destruct Efull as [_ Hfull].
      apply Z.leb_le in Hfull.
      repeat split; try assumption; try lia.
    + apply (tracked_aside ip w k m _ HT). apply checkLogin_other.
      intros E. apply login_inj in E. now elim Hip.
  - (* a failure *)
    unfold recordFailedLogin.
    destruct (String.eqb_spec ip' ip) as [->|Hip].
    + inversion Hin as [|? ? Hw1 _]; subst. rewrite Hw1.
      fold (loginKey ip). unfold countUp, Tracked in *.
      destruct (getEntry m (loginKey ip)) as [e|] eqn:Em.
      * destruct HT as [H1 [H2 [H3 H4]]].
        rewrite H1, sameNumber_some, Z.eqb_refl.
        rewrite getEntry_setEntry, String.eqb_refl.
        cbn [windowStart count lockedUntil].
        repeat split; try lia. intros Hlt. apply H4. lia.
      * subst k. rewrite getEntry_setEntry, String.eqb_refl.
        cbn [windowStart count lockedUntil]. repeat split; lia.
    + apply (tracked_aside ip w k m _ HT). apply countUp_other.
      intros E. apply login_inj in E. now elim Hip.
  - (* a registration *)
    apply (tracked_aside ip w k m _ HT). apply checkRegistration_other.
    intros E. symmetry in E. now apply login_register in E.
  - (* the timer *)
    inversion Hin as [|? ? Hw1 _]; subst.
    apply getHourWindow_some in Hw1.
    pose proof (hourOf_bounds tz t) as Hb.
    unfold Tracked in *. rewrite Z.add_0_r.
    destruct (getEntry m (loginKey ip)) as [e|] eqn:Em.
    + unfold cleanUp. rewrite (getEntry_filter_kept _ m _ e Em); [exact HT|].
      cbn [snd]. destruct HT as [H1 _]. rewrite H1.
      destruct (Z.ltb_spec (2 * 60 * 60 * 1000) (t - w)); [|reflexivity].
      exfalso. unfold msPerHour in Hb. lia.
    + unfold cleanUp. now rewrite (getEntry_filter_absent _ m _ Em).
Qed.

Lemma tracked_run (ip : string) (w : Z) (cs : list Call) :
  forall (k : Z) (m : Limits),
  Tracked ip w k m ->
  Forall (fun t => getHourWindow tz t = Some w) (times cs) ->
  Tracked ip w (k + failures ip cs) (snd (run m cs)).
Proof.
  induction cs as [|c cs IH]; intros k m HT Hin.
  - unfold failures. cbn [filter List.length run snd]. now rewrite Z.add_0_r.
  - change (times (c :: cs)) with (readings c ++ times cs) in Hin.
    apply Forall_app in Hin. destruct Hin as [Hi1 Hi2].
    rewrite failures_cons, Z.add_assoc. cbn [run snd].
    apply IH; [|exact Hi2]. now apply tracked_step.
Qed.

(** X30. Ten failures lock an address out for the rest of the hour.  In a
    history of calls on the plugin that starts with the empty map and whose
    readings of the clock all fall in one hour: a login from an address is
    let through exactly when fewer than ten failed logins of that address
    were recorded before it - whatever else happened in between, the
    timer, logins that succeeded and checks that were refused included. *)
Theorem ten_failures_lock (history : list Call) (ip : string) (w : Z)
    (Hhour : Forall (fun t => getHourWindow tz t = Some w) (times history)) :
  forall before t1 t2 rest,
    history = before ++ CheckLogin ip t1 t2 :: rest ->
    (fst (checkLoginRateLimit tz (snd (run [] before)) ip t1 t2) = Allowed <->
     failures ip before < loginAttemptsPerHour).
Proof.
  intros before t1 t2 rest ->.
  rewrite times_app in Hhour. apply Forall_app in Hhour.
  destruct Hhour as [Hb Hc].
  change (times (CheckLogin ip t1 t2 :: rest)) with (t1 :: t2 :: times rest) in Hc.
  inversion Hc as [|? ? Hw1 _]; subst.
  assert (H0 : Tracked ip w 0 []) by reflexivity.
  pose proof (tracked_run ip w before 0 [] H0 Hb) as HT.
  rewrite Z.add_0_l in HT. unfold Tracked in HT.
  unfold checkLoginRateLimit. fold (loginKey ip). rewrite Hw1.
  destruct (getEntry (snd (run [] before)) (loginKey ip)) as [e|].
  - destruct HT as [H1 [H2 [H3 H4]]].
    destruct (Z.lt_ge_cases (failures ip before) loginAttemptsPerHour)
      as [Hlt|Hge].
    + unfold lockedAt. rewrite (H4 Hlt), H1, sameNumber_some, Z.eqb_refl.
      cbn [andb]. destruct (Z.leb_spec loginAttemptsPerHour (count e));
        [lia|]. cbn [fst]. now split.
    + destruct (lockedAt e t2); cbn [fst]; [split; [discriminate|lia]|].
      rewrite H1, sameNumber_some, Z.eqb_refl. cbn [andb].
      destruct (Z.leb_spec loginAttemptsPerHour (count e)); [|lia].
      cbn [fst]. split; [discriminate|lia].
  - rewrite HT. cbn [fst]. unfold loginAttemptsPerHour. now split.
Qed.

End Plugin.

(** Seven registrations within an hour, six of them from one address, with
    other calls in between; the clock is on UTC. *)
Definition sixInAnHour : list Call :=
  [CheckRegistration "10.0.0.1" 60000 60000;
   CheckRegistration "10.0.0.1" 120000 120000;
   CheckLogin "10.0.0.1" 130000 130000;
   CheckRegistration "10.0.0.1" 180000 180000;
   CleanUp 200000;
   CheckRegistration "10.0.0.1" 240000 240000;
   CheckRegistration "10.0.0.2" 250000 250000;
   CheckRegistration "10.0.0.1" 300000 300000;
   CheckRegistration "10.0.0.1" 360000 360001].

Example sixth_registration_refused :
  map snd (fst (run 0 [] sixInAnHour)) =
  [Some Allowed; Some Allowed; Some Allowed; Some Allowed; None; Some Allowed;
   Some Allowed; Some Allowed; Some (TooMany 54)].
Proof. vm_compute. reflexivity. Qed.

Lemma registrations_per_hour_witness :
  Forall InHours (times sixInAnHour) /\ Sorted Z.le (times sixInAnHour) /\
  registrations 0 "10.0.0.1" 0 (fst (run 0 [] sixInAnHour))
  <= registrationsPerHour.
Proof.
  assert (Hr : Forall InHours (times sixInAnHour)).
  { unfold sixInAnHour, times. cbn [flat_map readings app].
    repeat (constructor; [unfold InHours, msPerHour, maxTime; lia|]).
    constructor. }
  assert (Hs : Sorted Z.le (times sixInAnHour)).
  { unfold sixInAnHour, times. cbn [flat_map readings app].
    repeat (constructor; try lia). }
  split; [exact Hr|]. split; [exact Hs|].
  exact (proj2 (registrations_per_hour 0 sixInAnHour "10.0.0.1" Hr Hs) 0).
Defined.

(** The limit rests on the clock: when it is set back an hour and forward
    again, the one entry of the address starts anew each time, and ten
    registrations are allowed in one hour. *)
Definition clockSetBack : list Call :=
  [CheckRegistration "10.0.0.1" 3660000 3660000;
   CheckRegistration "10.0.0.1" 3720000 3720000;
   CheckRegistration "10.0.0.1" 3780000 3780000;
   CheckRegistration "10.0.0.1" 3840000 3840000;
   CheckRegistration "10.0.0.1" 3900000 3900000;
   CheckRegistration "10.0.0.1" 360000 360000;
   CheckRegistration "10.0.0.1" 3960000 3960000;
   CheckRegistration "10.0.0.1" 4020000 4020000;
   CheckRegistration "10.0.0.1" 4080000 4080000;
   CheckRegistration "10.0.0.1" 4140000 4140000;
   CheckRegistration "10.0.0.1" 4200000 4200000].

Example clock_set_back_lifts_the_limit :
  registrations 0 "10.0.0.1" 3600000 (fst (run 0 [] clockSetBack)) = 10.
Proof. vm_compute. reflexivity. Qed.

(** Ten failed logins from one address, then another attempt. *)
Definition tenFailures : list Call :=
  [RecordFailedLogin "10.0.0.1" 1000; RecordFailedLogin "10.0.0.1" 2000;
   RecordFailedLogin "10.0.0.1" 3000; RecordFailedLogin "10.0.0.1" 4000;
   CleanUp 4500;
   RecordFailedLogin "10.0.0.1" 5000; RecordFailedLogin "10.0.0.1" 6000;
   RecordFailedLogin "10.0.0.2" 6500;
   RecordFailedLogin "10.0.0.1" 7000; RecordFailedLogin "10.0.0.1" 8000;
   RecordFailedLogin "10.0.0.1" 9000; RecordFailedLogin "10.0.0.1" 10000].

Lemma ten_failures_lock_witness :
  Forall (fun t => getHourWindow 0 t = Some 0)
         (times (tenFailures ++ [CheckLogin "10.0.0.1" 11000 11000])) /\
  (fst (checkLoginRateLimit 0 (snd (run 0 [] tenFailures)) "10.0.0.1"
          11000 11000) = Allowed <->
   failures "10.0.0.1" tenFailures < loginAttemptsPerHour).
Proof.
  assert (Hh : Forall (fun t => getHourWindow 0 t = Some 0)
                 (times (tenFailures ++ [CheckLogin "10.0.0.1" 11000 11000]))).
  { unfold tenFailures, times. cbn [flat_map readings app].
    repeat (constructor; [reflexivity|]). constructor. }
  split; [exact Hh|].
  exact (ten_failures_lock 0 _ "10.0.0.1" 0 Hh tenFailures 11000 11000 []
           eq_refl).
Defined.

(** The lock of the fifty-ninth minute holds in the next hour, and ends a
    quarter of an hour after it was set. *)
Example lock_outlives_the_hour :
  let m := snd (run 0 [] (tenFailures ++ [CheckLogin "10.0.0.1" 3540000 3540000])) in
  fst (checkLoginRateLimit 0 m "10.0.0.1" 3660000 3660000) = TooMany 780 /\
  fst (checkLoginRateLimit 0 m "10.0.0.1" 4440000 4440000) = Allowed.
Proof. vm_compute. split; reflexivity. Qed.

End RateLimitFacts.
